(** * Control chart for Power BI: stages, control limits and run rules

    A shallow embedding of the computational core of the two builds of
    [visual.ts] that the repository holds:

    - the moving-range build (module [MovingRange]): [visualTransform],
      [GetStages], [LookUpd2], [CalcStats], [ApplyRules] and [update];
    - the subgroup standard-deviation build (module [SubgroupSD]):
      [visualTransform], [GetStages], [findIndexByKeyValue], [GetUnique],
      [CalcStats], [ApplyRules] and [update].

    Conventions of the model.

    - A JavaScript [number] is an exact rational ([Q]); rounding, NaN and the
      infinities of IEEE doubles are not represented.  A run that would
      produce a NaN or a string where the code expects a number ends in
      [Unmodelled].  Equalities between computed numbers are stated with
      [==] ([Qeq]).
    - Array indices and counters are [nat]; the moving-range window, which
      the code compares with 0 and subtracts from indices, is a [Z].
    - Reading a property of [undefined] throws: the run ends in [TypeError].
    - Drawing (axes, polylines, tool tips, colours, formats) is left out.  Of
      [DrawRulePoints] the model keeps the indices of the dots it recolours,
      in the order of the calls; of [CreateAxes] and [GetMinMaxX], the
      domains of the two axes; of [DrawStageDividers] and
      [PlotControlLimits], whether the text of a label can be made. *)

From Stdlib Require Import String.
From Stdlib Require Import List Bool Arith ZArith QArith Qround Qabs Qminmax Lia Lqa.
Import ListNotations.

(** ** The host's values and the outcome of a run *)

(** [PrimitiveValue] of the Power BI API, as far as the visual inspects it:
    [Object.prototype.toString] tells numbers and dates apart from the rest. *)
Inductive PrimitiveValue : Type :=
| PNull
| PBool (b : bool)
| PNumber (q : Q)
| PString (s : string)
| PDate (ms : Z).

Inductive Outcome (A : Type) : Type :=
| Returns (a : A)
| TypeError
| Unmodelled.
Arguments Returns {A} a.
Arguments TypeError {A}.
Arguments Unmodelled {A}.

Definition bind {A B : Type} (c : Outcome A) (k : A -> Outcome B) : Outcome B :=
  match c with
  | Returns a => k a
  | TypeError => TypeError
  | Unmodelled => Unmodelled
  end.

Notation "x <- c ;; k" := (bind c (fun x => k))
  (at level 61, c at next level, right associativity).

(** [a < b] on numbers, as a boolean. *)
Definition Qltb (a b : Q) : bool := negb (Qle_bool b a).

(** JavaScript truthiness of a host value ([undefined] is [None]). *)
Definition truthy (v : option PrimitiveValue) : bool :=
  match v with
  | None => false
  | Some PNull => false
  | Some (PBool b) => b
  | Some (PNumber q) => negb (Qeq_bool q 0)
  | Some (PString s) => negb (String.eqb s EmptyString)
  | Some (PDate _) => true
  end.

(** [Object.prototype.toString.call(v) === '[object Number]'] and
    [... === '[object Date]']. *)
Definition isNumber (v : option PrimitiveValue) : bool :=
  match v with Some (PNumber _) => true | _ => false end.

Definition isDate (v : option PrimitiveValue) : bool :=
  match v with Some (PDate _) => true | _ => false end.

(** [<number>yValues[i]]: the cast checks nothing.  Numbers are read as they
    are; [null] and booleans are what every arithmetic operator and comparison
    of the code converts them to; a missing row, a string or a date would make
    the statistics NaN or a string. *)
Definition asNumber (v : option PrimitiveValue) : Outcome Q :=
  match v with
  | Some (PNumber q) => Returns q
  | Some PNull => Returns 0%Q
  | Some (PBool b) => Returns (if b then 1%Q else 0%Q)
  | _ => Unmodelled
  end.

(** [v.valueOf()] of a position used as a number: a number is itself, a date
    its milliseconds; [null] has no method; a string or a boolean would make
    the sum a string or a coerced number. *)
Definition valueOf (v : PrimitiveValue) : Outcome Q :=
  match v with
  | PNumber q => Returns q
  | PDate ms => Returns (inject_Z ms)
  | PNull => TypeError
  | _ => Unmodelled
  end.

(** [<string>categorical.values[1].values[i]]: the stage label of row [i];
    [None] is [undefined] (the column is shorter than the series).  Labels
    other than strings are outside the model. *)
Definition labelAt (labels : list PrimitiveValue) (i : nat) : Outcome (option string) :=
  match nth_error labels i with
  | None => Returns None
  | Some (PString s) => Returns (Some s)
  | Some _ => Unmodelled
  end.

(** [Math.round]: the nearest integer, halves towards plus infinity. *)
Definition Math_round (x : Q) : Z := Qfloor (x + (1 # 2)).

(** Modelled from the spec: [getValue] (objectEnumerationUtility.ts is not
    among the sources) returns the property the report author set, or the
    default given at the call when the property is not set. *)
Definition getValue {A : Type} (setting : option A) (defaultValue : A) : A :=
  match setting with
  | Some v => v
  | None => defaultValue
  end.

(** The data view the host passes to [update]. Optional fields are the ones
    the code tests for presence. *)
Record DataViewCategoryColumn : Type := {
  cat_source : option unit;
  cat_values : list PrimitiveValue
}.

Record DataViewValueColumn : Type := {
  col_values : list PrimitiveValue
}.

Record DataViewCategorical : Type := {
  categories : option (list DataViewCategoryColumn);
  values : option (list DataViewValueColumn)
}.

(** [metadata.objects], restricted to the properties the computation reads. *)
Record DataViewObjects : Type := {
  obj_standardDeviations : option Q;
  obj_movingRange : option Q;
  obj_useSDSubGroups : option bool;
  obj_runRule1 : option bool;
  obj_runRule2 : option bool;
  obj_runRule3 : option bool;
  obj_showDividers : option bool
}.

Record DataView : Type := {
  categorical : option DataViewCategorical;
  objects : DataViewObjects
}.

Record VisualUpdateOptions : Type := {
  dataViews : option (list DataView)
}.

(** A line of the mean, UCL or LCL: [{ x1, y1, x2, y2 }], with heights in [N]. *)
Record LimitSegment (N : Type) : Type := {
  x1 : PrimitiveValue;
  y1 : N;
  x2 : PrimitiveValue;
  y2 : N
}.
Arguments x1 {N} _.
Arguments y1 {N} _.
Arguments x2 {N} _.
Arguments y2 {N} _.

(** An entry of [stageDividers]: [{ x1, prevDividerX, stageName }]. *)
Record StageDivider (L : Type) : Type := {
  div_x1 : PrimitiveValue;
  prevDividerX : PrimitiveValue;
  stageName : L
}.
Arguments div_x1 {L} _.
Arguments prevDividerX {L} _.
Arguments stageName {L} _.

(** [for (j = first; j <= last; j++)]: the indices visited. *)
Definition indexRange (first last : nat) : list nat := seq first (S last - first).

(** [a == b] on stage labels that are strings or [undefined]. *)
Definition labelEq (a b : option string) : bool :=
  match a, b with
  | Some s, Some t => String.eqb s t
  | None, None => true
  | _, _ => false
  end.

(** [array[i - 1]] for an index [i] that may be 0: [array[-1]] is [undefined]. *)
Definition beforeIndex {A : Type} (array : list A) (i : nat) : option A :=
  match i with
  | O => None
  | S p => nth_error array p
  end.

(** ** The rule evaluator

    [ApplyRules] has the same text in both builds; it reads five fields of a
    stage, the value of a point and the three toggles of the view model. *)
Module Rules.

Section RuleEvaluator.

Variables Stage Point : Type.
Variables firstId lastId : Stage -> nat.
Variables uCL lCL mean : Stage -> Q.
Variable yValue : Point -> Q.
Variables runRule1 runRule2 runRule3 : bool.
Variable data : list Point.

Record RuleState : Type := {
  consecutiveUPoints : list nat;
  consecutiveLPoints : list nat;
  consecIncPoints : list nat;
  consecDecPoints : list nat;
  meanPoints : list nat;
  rulePoints : list nat        (* the dots [DrawRulePoints] has recoloured *)
}.

Definition initialRuleState : RuleState :=
  {| consecutiveUPoints := []; consecutiveLPoints := []; consecIncPoints := [];
     consecDecPoints := []; meanPoints := []; rulePoints := [] |}.

Definition setU (v : list nat) (st : RuleState) : RuleState :=
  {| consecutiveUPoints := v; consecutiveLPoints := consecutiveLPoints st;
     consecIncPoints := consecIncPoints st; consecDecPoints := consecDecPoints st;
     meanPoints := meanPoints st; rulePoints := rulePoints st |}.

Definition setL (v : list nat) (st : RuleState) : RuleState :=
  {| consecutiveUPoints := consecutiveUPoints st; consecutiveLPoints := v;
     consecIncPoints := consecIncPoints st; consecDecPoints := consecDecPoints st;
     meanPoints := meanPoints st; rulePoints := rulePoints st |}.

Definition setInc (v : list nat) (st : RuleState) : RuleState :=
  {| consecutiveUPoints := consecutiveUPoints st; consecutiveLPoints := consecutiveLPoints st;
     consecIncPoints := v; consecDecPoints := consecDecPoints st;
     meanPoints := meanPoints st; rulePoints := rulePoints st |}.

Definition setDec (v : list nat) (st : RuleState) : RuleState :=
  {| consecutiveUPoints := consecutiveUPoints st; consecutiveLPoints := consecutiveLPoints st;
     consecIncPoints := consecIncPoints st; consecDecPoints := v;
     meanPoints := meanPoints st; rulePoints := rulePoints st |}.

Definition setMeanPoints (v : list nat) (st : RuleState) : RuleState :=
  {| consecutiveUPoints := consecutiveUPoints st; consecutiveLPoints := consecutiveLPoints st;
     consecIncPoints := consecIncPoints st; consecDecPoints := consecDecPoints st;
     meanPoints := v; rulePoints := rulePoints st |}.

(** [DrawRulePoints(points)]: every listed dot takes the rule colour. *)
Definition DrawRulePoints (points : list nat) (st : RuleState) : RuleState :=
  {| consecutiveUPoints := consecutiveUPoints st; consecutiveLPoints := consecutiveLPoints st;
     consecIncPoints := consecIncPoints st; consecDecPoints := consecDecPoints st;
     meanPoints := meanPoints st; rulePoints := rulePoints st ++ points |}.

(** [if (points.length > bound) this.DrawRulePoints(points)]. *)
Definition drawIfLonger (bound : nat) (points : list nat) (st : RuleState) : RuleState :=
  if bound <? length points then DrawRulePoints points st else st.

(** [data[j].yValue]. *)
Definition yAt (j : nat) : Outcome Q :=
  match nth_error data j with
  | Some p => Returns (yValue p)
  | None => TypeError
  end.

(** Rule #1 at point [j] of stage [s]. *)
Definition rule1 (s : Stage) (j : nat) (st : RuleState) : Outcome RuleState :=
  if runRule1 then
    y <- yAt j ;;
    Returns (if Qltb (uCL s) y || Qltb y (lCL s)
             then setMeanPoints (meanPoints st ++ [j]) st
             else st)
  else Returns st.

(** Rule #2 at point [j]: the increasing run, then the decreasing run. *)
Definition rule2 (j : nat) (st : RuleState) : Outcome RuleState :=
  if runRule2 then
    match j with
    | O => Returns (setDec (consecDecPoints st ++ [j])
                      (setInc (consecIncPoints st ++ [j]) st))
    | S p =>
        y <- yAt j ;;
        yp <- yAt p ;;
        let st1 :=
          if Qltb yp y then setInc (consecIncPoints st ++ [j]) st
          else setInc [j] (drawIfLonger 5 (consecIncPoints st) st) in
        let st2 :=
          if Qltb y yp then setDec (consecDecPoints st1 ++ [j]) st1
          else setDec [j] (drawIfLonger 5 (consecDecPoints st1) st1) in
        Returns st2
    end
  else Returns st.

(** Rule #3 at point [j] of stage [s]. *)
Definition rule3 (s : Stage) (j : nat) (st : RuleState) : Outcome RuleState :=
  if runRule3 then
    y <- yAt j ;;
    Returns (if Qltb (mean s) y then
               setU (consecutiveUPoints st ++ [j])
                 (setL [] (drawIfLonger 8 (consecutiveLPoints st) st))
             else if Qltb y (mean s) then
               setL (consecutiveLPoints st ++ [j])
                 (setU [] (drawIfLonger 8 (consecutiveUPoints st) st))
             else st)
  else Returns st.

(** The body of the inner loop. *)
Definition rulesAtPoint (s : Stage) (j : nat) (st : RuleState) : Outcome RuleState :=
  st1 <- rule1 s j st ;;
  st2 <- rule2 j st1 ;;
  rule3 s j st2.

Fixpoint rulesOverPoints (s : Stage) (js : list nat) (st : RuleState) : Outcome RuleState :=
  match js with
  | [] => Returns st
  | j :: rest => st' <- rulesAtPoint s j st ;; rulesOverPoints s rest st'
  end.

(** What follows the inner loop, once per stage. *)
Definition endOfStage (st : RuleState) : RuleState :=
  let st1 := if 0 <? length (meanPoints st)
             then setMeanPoints [] (DrawRulePoints (meanPoints st) st)
             else st in
  let st2 := drawIfLonger 8 (consecutiveLPoints st1) st1 in
  let st3 := drawIfLonger 8 (consecutiveUPoints st2) st2 in
  let st4 := setU [] (setL [] st3) in
  let st5 := drawIfLonger 5 (consecIncPoints st4) st4 in
  let st6 := drawIfLonger 5 (consecDecPoints st5) st5 in
  setInc [] (setDec [] st6).

Definition rulesOverStage (s : Stage) (st : RuleState) : Outcome RuleState :=
  st' <- rulesOverPoints s (indexRange (firstId s) (lastId s)) st ;;
  Returns (endOfStage st').

Fixpoint rulesOverStages (stages : list Stage) (st : RuleState) : Outcome RuleState :=
  match stages with
  | [] => Returns st
  | s :: rest => st' <- rulesOverStage s st ;; rulesOverStages rest st'
  end.

(** [ApplyRules()]: the dots recoloured, in the order of the calls. *)
Definition ApplyRules (stages : list Stage) : Outcome (list nat) :=
  st <- rulesOverStages stages initialRuleState ;;
  Returns (rulePoints st).

(** *** The rules as the specification words them

    The comparisons are read off the data; a comparison with a missing point
    is [false]. *)

(** The value of point [j] lies strictly outside the limits of stage [s]. *)
Definition beyondLimits (s : Stage) (j : nat) : bool :=
  match nth_error data j with
  | Some p => Qltb (uCL s) (yValue p) || Qltb (yValue p) (lCL s)
  | None => false
  end.

(** Point [j] is strictly above, or strictly below, the point before it. *)
Definition rises (j : nat) : bool :=
  match beforeIndex data j, nth_error data j with
  | Some p, Some c => Qltb (yValue p) (yValue c)
  | _, _ => false
  end.

Definition falls (j : nat) : bool :=
  match beforeIndex data j, nth_error data j with
  | Some p, Some c => Qltb (yValue c) (yValue p)
  | _, _ => false
  end.

(** Point [j] lies in a block [a..b] of more than [bound] consecutive points
    within [first..last] in which every point after the first continues the
    run. *)
Definition inBlock (continues : nat -> bool) (bound first last j : nat) : Prop :=
  exists a b,
    (first <= a)%nat /\ (a <= j)%nat /\ (j <= b)%nat /\ (b <= last)%nat
    /\ (bound < S b - a)%nat
    /\ forall k, (a < k)%nat -> (k <= b)%nat -> continues k = true.

(** The same within the index range of stage [s]. *)
Definition inRun (continues : nat -> bool) (bound : nat) (s : Stage) (j : nat) : Prop :=
  inBlock continues bound (firstId s) (lastId s) j.

(** Rule 2: six or more consecutive points of a stage strictly increasing,
    or six or more strictly decreasing. *)
Definition inTrend (s : Stage) (j : nat) : Prop :=
  inRun rises 5 s j \/ inRun falls 5 s j.

(** *** The state after a rule, in closed form *)

(** Rule 1 adds the point to [meanPoints] when it is beyond a limit, and
    touches nothing else. *)
Definition afterRule1 (s : Stage) (j : nat) (st : RuleState) : RuleState :=
  if runRule1 && beyondLimits s j
  then setMeanPoints (meanPoints st ++ [j]) st
  else st.

(** A run list after point [j]: extended when the point continues the run
    (or is the point 0), restarted at [j] otherwise; and what is drawn when it
    restarts. *)
Definition nextRun (continues : nat -> bool) (run : list nat) (j : nat) : list nat :=
  if (j =? 0) || continues j then run ++ [j] else [j].

Definition closedRun (continues : nat -> bool) (run : list nat) (j : nat) : list nat :=
  if (j =? 0) || continues j then []
  else if 5 <? List.length run then run else [].

Definition afterRule2 (j : nat) (st : RuleState) : RuleState :=
  {| consecutiveUPoints := consecutiveUPoints st;
     consecutiveLPoints := consecutiveLPoints st;
     consecIncPoints := nextRun rises (consecIncPoints st) j;
     consecDecPoints := nextRun falls (consecDecPoints st) j;
     meanPoints := meanPoints st;
     rulePoints := rulePoints st
                         ++ closedRun rises (consecIncPoints st) j
                         ++ closedRun falls (consecDecPoints st) j |}.

(** The lists are empty, as they are when a stage begins. *)
Definition stageStart (st : RuleState) : Prop :=
  consecutiveUPoints st = [] /\ consecutiveLPoints st = []
  /\ consecIncPoints st = [] /\ consecDecPoints st = []
  /\ meanPoints st = [].

(** What a run list holds after the points [first..m] of a stage: the indices
    [a..m] of the longest block ending at [m] in which every point after the
    first continues the run; and every block of more than five such points
    that ended before [a] has been drawn into [pts]. *)
Definition runInvariant (continues : nat -> bool) (first m : nat) (run pts : list nat) : Prop :=
  exists a,
    (first <= a)%nat /\ (a <= m)%nat /\ run = seq a (S m - a)
    /\ (forall k, (a < k)%nat -> (k <= m)%nat -> continues k = true)
    /\ (a = first \/ continues a = false)
    /\ (forall x a' b',
          (first <= a')%nat -> (a' <= x)%nat -> (x <= b')%nat -> (b' < a)%nat ->
          (5 < S b' - a')%nat ->
          (forall k, (a' < k)%nat -> (k <= b')%nat -> continues k = true) ->
          In x pts).

(** The stage's index range lies inside the data. *)
Definition stageInData (s : Stage) : Prop :=
  (firstId s <= lastId s)%nat -> (lastId s < List.length data)%nat.

(** Every dot so far is an old one or lies in a block of six or more rising
    or falling points of [first..m]. *)
Definition trendsOnly (first m : nat) (old pts : list nat) : Prop :=
  forall x, In x pts ->
    In x old \/ inBlock rises 5 first m x \/ inBlock falls 5 first m x.

End RuleEvaluator.

End Rules.




(** ** The moving-range build *)
Module MovingRange.

Record ChartDataPoint : Type := {
  xValue : PrimitiveValue;
  yValue : Q;
  MRSum : Q
}.

Record Stage : Type := {
  lCL : Q;
  uCL : Q;
  mean : Q;
  startX : PrimitiveValue;
  endX : PrimitiveValue;
  sum : Q;
  count : nat;
  stage : option string;        (* [None]: the label read was [undefined] *)
  stageDividerX : PrimitiveValue;
  firstId : nat;
  lastId : nat;
  mRError : bool
}.

(** The fields of [ControlChartViewModel] the computation reads or writes
    (the view model's own [mRError] is [vm_mRError] here).  Of
    [stageDividerLine] the model keeps [show]; [None] is the [null] of the
    neutral view model. *)
Record ControlChartViewModel : Type := {
  dataPoints : list ChartDataPoint;
  standardDeviations : Q;
  isDateRange : bool;
  runRule1 : bool;
  runRule2 : bool;
  runRule3 : bool;
  movingRange : Z;
  vm_mRError : bool;
  stageDividerLine : option bool
}.

(** The [viewModel] that [visualTransform] starts from and returns when the
    data cannot be used. *)
Definition neutralViewModel : ControlChartViewModel :=
  {| dataPoints := []; standardDeviations := 3; isDateRange := true;
     runRule1 := false; runRule2 := false; runRule3 := false;
     movingRange := 2; vm_mRError := false; stageDividerLine := None |}.

(** The loop that fills [ChartDataPoints], from row [i] on. *)
Fixpoint ChartDataPointsFrom (yValues : list PrimitiveValue) (i : nat)
    (xValues : list PrimitiveValue) : Outcome (list ChartDataPoint) :=
  match xValues with
  | [] => Returns []
  | x :: rest =>
      y <- asNumber (nth_error yValues i) ;;
      points <- ChartDataPointsFrom yValues (S i) rest ;;
      Returns ({| xValue := x; yValue := y; MRSum := 0 |} :: points)
  end.

(** [if (mRange < 2 || mRange > 50) mRange = 2 else mRange = Math.round(mRange)]. *)
Definition clampMovingRange (mRange : Q) : Z :=
  if Qltb mRange 2 || Qltb 50 mRange then 2%Z else Math_round mRange.

Definition visualTransform (options : VisualUpdateOptions) : Outcome ControlChartViewModel :=
  match dataViews options with
  | None => Returns neutralViewModel
  | Some views =>
  match nth_error views 0 with
  | None => Returns neutralViewModel
  | Some view =>
  match categorical view with
  | None => Returns neutralViewModel
  | Some cat =>
  match categories cat with
  | None => Returns neutralViewModel
  | Some cats =>
  match nth_error cats 0 with
  | None => TypeError                      (* [categories[0].source] *)
  | Some category =>
  match cat_source category, values cat with
  | None, _ => Returns neutralViewModel
  | Some _, None => Returns neutralViewModel
  | Some _, Some columns =>
  match nth_error columns 0 with
  | None => TypeError                      (* [dataValue.values] *)
  | Some dataValue =>
      let xValues := cat_values category in
      let yValues := col_values dataValue in
      let isXAxisUsable :=
        truthy (nth_error xValues 0)
        && (isNumber (nth_error xValues 0) || isDate (nth_error xValues 0)) in
      let isYAxisNumericData :=
        truthy (nth_error yValues 0) && isNumber (nth_error yValues 0) in
      if isXAxisUsable && isYAxisNumericData then
        points <- ChartDataPointsFrom yValues 0 xValues ;;
        Returns
          {| dataPoints := points;
             standardDeviations := getValue (obj_standardDeviations (objects view)) 3;
             isDateRange := isDate (nth_error xValues 0);
             runRule1 := getValue (obj_runRule1 (objects view)) false;
             runRule2 := getValue (obj_runRule2 (objects view)) false;
             runRule3 := getValue (obj_runRule3 (objects view)) false;
             movingRange := clampMovingRange (getValue (obj_movingRange (objects view)) 2);
             vm_mRError := false;
             stageDividerLine := Some (getValue (obj_showDividers (objects view)) true) |}
      else Returns neutralViewModel
  end end end end end end end.

(** The state of the loop of [GetStages]: the running [stage] object, the
    variables [stageValue] and [currentStage], and the stages pushed so far. *)
Record StageLoop : Type := {
  running : Stage;
  stageValue : option string;
  currentStage : option string;
  stages : list Stage
}.

Definition closeStage (acc : Stage) (dividerX : PrimitiveValue) (last : nat) : Stage :=
  {| lCL := 0; uCL := 0; mean := mean acc; startX := startX acc; endX := endX acc;
     sum := sum acc; count := count acc; stage := stage acc;
     stageDividerX := dividerX; firstId := firstId acc; lastId := last;
     mRError := false |}.

(** [if (stage.count > 0) stage.mean = stage.sum / stage.count]. *)
Definition withMean (acc : Stage) : Stage :=
  if 0 <? count acc then
    {| lCL := lCL acc; uCL := uCL acc; mean := sum acc / inject_Z (Z.of_nat (count acc));
       startX := startX acc; endX := endX acc; sum := sum acc; count := count acc;
       stage := stage acc; stageDividerX := stageDividerX acc; firstId := firstId acc;
       lastId := lastId acc; mRError := mRError acc |}
  else acc.

(** One turn of the loop of [GetStages], at row [i] with [obj = dataPoints[i]]. *)
Definition stageStep (hasStages : bool) (labels : list PrimitiveValue)
    (points : list ChartDataPoint) (i : nat) (obj : ChartDataPoint) (st : StageLoop)
    : Outcome StageLoop :=
  let acc := running st in
  label <- (if hasStages then labelAt labels i else Returns (stageValue st)) ;;
  st1 <-
    (if labelEq (currentStage st) label || negb hasStages then
       Returns
         {| running :=
              {| lCL := lCL acc; uCL := uCL acc; mean := mean acc; startX := startX acc;
                 endX := endX acc; sum := sum acc + yValue obj; count := S (count acc);
                 stage := stage acc; stageDividerX := stageDividerX acc;
                 firstId := firstId acc; lastId := lastId acc; mRError := mRError acc |};
            stageValue := label;
            currentStage := currentStage st;
            stages := stages st |}
     else
       let acc1 := withMean acc in
       match beforeIndex points i with
       | None => TypeError                 (* [dataPoints[i - 1].xValue] *)
       | Some previous =>
           nextStart <- valueOf (xValue obj) ;;
           endDate <- valueOf (xValue previous) ;;
           let dividerX := PNumber ((nextStart + endDate) / 2) in
           let closing :=
             {| lCL := lCL acc1; uCL := uCL acc1; mean := mean acc1; startX := startX acc1;
                endX := xValue previous; sum := sum acc1; count := count acc1;
                stage := stage acc1; stageDividerX := dividerX; firstId := firstId acc1;
                lastId := lastId acc1; mRError := mRError acc1 |} in
           Returns
             {| running :=
                  {| lCL := lCL closing; uCL := uCL closing; mean := yValue obj;
                     startX := xValue obj; endX := endX closing; sum := yValue obj;
                     count := 1; stage := label; stageDividerX := dividerX;
                     firstId := i; lastId := lastId closing; mRError := mRError closing |};
                stageValue := label;
                currentStage := currentStage st;
                stages := stages st ++ [closeStage closing dividerX (i - 1)] |}
       end) ;;
  current <- (if hasStages then labelAt labels i else Returns (currentStage st1)) ;;
  if i =? List.length points - 1 then
    let acc2 := withMean (running st1) in
    let final :=
      {| lCL := lCL acc2; uCL := uCL acc2; mean := mean acc2; startX := startX acc2;
         endX := xValue obj; sum := sum acc2; count := count acc2; stage := label;
         stageDividerX := stageDividerX acc2; firstId := firstId acc2;
         lastId := lastId acc2; mRError := mRError acc2 |} in
    Returns {| running := final; stageValue := label; currentStage := current;
               stages := stages st1 ++ [closeStage final (endX final) i] |}
  else
    Returns {| running := running st1; stageValue := label; currentStage := current;
               stages := stages st1 |}.

Fixpoint stageLoop (hasStages : bool) (labels : list PrimitiveValue)
    (points : list ChartDataPoint) (i : nat) (rest : list ChartDataPoint) (st : StageLoop)
    : Outcome StageLoop :=
  match rest with
  | [] => Returns st
  | obj :: rest' =>
      st' <- stageStep hasStages labels points i obj st ;;
      stageLoop hasStages labels points (S i) rest' st'
  end.

(** [GetStages()]: the value left in [this.chartStages]. *)
Definition GetStages (dataView : option DataView) (viewModel : ControlChartViewModel)
    : Outcome (list Stage) :=
  match dataView with
  | None => Returns []
  | Some view =>
  match categorical view with
  | None => Returns []
  | Some cat =>
  match values cat with
  | None => Returns []
  | Some columns =>
      let hasStages :=
        negb ((List.length columns =? 1) || match nth_error columns 1 with None => true | Some _ => false end) in
      let labels := match nth_error columns 1 with Some c => col_values c | None => [] end in
      label <- (if hasStages then labelAt labels 0 else Returns (Some EmptyString)) ;;
      match dataPoints viewModel with
      | [] => TypeError                    (* [dataPoints[0].xValue] *)
      | first :: _ =>
          let start :=
            {| lCL := 0; uCL := 0; mean := 0; startX := xValue first; endX := PNull;
               sum := 0; count := 0; stage := label; stageDividerX := PNull;
               firstId := 0; lastId := 0; mRError := false |} in
          st <- stageLoop hasStages labels (dataPoints viewModel) 0 (dataPoints viewModel)
                  {| running := start; stageValue := label; currentStage := label;
                     stages := [] |} ;;
          Returns (stages st)
      end
  end end end.

(** [LookUpd2]: the table of d2 constants; [None] is [undefined] (an index
    past the end of [d2Array]). *)
Definition d2Array : list Q :=
  [1; 1.128; 1.693; 2.059; 2.326; 2.534; 2.704; 2.847; 2.97; 3.078;
   3.173; 3.258; 3.336; 3.407; 3.472; 3.532; 3.588; 3.64; 3.689; 3.735;
   3.778; 3.819; 3.858; 3.895; 3.931; 3.964; 3.997; 4.027; 4.057; 4.086;
   4.113; 4.139; 4.165; 4.189; 4.213; 4.236; 4.259; 4.28; 4.301; 4.322;
   4.341; 4.361; 4.379; 4.398; 4.415; 4.433; 4.45; 4.466; 4.482; 4.498]%Q.

Definition LookUpd2 (mr : Z) : option Q :=
  if (0 <? mr)%Z then nth_error d2Array (Z.to_nat (mr - 1)) else Some 1%Q.

(** [data[j].yValue] for an index that the window arithmetic may make negative. *)
Definition yAtZ (data : list ChartDataPoint) (j : Z) : Outcome Q :=
  if (j <? 0)%Z then TypeError
  else match nth_error data (Z.to_nat j) with
       | Some p => Returns (yValue p)
       | None => TypeError
       end.

(** [for (let k = j; k >= j - mr + 1; k--)], with [turns] turns left. *)
Fixpoint windowScan (data : list ChartDataPoint) (k : Z) (turns : nat) (mrMin mrMax : Q)
    : Outcome (Q * Q) :=
  match turns with
  | O => Returns (mrMin, mrMax)
  | S turns' =>
      y <- yAtZ data k ;;
      let mrMin' := if Qltb y mrMin then y else mrMin in
      let mrMax' := if Qltb mrMax y then y else mrMax in
      windowScan data (k - 1) turns' mrMin' mrMax'
  end.

(** [for (let j = ...; j <= stages[i].lastId; j++)], with [turns] turns left. *)
Fixpoint rangeSum (data : list ChartDataPoint) (mr : Z) (j : Z) (turns : nat) (mrRangeSum : Q)
    : Outcome Q :=
  match turns with
  | O => Returns mrRangeSum
  | S turns' =>
      start <- yAtZ data (j - 1) ;;
      bounds <- windowScan data j (Z.to_nat mr) start start ;;
      rangeSum data mr (j + 1) turns' (mrRangeSum + Qabs (snd bounds - fst bounds))
  end.

Definition setLimits (s : Stage) (lower upper : Q) : Stage :=
  {| lCL := lower; uCL := upper; mean := mean s; startX := startX s; endX := endX s;
     sum := sum s; count := count s; stage := stage s; stageDividerX := stageDividerX s;
     firstId := firstId s; lastId := lastId s; mRError := mRError s |}.

Definition setMRError (s : Stage) : Stage :=
  {| lCL := lCL s; uCL := uCL s; mean := mean s; startX := startX s; endX := endX s;
     sum := sum s; count := count s; stage := stage s; stageDividerX := stageDividerX s;
     firstId := firstId s; lastId := lastId s; mRError := true |}.

(** The first half of the body of the loop of [CalcStats]: the limits of one
    stage, or its [mRError]. *)
Definition stageLimits (data : list ChartDataPoint) (numsds : Q) (mr : Z) (d2 : option Q)
    (s : Stage) : Outcome Stage :=
  if (Z.of_nat (count s) <? mr)%Z then Returns (setMRError s)
  else
    let j0 := (Z.of_nat (firstId s) + mr - 1)%Z in
    mrRangeSum <- rangeSum data mr j0 (Z.to_nat (Z.of_nat (lastId s) - j0 + 1)) 0 ;;
    match d2 with
    | None => Unmodelled                   (* [rBar / undefined] *)
    | Some d =>
        let rBar := mrRangeSum / inject_Z (Z.of_nat (count s) - mr + 1) in
        Returns (setLimits s (mean s - numsds * rBar / d) (mean s + numsds * rBar / d))
    end.

(** What [CalcStats] leaves in the chart and in the view model. *)
Record Stats : Type := {
  chartStages : list Stage;
  meanLine : list (LimitSegment Q);
  uclLines : list (LimitSegment Q);
  lclLines : list (LimitSegment Q);
  stageDividers : list (StageDivider (option string));
  insufficient : bool                       (* [viewModel.mRError] *)
}.

Definition segment (from to : PrimitiveValue) (y : Q) : LimitSegment Q :=
  {| x1 := from; y1 := y; x2 := to; y2 := y |}.

(** The second half of the body: the lines of stage [s], which starts where
    the previous stage's divider is, or at its own [startX] when it is the
    first. *)
Definition pushLines (previous : option Stage) (s : Stage) (acc : Stats) : Stats :=
  let from := match previous with
              | Some p => stageDividerX p
              | None => startX s
              end in
  let meanFrom := match previous with
                  | Some p => mean p
                  | None => mean s
                  end in
  {| chartStages := chartStages acc ++ [s];
     meanLine := meanLine acc ++
       [{| x1 := from; y1 := meanFrom; x2 := stageDividerX s; y2 := mean s |}];
     uclLines := if mRError s then uclLines acc
                 else uclLines acc ++ [segment from (stageDividerX s) (uCL s)];
     lclLines := if mRError s then lclLines acc
                 else lclLines acc ++ [segment from (stageDividerX s) (lCL s)];
     stageDividers := stageDividers acc ++
       [{| div_x1 := stageDividerX s; prevDividerX := from; stageName := stage s |}];
     insufficient := insufficient acc || mRError s |}.

Fixpoint statsLoop (data : list ChartDataPoint) (numsds : Q) (mr : Z) (d2 : option Q)
    (previous : option Stage) (rest : list Stage) (acc : Stats) : Outcome Stats :=
  match rest with
  | [] => Returns acc
  | s :: rest' =>
      s' <- stageLimits data numsds mr d2 s ;;
      statsLoop data numsds mr d2 (Some s') rest' (pushLines previous s' acc)
  end.

Definition CalcStats (viewModel : ControlChartViewModel) (stages : list Stage) : Outcome Stats :=
  statsLoop (dataPoints viewModel) (standardDeviations viewModel) (movingRange viewModel)
    (LookUpd2 (movingRange viewModel)) None stages
    {| chartStages := []; meanLine := []; uclLines := []; lclLines := [];
       stageDividers := []; insufficient := vm_mRError viewModel |}.

Definition ApplyRules (viewModel : ControlChartViewModel) (stages : list Stage)
    : Outcome (list nat) :=
  Rules.ApplyRules Stage ChartDataPoint firstId lastId uCL lCL mean yValue
    (runRule1 viewModel) (runRule2 viewModel) (runRule3 viewModel)
    (dataPoints viewModel) stages.

(** The chart object: the fields that [update] and the methods it calls
    assign, and [ruleDots], the dots of the drawing that carry the rule
    colour. *)
Record ControlChart : Type := {
  controlChartViewModel : option ControlChartViewModel;
  analysis : Stats;
  ruleDots : list nat
}.

Definition setViewModelError (viewModel : ControlChartViewModel) (flag : bool)
    : ControlChartViewModel :=
  {| dataPoints := dataPoints viewModel; standardDeviations := standardDeviations viewModel;
     isDateRange := isDateRange viewModel; runRule1 := runRule1 viewModel;
     runRule2 := runRule2 viewModel; runRule3 := runRule3 viewModel;
     movingRange := movingRange viewModel; vm_mRError := flag;
     stageDividerLine := stageDividerLine viewModel |}.

(** [DrawStageDividers()]: the text of every divider is
    [d['stageName'].toString()], which throws on a stage named [undefined].
    The drawing itself is left out. *)
Definition DrawStageDividers (dividers : list (StageDivider (option string)))
    : Outcome unit :=
  if forallb (fun d => match stageName d with
                       | Some _ => true
                       | None => false
                       end) dividers
  then Returns tt
  else TypeError.

(** [if (this.controlChartViewModel.stageDividerLine.show) this.DrawStageDividers()]. *)
Definition dividersIfShown (viewModel : ControlChartViewModel)
    (dividers : list (StageDivider (option string))) : Outcome unit :=
  match stageDividerLine viewModel with
  | None => TypeError                      (* [null.show] *)
  | Some true => DrawStageDividers dividers
  | Some false => Returns tt
  end.

(** [update(options)]: the drawing is cleared first; the analysis runs when
    the view model has a first data point.  Of the drawing steps between
    [CalcStats] and [ApplyRules] the model keeps the one that can end the
    run on the values of this build, [DrawStageDividers]. *)
Definition update (this : ControlChart) (options : VisualUpdateOptions) : Outcome ControlChart :=
  match dataViews options with
  | None => TypeError                      (* [options.dataViews[0]] *)
  | Some views =>
  match nth_error views 0 with
  | None => TypeError                      (* [undefined.categorical] *)
  | Some view =>
  match categorical view with
  | None => TypeError                      (* [categorical.categories] *)
  | Some cat =>
      let cleared := {| controlChartViewModel := controlChartViewModel this;
                        analysis := analysis this; ruleDots := [] |} in
      match categories cat, values cat with
      | None, _ => Returns cleared
      | Some _, None => Returns cleared
      | Some _, Some _ =>
          viewModel <- visualTransform options ;;
          match dataPoints viewModel with
          | [] => Returns {| controlChartViewModel := Some viewModel;
                             analysis := analysis this; ruleDots := [] |}
          | _ :: _ =>
              stages <- GetStages (Some view) viewModel ;;
              stats <- CalcStats viewModel stages ;;
              let viewModel' := setViewModelError viewModel (insufficient stats) in
              _ <- dividersIfShown viewModel' (stageDividers stats) ;;
              flagged <- ApplyRules viewModel' (chartStages stats) ;;
              Returns {| controlChartViewModel := Some viewModel';
                         analysis := stats; ruleDots := flagged |}
          end
      end
  end end end.

End MovingRange.

(** ** The subgroup standard-deviation build *)
Module SubgroupSD.

Record ChartDataPoint : Type := {
  xValue : PrimitiveValue;
  yValue : Q
}.

(** [sd], [uCL] and [lCL] are [None] when the code leaves a NaN or an
    infinity in them (a division by [count - 1 = 0], the square root of a
    negative number). *)
Record Stage : Type := {
  lCL : option Q;
  uCL : option Q;
  mean : Q;
  startX : PrimitiveValue;
  endX : PrimitiveValue;
  sum : Q;
  count : nat;
  sd : option Q;
  stage : string;
  stageDividerX : PrimitiveValue;
  firstId : nat;
  lastId : nat
}.

(** [interface SubGroup { mean; sum; count; stage }]. *)
Record SubGroup : Type := {
  g_mean : Q;
  g_sum : Q;
  g_count : nat;
  g_stage : string
}.

Record ControlChartViewModel : Type := {
  dataPoints : list ChartDataPoint;
  standardDeviation : Q;
  isDateRange : bool;
  runRule1 : bool;
  runRule2 : bool;
  runRule3 : bool;
  useSDSubGroups : bool
}.

Definition neutralViewModel : ControlChartViewModel :=
  {| dataPoints := []; standardDeviation := 3; isDateRange := true;
     runRule1 := false; runRule2 := false; runRule3 := false;
     useSDSubGroups := true |}.

Fixpoint ChartDataPointsFrom (yValues : list PrimitiveValue) (i : nat)
    (xValues : list PrimitiveValue) : Outcome (list ChartDataPoint) :=
  match xValues with
  | [] => Returns []
  | x :: rest =>
      y <- asNumber (nth_error yValues i) ;;
      points <- ChartDataPointsFrom yValues (S i) rest ;;
      Returns ({| xValue := x; yValue := y |} :: points)
  end.

(** This build tests the presence of the data and nothing else. *)
Definition visualTransform (options : VisualUpdateOptions) : Outcome ControlChartViewModel :=
  match dataViews options with
  | None => Returns neutralViewModel
  | Some views =>
  match nth_error views 0 with
  | None => Returns neutralViewModel
  | Some view =>
  match categorical view with
  | None => Returns neutralViewModel
  | Some cat =>
  match categories cat with
  | None => Returns neutralViewModel
  | Some cats =>
  match nth_error cats 0 with
  | None => TypeError                      (* [categories[0].source] *)
  | Some category =>
  match cat_source category, values cat with
  | None, _ => Returns neutralViewModel
  | Some _, None => Returns neutralViewModel
  | Some _, Some columns =>
  match nth_error columns 0 with
  | None => TypeError                      (* [dataValue.values] *)
  | Some dataValue =>
      points <- ChartDataPointsFrom (col_values dataValue) 0 (cat_values category) ;;
      match points with
      | [] => TypeError                    (* [ChartDataPoints[0].xValue] *)
      | first :: _ =>
          Returns
            {| dataPoints := points;
               standardDeviation := getValue (obj_standardDeviations (objects view)) 3;
               isDateRange := isDate (Some (xValue first));
               runRule1 := getValue (obj_runRule1 (objects view)) false;
               runRule2 := getValue (obj_runRule2 (objects view)) false;
               runRule3 := getValue (obj_runRule3 (objects view)) false;
               useSDSubGroups := getValue (obj_useSDSubGroups (objects view)) true |}
      end
  end end end end end end end.

Record StageLoop : Type := {
  running : Stage;
  stageValue : option string;
  currentStage : option string;
  stages : list Stage
}.

(** [stageValue.toString()]. *)
Definition toString (label : option string) : Outcome string :=
  match label with
  | Some s => Returns s
  | None => TypeError
  end.

Definition closeStage (acc : Stage) (dividerX : PrimitiveValue) (last : nat) : Stage :=
  {| lCL := Some 0; uCL := Some 0; mean := mean acc; startX := startX acc; endX := endX acc;
     sum := sum acc; count := count acc; sd := Some 0; stage := stage acc;
     stageDividerX := dividerX; firstId := firstId acc; lastId := last |}.

Definition withMean (acc : Stage) : Stage :=
  if 0 <? count acc then
    {| lCL := lCL acc; uCL := uCL acc; mean := sum acc / inject_Z (Z.of_nat (count acc));
       startX := startX acc; endX := endX acc; sum := sum acc; count := count acc;
       sd := sd acc; stage := stage acc; stageDividerX := stageDividerX acc;
       firstId := firstId acc; lastId := lastId acc |}
  else acc.

Definition stageStep (noStages : bool) (labels : list PrimitiveValue)
    (points : list ChartDataPoint) (i : nat) (obj : ChartDataPoint) (st : StageLoop)
    : Outcome StageLoop :=
  let acc := running st in
  label <- (if noStages then Returns (Some EmptyString) else labelAt labels i) ;;
  st1 <-
    (if labelEq (currentStage st) label || noStages then
       Returns
         {| running :=
              {| lCL := lCL acc; uCL := uCL acc; mean := mean acc; startX := startX acc;
                 endX := endX acc; sum := sum acc + yValue obj; count := S (count acc);
                 sd := sd acc; stage := stage acc; stageDividerX := stageDividerX acc;
                 firstId := firstId acc; lastId := lastId acc |};
            stageValue := label;
            currentStage := currentStage st;
            stages := stages st |}
     else
       let acc1 := withMean acc in
       match beforeIndex points i with
       | None => TypeError                 (* [dataPoints[i - 1].xValue] *)
       | Some previous =>
           nextStart <- valueOf (xValue obj) ;;
           endDate <- valueOf (xValue previous) ;;
           let dividerX := PNumber ((nextStart + endDate) / 2) in
           let closing :=
             {| lCL := lCL acc1; uCL := uCL acc1; mean := mean acc1; startX := startX acc1;
                endX := xValue previous; sum := sum acc1; count := count acc1;
                sd := sd acc1; stage := stage acc1; stageDividerX := dividerX;
                firstId := firstId acc1; lastId := lastId acc1 |} in
           name <- toString label ;;
           Returns
             {| running :=
                  {| lCL := lCL closing; uCL := uCL closing; mean := yValue obj;
                     startX := xValue obj; endX := endX closing; sum := yValue obj;
                     count := 1; sd := sd closing; stage := name; stageDividerX := dividerX;
                     firstId := i; lastId := lastId closing |};
                stageValue := label;
                currentStage := currentStage st;
                stages := stages st ++ [closeStage closing dividerX (i - 1)] |}
       end) ;;
  current <- (if noStages then Returns (Some EmptyString) else labelAt labels i) ;;
  if i =? List.length points - 1 then
    let acc2 := withMean (running st1) in
    name <- toString label ;;
    let final :=
      {| lCL := lCL acc2; uCL := uCL acc2; mean := mean acc2; startX := startX acc2;
         endX := xValue obj; sum := sum acc2; count := count acc2; sd := sd acc2;
         stage := name; stageDividerX := stageDividerX acc2; firstId := firstId acc2;
         lastId := lastId acc2 |} in
    Returns {| running := final; stageValue := label; currentStage := current;
               stages := stages st1 ++ [closeStage final (endX final) i] |}
  else
    Returns {| running := running st1; stageValue := label; currentStage := current;
               stages := stages st1 |}.

Fixpoint stageLoop (noStages : bool) (labels : list PrimitiveValue)
    (points : list ChartDataPoint) (i : nat) (rest : list ChartDataPoint) (st : StageLoop)
    : Outcome StageLoop :=
  match rest with
  | [] => Returns st
  | obj :: rest' =>
      st' <- stageStep noStages labels points i obj st ;;
      stageLoop noStages labels points (S i) rest' st'
  end.

Definition GetStages (dataView : option DataView) (viewModel : ControlChartViewModel)
    : Outcome (list Stage) :=
  match dataView with
  | None => Returns []
  | Some view =>
  match categorical view with
  | None => Returns []
  | Some cat =>
  match values cat with
  | None => Returns []
  | Some columns =>
      let noStages := List.length columns =? 1 in
      labelColumn <-
        (if noStages then Returns []
         else match categories cat with
              | None => TypeError          (* [categorical.categories[0]] *)
              | Some _ =>
                  match nth_error columns 1 with
                  | None => TypeError      (* [categorical.values[1].values] *)
                  | Some c => Returns (col_values c)
                  end
              end) ;;
      label <- (if noStages then Returns (Some EmptyString) else labelAt labelColumn 0) ;;
      match dataPoints viewModel with
      | [] => TypeError                    (* [dataPoints[0].xValue] *)
      | first :: _ =>
          name <- toString label ;;
          let start :=
            {| lCL := Some 0; uCL := Some 0; mean := 0; startX := xValue first; endX := PNull;
               sum := 0; count := 0; sd := Some 0; stage := name; stageDividerX := PNull;
               firstId := 0; lastId := 0 |} in
          st <- stageLoop noStages labelColumn (dataPoints viewModel) 0 (dataPoints viewModel)
                  {| running := start; stageValue := label; currentStage := label;
                     stages := [] |} ;;
          Returns (stages st)
      end
  end end end.

(** [findIndexByKeyValue(arraytosearch, "stage", valuetosearch)]; [None] is [null]. *)
Fixpoint findIndexByKeyValue (arraytosearch : list SubGroup) (valuetosearch : string)
    : option nat :=
  match arraytosearch with
  | [] => None
  | g :: rest =>
      if String.eqb (g_stage g) valuetosearch then Some 0%nat
      else option_map S (findIndexByKeyValue rest valuetosearch)
  end.

(** The names every object inherits: [typeof unique[name]] is not
    ["undefined"] for them, whatever [GetUnique] has stored. *)
Definition inheritedKeys : list string :=
  ["constructor"; "hasOwnProperty"; "isPrototypeOf"; "propertyIsEnumerable";
   "toLocaleString"; "toString"; "valueOf"; "__proto__"; "__defineGetter__";
   "__defineSetter__"; "__lookupGetter__"; "__lookupSetter__"]%string.

Definition hasKey (unique : list string) (key : string) : bool :=
  existsb (String.eqb key) (inheritedKeys ++ unique).

(** [distinct[index].sum = ...; distinct[index].count = ...; if (count > 0) mean = ...]. *)
Definition addToGroup (g : SubGroup) (s : Stage) : SubGroup :=
  let total := g_sum g + sum s in
  let n := (g_count g + count s)%nat in
  {| g_mean := if 0 <? n then total / inject_Z (Z.of_nat n) else g_mean g;
     g_sum := total; g_count := n; g_stage := g_stage g |}.

(** [array[index] = f(array[index])] for an index inside the array. *)
Fixpoint updateAt {A : Type} (array : list A) (index : nat) (f : A -> A) : list A :=
  match array, index with
  | [], _ => []
  | a :: rest, O => f a :: rest
  | a :: rest, S i => a :: updateAt rest i f
  end.

Fixpoint uniqueLoop (src : list Stage) (unique : list string) (distinct : list SubGroup)
    : Outcome (list SubGroup) :=
  match src with
  | [] => Returns distinct
  | s :: rest =>
      distinct' <-
        (if hasKey unique (stage s) then
           match findIndexByKeyValue distinct (stage s) with
           | None => TypeError             (* [distinct[null].sum] *)
           | Some index => Returns (updateAt distinct index (fun g => addToGroup g s))
           end
         else
           Returns (distinct ++ [{| g_mean := mean s; g_sum := sum s; g_count := count s;
                                    g_stage := stage s |}])) ;;
      uniqueLoop rest (stage s :: unique) distinct'
  end.

Definition GetUnique (src : list Stage) : Outcome (list SubGroup) :=
  uniqueLoop src [] [].

Definition addToSum (square : Q) (g : SubGroup) : SubGroup :=
  {| g_mean := g_mean g; g_sum := g_sum g + square; g_count := g_count g;
     g_stage := g_stage g |}.

(** The inner loop of the first pass of [CalcStats]: the squared deviations
    of the points [js] from [center], added to [sumdiffsqrd] and, when the
    subgroups are in use, to [subGroups[index].sum]. *)
Fixpoint squaresLoop (data : list ChartDataPoint) (center : Q) (index : option nat)
    (js : list nat) (sumdiffsqrd : Q) (subGroups : list SubGroup)
    : Outcome (Q * list SubGroup) :=
  match js with
  | [] => Returns (sumdiffsqrd, subGroups)
  | j :: rest =>
      match nth_error data j with
      | None => TypeError
      | Some p =>
          let diff := yValue p - center in
          squaresLoop data center index rest (sumdiffsqrd + diff * diff)
            (match index with
             | Some k => updateAt subGroups k (addToSum (diff * diff))
             | None => subGroups
             end)
      end
  end.

Definition setGroupStats (s : Stage) (g : SubGroup) : Stage :=
  {| lCL := lCL s; uCL := uCL s; mean := g_mean g; startX := startX s; endX := endX s;
     sum := g_sum g; count := g_count g; sd := sd s; stage := stage s;
     stageDividerX := stageDividerX s; firstId := firstId s; lastId := lastId s |}.

Definition setSum (s : Stage) (v : Q) : Stage :=
  {| lCL := lCL s; uCL := uCL s; mean := mean s; startX := startX s; endX := endX s;
     sum := v; count := count s; sd := sd s; stage := stage s;
     stageDividerX := stageDividerX s; firstId := firstId s; lastId := lastId s |}.

(** The first pass of [CalcStats]. *)
Fixpoint deviationsLoop (data : list ChartDataPoint) (sdTotal : bool) (rest : list Stage)
    (subGroups : list SubGroup) : Outcome (list Stage * list SubGroup) :=
  match rest with
  | [] => Returns ([], subGroups)
  | s :: rest' =>
      located <-
        (if sdTotal then
           match findIndexByKeyValue subGroups (stage s) with
           | None => TypeError             (* [subGroups[null].count] *)
           | Some index =>
               match nth_error subGroups index with
               | None => TypeError
               | Some g => Returns (setGroupStats s g, Some index)
               end
           end
         else Returns (s, None)) ;;
      squares <- squaresLoop data (mean (fst located)) (snd located)
                   (indexRange (firstId s) (lastId s)) 0 subGroups ;;
      let s' := if sdTotal then fst located else setSum (fst located) (fst squares) in
      later <- deviationsLoop data sdTotal rest' (snd squares) ;;
      Returns (s' :: fst later, snd later)
  end.

Section Limits.

(** [Math.sqrt] on the numbers that have a square root. *)
Variable Math_sqrt : Q -> Q.

Definition sqrtOf (x : Q) : option Q :=
  if Qltb x 0 then None else Some (Math_sqrt x).

(** [if (count > 8) sd = Math.sqrt(sum / count); else sd = Math.sqrt(sum / (count - 1))]. *)
Definition sdOf (total : Q) (n : nat) : option Q :=
  if 8 <? n then sqrtOf (total / inject_Z (Z.of_nat n))
  else if n =? 1 then None
  else sqrtOf (total / inject_Z (Z.of_nat n - 1)).

Definition setLimits (s : Stage) (center numsds : Q) (deviation : option Q) : Stage :=
  {| lCL := option_map (fun d => center - numsds * d) deviation;
     uCL := option_map (fun d => center + numsds * d) deviation;
     mean := mean s; startX := startX s; endX := endX s; sum := sum s; count := count s;
     sd := deviation; stage := stage s; stageDividerX := stageDividerX s;
     firstId := firstId s; lastId := lastId s |}.

Record Stats : Type := {
  chartStages : list Stage;
  meanLine : list (LimitSegment Q);
  uclLines : list (LimitSegment (option Q));
  lclLines : list (LimitSegment (option Q));
  stageDividers : list (StageDivider string)
}.

Definition pushLines (previous : option Stage) (s : Stage) (acc : Stats) : Stats :=
  let from := match previous with
              | Some p => stageDividerX p
              | None => startX s
              end in
  let meanFrom := match previous with
                  | Some p => mean p
                  | None => mean s
                  end in
  {| chartStages := chartStages acc ++ [s];
     meanLine := meanLine acc ++
       [{| x1 := from; y1 := meanFrom; x2 := stageDividerX s; y2 := mean s |}];
     uclLines := uclLines acc ++
       [{| x1 := from; y1 := uCL s; x2 := stageDividerX s; y2 := uCL s |}];
     lclLines := lclLines acc ++
       [{| x1 := from; y1 := lCL s; x2 := stageDividerX s; y2 := lCL s |}];
     stageDividers := stageDividers acc ++
       [{| div_x1 := stageDividerX s; prevDividerX := from; stageName := stage s |}] |}.

(** The second pass of [CalcStats]. *)
Fixpoint limitsLoop (numsds : Q) (sdTotal : bool) (subGroups : list SubGroup)
    (previous : option Stage) (rest : list Stage) (acc : Stats) : Outcome Stats :=
  match rest with
  | [] => Returns acc
  | s :: rest' =>
      triple <-
        (if sdTotal then
           match findIndexByKeyValue subGroups (stage s) with
           | None => TypeError
           | Some index =>
               match nth_error subGroups index with
               | None => TypeError
               | Some g => Returns (g_sum g, g_count g, g_mean g)
               end
           end
         else Returns (sum s, count s, mean s)) ;;
      let s' := setLimits s (snd triple) numsds (sdOf (fst (fst triple)) (snd (fst triple))) in
      limitsLoop numsds sdTotal subGroups (Some s') rest' (pushLines previous s' acc)
  end.

Definition CalcStats (viewModel : ControlChartViewModel) (numsds : Q) (stages : list Stage)
    : Outcome Stats :=
  let sdTotal := useSDSubGroups viewModel in
  subGroups <- (if sdTotal then GetUnique stages else Returns []) ;;
  first <- deviationsLoop (dataPoints viewModel) sdTotal stages subGroups ;;
  limitsLoop numsds sdTotal (snd first) None (fst first)
    {| chartStages := []; meanLine := []; uclLines := []; lclLines := [];
       stageDividers := [] |}.

End Limits.

(** A limit as [ApplyRules] compares it; not read when the limit is [None]
    (see [ApplyRules] below). *)
Definition finite (limit : option Q) : Q :=
  match limit with
  | Some q => q
  | None => 0
  end.

Definition finiteLimits (s : Stage) : bool :=
  match uCL s, lCL s with
  | Some _, Some _ => true
  | _, _ => false
  end.

(** [ApplyRules()]; with Rule 1 on, a limit that is a NaN or an infinity
    takes the comparison out of the model. *)
Definition ApplyRules (viewModel : ControlChartViewModel) (stages : list Stage)
    : Outcome (list nat) :=
  if runRule1 viewModel && negb (forallb finiteLimits stages) then Unmodelled
  else
    Rules.ApplyRules Stage ChartDataPoint firstId lastId
      (fun s => finite (uCL s)) (fun s => finite (lCL s)) mean yValue
      (runRule1 viewModel) (runRule2 viewModel) (runRule3 viewModel)
      (dataPoints viewModel) stages.

Record ControlChart : Type := {
  controlChartViewModel : option ControlChartViewModel;
  analysis : Stats;
  ruleDots : list nat
}.

(** [PlotControlLimits()]: the text of every limit line is
    [yformatValue(d['y1'])], and d3's format [.3s] throws on an infinity.  A
    height that is a NaN or an infinity is [None] here, so such a line takes
    the run out of the model, whether the limit lines are shown or not.  The
    drawing itself is left out. *)
Definition PlotControlLimits (uclLines lclLines : list (LimitSegment (option Q)))
    : Outcome unit :=
  if forallb (fun l => match y1 l with
                       | Some _ => true
                       | None => false
                       end) (uclLines ++ lclLines)
  then Returns tt
  else Unmodelled.

(** [update(options)]: here the drawing is cleared after [visualTransform].
    Of the drawing steps between [CalcStats] and [ApplyRules] the model keeps
    the one that can end the run on the values of this build,
    [PlotControlLimits]. *)
Definition update (Math_sqrt : Q -> Q) (this : ControlChart) (options : VisualUpdateOptions)
    : Outcome ControlChart :=
  match dataViews options with
  | None => TypeError
  | Some views =>
  match nth_error views 0 with
  | None => TypeError
  | Some view =>
  match categorical view with
  | None => TypeError
  | Some cat =>
      match categories cat, values cat with
      | None, _ => Returns this
      | Some _, None => Returns this
      | Some _, Some _ =>
          viewModel <- visualTransform options ;;
          match dataPoints viewModel with
          | [] => Returns {| controlChartViewModel := Some viewModel;
                             analysis := analysis this; ruleDots := [] |}
          | _ :: _ =>
              stages <- GetStages (Some view) viewModel ;;
              stats <- CalcStats Math_sqrt viewModel (standardDeviation viewModel) stages ;;
              _ <- PlotControlLimits (uclLines stats) (lclLines stats) ;;
              flagged <- ApplyRules viewModel (chartStages stats) ;;
              Returns {| controlChartViewModel := Some viewModel;
                         analysis := stats; ruleDots := flagged |}
          end
      end
  end end end.

End SubgroupSD.

(** ** Stage lists, deviations and inputs as the specification describes them *)

(** The index ranges [ranges] cut [start .. next - 1] into consecutive,
    non-empty pieces, in order: no gap, no overlap. *)
Fixpoint contiguousFrom (start : nat) (ranges : list (nat * nat)) (next : nat) : Prop :=
  match ranges with
  | [] => start = next
  | (a, b) :: rest => a = start /\ (a <= b)%nat /\ contiguousFrom (S b) rest next
  end.

(** The ranges of a stage list partition the indices [0 .. n - 1]. *)
Definition partitions (ranges : list (nat * nat)) (n : nat) : Prop :=
  contiguousFrom 0 ranges n.

Definition rangesOfMovingRange (stages : list MovingRange.Stage) : list (nat * nat) :=
  map (fun s => (MovingRange.firstId s, MovingRange.lastId s)) stages.

Definition rangesOfSubgroupSD (stages : list SubgroupSD.Stage) : list (nat * nat) :=
  map (fun s => (SubgroupSD.firstId s, SubgroupSD.lastId s)) stages.

(** A position the visual can place on its axis: a number or a date. *)
Definition isPosition (v : PrimitiveValue) : Prop :=
  match v with
  | PNumber _ => True
  | PDate _ => True
  | _ => False
  end.

Definition isLabel (v : PrimitiveValue) : Prop :=
  match v with
  | PString _ => True
  | _ => False
  end.


(** The lines of the moving-range build, stage by stage: a stage's line
    starts at the divider of the stage before it (at its own [startX] when it
    is the first) and ends at its own divider; every stage has a mean line,
    and a stage has limit lines unless it is marked [mRError]. *)
Definition lineStart (previous : option MovingRange.Stage) (s : MovingRange.Stage)
    : PrimitiveValue :=
  match previous with
  | Some p => MovingRange.stageDividerX p
  | None => MovingRange.startX s
  end.

Fixpoint meanLinesFrom (previous : option MovingRange.Stage) (stages : list MovingRange.Stage)
    : list (LimitSegment Q) :=
  match stages with
  | [] => []
  | s :: rest =>
      {| x1 := lineStart previous s;
         y1 := match previous with
               | Some p => MovingRange.mean p
               | None => MovingRange.mean s
               end;
         x2 := MovingRange.stageDividerX s; y2 := MovingRange.mean s |}
      :: meanLinesFrom (Some s) rest
  end.

Fixpoint limitLinesFrom (height : MovingRange.Stage -> Q) (previous : option MovingRange.Stage)
    (stages : list MovingRange.Stage) : list (LimitSegment Q) :=
  match stages with
  | [] => []
  | s :: rest =>
      (if MovingRange.mRError s then []
       else [MovingRange.segment (lineStart previous s) (MovingRange.stageDividerX s)
               (height s)])
      ++ limitLinesFrom height (Some s) rest
  end.

(** What [CalcStats] of the moving-range build makes of one stage [s]: with
    fewer points than the window, the same stage marked [mRError] and
    nothing else changed; otherwise the same stage with limits at
    [numsds * rBar / d2] around its mean, where [rBar] is the sum of the
    moving ranges divided by their number. *)
Definition limitsComputed (viewModel : MovingRange.ControlChartViewModel)
    (s s' : MovingRange.Stage) : Prop :=
  let mr := MovingRange.movingRange viewModel in
  let numsds := MovingRange.standardDeviations viewModel in
  if (Z.of_nat (MovingRange.count s) <? mr)%Z then s' = MovingRange.setMRError s
  else
    exists total d2,
      MovingRange.rangeSum (MovingRange.dataPoints viewModel) mr
        (Z.of_nat (MovingRange.firstId s) + mr - 1)
        (Z.to_nat (Z.of_nat (MovingRange.lastId s)
                   - (Z.of_nat (MovingRange.firstId s) + mr - 1) + 1)) 0
      = Returns total
      /\ MovingRange.LookUpd2 mr = Some d2
      /\ s' = MovingRange.setLimits s
                (MovingRange.mean s
                 - numsds * (total / inject_Z (Z.of_nat (MovingRange.count s) - mr + 1)) / d2)
                (MovingRange.mean s
                 + numsds * (total / inject_Z (Z.of_nat (MovingRange.count s) - mr + 1)) / d2).


(** The standard deviation of a group as the specification words it: the
    square root of [specVariance], the sum of the squared deviations of the
    group's values from their mean, divided by the count when the count is
    over 8 and by the count less one otherwise. *)
Definition specMean (ys : list Q) : Q :=
  fold_right Qplus 0 ys / inject_Z (Z.of_nat (List.length ys)).

Definition specSumSquares (ys : list Q) : Q :=
  fold_right (fun y acc => (y - specMean ys) * (y - specMean ys) + acc) 0 ys.

Definition specVariance (ys : list Q) : Q :=
  if 8 <? List.length ys
  then specSumSquares ys / inject_Z (Z.of_nat (List.length ys))
  else specSumSquares ys / inject_Z (Z.of_nat (List.length ys) - 1).


(** A first position and a first value the moving-range build accepts: a
    number other than zero or a date, and a number other than zero. *)
Definition usablePosition (v : option PrimitiveValue) : Prop :=
  match v with
  | Some (PNumber q) => ~ q == 0
  | Some (PDate _) => True
  | _ => False
  end.

Definition usableValue (v : option PrimitiveValue) : Prop :=
  match v with
  | Some (PNumber q) => ~ q == 0
  | _ => False
  end.

(** Categorical data with a part missing: no category columns, no value
    columns, or a first category column without a source. *)
Inductive incomplete (cat : DataViewCategorical) : Prop :=
| NoCategories : categories cat = None -> incomplete cat
| NoValues : values cat = None -> incomplete cat
| NoSource : forall cats category,
    categories cat = Some cats -> nth_error cats 0 = Some category ->
    cat_source category = None -> incomplete cat.

(** Categorical data the moving-range build does not chart: a part is
    missing, or the first position or the first value is not usable. *)
Inductive unusable (cat : DataViewCategorical) : Prop :=
| Incomplete : incomplete cat -> unusable cat
| FirstRow : forall cats category columns dataValue,
    categories cat = Some cats -> nth_error cats 0 = Some category ->
    values cat = Some columns -> nth_error columns 0 = Some dataValue ->
    ~ (usablePosition (nth_error (cat_values category) 0)
       /\ usableValue (nth_error (col_values dataValue) 0)) ->
    unusable cat.


(** ** Invariants of the loops and relations between stage lists *)

(** The loop of [GetStages] in the moving-range build: before row [i], the
    stages pushed so far cut [0 .. f - 1] where [f] is the first index of the
    running stage, which holds the [c] rows [f .. i - 1]; and when it is
    still empty the row about to be read carries the label it was opened
    with. *)
Definition stageLoopInvariant (hasStages : bool) (labels : list PrimitiveValue) (i : nat)
    (st : MovingRange.StageLoop) : Prop :=
  contiguousFrom 0 (rangesOfMovingRange (MovingRange.stages st))
    (MovingRange.firstId (MovingRange.running st))
  /\ Forall (fun s => (MovingRange.count s = S (MovingRange.lastId s) - MovingRange.firstId s)%nat)
       (MovingRange.stages st)
  /\ (MovingRange.firstId (MovingRange.running st)
      + MovingRange.count (MovingRange.running st) = i)%nat
  /\ (MovingRange.count (MovingRange.running st) = 0%nat -> hasStages = true ->
      labelAt labels i = Returns (MovingRange.currentStage st)).

(** A stage whose range lies in the data and counts its points. *)
Definition stageWellFormed (data : list MovingRange.ChartDataPoint) (s : MovingRange.Stage)
    : Prop :=
  (MovingRange.firstId s <= MovingRange.lastId s)%nat
  /\ (MovingRange.lastId s < List.length data)%nat
  /\ (MovingRange.count s = S (MovingRange.lastId s) - MovingRange.firstId s)%nat.

(** A stage as [GetStages] pushes it: limits at 0 and no [mRError]. *)
Definition stageFresh (s : MovingRange.Stage) : Prop :=
  MovingRange.lCL s = 0 /\ MovingRange.uCL s = 0 /\ MovingRange.mRError s = false.

(** The loop of [GetStages] in the subgroup build, as [stageLoopInvariant]. *)
Definition stageLoopInvariantSD (noStages : bool) (labels : list PrimitiveValue) (i : nat)
    (st : SubgroupSD.StageLoop) : Prop :=
  contiguousFrom 0 (rangesOfSubgroupSD (SubgroupSD.stages st))
    (SubgroupSD.firstId (SubgroupSD.running st))
  /\ Forall (fun s => (SubgroupSD.count s
                       = S (SubgroupSD.lastId s) - SubgroupSD.firstId s)%nat)
       (SubgroupSD.stages st)
  /\ (SubgroupSD.firstId (SubgroupSD.running st)
      + SubgroupSD.count (SubgroupSD.running st) = i)%nat
  /\ (SubgroupSD.count (SubgroupSD.running st) = 0%nat -> noStages = false ->
      labelAt labels i = Returns (SubgroupSD.currentStage st)).

(** The label column as the subgroup build reads it: none when there is one
    value column, the second value column otherwise. *)
Definition labelColumnSD (columns : list DataViewValueColumn) : option (list PrimitiveValue) :=
  if List.length columns =? 1 then Some []
  else option_map col_values (nth_error columns 1).

(** What the two passes of [CalcStats] leave of a stage: its index range and
    label, and its count when the subgroups are not in use. *)
Definition stageKept (sdTotal : bool) (s s' : SubgroupSD.Stage) : Prop :=
  SubgroupSD.firstId s' = SubgroupSD.firstId s
  /\ SubgroupSD.lastId s' = SubgroupSD.lastId s
  /\ SubgroupSD.stage s' = SubgroupSD.stage s
  /\ (sdTotal = false -> SubgroupSD.count s' = SubgroupSD.count s).

(** The same for a stage of the subgroup build. *)
Definition stageWellFormedSD (data : list SubgroupSD.ChartDataPoint) (s : SubgroupSD.Stage)
    : Prop :=
  (SubgroupSD.firstId s <= SubgroupSD.lastId s)%nat
  /\ (SubgroupSD.lastId s < List.length data)%nat
  /\ (SubgroupSD.count s = S (SubgroupSD.lastId s) - SubgroupSD.firstId s)%nat.

(** Where a stage's name comes from: the empty name when the view has no
    label column, a label of the column otherwise. *)
Definition nameFrom (noStages : bool) (labels : list PrimitiveValue) (name : string) : Prop :=
  if noStages then name = EmptyString else In (PString name) labels.

(** The count of the subgroup [findIndexByKeyValue] finds for a label. *)
Fixpoint groupCount (groups : list SubgroupSD.SubGroup) (label : string) : nat :=
  match groups with
  | [] => 0%nat
  | g :: rest =>
      if String.eqb (SubgroupSD.g_stage g) label then SubgroupSD.g_count g
      else groupCount rest label
  end.

(** The number of points in the stages that carry a label. *)
Definition countOfLabel (stages : list SubgroupSD.Stage) (label : string) : nat :=
  list_sum (map SubgroupSD.count
              (filter (fun s => String.eqb (SubgroupSD.stage s) label) stages)).

(** What the first pass of [CalcStats] keeps of a subgroup. *)
Definition groupKey (g : SubgroupSD.SubGroup) : string * nat :=
  (SubgroupSD.g_stage g, SubgroupSD.g_count g).

(** ** Sample inputs *)

Definition numbers (l : list Z) : list PrimitiveValue :=
  map (fun z => PNumber (inject_Z z)) l.

Definition labelled (l : list string) : list PrimitiveValue := map PString l.

(** The formatting pane with the three rule toggles set and, when given, the
    subgroup option and the window; the number of standard deviations is
    left at its default. *)
Definition sampleObjects (subGroups : option bool) (window : option Q) (r1 r2 r3 : bool)
    : DataViewObjects :=
  {| obj_standardDeviations := None; obj_movingRange := window;
     obj_useSDSubGroups := subGroups;
     obj_runRule1 := Some r1; obj_runRule2 := Some r2; obj_runRule3 := Some r3;
     obj_showDividers := None |}.

(** One data view with a category column [xs], a measure column [ys] and,
    when given, a column of stage labels. *)
Definition sampleColumns (ys : list PrimitiveValue) (labels : option (list PrimitiveValue))
    : list DataViewValueColumn :=
  {| col_values := ys |}
  :: match labels with
     | Some l => [{| col_values := l |}]
     | None => []
     end.

Definition sampleCategorical (xs ys : list PrimitiveValue)
    (labels : option (list PrimitiveValue)) : DataViewCategorical :=
  {| categories := Some [{| cat_source := Some tt; cat_values := xs |}];
     values := Some (sampleColumns ys labels) |}.

Definition sampleView (xs ys : list PrimitiveValue) (labels : option (list PrimitiveValue))
    (settings : DataViewObjects) : DataView :=
  {| categorical := Some (sampleCategorical xs ys labels); objects := settings |}.

Definition sampleOptions (xs ys : list PrimitiveValue) (labels : option (list PrimitiveValue))
    (settings : DataViewObjects) : VisualUpdateOptions :=
  {| dataViews := Some [sampleView xs ys labels settings] |}.

(** The chart objects as their constructors leave them. *)
Definition newMovingRangeChart : MovingRange.ControlChart :=
  {| MovingRange.controlChartViewModel := None;
     MovingRange.analysis :=
       {| MovingRange.chartStages := []; MovingRange.meanLine := [];
          MovingRange.uclLines := []; MovingRange.lclLines := [];
          MovingRange.stageDividers := []; MovingRange.insufficient := false |};
     MovingRange.ruleDots := [] |}.

Definition newSubgroupChart : SubgroupSD.ControlChart :=
  {| SubgroupSD.controlChartViewModel := None;
     SubgroupSD.analysis :=
       {| SubgroupSD.chartStages := []; SubgroupSD.meanLine := [];
          SubgroupSD.uclLines := []; SubgroupSD.lclLines := [];
          SubgroupSD.stageDividers := [] |};
     SubgroupSD.ruleDots := [] |}.

(** A stage of the moving-range build over the points [first..last] with the
    given centre line and limits, and the points of a series of integers at
    the positions 0, 1, 2, ... *)
Definition sampleStage (first last : nat) (center lower upper : Q) : MovingRange.Stage :=
  {| MovingRange.lCL := lower; MovingRange.uCL := upper; MovingRange.mean := center;
     MovingRange.startX := PNumber (inject_Z (Z.of_nat first));
     MovingRange.endX := PNumber (inject_Z (Z.of_nat last));
     MovingRange.sum := 0; MovingRange.count := S last - first;
     MovingRange.stage := Some EmptyString;
     MovingRange.stageDividerX := PNumber (inject_Z (Z.of_nat last));
     MovingRange.firstId := first; MovingRange.lastId := last;
     MovingRange.mRError := false |}.

Fixpoint samplePointsFrom (i : nat) (ys : list Z) : list MovingRange.ChartDataPoint :=
  match ys with
  | [] => []
  | y :: rest =>
      {| MovingRange.xValue := PNumber (inject_Z (Z.of_nat i));
         MovingRange.yValue := inject_Z y; MovingRange.MRSum := 0 |}
      :: samplePointsFrom (S i) rest
  end.

(** A view model of the moving-range build over a series of integers, with
    the default window and number of standard deviations. *)
Definition sampleViewModel (ys : list Z) (r1 r2 r3 : bool) : MovingRange.ControlChartViewModel :=
  {| MovingRange.dataPoints := samplePointsFrom 0 ys;
     MovingRange.standardDeviations := 3; MovingRange.isDateRange := false;
     MovingRange.runRule1 := r1; MovingRange.runRule2 := r2; MovingRange.runRule3 := r3;
     MovingRange.movingRange := 2; MovingRange.vm_mRError := false;
     MovingRange.stageDividerLine := Some true |}.


(** The series 1,2,3,4,5,6 at the positions 1..6 with the labels A,A,B,A,A,A:
    the stage B has one point, fewer than the window 2. *)
Definition shortStageView : DataView :=
  sampleView (numbers [1; 2; 3; 4; 5; 6]%Z) (numbers [1; 2; 3; 4; 5; 6]%Z)
    (Some (labelled ["A"; "A"; "B"; "A"; "A"; "A"]%string))
    (sampleObjects None None true false false).

Definition shortStageViewModel : MovingRange.ControlChartViewModel :=
  sampleViewModel [1; 2; 3; 4; 5; 6]%Z true false false.

Definition shortStageStages : list MovingRange.Stage :=
  Eval vm_compute in
    match MovingRange.GetStages (Some shortStageView) shortStageViewModel with
    | Returns stages => stages
    | _ => []
    end.

(** The series 1,2,3 at the positions 1,2,3 with the labels A,B,A, for the
    subgroup build with its default settings: the label A recurs. *)
Definition recurringLabelView : DataView :=
  sampleView (numbers [1; 2; 3]%Z) (numbers [1; 2; 3]%Z)
    (Some (labelled ["A"; "B"; "A"]%string))
    (sampleObjects None None false false false).

Definition recurringLabelOptions : VisualUpdateOptions :=
  {| dataViews := Some [recurringLabelView] |}.

Definition recurringLabelViewModel : SubgroupSD.ControlChartViewModel :=
  Eval vm_compute in
    match SubgroupSD.visualTransform recurringLabelOptions with
    | Returns viewModel => viewModel
    | _ => SubgroupSD.neutralViewModel
    end.


(** The series 1,2,3 at the positions 1,2,3 with no label column, for the
    subgroup build: one stage; the subgroup option is left unset (on) or set. *)
Definition singleStageOptions (subGroups : option bool) : VisualUpdateOptions :=
  sampleOptions (numbers [1; 2; 3]%Z) (numbers [1; 2; 3]%Z) None
    (sampleObjects subGroups None false false false).


(** Two rows whose positions are a number and a text, and two rows whose
    positions are both texts; a view whose category column has no source. *)
Definition mixedPositionsOptions : VisualUpdateOptions :=
  sampleOptions [PNumber 1; PString "a"] (numbers [5; 6]%Z) None
    (sampleObjects None None true true true).

Definition textPositionsOptions : VisualUpdateOptions :=
  sampleOptions (labelled ["a"; "b"]%string) (numbers [5; 6]%Z) None
    (sampleObjects None None false false false).

Definition noSourceCategorical : DataViewCategorical :=
  {| categories := Some [{| cat_source := None; cat_values := numbers [1; 2]%Z |}];
     values := Some (sampleColumns (numbers [5; 6]%Z) None) |}.

Definition noSourceOptions : VisualUpdateOptions :=
  {| dataViews := Some [{| categorical := Some noSourceCategorical;
                           objects := sampleObjects None None false false false |}] |}.


(** ** What a stage list says of the series *)

(** The elements [first .. last] of a list. *)
Definition slice {A : Type} (first last : nat) (l : list A) : list A :=
  firstn (S last - first) (skipn first l).

Definition sumOf (ys : list Q) : Q := fold_right Qplus 0 ys.

(** Every element of a list stands in [R] to the next one. *)
Fixpoint chained {A : Type} (R : A -> A -> Prop) (l : list A) : Prop :=
  match l with
  | [] => True
  | a :: rest =>
      match rest with
      | [] => True
      | b :: _ => R a b
      end /\ chained R rest
  end.

(** The values and the positions a stage of the moving-range build covers. *)
Definition stageValues (data : list MovingRange.ChartDataPoint) (s : MovingRange.Stage)
    : list Q :=
  map MovingRange.yValue (slice (MovingRange.firstId s) (MovingRange.lastId s) data).

Definition positionAt (data : list MovingRange.ChartDataPoint) (j : nat)
    : option PrimitiveValue :=
  option_map MovingRange.xValue (nth_error data j).

(** A stage that carries the sum and the mean of its values and the
    positions of its first and last point. *)
Definition summarised (data : list MovingRange.ChartDataPoint) (s : MovingRange.Stage)
    : Prop :=
  MovingRange.sum s == sumOf (stageValues data s)
  /\ MovingRange.mean s = MovingRange.sum s / inject_Z (Z.of_nat (MovingRange.count s))
  /\ positionAt data (MovingRange.firstId s) = Some (MovingRange.startX s)
  /\ positionAt data (MovingRange.lastId s) = Some (MovingRange.endX s).

(** A stage named by the label every one of its rows carries; without a
    label column, by the empty name. *)
Definition labelledBy (hasStages : bool) (labels : list PrimitiveValue)
    (s : MovingRange.Stage) : Prop :=
  if hasStages
  then forall j, (MovingRange.firstId s <= j <= MovingRange.lastId s)%nat ->
                 labelAt labels j = Returns (MovingRange.stage s)
  else MovingRange.stage s = Some EmptyString.

(** Two neighbouring stages: the names differ, and the divider of the first
    is half way between its last position and the first position of the
    second. *)
Definition dividedAt (s s' : MovingRange.Stage) : Prop :=
  labelEq (MovingRange.stage s) (MovingRange.stage s') = false
  /\ exists a b,
       valueOf (MovingRange.endX s) = Returns a
       /\ valueOf (MovingRange.startX s') = Returns b
       /\ MovingRange.stageDividerX s = PNumber ((b + a) / 2).

(** What the loop of [GetStages] keeps, before row [i], besides
    [stageLoopInvariant]. *)
Definition runningFacts (hasStages : bool) (labels : list PrimitiveValue)
    (data : list MovingRange.ChartDataPoint) (i : nat) (st : MovingRange.StageLoop)
    : Prop :=
  let r := MovingRange.running st in
  MovingRange.sum r
  == sumOf (map MovingRange.yValue
              (firstn (MovingRange.count r) (skipn (MovingRange.firstId r) data)))
  /\ positionAt data (MovingRange.firstId r) = Some (MovingRange.startX r)
  /\ MovingRange.stage r = MovingRange.currentStage st
  /\ (if hasStages
      then forall j, (MovingRange.firstId r <= j < i)%nat ->
                     labelAt labels j = Returns (MovingRange.stage r)
      else MovingRange.stageValue st = Some EmptyString
           /\ MovingRange.stage r = Some EmptyString)
  /\ Forall (summarised data) (MovingRange.stages st)
  /\ Forall (labelledBy hasStages labels) (MovingRange.stages st)
  /\ chained dividedAt (MovingRange.stages st)
  /\ (forall front p s',
        MovingRange.stages st = front ++ [p] ->
        MovingRange.stage s' = MovingRange.stage r ->
        MovingRange.startX s' = MovingRange.startX r ->
        dividedAt p s').

(** What [GetStages] has built after the last row. *)
Definition stageFacts (hasStages : bool) (labels : list PrimitiveValue)
    (data : list MovingRange.ChartDataPoint) (stages : list MovingRange.Stage) : Prop :=
  Forall (summarised data) stages
  /\ Forall (labelledBy hasStages labels) stages
  /\ chained dividedAt stages
  /\ (forall front s, stages = front ++ [s] ->
        MovingRange.stageDividerX s = MovingRange.endX s).

(** Whether [GetStages] of the moving-range build reads stage labels, and
    the column it reads them from. *)
Definition hasLabelColumn (columns : list DataViewValueColumn) : bool :=
  negb ((List.length columns =? 1)
        || match nth_error columns 1 with None => true | Some _ => false end).

Definition labelColumn (columns : list DataViewValueColumn) : list PrimitiveValue :=
  match nth_error columns 1 with
  | Some c => col_values c
  | None => []
  end.

(** The series 4,6,8 at the positions 0,1,2 without a label column, in the
    moving-range build. *)
Definition plainView : DataView :=
  sampleView (numbers [1; 2; 3]%Z) (numbers [4; 6; 8]%Z) None
    (sampleObjects None None false false false).

Definition plainViewModel : MovingRange.ControlChartViewModel :=
  sampleViewModel [4; 6; 8]%Z false false false.

(** ** The moving range as the specification words it *)

(** The largest less the smallest of the values of a window. *)
Definition rangeOf (l : list Q) : Q :=
  match l with
  | [] => 0
  | y :: rest => fold_right Qmax y rest - fold_right Qmin y rest
  end.

(** The ranges of all the windows of [w] consecutive values of [ys]. *)
Definition movingRanges (w : nat) (ys : list Q) : list Q :=
  map (fun j => rangeOf (slice (S j - w) j ys)) (seq (w - 1) (S (List.length ys) - w)).

(** The limits of a stage with at least [w] rows as the specification words
    them: [numsds] times the mean of the moving ranges over [d2], either
    side of the mean of the stage. *)
Definition rBarOf (w : nat) (ys : list Q) : Q :=
  sumOf (movingRanges w ys) / inject_Z (Z.of_nat (List.length ys) - Z.of_nat w + 1).

Definition movingRangeLimits (data : list MovingRange.ChartDataPoint) (numsds : Q) (w : nat)
    (d2 : Q) (s s' : MovingRange.Stage) : Prop :=
  MovingRange.uCL s'
  == MovingRange.mean s + numsds * rBarOf w (stageValues data s) / d2
  /\ MovingRange.lCL s'
     == MovingRange.mean s - numsds * rBarOf w (stageValues data s) / d2.

(** The series 5,5,5 without a label column, in the moving-range build. *)
Definition constantViewModel : MovingRange.ControlChartViewModel :=
  sampleViewModel [5; 5; 5]%Z false false false.

Definition constantStages : list MovingRange.Stage :=
  Eval vm_compute in
    match MovingRange.GetStages (Some plainView) constantViewModel with
    | Returns stages => stages
    | _ => []
    end.

(** ** What a stage list of the subgroup build says of the series *)

Definition stageValuesSD (data : list SubgroupSD.ChartDataPoint) (s : SubgroupSD.Stage)
    : list Q :=
  map SubgroupSD.yValue (slice (SubgroupSD.firstId s) (SubgroupSD.lastId s) data).

Definition positionAtSD (data : list SubgroupSD.ChartDataPoint) (j : nat)
    : option PrimitiveValue :=
  option_map SubgroupSD.xValue (nth_error data j).

Definition summarisedSD (data : list SubgroupSD.ChartDataPoint) (s : SubgroupSD.Stage)
    : Prop :=
  SubgroupSD.sum s == sumOf (stageValuesSD data s)
  /\ SubgroupSD.mean s = SubgroupSD.sum s / inject_Z (Z.of_nat (SubgroupSD.count s))
  /\ positionAtSD data (SubgroupSD.firstId s) = Some (SubgroupSD.startX s)
  /\ positionAtSD data (SubgroupSD.lastId s) = Some (SubgroupSD.endX s).

Definition labelledBySD (noStages : bool) (labels : list PrimitiveValue)
    (s : SubgroupSD.Stage) : Prop :=
  if noStages then SubgroupSD.stage s = EmptyString
  else forall j, (SubgroupSD.firstId s <= j <= SubgroupSD.lastId s)%nat ->
                 labelAt labels j = Returns (Some (SubgroupSD.stage s)).

Definition dividedAtSD (s s' : SubgroupSD.Stage) : Prop :=
  SubgroupSD.stage s <> SubgroupSD.stage s'
  /\ exists a b,
       valueOf (SubgroupSD.endX s) = Returns a
       /\ valueOf (SubgroupSD.startX s') = Returns b
       /\ SubgroupSD.stageDividerX s = PNumber ((b + a) / 2).

Definition runningFactsSD (noStages : bool) (labels : list PrimitiveValue)
    (data : list SubgroupSD.ChartDataPoint) (i : nat) (st : SubgroupSD.StageLoop)
    : Prop :=
  let r := SubgroupSD.running st in
  SubgroupSD.sum r
  == sumOf (map SubgroupSD.yValue
              (firstn (SubgroupSD.count r) (skipn (SubgroupSD.firstId r) data)))
  /\ positionAtSD data (SubgroupSD.firstId r) = Some (SubgroupSD.startX r)
  /\ Some (SubgroupSD.stage r) = SubgroupSD.currentStage st
  /\ (if noStages then SubgroupSD.stage r = EmptyString
      else forall j, (SubgroupSD.firstId r <= j < i)%nat ->
                     labelAt labels j = Returns (Some (SubgroupSD.stage r)))
  /\ Forall (summarisedSD data) (SubgroupSD.stages st)
  /\ Forall (labelledBySD noStages labels) (SubgroupSD.stages st)
  /\ chained dividedAtSD (SubgroupSD.stages st)
  /\ (forall front p s',
        SubgroupSD.stages st = front ++ [p] ->
        SubgroupSD.stage s' = SubgroupSD.stage r ->
        SubgroupSD.startX s' = SubgroupSD.startX r ->
        dividedAtSD p s').

Definition stageFactsSD (noStages : bool) (labels : list PrimitiveValue)
    (data : list SubgroupSD.ChartDataPoint) (stages : list SubgroupSD.Stage) : Prop :=
  Forall (summarisedSD data) stages
  /\ Forall (labelledBySD noStages labels) stages
  /\ chained dividedAtSD stages
  /\ (forall front s, stages = front ++ [s] ->
        SubgroupSD.stageDividerX s = SubgroupSD.endX s).

(** The sum of the squared deviations of [ys] from [c]. *)
Definition squaresAbout (c : Q) (ys : list Q) : Q :=
  fold_right (fun y acc => (y - c) * (y - c) + acc) 0 ys.

(** The number the subgroup build takes the square root of, for a sum of
    squares [total] over [n] points. *)
Definition radicandOf (total : Q) (n : nat) : Q :=
  if 8 <? n then total / inject_Z (Z.of_nat n) else total / inject_Z (Z.of_nat n - 1).

(** The view model of the series 1,2,3 with the labels A,B,A and the
    subgroups of the subgroup build switched off. *)
Definition plainSubgroupViewModel : SubgroupSD.ControlChartViewModel :=
  {| SubgroupSD.dataPoints := SubgroupSD.dataPoints recurringLabelViewModel;
     SubgroupSD.standardDeviation := 3; SubgroupSD.isDateRange := false;
     SubgroupSD.runRule1 := false; SubgroupSD.runRule2 := false;
     SubgroupSD.runRule3 := false; SubgroupSD.useSDSubGroups := false |}.

(** What the first pass of [CalcStats] never changes in a subgroup. *)
Definition groupFrame (g : SubgroupSD.SubGroup) : string * nat * Q :=
  (SubgroupSD.g_stage g, SubgroupSD.g_count g, SubgroupSD.g_mean g).

(** A stage that carries the figures of the subgroup [findIndexByKeyValue]
    finds for its name in [groups]. *)
Definition pooledFrom (Math_sqrt : Q -> Q) (numsds : Q) (groups : list SubgroupSD.SubGroup)
    (s' : SubgroupSD.Stage) : Prop :=
  exists index g,
    SubgroupSD.findIndexByKeyValue groups (SubgroupSD.stage s') = Some index
    /\ nth_error groups index = Some g
    /\ SubgroupSD.mean s' = SubgroupSD.g_mean g
    /\ SubgroupSD.count s' = SubgroupSD.g_count g
    /\ SubgroupSD.sd s'
       = SubgroupSD.sdOf Math_sqrt (SubgroupSD.g_sum g) (SubgroupSD.g_count g)
    /\ SubgroupSD.uCL s'
       = option_map (fun d => SubgroupSD.g_mean g + numsds * d) (SubgroupSD.sd s')
    /\ SubgroupSD.lCL s'
       = option_map (fun d => SubgroupSD.g_mean g - numsds * d) (SubgroupSD.sd s').

Definition recurringLabelStages : list SubgroupSD.Stage :=
  Eval vm_compute in
    match SubgroupSD.GetStages (Some recurringLabelView) recurringLabelViewModel with
    | Returns stages => stages
    | _ => []
    end.

(** The labels of a list in the order of their first occurrence, leaving
    out those already [seen]. *)
Fixpoint distinctFrom (seen : list string) (l : list string) : list string :=
  match l with
  | [] => []
  | x :: rest =>
      (if existsb (String.eqb x) seen then [] else [x]) ++ distinctFrom (x :: seen) rest
  end.

(** The sum that the stages with a label carry. *)
Definition sumOfLabel (stages : list SubgroupSD.Stage) (label : string) : Q :=
  sumOf (map SubgroupSD.sum
           (filter (fun s => String.eqb (SubgroupSD.stage s) label) stages)).

(** The sum of the subgroup [findIndexByKeyValue] finds for a label. *)
Fixpoint groupSum (groups : list SubgroupSD.SubGroup) (label : string) : Q :=
  match groups with
  | [] => 0
  | g :: rest =>
      if String.eqb (SubgroupSD.g_stage g) label then SubgroupSD.g_sum g
      else groupSum rest label
  end.

(** The series 1,2 with the label "constructor" on both rows, in the
    subgroup build with its default settings. *)
Definition inheritedNameOptions : VisualUpdateOptions :=
  sampleOptions (numbers [1; 2]%Z) (numbers [1; 2]%Z)
    (Some (labelled ["constructor"; "constructor"]%string))
    (sampleObjects None None false false false).

Definition inheritedNameStages : list SubgroupSD.Stage :=
  Eval vm_compute in
    match SubgroupSD.visualTransform inheritedNameOptions with
    | Returns viewModel =>
        match SubgroupSD.GetStages
                (Some (sampleView (numbers [1; 2]%Z) (numbers [1; 2]%Z)
                         (Some (labelled ["constructor"; "constructor"]%string))
                         (sampleObjects None None false false false))) viewModel with
        | Returns stages => stages
        | _ => []
        end
    | _ => []
    end.

(** ** The three rules together, as [ApplyRules] evaluates them *)

Section RuleSides.

Variables Stage Point : Type.
Variables firstId lastId : Stage -> nat.
Variables uCL lCL mean : Stage -> Q.
Variable yValue : Point -> Q.
Variables runRule1 runRule2 runRule3 : bool.
Variable data : list Point.

(** The value of point [j] is strictly above, or strictly below, the mean of
    stage [s]; a comparison with a missing point is [false]. *)
Definition aboveMean (s : Stage) (j : nat) : bool :=
  match nth_error data j with
  | Some p => Qltb (mean s) (yValue p)
  | None => false
  end.

Definition belowMean (s : Stage) (j : nat) : bool :=
  match nth_error data j with
  | Some p => Qltb (yValue p) (mean s)
  | None => false
  end.

(** Point [j] is on the [side] and lies in a stretch [a..b] of [first..last]
    that holds no point of the [other] side and more than eight points of
    the [side]; points on neither side may lie between them. *)
Definition sideBlock (side other : nat -> bool) (first last j : nat) : Prop :=
  side j = true
  /\ exists a b,
       (first <= a)%nat /\ (a <= j)%nat /\ (j <= b)%nat /\ (b <= last)%nat
       /\ (forall k, (a <= k)%nat -> (k <= b)%nat -> other k = false)
       /\ (8 < List.length (filter side (seq a (S b - a))))%nat.

Definition onOneSide (s : Stage) (j : nat) : Prop :=
  sideBlock (aboveMean s) (belowMean s) (firstId s) (lastId s) j
  \/ sideBlock (belowMean s) (aboveMean s) (firstId s) (lastId s) j.

(** One of the rules that are switched on holds at point [j] of stage [s]. *)
Definition ruleHolds (s : Stage) (j : nat) : Prop :=
  (runRule1 = true /\ (firstId s <= j)%nat /\ (j <= lastId s)%nat
   /\ Rules.beyondLimits Stage Point uCL lCL yValue data s j = true)
  \/ (runRule2 = true /\ Rules.inTrend Stage Point firstId lastId yValue data s j)
  \/ (runRule3 = true /\ onOneSide s j).

(** A list of Rule 3 after point [j]: extended by a point of its side,
    emptied by a point of the other side, kept by a point on the mean; and
    what is drawn of the list of the other side. *)
Definition nextSide (side other : nat -> bool) (run : list nat) (j : nat) : list nat :=
  if side j then run ++ [j] else if other j then [] else run.

Definition closedSide (trigger : nat -> bool) (run : list nat) (j : nat) : list nat :=
  if trigger j then (if 8 <? List.length run then run else []) else [].

Definition afterRule3 (s : Stage) (j : nat) (st : Rules.RuleState) : Rules.RuleState :=
  {| Rules.consecutiveUPoints :=
       nextSide (aboveMean s) (belowMean s) (Rules.consecutiveUPoints st) j;
     Rules.consecutiveLPoints :=
       nextSide (belowMean s) (aboveMean s) (Rules.consecutiveLPoints st) j;
     Rules.consecIncPoints := Rules.consecIncPoints st;
     Rules.consecDecPoints := Rules.consecDecPoints st;
     Rules.meanPoints := Rules.meanPoints st;
     Rules.rulePoints :=
       Rules.rulePoints st
       ++ closedSide (aboveMean s) (Rules.consecutiveLPoints st) j
       ++ closedSide (belowMean s) (Rules.consecutiveUPoints st) j |}.

(** What a list of Rule 3 holds once the points [first..e-1] of a stage are
    done: the points of its side from [a] on, where [a] follows the last
    point of the other side; and every stretch with more than eight points
    of the side that ended before [a] has been drawn into [pts]. *)
Definition sideInvariant (side other : nat -> bool) (first e : nat)
    (run pts : list nat) : Prop :=
  exists a,
    (first <= a)%nat /\ (a <= e)%nat /\ run = filter side (seq a (e - a))
    /\ (forall k, (a <= k)%nat -> (k < e)%nat -> other k = false)
    /\ (a = first \/ exists k, a = S k /\ other k = true)
    /\ (forall x a' b',
          (first <= a')%nat -> (a' <= x)%nat -> (x <= b')%nat -> (b' < a)%nat ->
          side x = true ->
          (forall k, (a' <= k)%nat -> (k <= b')%nat -> other k = false) ->
          (8 < List.length (filter side (seq a' (S b' - a'))))%nat ->
          In x pts).

End RuleSides.

Section RuleLoop.

Variables Stage Point : Type.
Variables firstId lastId : Stage -> nat.
Variables uCL lCL mean : Stage -> Q.
Variable yValue : Point -> Q.
Variables runRule1 runRule2 runRule3 : bool.
Variable data : list Point.

(** What holds of the lists once the points [firstId s..m] of stage [s] are
    done: the lists of a rule that is off are empty, those of Rule 2 and
    Rule 3 hold their current runs, [meanPoints] holds points beyond a limit,
    and every dot drawn since [old] is one at which a rule holds. *)
Definition rulesInvariant (s : Stage) (old : list nat) (m : nat)
    (st : Rules.RuleState) : Prop :=
  (runRule2 = true ->
     Rules.runInvariant (Rules.rises Point yValue data) (firstId s) m
       (Rules.consecIncPoints st) (Rules.rulePoints st)
     /\ Rules.runInvariant (Rules.falls Point yValue data) (firstId s) m
          (Rules.consecDecPoints st) (Rules.rulePoints st))
  /\ (runRule2 = false ->
        Rules.consecIncPoints st = [] /\ Rules.consecDecPoints st = [])
  /\ (runRule3 = true ->
        sideInvariant (aboveMean Stage Point mean yValue data s)
          (belowMean Stage Point mean yValue data s) (firstId s) (S m)
          (Rules.consecutiveUPoints st) (Rules.rulePoints st)
        /\ sideInvariant (belowMean Stage Point mean yValue data s)
             (aboveMean Stage Point mean yValue data s) (firstId s) (S m)
             (Rules.consecutiveLPoints st) (Rules.rulePoints st))
  /\ (runRule3 = false ->
        Rules.consecutiveUPoints st = [] /\ Rules.consecutiveLPoints st = [])
  /\ (forall x, In x (Rules.meanPoints st) ->
        runRule1 = true /\ (firstId s <= x)%nat /\ (x <= m)%nat
        /\ Rules.beyondLimits Stage Point uCL lCL yValue data s x = true)
  /\ (forall x, In x (Rules.rulePoints st) ->
        In x old
        \/ ruleHolds Stage Point firstId lastId uCL lCL mean yValue
             runRule1 runRule2 runRule3 data s x).

(** The three rules at one point, in closed form. *)
Definition afterRules (s : Stage) (j : nat) (st : Rules.RuleState) : Rules.RuleState :=
  let st1 := Rules.afterRule1 Stage Point uCL lCL yValue runRule1 data s j st in
  let st2 := if runRule2 then Rules.afterRule2 Point yValue data j st1 else st1 in
  if runRule3 then afterRule3 Stage Point mean yValue data s j st2 else st2.

End RuleLoop.

(** A rule that is on reads [data[j]]; Rule 2 reads it only after point 0. *)
Definition readsPoint (runRule1 runRule2 runRule3 : bool) (j : nat) : Prop :=
  runRule1 = true \/ runRule3 = true \/ (runRule2 = true /\ (0 < j)%nat).

(** A stage 0..10 about the mean 5, and a series that stays above it but for
    one point on it. *)
Definition oneSidedViewModel : MovingRange.ControlChartViewModel :=
  sampleViewModel [6; 7; 6; 5; 6; 7; 6; 7; 6; 7; 6]%Z true true true.

Definition oneSidedStages : list MovingRange.Stage := [sampleStage 0 10 5 0 9].


(** ** The domains of the axes

    [CreateAxes] leaves the domain of the x axis, which [GetMinMaxX] finds,
    and the domain of the y axis in the view model; the text is the same in
    both builds.  Of the axes only these four numbers are modelled.  Of d3
    the model keeps [d3.max] and [d3.min] over an array of numbers. *)

(** The number a position stands for on the x axis. *)
Definition positionValue (v : PrimitiveValue) : Q :=
  match v with
  | PNumber q => q
  | PDate ms => inject_Z ms
  | _ => 0
  end.

(** [ToNumber] of an operand of [<] or [>], or of the argument of
    [new Number]; the conversion of a string is outside the model. *)
Definition toNumber (v : PrimitiveValue) : Outcome Q :=
  match v with
  | PNumber q => Returns q
  | PDate ms => Returns (inject_Z ms)
  | PNull => Returns 0
  | PBool b => Returns (if b then 1 else 0)
  | PString _ => Unmodelled
  end.

(** [new Number(v)] and [new Date(v)], read as the number and the date they
    wrap; a date made from anything but a date is outside the model. *)
Definition newNumber (v : PrimitiveValue) : Outcome PrimitiveValue :=
  q <- toNumber v ;; Returns (PNumber q).

Definition newDate (v : PrimitiveValue) : Outcome PrimitiveValue :=
  match v with
  | PDate ms => Returns (PDate ms)
  | _ => Unmodelled
  end.

(** [a < b] and [a > b]. *)
Definition lessThan (a b : PrimitiveValue) : Outcome bool :=
  x <- toNumber a ;; y <- toNumber b ;; Returns (Qltb x y).

Definition greaterThan (a b : PrimitiveValue) : Outcome bool :=
  x <- toNumber a ;; y <- toNumber b ;; Returns (Qltb y x).

(** [d3.max(array, f)] and [d3.min(array, f)] over numbers: the first value,
    replaced by every later value that is greater (less); [None] is the
    [undefined] of an empty array. *)
Definition d3_max (array : list Q) : option Q :=
  match array with
  | [] => None
  | a :: rest => Some (fold_left (fun a b => if Qltb a b then b else a) rest a)
  end.

Definition d3_min (array : list Q) : option Q :=
  match array with
  | [] => None
  | a :: rest => Some (fold_left (fun a b => if Qltb b a then b else a) rest a)
  end.

(** [Math.max] and [Math.min] of two numbers. *)
Definition Math_max (a b : Q) : Q := if Qltb a b then b else a.
Definition Math_min (a b : Q) : Q := if Qltb b a then b else a.

(** What [CreateAxes] leaves in the view model. *)
Record AxisDomains : Type := {
  minX : PrimitiveValue;
  maxX : PrimitiveValue;
  minY : Q;
  maxY : Q
}.

Section Axes.

Variable Point : Type.
Variable xValue : Point -> PrimitiveValue.
Variable yValue : Point -> Q.

(** [for (var i in data)] of [GetMinMaxX], the rows [rest] still to come. *)
Fixpoint minMaxLoop (rest : list Point) (minValue maxValue : PrimitiveValue)
    : Outcome (PrimitiveValue * PrimitiveValue) :=
  match rest with
  | [] => Returns (minValue, maxValue)
  | p :: rest' =>
      let dt := xValue p in
      above <- lessThan maxValue dt ;;
      let maxValue' := if above then dt else maxValue in
      below <- greaterThan minValue dt ;;
      let minValue' := if below then dt else minValue in
      minMaxLoop rest' minValue' maxValue'
  end.

(** [GetMinMaxX()]: the values left in [minX] and [maxX]. *)
Definition GetMinMaxX (isDateRange : bool) (data : list Point)
    : Outcome (PrimitiveValue * PrimitiveValue) :=
  match data with
  | [] => TypeError                        (* [data[0].xValue] *)
  | first :: _ =>
      maxValue <- (if isDateRange then newDate (xValue first)
                   else newNumber (xValue first)) ;;
      minValue <- (if isDateRange then newDate (xValue first)
                   else newNumber (xValue first)) ;;
      minMaxLoop data minValue maxValue
  end.

(** [CreateAxes(...)]: the x domain, then the y domain from the data and the
    heights of the limit lines, widened by a twentieth away from the data.
    An empty array makes [d3.max] [undefined] and the domain NaN. *)
Definition CreateAxes (isDateRange : bool) (data : list Point)
    (uclLines lclLines : list (LimitSegment Q)) : Outcome AxisDomains :=
  xs <- GetMinMaxX isDateRange data ;;
  match d3_max (map yValue data), d3_min (map yValue data),
        d3_max (map y1 uclLines), d3_min (map y1 lclLines) with
  | Some dataMax, Some dataMin, Some yMax, Some yMin =>
      let yMin1 := Math_min dataMin yMin in
      let yMin2 := if Qltb yMin1 0 then yMin1 * 1.05 else yMin1 * 0.95 in
      let yMax1 := Math_max dataMax yMax in
      let yMax2 := if Qltb 0 yMax1 then yMax1 * 1.05 else yMax1 * 0.95 in
      Returns {| minX := fst xs; maxX := snd xs; minY := yMin2; maxY := yMax2 |}
  | _, _, _, _ => Unmodelled
  end.

End Axes.

(** Dated rows, not in order of date. *)
Definition datedPoints : list MovingRange.ChartDataPoint :=
  [ {| MovingRange.xValue := PDate 300; MovingRange.yValue := 4; MovingRange.MRSum := 0 |};
    {| MovingRange.xValue := PDate 100; MovingRange.yValue := 6; MovingRange.MRSum := 0 |};
    {| MovingRange.xValue := PDate 200; MovingRange.yValue := 8; MovingRange.MRSum := 0 |} ].


(** ** Data the moving-range build draws *)







(** ** Data the subgroup build draws *)




(** ** The lines as a drawing *)

(** Two segments of a line that meet: the second starts where the first
    ends. *)
Definition joined {N : Type} (a b : LimitSegment N) : Prop :=
  x2 a = x1 b /\ y2 a = y1 b.

(** A segment that ends at the divider of a stage, at the height of its
    mean. *)
Definition endsAt (s : MovingRange.Stage) (l : LimitSegment Q) : Prop :=
  x2 l = MovingRange.stageDividerX s /\ y2 l = MovingRange.mean s.

(** The same in the subgroup build, where every stage has its three
    segments. *)
Definition lineStartSD (previous : option SubgroupSD.Stage) (s : SubgroupSD.Stage)
    : PrimitiveValue :=
  match previous with
  | Some p => SubgroupSD.stageDividerX p
  | None => SubgroupSD.startX s
  end.

Fixpoint meanLinesFromSD (previous : option SubgroupSD.Stage) (stages : list SubgroupSD.Stage)
    : list (LimitSegment Q) :=
  match stages with
  | [] => []
  | s :: rest =>
      {| x1 := lineStartSD previous s;
         y1 := match previous with
               | Some p => SubgroupSD.mean p
               | None => SubgroupSD.mean s
               end;
         x2 := SubgroupSD.stageDividerX s; y2 := SubgroupSD.mean s |}
      :: meanLinesFromSD (Some s) rest
  end.

Definition endsAtSD (s : SubgroupSD.Stage) (l : LimitSegment Q) : Prop :=
  x2 l = SubgroupSD.stageDividerX s /\ y2 l = SubgroupSD.mean s.

(** A limit line of a stage: level, over the stretch of the stage's segment
    of the mean line. *)
Definition levelAlong (height : SubgroupSD.Stage -> option Q) (s : SubgroupSD.Stage)
    (m : LimitSegment Q) (l : LimitSegment (option Q)) : Prop :=
  x1 l = x1 m /\ x2 l = x2 m /\ y1 l = height s /\ y2 l = height s.

(** What the two passes of [CalcStats] leave of the place of a stage. *)
Definition placedSD (s s' : SubgroupSD.Stage) : Prop :=
  SubgroupSD.startX s' = SubgroupSD.startX s
  /\ SubgroupSD.stageDividerX s' = SubgroupSD.stageDividerX s.

(** Three lists that go together element by element. *)
Inductive Forall3 {A B C : Type} (R : A -> B -> C -> Prop)
    : list A -> list B -> list C -> Prop :=
| Forall3_nil : Forall3 R [] [] []
| Forall3_cons : forall a b c la lb lc,
    R a b c -> Forall3 R la lb lc -> Forall3 R (a :: la) (b :: lb) (c :: lc).


(** The series -1, 3 at the positions 1, 2 with Rule 1 on and the number of
    standard deviations set to -0.564. *)
Definition crossedLimitsOptions : VisualUpdateOptions :=
  sampleOptions [PNumber 1; PNumber 2] [PNumber (-1); PNumber 3] None
    {| obj_standardDeviations := Some (-0.564); obj_movingRange := None;
       obj_useSDSubGroups := None;
       obj_runRule1 := Some true; obj_runRule2 := Some false; obj_runRule3 := Some false;
       obj_showDividers := None |}.

(** * Properties *)

(** ** Numbers and outcomes *)

Lemma Qltb_lt (a b : Q) : Qltb a b = true <-> a < b.
Proof.
  unfold Qltb. rewrite negb_true_iff. split; intro H.
  - apply Qnot_le_lt. intro Hle. apply Qle_bool_iff in Hle. congruence.
  - destruct (Qle_bool b a) eqn:E; [|reflexivity].
    apply Qle_bool_iff in E. exfalso. exact (Qlt_not_le _ _ H E).
Qed.

Lemma Qltb_ge (a b : Q) : Qltb a b = false <-> b <= a.
Proof.
  unfold Qltb. rewrite negb_false_iff. apply Qle_bool_iff.
Qed.

Lemma Qltb_irrefl (a : Q) : Qltb a a = false.
Proof. apply Qltb_ge, Qle_refl. Qed.

Lemma bind_Returns {A B : Type} (a : A) (k : A -> Outcome B) : bind (Returns a) k = k a.
Proof. reflexivity. Qed.

Lemma bind_returns {A B : Type} (c : Outcome A) (k : A -> Outcome B) (b : B) :
  bind c k = Returns b <-> exists a, c = Returns a /\ k a = Returns b.
Proof.
  destruct c as [a| |]; simpl; split.
  - intro H. exists a. auto.
  - intros [a' [Ha Hk]]. inversion Ha. subst. exact Hk.
  - discriminate.
  - intros [a' [Ha _]]. discriminate.
  - discriminate.
  - intros [a' [Ha _]]. discriminate.
Qed.

(** ** The d2 table and the moving-range window *)

Lemma Math_round_nearest (q : Q) :
  q - (1 # 2) < inject_Z (Math_round q) /\ inject_Z (Math_round q) <= q + (1 # 2).
Proof.
  unfold Math_round. split.
  - pose proof (Qlt_floor (q + (1 # 2))) as H.
    rewrite inject_Z_plus in H.
    apply Qplus_lt_l with (z := 1).
    eapply Qle_lt_trans; [|exact H].
    ring_simplify. apply Qle_refl.
  - apply Qfloor_le.
Qed.

Lemma Math_round_integer (z : Z) : Math_round (inject_Z z) = z.
Proof.
  unfold Math_round.
  assert (Hlo : (z <= Qfloor (inject_Z z + (1 # 2)))%Z).
  { rewrite <- (Qfloor_Z z) at 1. apply Qfloor_resp_le.
    rewrite <- (Qplus_0_r (inject_Z z)) at 1.
    apply Qplus_le_r. discriminate. }
  assert (Hhi : (Qfloor (inject_Z z + (1 # 2)) < z + 1)%Z).
  { rewrite Zlt_Qlt. eapply Qle_lt_trans; [apply Qfloor_le|].
    rewrite inject_Z_plus. apply Qplus_lt_r. reflexivity. }
  lia.
Qed.

Lemma clampMovingRange_outside (q : Q) :
  q < 2 \/ 50 < q -> MovingRange.clampMovingRange q = 2%Z.
Proof.
  intros [H | H]; unfold MovingRange.clampMovingRange.
  - apply Qltb_lt in H. rewrite H. reflexivity.
  - apply Qltb_lt in H. rewrite H. rewrite orb_true_r. reflexivity.
Qed.

Lemma clampMovingRange_inside (q : Q) :
  2 <= q <= 50 -> MovingRange.clampMovingRange q = Math_round q.
Proof.
  intros [Hlo Hhi]. unfold MovingRange.clampMovingRange.
  apply Qltb_ge in Hlo. apply Qltb_ge in Hhi. rewrite Hlo, Hhi. reflexivity.
Qed.

Lemma clampMovingRange_range (q : Q) :
  (2 <= MovingRange.clampMovingRange q <= 50)%Z.
Proof.
  unfold MovingRange.clampMovingRange.
  destruct (Qltb q 2) eqn:Elo; simpl; [lia|].
  destruct (Qltb 50 q) eqn:Ehi; simpl; [lia|].
  apply Qltb_ge in Elo. apply Qltb_ge in Ehi.
  unfold Math_round. split.
  - change 2%Z with (Qfloor (2 + (1 # 2))). apply Qfloor_resp_le.
    apply Qplus_le_l. exact Elo.
  - change 50%Z with (Qfloor (50 + (1 # 2))). apply Qfloor_resp_le.
    apply Qplus_le_l. exact Ehi.
Qed.

(** What [visualTransform] makes of the first data view: the neutral view
    model, without points, or a view model with points whose window is the
    setting of that view, defaulted and clamped. *)
Lemma visualTransform_window (options : VisualUpdateOptions) (views : list DataView)
    (view : DataView) (viewModel : MovingRange.ControlChartViewModel) :
  dataViews options = Some views -> nth_error views 0 = Some view ->
  MovingRange.visualTransform options = Returns viewModel ->
  (viewModel = MovingRange.neutralViewModel
   /\ MovingRange.dataPoints viewModel = [])
  \/ (MovingRange.dataPoints viewModel <> []
      /\ MovingRange.movingRange viewModel
         = MovingRange.clampMovingRange (getValue (obj_movingRange (objects view)) 2)).
Proof.
  intros Hviews Hview H.
  unfold MovingRange.visualTransform in H. rewrite Hviews, Hview in H.
  destruct (categorical view) as [cat|]; [|inversion H; left; split; reflexivity].
  destruct (categories cat) as [cats|]; [|inversion H; left; split; reflexivity].
  destruct (nth_error cats 0) as [category|]; [|discriminate H].
  destruct (cat_source category);
    [|inversion H; left; split; reflexivity].
  destruct (values cat) as [columns|]; [|inversion H; left; split; reflexivity].
  destruct (nth_error columns 0) as [dataValue|]; [|discriminate H].
  cbv zeta in H.
  match type of H with
  | (if ?c then _ else _) = _ => destruct c eqn:Eusable
  end; [|inversion H; left; split; reflexivity].
  apply bind_returns in H. destruct H as (points & Hpoints & H).
  inversion H; subst viewModel; clear H. right. cbn. split; [|reflexivity].
  destruct (cat_values category) as [|x xs].
  - discriminate Eusable.
  - cbn [MovingRange.ChartDataPointsFrom] in Hpoints.
    apply bind_returns in Hpoints. destruct Hpoints as (y & _ & Hpoints).
    apply bind_returns in Hpoints. destruct Hpoints as (rest & _ & Hpoints).
    inversion Hpoints. discriminate.
Qed.

(** C9. The moving-range window is resolved by a total function: whatever
    the setting (absent, or any number), the window is an integer between 2
    and 50; an absent setting gives the default 2; a number below 2 or above
    50 gives 2; a number from 2 to 50 gives [Math.round] of it, which is within
    one half of it and is the number itself when that is an integer.  The
    window [visualTransform] stores is that function of the setting
    [movingRange] of the first data view: a view model that carries points
    has the window [clampMovingRange (getValue setting 2)], and the only
    other view model [visualTransform] returns is the neutral one, whose
    window is 2; so the window stored is always from 2 to 50.  On the series
    1,2,3 the settings absent, 1, 2.5, 5, 50 and 51 are stored as the windows
    2, 2, 3, 5, 50 and 2. *)
Theorem movingRange_window_resolved :
  forall setting : option Q,
    let window := MovingRange.clampMovingRange (getValue setting 2) in
    (2 <= window <= 50)%Z
    /\ (setting = None -> window = 2%Z)
    /\ (forall q, setting = Some q -> q < 2 \/ 50 < q -> window = 2%Z)
    /\ (forall q, setting = Some q -> 2 <= q <= 50 ->
          window = Math_round q
          /\ q - (1 # 2) < inject_Z window /\ inject_Z window <= q + (1 # 2))
    /\ (forall z, setting = Some (inject_Z z) -> (2 <= z <= 50)%Z -> window = z)
    /\ (forall options viewModel,
          MovingRange.visualTransform options = Returns viewModel ->
          (2 <= MovingRange.movingRange viewModel <= 50)%Z)
    /\ (forall options views view viewModel,
          dataViews options = Some views -> nth_error views 0 = Some view ->
          MovingRange.visualTransform options = Returns viewModel ->
          (MovingRange.dataPoints viewModel <> [] ->
             MovingRange.movingRange viewModel
             = MovingRange.clampMovingRange (getValue (obj_movingRange (objects view)) 2))
          /\ (MovingRange.dataPoints viewModel = [] ->
                viewModel = MovingRange.neutralViewModel
                /\ MovingRange.movingRange viewModel = 2%Z))
    /\ (forall xs ys labels r1 r2 r3 viewModel,
          MovingRange.visualTransform
            (sampleOptions xs ys labels (sampleObjects None setting r1 r2 r3))
          = Returns viewModel ->
          MovingRange.dataPoints viewModel <> [] ->
          MovingRange.movingRange viewModel = window)
    /\ map (fun given =>
              match MovingRange.visualTransform
                      (sampleOptions [PNumber 1; PNumber 2; PNumber 3]
                         [PNumber 1; PNumber 2; PNumber 3] None
                         (sampleObjects None given false false false)) with
              | Returns viewModel =>
                  Some (MovingRange.movingRange viewModel,
                        List.length (MovingRange.dataPoints viewModel))
              | _ => None
              end)
           [None; Some 1; Some 2.5; Some 5; Some 50; Some 51]
       = [Some (2%Z, 3%nat); Some (2%Z, 3%nat); Some (3%Z, 3%nat);
          Some (5%Z, 3%nat); Some (50%Z, 3%nat); Some (2%Z, 3%nat)].
Proof.
  intros setting window. subst window.
  split; [apply clampMovingRange_range|].
  split; [intros ->; reflexivity|].
  split; [intros q -> H; simpl; apply clampMovingRange_outside; exact H|].
  split.
  { intros q -> H. simpl. rewrite (clampMovingRange_inside q H).
    split; [reflexivity|]. apply Math_round_nearest. }
  split.
  { intros z -> [Hlo Hhi]. simpl. rewrite clampMovingRange_inside.
    - apply Math_round_integer.
    - unfold Qle; simpl; lia. }
  split.
  { intros options viewModel H.
    unfold MovingRange.visualTransform in H.
    repeat match type of H with
    | Returns _ = Returns _ => inversion H; subst; clear H
    | TypeError = Returns _ => discriminate H
    | match ?x with _ => _ end = Returns _ => destruct x eqn:?
    | (if ?x then _ else _) = Returns _ => destruct x eqn:?
    | bind _ _ = Returns _ => apply bind_returns in H; destruct H as [points [_ H]]
    end; simpl; try lia; apply clampMovingRange_range. }
  split.
  { intros options views view viewModel Hviews Hview H.
    destruct (visualTransform_window options views view viewModel Hviews Hview H)
      as [[Hn He]|[Hne Hw]].
    - split; [intro C; contradiction|]. intros _. split; [exact Hn|].
      rewrite Hn. reflexivity.
    - split; [intros _; exact Hw|]. intro C. contradiction. }
  split; [|vm_compute; reflexivity].
  intros xs ys labels r1 r2 r3 viewModel H Hne.
  destruct (visualTransform_window
              (sampleOptions xs ys labels (sampleObjects None setting r1 r2 r3))
              [sampleView xs ys labels (sampleObjects None setting r1 r2 r3)]
              (sampleView xs ys labels (sampleObjects None setting r1 r2 r3))
              viewModel eq_refl eq_refl H)
    as [[_ He]|[_ Hw]]; [contradiction|exact Hw].
Qed.

Lemma LookUpd2_in_table (n : Z) :
  (1 <= n <= 50)%Z ->
  exists d, MovingRange.LookUpd2 n = Some d
            /\ nth_error MovingRange.d2Array (Z.to_nat (n - 1)) = Some d.
Proof.
  intros Hn. unfold MovingRange.LookUpd2.
  destruct (0 <? n)%Z eqn:E; [|apply Z.ltb_ge in E; lia].
  destruct (nth_error MovingRange.d2Array (Z.to_nat (n - 1))) as [d|] eqn:Hd.
  - exists d. split; reflexivity.
  - apply nth_error_None in Hd. change (List.length MovingRange.d2Array) with 50%nat in Hd. lia.
Qed.

(** C10, as amended. [LookUpd2] answers 1.128 for 2 and 2.326 for 5, and 1
    for every window that is 0 or negative; for 1 to 50 it reads a fixed
    table of fifty entries, whose first entry (the window 1) is 1 and whose
    next entries are 1.128, 1.693, 2.059 and 2.326. *)
Theorem LookUpd2_table :
  MovingRange.LookUpd2 2 = Some 1.128
  /\ MovingRange.LookUpd2 5 = Some 2.326
  /\ (forall n, (n <= 0)%Z -> MovingRange.LookUpd2 n = Some 1)
  /\ List.length MovingRange.d2Array = 50%nat
  /\ (forall n, (1 <= n <= 50)%Z ->
        exists d, MovingRange.LookUpd2 n = Some d
                  /\ nth_error MovingRange.d2Array (Z.to_nat (n - 1)) = Some d)
  /\ map MovingRange.LookUpd2 [1; 2; 3; 4; 5]%Z
     = [Some 1; Some 1.128; Some 1.693; Some 2.059; Some 2.326].
Proof.
  split; [reflexivity|]. split; [reflexivity|].
  split.
  { intros n Hn. unfold MovingRange.LookUpd2.
    destruct (0 <? n)%Z eqn:E; [apply Z.ltb_lt in E; lia | reflexivity]. }
  split; [reflexivity|].
  split; [|reflexivity].
  exact LookUpd2_in_table.
Qed.

(** C10, the claim as stated fails at the window 1: the table that serves
    the windows 1 to 50 starts with 1, not with 1.128, so the values for
    1, 2, 3, 4 are not 1.128, 1.693, 2.059, 2.326. *)
Lemma LookUpd2_table_starts_with_one :
  MovingRange.LookUpd2 1 = Some 1
  /\ ~ (1 == 1.128)
  /\ map MovingRange.LookUpd2 [1; 2; 3; 4]%Z
     <> [Some 1.128; Some 1.693; Some 2.059; Some 2.326].
Proof.
  split; [reflexivity|]. split; [|discriminate].
  intro H. discriminate H.
Qed.

(** ** The rule evaluator: how the state moves *)

(** *** Run lists *)

Lemma runInvariant_start (continues : nat -> bool) (first : nat) (pts : list nat) :
  Rules.runInvariant continues first first (Rules.nextRun continues [] first) pts.
Proof.
  exists first. split; [lia|]. split; [lia|]. split.
  { unfold Rules.nextRun. replace (S first - first)%nat with 1%nat by lia.
    destruct ((first =? 0) || continues first); reflexivity. }
  split; [intros; lia|]. split; [left; reflexivity|]. intros; lia.
Qed.

(** A block of continuing points that reaches into the current run starts
    inside it. *)
Lemma block_inside_run (continues : nat -> bool) (first a a' b' : nat) :
  (a = first \/ continues a = false) ->
  (first <= a')%nat -> (a <= b')%nat ->
  (forall k, (a' < k)%nat -> (k <= b')%nat -> continues k = true) ->
  (a <= a')%nat.
Proof.
  intros Ha Hfirst Hab Hcont.
  destruct (Nat.le_gt_cases a a') as [H | H]; [exact H|].
  destruct Ha as [Ha | Ha]; [lia|].
  rewrite (Hcont a H Hab) in Ha. discriminate.
Qed.

Lemma runInvariant_step (continues : nat -> bool) (first m : nat) (run pts pts' : list nat) :
  Rules.runInvariant continues first m run pts ->
  incl (pts ++ Rules.closedRun continues run (S m)) pts' ->
  Rules.runInvariant continues first (S m) (Rules.nextRun continues run (S m)) pts'.
Proof.
  intros [a [Hfa [Ham [Hrun [Hcont [Hleft Hdrawn]]]]]] Hincl.
  unfold Rules.nextRun, Rules.closedRun in *. simpl Nat.eqb in *. simpl orb in *.
  destruct (continues (S m)) eqn:E.
  - exists a. split; [lia|]. split; [lia|]. split; [|split; [|split]].
    + rewrite Hrun. replace (S (S m) - a)%nat with (S (S m - a)) by lia.
      rewrite seq_S. f_equal. f_equal. lia.
    + intros k Hk1 Hk2. destruct (Nat.eq_dec k (S m)) as [-> | Hne]; [exact E|].
      apply Hcont; lia.
    + exact Hleft.
    + intros x a' b' H1 H2 H3 H4 H5 H6. apply Hincl. apply in_or_app. left.
      apply (Hdrawn x a' b'); assumption.
  - exists (S m). split; [lia|]. split; [lia|]. split; [|split; [|split]].
    + replace (S (S m) - S m)%nat with 1%nat by lia. reflexivity.
    + intros; lia.
    + right. exact E.
    + intros x a' b' H1 H2 H3 H4 H5 H6. apply Hincl.
      destruct (Nat.le_gt_cases a b') as [Hab | Hab].
      * pose proof (block_inside_run continues first a a' b' Hleft H1 Hab H6) as Haa.
        apply in_or_app. right.
        assert (Hlen : (5 <? List.length run) = true).
        { apply Nat.ltb_lt. rewrite Hrun, length_seq. lia. }
        rewrite Hlen, Hrun. apply in_seq. lia.
      * apply in_or_app. left. apply (Hdrawn x a' b'); assumption || lia.
Qed.

Lemma runInvariant_end (continues : nat -> bool) (first last : nat) (run pts pts' : list nat) :
  Rules.runInvariant continues first last run pts ->
  incl (pts ++ (if 5 <? List.length run then run else [])) pts' ->
  forall x, Rules.inBlock continues 5 first last x -> In x pts'.
Proof.
  intros [a [Hfa [Ham [Hrun [Hcont [Hleft Hdrawn]]]]]] Hincl x
         [a' [b' [H1 [H2 [H3 [H4 [H5 H6]]]]]]].
  apply Hincl.
  destruct (Nat.le_gt_cases a b') as [Hab | Hab].
  - pose proof (block_inside_run continues first a a' b' Hleft H1 Hab H6) as Haa.
    apply in_or_app. right.
    assert (Hlen : (5 <? List.length run) = true).
    { apply Nat.ltb_lt. rewrite Hrun, length_seq. lia. }
    rewrite Hlen, Hrun. apply in_seq. lia.
  - apply in_or_app. left. apply (Hdrawn x a' b'); assumption || lia.
Qed.

(** A run list that is drawn is a block of more than five continuing points. *)
Lemma drawn_run_is_block (continues : nat -> bool) (first m : nat) (run pts : list nat) (x : nat) :
  Rules.runInvariant continues first m run pts ->
  In x (if 5 <? List.length run then run else []) ->
  Rules.inBlock continues 5 first m x.
Proof.
  intros [a [Hfa [Ham [Hrun [Hcont _]]]]] Hx.
  destruct (5 <? List.length run) eqn:E; [|destruct Hx].
  apply Nat.ltb_lt in E. rewrite Hrun in Hx, E. rewrite length_seq in E.
  apply in_seq in Hx. exists a, m.
  split; [lia|]. split; [lia|]. split; [lia|]. split; [lia|]. split; [lia|]. exact Hcont.
Qed.

Lemma inBlock_later (continues : nat -> bool) (bound first m m' x : nat) :
  (m <= m')%nat -> Rules.inBlock continues bound first m x ->
  Rules.inBlock continues bound first m' x.
Proof.
  intros Hm [a [b [H1 [H2 [H3 [H4 [H5 H6]]]]]]]. exists a, b.
  split; [lia|]. split; [lia|]. split; [lia|]. split; [lia|]. split; [lia|]. exact H6.
Qed.

Lemma closedRun_subset (continues : nat -> bool) (run : list nat) (j x : nat) :
  In x (Rules.closedRun continues run j) ->
  In x (if 5 <? List.length run then run else []).
Proof.
  unfold Rules.closedRun. destruct ((j =? 0) || continues j); [intros []|auto].
Qed.

Lemma indexRange_In (first last j : nat) :
  In j (indexRange first last) <-> (first <= j)%nat /\ (j <= last)%nat.
Proof. unfold indexRange. rewrite in_seq. lia. Qed.

Lemma indexRange_snoc (first last : nat) :
  (first <= S last)%nat ->
  indexRange first (S last) = indexRange first last ++ [S last].
Proof.
  intro H. unfold indexRange.
  replace (S (S last) - first)%nat with (S (S last - first)) by lia.
  rewrite seq_S. f_equal. f_equal. lia.
Qed.

Lemma filter_none {A : Type} (l : list A) : filter (fun _ => false) l = [].
Proof. induction l as [|a l IH]; [reflexivity | exact IH]. Qed.

Section RuleFacts.

Variables Stage Point : Type.
Variables firstId lastId : Stage -> nat.
Variables uCL lCL mean : Stage -> Q.
Variable yValue : Point -> Q.
Variables runRule1 runRule2 runRule3 : bool.
Variable data : list Point.

Local Abbreviation yAt := (Rules.yAt Point yValue data).
Local Abbreviation rule1 := (Rules.rule1 Stage Point uCL lCL yValue runRule1 data).
Local Abbreviation rule2 := (Rules.rule2 Point yValue runRule2 data).
Local Abbreviation rule3 := (Rules.rule3 Stage Point mean yValue runRule3 data).
Local Abbreviation rulesAtPoint :=
  (Rules.rulesAtPoint Stage Point uCL lCL mean yValue runRule1 runRule2 runRule3 data).
Local Abbreviation rulesOverPoints :=
  (Rules.rulesOverPoints Stage Point uCL lCL mean yValue runRule1 runRule2 runRule3 data).
Local Abbreviation rulesOverStage :=
  (Rules.rulesOverStage Stage Point firstId lastId uCL lCL mean yValue
     runRule1 runRule2 runRule3 data).
Local Abbreviation rulesOverStages :=
  (Rules.rulesOverStages Stage Point firstId lastId uCL lCL mean yValue
     runRule1 runRule2 runRule3 data).
Local Abbreviation ApplyRules :=
  (Rules.ApplyRules Stage Point firstId lastId uCL lCL mean yValue
     runRule1 runRule2 runRule3 data).
Local Abbreviation beyondLimits := (Rules.beyondLimits Stage Point uCL lCL yValue data).
Local Abbreviation rises := (Rules.rises Point yValue data).
Local Abbreviation falls := (Rules.falls Point yValue data).
Local Abbreviation stageInData := (Rules.stageInData Stage Point firstId lastId data).
Local Abbreviation afterRule1 := (Rules.afterRule1 Stage Point uCL lCL yValue runRule1 data).
Local Abbreviation afterRule2 := (Rules.afterRule2 Point yValue data).
Local Abbreviation nextRun := Rules.nextRun.
Local Abbreviation closedRun := Rules.closedRun.
Local Abbreviation stageStart := Rules.stageStart.
Local Abbreviation trendsOnly := (Rules.trendsOnly Point yValue data).

Lemma yAt_in_data (j : nat) :
  (j < List.length data)%nat ->
  exists p, nth_error data j = Some p /\ yAt j = Returns (yValue p).
Proof.
  intro H. unfold Rules.yAt.
  destruct (nth_error data j) as [p|] eqn:E.
  - exists p. split; reflexivity.
  - apply nth_error_None in E. lia.
Qed.

Lemma yAt_inv (j : nat) (y : Q) :
  yAt j = Returns y -> exists p, nth_error data j = Some p /\ y = yValue p.
Proof.
  unfold Rules.yAt. destruct (nth_error data j) as [p|]; [|discriminate].
  intro H. inversion H. exists p. split; reflexivity.
Qed.


Lemma rule1_inv (s : Stage) (j : nat) (st st' : Rules.RuleState) :
  rule1 s j st = Returns st' -> st' = afterRule1 s j st.
Proof.
  unfold Rules.rule1, Rules.afterRule1. destruct runRule1; simpl.
  - intro H. apply bind_returns in H. destruct H as [y [Hy H]].
    apply yAt_inv in Hy. destruct Hy as [p [Hp ->]].
    unfold Rules.beyondLimits. rewrite Hp. inversion H. reflexivity.
  - intro H. inversion H. reflexivity.
Qed.

Lemma rule1_in_data (s : Stage) (j : nat) (st : Rules.RuleState) :
  (j < List.length data)%nat -> rule1 s j st = Returns (afterRule1 s j st).
Proof.
  intro Hj. unfold Rules.rule1, Rules.afterRule1. destruct runRule1; simpl; [|reflexivity].
  destruct (yAt_in_data j Hj) as [p [Hp Hy]]. rewrite Hy. simpl.
  unfold Rules.beyondLimits. rewrite Hp. reflexivity.
Qed.


Lemma rule2_step (j : nat) (st : Rules.RuleState) (y yp : Q) (p c : Point) :
  beforeIndex data j = Some p -> nth_error data j = Some c ->
  yp = yValue p -> y = yValue c ->
  (let st1 :=
     if Qltb yp y then Rules.setInc (Rules.consecIncPoints st ++ [j]) st
     else Rules.setInc [j] (Rules.drawIfLonger 5 (Rules.consecIncPoints st) st) in
   if Qltb y yp then Rules.setDec (Rules.consecDecPoints st1 ++ [j]) st1
   else Rules.setDec [j] (Rules.drawIfLonger 5 (Rules.consecDecPoints st1) st1))
  = afterRule2 j st.
Proof.
  intros Hp Hc -> ->. destruct j as [|j']; [discriminate Hp|].
  unfold Rules.afterRule2, Rules.nextRun, Rules.closedRun, Rules.rises, Rules.falls.
  rewrite Hp, Hc. simpl Nat.eqb. simpl orb.
  destruct st as [U L Inc Dec M R]. simpl.
  unfold Rules.drawIfLonger, Rules.setInc, Rules.setDec, Rules.DrawRulePoints.
  destruct (Qltb (yValue p) (yValue c)), (Qltb (yValue c) (yValue p));
    simpl; destruct (5 <? List.length Inc); simpl;
    destruct (5 <? List.length Dec); simpl;
    rewrite ?app_nil_r, <- ?app_assoc; reflexivity.
Qed.

Lemma rule2_inv (j : nat) (st st' : Rules.RuleState) :
  runRule2 = true -> rule2 j st = Returns st' -> st' = afterRule2 j st.
Proof.
  intros Hon H. unfold Rules.rule2 in H. rewrite Hon in H.
  destruct j as [|p].
  - inversion H. unfold Rules.afterRule2, Rules.nextRun, Rules.closedRun. simpl.
    destruct st; simpl. rewrite app_nil_r. reflexivity.
  - apply bind_returns in H. destruct H as [y [Hy H]].
    apply bind_returns in H. destruct H as [yp [Hyp H]].
    apply yAt_inv in Hy. destruct Hy as [c [Hc Hy]].
    apply yAt_inv in Hyp. destruct Hyp as [q [Hq Hyp]].
    injection H as H. rewrite <- H.
    apply rule2_step with (p := q) (c := c); assumption.
Qed.

Lemma rule2_in_data (j : nat) (st : Rules.RuleState) :
  runRule2 = true -> (j < List.length data)%nat -> rule2 j st = Returns (afterRule2 j st).
Proof.
  intros Hon Hj. unfold Rules.rule2. rewrite Hon.
  destruct j as [|p].
  - unfold Rules.afterRule2, Rules.nextRun, Rules.closedRun. simpl.
    destruct st; simpl. rewrite app_nil_r. reflexivity.
  - destruct (yAt_in_data (S p) Hj) as [c [Hc Hy]].
    assert (Hp : (p < List.length data)%nat) by lia.
    destruct (yAt_in_data p Hp) as [q [Hq Hyp]].
    rewrite Hy. simpl. rewrite Hyp. simpl. f_equal.
    apply rule2_step with (p := q) (c := c); auto.
Qed.

Lemma rule2_off (j : nat) (st : Rules.RuleState) :
  runRule2 = false -> rule2 j st = Returns st.
Proof. intro H. unfold Rules.rule2. rewrite H. reflexivity. Qed.

Lemma rule3_off (s : Stage) (j : nat) (st : Rules.RuleState) :
  runRule3 = false -> rule3 s j st = Returns st.
Proof. intro H. unfold Rules.rule3. rewrite H. reflexivity. Qed.

(** Rule 3 leaves the lists of the other rules alone and only adds dots. *)
Lemma rule3_frame (s : Stage) (j : nat) (st st' : Rules.RuleState) :
  rule3 s j st = Returns st' ->
  Rules.consecIncPoints st' = Rules.consecIncPoints st
  /\ Rules.consecDecPoints st' = Rules.consecDecPoints st
  /\ Rules.meanPoints st' = Rules.meanPoints st
  /\ exists extra, Rules.rulePoints st' = Rules.rulePoints st ++ extra.
Proof.
  unfold Rules.rule3. destruct runRule3.
  - intro H. apply bind_returns in H. destruct H as [y [_ H]].
    inversion H. clear H. destruct st as [U L Inc Dec M R].
    unfold Rules.drawIfLonger, Rules.DrawRulePoints, Rules.setU, Rules.setL. simpl.
    destruct (Qltb (mean s) y); [|destruct (Qltb y (mean s))]; simpl.
    + destruct (8 <? List.length L); simpl; repeat split; eauto.
      exists []. rewrite app_nil_r. reflexivity.
    + destruct (8 <? List.length U); simpl; repeat split; eauto.
      exists []. rewrite app_nil_r. reflexivity.
    + repeat split. exists []. rewrite app_nil_r. reflexivity.
  - intro H. inversion H. repeat split. exists []. rewrite app_nil_r. reflexivity.
Qed.

Lemma rule3_in_data (s : Stage) (j : nat) (st : Rules.RuleState) :
  (j < List.length data)%nat -> exists st', rule3 s j st = Returns st'.
Proof.
  intro Hj. unfold Rules.rule3. destruct runRule3; [|eauto].
  destruct (yAt_in_data j Hj) as [p [_ Hy]]. rewrite Hy. simpl. eauto.
Qed.

Lemma rule2_total (j : nat) (st : Rules.RuleState) :
  (j < List.length data)%nat -> exists st', rule2 j st = Returns st'.
Proof.
  intro Hj.
  assert (E : runRule2 = true \/ runRule2 = false) by (destruct runRule2; auto).
  destruct E as [E | E].
  - eexists. apply rule2_in_data; assumption.
  - eexists. apply rule2_off; assumption.
Qed.

Lemma rulesAtPoint_in_data (s : Stage) (j : nat) (st : Rules.RuleState) :
  (j < List.length data)%nat -> exists st', rulesAtPoint s j st = Returns st'.
Proof.
  intro Hj. unfold Rules.rulesAtPoint.
  rewrite (rule1_in_data s j st Hj). simpl.
  destruct (rule2_total j (afterRule1 s j st) Hj) as [st2 H2]. rewrite H2. simpl.
  apply rule3_in_data. exact Hj.
Qed.

Lemma rulesOverPoints_in_data (s : Stage) (js : list nat) (st : Rules.RuleState) :
  (forall j, In j js -> (j < List.length data)%nat) ->
  exists st', rulesOverPoints s js st = Returns st'.
Proof.
  revert st. induction js as [|j js IH]; intros st H; simpl.
  - eauto.
  - destruct (rulesAtPoint_in_data s j st) as [st1 H1]; [apply H; left; reflexivity|].
    rewrite H1. simpl. apply IH. intros k Hk. apply H. right. exact Hk.
Qed.

Lemma rulesOverStage_in_data (s : Stage) (st : Rules.RuleState) :
  stageInData s -> exists st', rulesOverStage s st = Returns st'.
Proof.
  intro H. unfold Rules.rulesOverStage.
  destruct (rulesOverPoints_in_data s (indexRange (firstId s) (lastId s)) st) as [st1 H1].
  - intros j Hj. apply indexRange_In in Hj. unfold Rules.stageInData in H. lia.
  - rewrite H1. simpl. eauto.
Qed.

Lemma rulesOverStages_in_data (stages : list Stage) (st : Rules.RuleState) :
  Forall stageInData stages -> exists st', rulesOverStages stages st = Returns st'.
Proof.
  revert st. induction stages as [|s rest IH]; intros st H; simpl.
  - eauto.
  - inversion H as [|? ? Hs Hrest]; subst.
    destruct (rulesOverStage_in_data s st Hs) as [st1 H1]. rewrite H1. simpl.
    apply IH. exact Hrest.
Qed.

(** [ApplyRules] returns whenever the stages index points that exist. *)
Lemma ApplyRules_in_data (stages : list Stage) :
  Forall stageInData stages -> exists flagged, ApplyRules stages = Returns flagged.
Proof.
  intro H. unfold Rules.ApplyRules.
  destruct (rulesOverStages_in_data stages Rules.initialRuleState H) as [st Hst].
  rewrite Hst. simpl. eauto.
Qed.

(** *** Rule 1 *)

Lemma rule2_frame (j : nat) (st st' : Rules.RuleState) :
  rule2 j st = Returns st' ->
  Rules.consecutiveUPoints st' = Rules.consecutiveUPoints st
  /\ Rules.consecutiveLPoints st' = Rules.consecutiveLPoints st
  /\ Rules.meanPoints st' = Rules.meanPoints st
  /\ exists extra, Rules.rulePoints st' = Rules.rulePoints st ++ extra.
Proof.
  intro H.
  assert (E : runRule2 = true \/ runRule2 = false) by (destruct runRule2; auto).
  destruct E as [E | E].
  - apply (rule2_inv j st st' E) in H. subst st'. simpl. repeat split. eauto.
  - rewrite (rule2_off j st E) in H. inversion H. repeat split.
    exists []. rewrite app_nil_r. reflexivity.
Qed.

(** What one point adds to [meanPoints]. *)
Lemma rulesAtPoint_meanPoints (s : Stage) (j : nat) (st st' : Rules.RuleState) :
  rulesAtPoint s j st = Returns st' ->
  Rules.meanPoints st' =
    Rules.meanPoints st ++ (if runRule1 && beyondLimits s j then [j] else [])
  /\ exists extra, Rules.rulePoints st' = Rules.rulePoints st ++ extra.
Proof.
  intro H. unfold Rules.rulesAtPoint in H.
  apply bind_returns in H. destruct H as [st1 [H1 H]].
  apply bind_returns in H. destruct H as [st2 [H2 H3]].
  apply rule1_inv in H1. apply rule2_frame in H2. apply rule3_frame in H3.
  destruct H2 as [_ [_ [M2 [e2 R2]]]]. destruct H3 as [_ [_ [M3 [e3 R3]]]].
  rewrite M3, M2, R3, R2. subst st1. unfold Rules.afterRule1.
  destruct (runRule1 && beyondLimits s j); simpl.
  - split; [reflexivity|]. exists (e2 ++ e3). rewrite app_assoc. reflexivity.
  - split; [rewrite app_nil_r; reflexivity|].
    exists (e2 ++ e3). rewrite app_assoc. reflexivity.
Qed.

Lemma rulesOverPoints_meanPoints (s : Stage) (js : list nat) (st st' : Rules.RuleState) :
  rulesOverPoints s js st = Returns st' ->
  Rules.meanPoints st' =
    Rules.meanPoints st ++ filter (fun j => runRule1 && beyondLimits s j) js
  /\ exists extra, Rules.rulePoints st' = Rules.rulePoints st ++ extra.
Proof.
  revert st. induction js as [|j js IH]; intros st H; simpl in H.
  - inversion H. simpl. rewrite app_nil_r. split; [reflexivity|].
    exists []. rewrite app_nil_r. reflexivity.
  - apply bind_returns in H. destruct H as [st1 [H1 H]].
    apply rulesAtPoint_meanPoints in H1. destruct H1 as [M1 [e1 R1]].
    apply IH in H. destruct H as [M [e R]].
    rewrite M, M1, R, R1. simpl.
    split.
    + destruct (runRule1 && beyondLimits s j); simpl;
        rewrite <- app_assoc; reflexivity.
    + exists (e1 ++ e). rewrite app_assoc. reflexivity.
Qed.

(** After a stage every list is empty again, and the dots drawn so far stay
    drawn, with the stage's [meanPoints] among them. *)
Lemma endOfStage_lists (st : Rules.RuleState) :
  Rules.consecutiveUPoints (Rules.endOfStage st) = []
  /\ Rules.consecutiveLPoints (Rules.endOfStage st) = []
  /\ Rules.consecIncPoints (Rules.endOfStage st) = []
  /\ Rules.consecDecPoints (Rules.endOfStage st) = []
  /\ Rules.meanPoints (Rules.endOfStage st) = [].
Proof.
  destruct st as [U L Inc Dec M R]. unfold Rules.endOfStage. simpl.
  destruct M; simpl; unfold Rules.drawIfLonger; simpl;
    destruct (8 <? List.length L); simpl; destruct (8 <? List.length U); simpl;
    destruct (5 <? List.length Inc); simpl; destruct (5 <? List.length Dec); simpl;
    repeat split.
Qed.

Lemma endOfStage_rulePoints (st : Rules.RuleState) :
  Rules.rulePoints (Rules.endOfStage st) =
    Rules.rulePoints st ++ Rules.meanPoints st
    ++ (if 8 <? List.length (Rules.consecutiveLPoints st)
        then Rules.consecutiveLPoints st else [])
    ++ (if 8 <? List.length (Rules.consecutiveUPoints st)
        then Rules.consecutiveUPoints st else [])
    ++ (if 5 <? List.length (Rules.consecIncPoints st)
        then Rules.consecIncPoints st else [])
    ++ (if 5 <? List.length (Rules.consecDecPoints st)
        then Rules.consecDecPoints st else []).
Proof.
  destruct st as [U L Inc Dec M R]. unfold Rules.endOfStage. simpl.
  destruct M; simpl; unfold Rules.drawIfLonger; simpl;
    destruct (8 <? List.length L); simpl; destruct (8 <? List.length U); simpl;
    destruct (5 <? List.length Inc); simpl; destruct (5 <? List.length Dec); simpl;
    rewrite ?app_nil_r, <- ?app_assoc; reflexivity.
Qed.

Lemma rulesOverStage_start (s : Stage) (st st' : Rules.RuleState) :
  rulesOverStage s st = Returns st' -> stageStart st'.
Proof.
  intro H. unfold Rules.rulesOverStage in H.
  apply bind_returns in H. destruct H as [st1 [_ H]]. inversion H.
  apply endOfStage_lists.
Qed.

Lemma rulesOverStage_rule1 (s : Stage) (st st' : Rules.RuleState) :
  stageStart st -> rulesOverStage s st = Returns st' ->
  exists before after,
    Rules.rulePoints st' =
      Rules.rulePoints st ++ before
      ++ filter (fun j => runRule1 && beyondLimits s j) (indexRange (firstId s) (lastId s))
      ++ after.
Proof.
  intros [_ [_ [_ [_ HM]]]] H. unfold Rules.rulesOverStage in H.
  apply bind_returns in H. destruct H as [st1 [H1 H]]. inversion H. clear H.
  apply rulesOverPoints_meanPoints in H1. destruct H1 as [M1 [e1 R1]].
  rewrite endOfStage_rulePoints, M1, R1, HM. simpl.
  eexists e1, _. rewrite <- !app_assoc. reflexivity.
Qed.

Lemma rulesOverStages_grow (stages : list Stage) (st st' : Rules.RuleState) :
  rulesOverStages stages st = Returns st' ->
  exists extra, Rules.rulePoints st' = Rules.rulePoints st ++ extra.
Proof.
  revert st. induction stages as [|s rest IH]; intros st H; simpl in H.
  - inversion H. exists []. rewrite app_nil_r. reflexivity.
  - apply bind_returns in H. destruct H as [st1 [H1 H]].
    apply IH in H. destruct H as [e R].
    unfold Rules.rulesOverStage in H1.
    apply bind_returns in H1. destruct H1 as [st0 [H0 H1]]. inversion H1.
    apply rulesOverPoints_meanPoints in H0. destruct H0 as [_ [e0 R0]].
    rewrite R. subst st1. rewrite endOfStage_rulePoints, R0.
    eexists. rewrite <- !app_assoc. reflexivity.
Qed.

Lemma rulesOverStages_rule1 (stages : list Stage) (st st' : Rules.RuleState) :
  stageStart st -> rulesOverStages stages st = Returns st' ->
  forall s j, In s stages ->
    (firstId s <= j)%nat -> (j <= lastId s)%nat ->
    runRule1 = true -> beyondLimits s j = true ->
    In j (Rules.rulePoints st').
Proof.
  revert st. induction stages as [|s0 rest IH]; intros st Hst H s j Hs Hlo Hhi H1 Hb.
  - destruct Hs.
  - simpl in H. apply bind_returns in H. destruct H as [st1 [Hs0 H]].
    destruct Hs as [-> | Hs].
    + destruct (rulesOverStage_rule1 s st st1 Hst Hs0) as [b [a R]].
      destruct (rulesOverStages_grow rest st1 st' H) as [e Re].
      rewrite Re, R. apply in_or_app. left.
      apply in_or_app. right. apply in_or_app. right. apply in_or_app. left.
      apply filter_In. split.
      * apply indexRange_In. lia.
      * rewrite H1, Hb. reflexivity.
    + apply (IH st1 (rulesOverStage_start s0 st st1 Hs0) H s j); assumption.
Qed.

(** With Rule 1 on, whatever the other toggles, every point beyond a limit
    of its stage is among the dots [ApplyRules] recolours. *)
Lemma ApplyRules_rule1_flags (stages : list Stage) (flagged : list nat) :
  runRule1 = true -> ApplyRules stages = Returns flagged ->
  forall s j, In s stages ->
    (firstId s <= j)%nat -> (j <= lastId s)%nat ->
    beyondLimits s j = true -> In j flagged.
Proof.
  intros H1 H s j Hs Hlo Hhi Hb. unfold Rules.ApplyRules in H.
  apply bind_returns in H. destruct H as [st [Hst H]]. inversion H.
  apply (rulesOverStages_rule1 stages Rules.initialRuleState st) with (s := s); auto.
  repeat split.
Qed.

(** Rule 1 alone: the dots recoloured are the points beyond a limit, stage by
    stage, in index order. *)
Lemma rulesAtPoint_rule1_only (s : Stage) (j : nat) (st st' : Rules.RuleState) :
  runRule2 = false -> runRule3 = false ->
  rulesAtPoint s j st = Returns st' -> st' = afterRule1 s j st.
Proof.
  intros E2 E3 H. unfold Rules.rulesAtPoint in H.
  apply bind_returns in H. destruct H as [st1 [H1 H]].
  apply bind_returns in H. destruct H as [st2 [H2 H3]].
  rewrite (rule2_off j st1 E2) in H2. rewrite (rule3_off s j st2 E3) in H3.
  apply rule1_inv in H1. congruence.
Qed.

Lemma rulesOverPoints_rule1_only (s : Stage) (js : list nat) (st st' : Rules.RuleState) :
  runRule2 = false -> runRule3 = false ->
  rulesOverPoints s js st = Returns st' ->
  Rules.consecutiveUPoints st' = Rules.consecutiveUPoints st
  /\ Rules.consecutiveLPoints st' = Rules.consecutiveLPoints st
  /\ Rules.consecIncPoints st' = Rules.consecIncPoints st
  /\ Rules.consecDecPoints st' = Rules.consecDecPoints st
  /\ Rules.rulePoints st' = Rules.rulePoints st.
Proof.
  intros E2 E3. revert st. induction js as [|j js IH]; intros st H; simpl in H.
  - inversion H. repeat split.
  - apply bind_returns in H. destruct H as [st1 [H1 H]].
    apply (rulesAtPoint_rule1_only s j st st1 E2 E3) in H1.
    apply IH in H. destruct H as [HU [HL [HI [HD HR]]]].
    rewrite HU, HL, HI, HD, HR. subst st1. unfold Rules.afterRule1.
    destruct (runRule1 && beyondLimits s j); repeat split.
Qed.

Lemma rulesOverStages_rule1_only (stages : list Stage) (st st' : Rules.RuleState) :
  runRule2 = false -> runRule3 = false -> stageStart st ->
  rulesOverStages stages st = Returns st' ->
  Rules.rulePoints st' =
    Rules.rulePoints st
    ++ flat_map (fun s => filter (fun j => runRule1 && beyondLimits s j)
                            (indexRange (firstId s) (lastId s))) stages.
Proof.
  intros E2 E3. revert st. induction stages as [|s rest IH]; intros st Hst H; simpl in H.
  - inversion H. simpl. rewrite app_nil_r. reflexivity.
  - apply bind_returns in H. destruct H as [st1 [Hs H]].
    pose proof (rulesOverStage_start s st st1 Hs) as Hst1.
    rewrite (IH st1 Hst1 H). simpl. rewrite app_assoc. f_equal.
    unfold Rules.rulesOverStage in Hs.
    apply bind_returns in Hs. destruct Hs as [st0 [H0 Hs]]. inversion Hs.
    pose proof (rulesOverPoints_meanPoints s _ st st0 H0) as [M _].
    pose proof (rulesOverPoints_rule1_only s _ st st0 E2 E3 H0) as [HU [HL [HI [HD HR]]]].
    destruct Hst as [SU [SL [SI [SD SM]]]].
    rewrite endOfStage_rulePoints, M, HU, HL, HI, HD, HR, SU, SL, SI, SD, SM.
    simpl. rewrite !app_nil_r. reflexivity.
Qed.


(** *** Rule 2 *)

(** What one point does to the two run lists of Rule 2 and to the dots. *)
Lemma rulesAtPoint_rule2 (s : Stage) (j : nat) (st st' : Rules.RuleState) :
  runRule2 = true -> rulesAtPoint s j st = Returns st' ->
  Rules.consecIncPoints st' = nextRun rises (Rules.consecIncPoints st) j
  /\ Rules.consecDecPoints st' = nextRun falls (Rules.consecDecPoints st) j
  /\ exists extra,
       Rules.rulePoints st' =
         Rules.rulePoints st
         ++ closedRun rises (Rules.consecIncPoints st) j
         ++ closedRun falls (Rules.consecDecPoints st) j ++ extra
       /\ (runRule3 = false -> extra = []).
Proof.
  intros E2 H. unfold Rules.rulesAtPoint in H.
  apply bind_returns in H. destruct H as [st1 [H1 H]].
  apply bind_returns in H. destruct H as [st2 [H2 H3]].
  apply rule1_inv in H1. apply (rule2_inv j st1 st2 E2) in H2.
  assert (HI1 : Rules.consecIncPoints st1 = Rules.consecIncPoints st).
  { subst st1. unfold Rules.afterRule1.
    destruct (runRule1 && beyondLimits s j); reflexivity. }
  assert (HD1 : Rules.consecDecPoints st1 = Rules.consecDecPoints st).
  { subst st1. unfold Rules.afterRule1.
    destruct (runRule1 && beyondLimits s j); reflexivity. }
  assert (HR1 : Rules.rulePoints st1 = Rules.rulePoints st).
  { subst st1. unfold Rules.afterRule1.
    destruct (runRule1 && beyondLimits s j); reflexivity. }
  assert (E3 : runRule3 = true \/ runRule3 = false) by (destruct runRule3; auto).
  destruct E3 as [E3 | E3].
  - apply rule3_frame in H3. destruct H3 as [HI [HD [_ [extra HR]]]].
    rewrite HI, HD, HR. subst st2. simpl. rewrite HI1, HD1, HR1.
    split; [reflexivity|]. split; [reflexivity|].
    exists extra. split; [rewrite <- !app_assoc; reflexivity|].
    intro Hoff. congruence.
  - rewrite (rule3_off s j st2 E3) in H3. inversion H3. subst st'. subst st2. simpl.
    rewrite HI1, HD1, HR1.
    split; [reflexivity|]. split; [reflexivity|].
    exists []. rewrite app_nil_r. split; reflexivity.
Qed.

Lemma rulesOverPoints_rule2 (s : Stage) (first : nat) (old : list nat) :
  runRule2 = true ->
  forall n m st st',
    Rules.runInvariant rises first m (Rules.consecIncPoints st) (Rules.rulePoints st) ->
    Rules.runInvariant falls first m (Rules.consecDecPoints st) (Rules.rulePoints st) ->
    rulesOverPoints s (seq (S m) n) st = Returns st' ->
    Rules.runInvariant rises first (m + n) (Rules.consecIncPoints st') (Rules.rulePoints st')
    /\ Rules.runInvariant falls first (m + n) (Rules.consecDecPoints st') (Rules.rulePoints st')
    /\ (runRule3 = false ->
        trendsOnly first m old (Rules.rulePoints st) ->
        trendsOnly first (m + n) old (Rules.rulePoints st')).
Proof.
  intros E2. induction n as [|n IH]; intros m st st' HI HD H; simpl in H.
  - inversion H. subst st'. rewrite Nat.add_0_r. auto.
  - apply bind_returns in H. destruct H as [st1 [H1 H]].
    destruct (rulesAtPoint_rule2 s (S m) st st1 E2 H1) as [EI [ED [extra [ER Hextra]]]].
    assert (HI1 : Rules.runInvariant rises first (S m)
                    (Rules.consecIncPoints st1) (Rules.rulePoints st1)).
    { rewrite EI. apply (runInvariant_step rises first m _ (Rules.rulePoints st)); [exact HI|].
      rewrite ER. intros x Hx. apply in_app_or in Hx.
      apply in_or_app. destruct Hx as [Hx | Hx]; [left; exact Hx|].
      right. apply in_or_app. left. exact Hx. }
    assert (HD1 : Rules.runInvariant falls first (S m)
                    (Rules.consecDecPoints st1) (Rules.rulePoints st1)).
    { rewrite ED. apply (runInvariant_step falls first m _ (Rules.rulePoints st)); [exact HD|].
      rewrite ER. intros x Hx. apply in_app_or in Hx.
      apply in_or_app. destruct Hx as [Hx | Hx]; [left; exact Hx|].
      right. apply in_or_app. right. apply in_or_app. left. exact Hx. }
    destruct (IH (S m) st1 st' HI1 HD1 H) as [HIn [HDn Hsound]].
    replace (m + S n)%nat with (S m + n)%nat by lia.
    split; [exact HIn|]. split; [exact HDn|].
    intros E3 Hold. apply (Hsound E3).
    intros x Hx. rewrite ER, (Hextra E3), app_nil_r in Hx.
    apply in_app_or in Hx. destruct Hx as [Hx | Hx].
    + destruct (Hold x Hx) as [Ho | [Hr | Hf]]; [left; exact Ho| |].
      * right. left. apply (inBlock_later rises 5 first m (S m) x); [lia | exact Hr].
      * right. right. apply (inBlock_later falls 5 first m (S m) x); [lia | exact Hf].
    + apply in_app_or in Hx. destruct Hx as [Hx | Hx].
      * right. left. apply (inBlock_later rises 5 first m (S m) x); [lia|].
        apply (drawn_run_is_block rises first m _ _ x HI).
        apply (closedRun_subset rises _ (S m) x Hx).
      * right. right. apply (inBlock_later falls 5 first m (S m) x); [lia|].
        apply (drawn_run_is_block falls first m _ _ x HD).
        apply (closedRun_subset falls _ (S m) x Hx).
Qed.


Lemma closedRun_nil (continues : nat -> bool) (j : nat) : closedRun continues [] j = [].
Proof. unfold Rules.closedRun. destruct ((j =? 0) || continues j); reflexivity. Qed.

Lemma rulesOverPoints_rule3_off (s : Stage) (js : list nat) (st st' : Rules.RuleState) :
  runRule3 = false -> rulesOverPoints s js st = Returns st' ->
  Rules.consecutiveUPoints st' = Rules.consecutiveUPoints st
  /\ Rules.consecutiveLPoints st' = Rules.consecutiveLPoints st.
Proof.
  intro E3. revert st. induction js as [|j js IH]; intros st H; simpl in H.
  - inversion H. split; reflexivity.
  - apply bind_returns in H. destruct H as [st1 [H1 H]].
    apply IH in H. destruct H as [HU HL]. rewrite HU, HL.
    unfold Rules.rulesAtPoint in H1.
    apply bind_returns in H1. destruct H1 as [sa [Ha H1]].
    apply bind_returns in H1. destruct H1 as [sb [Hb Hc]].
    apply rule1_inv in Ha. apply rule2_frame in Hb. destruct Hb as [HUb [HLb _]].
    rewrite (rule3_off s j sb E3) in Hc. inversion Hc. subst st1.
    rewrite HUb, HLb. subst sa. unfold Rules.afterRule1.
    destruct (runRule1 && beyondLimits s j); split; reflexivity.
Qed.

(** Rule 2 over one stage: every point of a trend of the stage is drawn;
    and with the other two rules off nothing else is. *)
Lemma rulesOverStage_rule2 (s : Stage) (st st' : Rules.RuleState) :
  runRule2 = true -> stageStart st -> rulesOverStage s st = Returns st' ->
  (forall x, Rules.inTrend Stage Point firstId lastId yValue data s x ->
             In x (Rules.rulePoints st'))
  /\ (runRule1 = false -> runRule3 = false ->
      trendsOnly (firstId s) (lastId s) (Rules.rulePoints st) (Rules.rulePoints st')).
Proof.
  intros E2 Hstart H. unfold Rules.rulesOverStage in H.
  apply bind_returns in H. destruct H as [st1 [H1 H]]. inversion H. clear H. subst st'.
  destruct Hstart as [SU [SL [SI [SD SM]]]].
  destruct (le_gt_dec (firstId s) (lastId s)) as [Hle | Hgt].
  - unfold indexRange in H1.
    replace (S (lastId s) - firstId s)%nat with (S (lastId s - firstId s)) in H1 by lia.
    simpl in H1. apply bind_returns in H1. destruct H1 as [st0 [H0 H1]].
    destruct (rulesAtPoint_rule2 s (firstId s) st st0 E2 H0) as [EI [ED [extra [ER Hextra]]]].
    rewrite SI, SD, !closedRun_nil in ER. simpl in ER.
    rewrite SI in EI. rewrite SD in ED.
    assert (HI0 : Rules.runInvariant rises (firstId s) (firstId s)
                    (Rules.consecIncPoints st0) (Rules.rulePoints st0)).
    { rewrite EI. apply runInvariant_start. }
    assert (HD0 : Rules.runInvariant falls (firstId s) (firstId s)
                    (Rules.consecDecPoints st0) (Rules.rulePoints st0)).
    { rewrite ED. apply runInvariant_start. }
    destruct (rulesOverPoints_rule2 s (firstId s) (Rules.rulePoints st) E2
                (lastId s - firstId s) (firstId s) st0 st1 HI0 HD0 H1)
      as [HIn [HDn Hsound]].
    replace (firstId s + (lastId s - firstId s))%nat with (lastId s) in * by lia.
    split.
    + intros x [Hx | Hx].
      * apply (runInvariant_end rises (firstId s) (lastId s) _ _ _ HIn); [|exact Hx].
        rewrite endOfStage_rulePoints. intros y Hy. apply in_app_or in Hy.
        apply in_or_app. destruct Hy as [Hy | Hy]; [left; exact Hy|].
        right. do 3 (apply in_or_app; right). apply in_or_app. left. exact Hy.
      * apply (runInvariant_end falls (firstId s) (lastId s) _ _ _ HDn); [|exact Hx].
        rewrite endOfStage_rulePoints. intros y Hy. apply in_app_or in Hy.
        apply in_or_app. destruct Hy as [Hy | Hy]; [left; exact Hy|].
        right. do 4 (apply in_or_app; right). exact Hy.
    + intros E1 E3.
      assert (Hold : trendsOnly (firstId s) (firstId s) (Rules.rulePoints st)
                       (Rules.rulePoints st0)).
      { intros x Hx. rewrite ER, (Hextra E3), app_nil_r in Hx. left. exact Hx. }
      pose proof (Hsound E3 Hold) as Hs1.
      pose proof (rulesOverPoints_meanPoints s _ st0 st1 H1) as [M1 _].
      pose proof (rulesAtPoint_meanPoints s _ st st0 H0) as [M0 _].
      pose proof (rulesOverPoints_rule3_off s _ st0 st1 E3 H1) as [HU1 HL1].
      assert (HUL0 : Rules.consecutiveUPoints st0 = [] /\ Rules.consecutiveLPoints st0 = []).
      { pose proof (rulesOverPoints_rule3_off s [firstId s] st st0 E3) as HUL.
        simpl in HUL. rewrite H0 in HUL. simpl in HUL.
        destruct (HUL eq_refl) as [A B]. rewrite A, B, SU, SL. split; reflexivity. }
      destruct HUL0 as [HU0 HL0].
      intros x Hx. rewrite endOfStage_rulePoints in Hx.
      rewrite M1, M0, SM, E1, HU1, HL1, HU0, HL0 in Hx. simpl in Hx.
      rewrite filter_none in Hx. simpl in Hx.
      apply in_app_or in Hx. destruct Hx as [Hx | Hx]; [apply Hs1; exact Hx|].
      apply in_app_or in Hx. destruct Hx as [Hx | Hx].
      * right. left. apply (drawn_run_is_block rises _ _ _ _ x HIn Hx).
      * right. right. apply (drawn_run_is_block falls _ _ _ _ x HDn Hx).
  - unfold indexRange in H1.
    replace (S (lastId s) - firstId s)%nat with 0%nat in H1 by lia.
    simpl in H1. inversion H1. subst st1.
    split.
    + intros x [[a [b Hx]] | [a [b Hx]]]; lia.
    + intros E1 E3 x Hx. rewrite endOfStage_rulePoints in Hx.
      rewrite SU, SL, SI, SD, SM in Hx. simpl in Hx. rewrite app_nil_r in Hx.
      left. exact Hx.
Qed.

Lemma rulesOverStages_rule2 (stages : list Stage) (st st' : Rules.RuleState) :
  runRule2 = true -> stageStart st -> rulesOverStages stages st = Returns st' ->
  (forall s x, In s stages ->
     Rules.inTrend Stage Point firstId lastId yValue data s x ->
     In x (Rules.rulePoints st'))
  /\ (runRule1 = false -> runRule3 = false ->
      forall x, In x (Rules.rulePoints st') ->
        In x (Rules.rulePoints st)
        \/ exists s, In s stages /\ Rules.inTrend Stage Point firstId lastId yValue data s x).
Proof.
  intros E2. revert st. induction stages as [|s0 rest IH]; intros st Hstart H; simpl in H.
  - inversion H. subst st'. split; [intros s x []|]. intros _ _ x Hx. left. exact Hx.
  - apply bind_returns in H. destruct H as [st1 [Hs0 H]].
    pose proof (rulesOverStage_start s0 st st1 Hs0) as Hstart1.
    destruct (rulesOverStage_rule2 s0 st st1 E2 Hstart Hs0) as [Hc0 Hs0'].
    destruct (IH st1 Hstart1 H) as [Hc Hs].
    destruct (rulesOverStages_grow rest st1 st' H) as [e Re].
    split.
    + intros s x [-> | Hin] Hx.
      * rewrite Re. apply in_or_app. left. apply Hc0. exact Hx.
      * apply (Hc s x Hin Hx).
    + intros E1 E3 x Hx. destruct (Hs E1 E3 x Hx) as [Hx1 | [s [Hin Ht]]].
      * destruct (Hs0' E1 E3 x Hx1) as [Ho | Ht]; [left; exact Ho|].
        right. exists s0. split; [left; reflexivity|]. exact Ht.
      * right. exists s. split; [right; exact Hin | exact Ht].
Qed.


End RuleFacts.

Lemma beyondLimits_iff (Stage Point : Type) (uCL lCL : Stage -> Q) (yValue : Point -> Q)
    (data : list Point) (s : Stage) (j : nat) (p : Point) :
  nth_error data j = Some p ->
  (Rules.beyondLimits Stage Point uCL lCL yValue data s j = true
   <-> uCL s < yValue p \/ yValue p < lCL s).
Proof.
  intro Hp. unfold Rules.beyondLimits. rewrite Hp.
  rewrite orb_true_iff, !Qltb_lt. reflexivity.
Qed.

(** C8, as the code has it. With Rule 1 on, [ApplyRules] returns for every
    list of stages whose index ranges lie inside the data, and every point
    whose value is strictly above its stage's uCL or strictly below its lCL
    is among the recoloured dots, whatever the other two toggles; with the
    other rules off the recoloured dots are exactly those points, stage by
    stage, so no run length is involved.  A point on a limit (value equal to
    uCL or to lCL) is not beyond the limits when lCL is not above uCL; the
    code never compares the two limits, and when uCL is below lCL every point
    is beyond them, the points on a limit too.  A point one unit above uCL
    or one unit below lCL is beyond the limits. *)
Theorem rule1_flags_limit_violations :
  forall (Stage Point : Type) (firstId lastId : Stage -> nat) (uCL lCL mean : Stage -> Q)
         (yValue : Point -> Q) (runRule2 runRule3 : bool) (data : list Point)
         (stages : list Stage),
    Forall (Rules.stageInData Stage Point firstId lastId data) stages ->
    (exists flagged,
        Rules.ApplyRules Stage Point firstId lastId uCL lCL mean yValue
          true runRule2 runRule3 data stages = Returns flagged
        /\ forall s j, In s stages -> (firstId s <= j)%nat -> (j <= lastId s)%nat ->
             Rules.beyondLimits Stage Point uCL lCL yValue data s j = true ->
             In j flagged)
    /\ Rules.ApplyRules Stage Point firstId lastId uCL lCL mean yValue
         true false false data stages
       = Returns (flat_map
                    (fun s => filter (Rules.beyondLimits Stage Point uCL lCL yValue data s)
                                (indexRange (firstId s) (lastId s))) stages)
    /\ (forall s j p, nth_error data j = Some p ->
          (Rules.beyondLimits Stage Point uCL lCL yValue data s j = true
           <-> uCL s < yValue p \/ yValue p < lCL s))
    /\ (forall s j p, nth_error data j = Some p -> lCL s <= uCL s ->
          yValue p == uCL s \/ yValue p == lCL s ->
          Rules.beyondLimits Stage Point uCL lCL yValue data s j = false)
    /\ (forall s j p, nth_error data j = Some p ->
          yValue p == uCL s + 1 \/ yValue p == lCL s - 1 ->
          Rules.beyondLimits Stage Point uCL lCL yValue data s j = true)
    /\ (forall s j p, nth_error data j = Some p -> uCL s < lCL s ->
          Rules.beyondLimits Stage Point uCL lCL yValue data s j = true).
Proof.
  intros Stage Point firstId lastId uCL lCL mean yValue runRule2 runRule3 data stages Hin.
  split; [|split; [|split; [|split; [|split]]]].
  - destruct (ApplyRules_in_data Stage Point firstId lastId uCL lCL mean yValue
                true runRule2 runRule3 data stages Hin) as [flagged Hf].
    exists flagged. split; [exact Hf|].
    intros s j Hs Hlo Hhi Hb.
    exact (ApplyRules_rule1_flags Stage Point firstId lastId uCL lCL mean yValue
             true runRule2 runRule3 data stages flagged eq_refl Hf s j Hs Hlo Hhi Hb).
  - destruct (ApplyRules_in_data Stage Point firstId lastId uCL lCL mean yValue
                true false false data stages Hin) as [flagged Hf].
    rewrite Hf. f_equal. unfold Rules.ApplyRules in Hf.
    apply bind_returns in Hf. destruct Hf as [st [Hst Hf]]. inversion Hf.
    rewrite (rulesOverStages_rule1_only Stage Point firstId lastId uCL lCL mean yValue
               true false false data stages Rules.initialRuleState st eq_refl eq_refl).
    + reflexivity.
    + repeat split.
    + exact Hst.
  - intros s j p Hp. apply beyondLimits_iff. exact Hp.
  - intros s j p Hp Hle Heq.
    destruct (Rules.beyondLimits Stage Point uCL lCL yValue data s j) eqn:E; [|reflexivity].
    apply (beyondLimits_iff Stage Point uCL lCL yValue data s j p Hp) in E.
    exfalso. destruct Heq as [Heq | Heq], E as [E | E]; rewrite Heq in E.
    + exact (Qlt_irrefl _ E).
    + exact (Qlt_not_le _ _ E Hle).
    + exact (Qlt_not_le _ _ E Hle).
    + exact (Qlt_irrefl _ E).
  - intros s j p Hp Heq.
    apply (beyondLimits_iff Stage Point uCL lCL yValue data s j p Hp).
    destruct Heq as [Heq | Heq]; rewrite Heq; [left | right].
    + rewrite <- (Qplus_0_r (uCL s)) at 1. apply Qplus_lt_r. reflexivity.
    + rewrite <- (Qplus_0_r (lCL s)) at 2. apply Qplus_lt_r. reflexivity.
  - intros s j p Hp Hcross.
    apply (beyondLimits_iff Stage Point uCL lCL yValue data s j p Hp).
    destruct (Qlt_le_dec (uCL s) (yValue p)) as [H | H]; [left; exact H|].
    right. apply (Qle_lt_trans _ _ _ H Hcross).
Qed.

(** C8 on a stage with limits 1 and 5 over the values 5, 1, 6, 0, 3: the
    points at the limits stay, the points one unit beyond are recoloured. *)
Lemma rule1_flags_limit_violations_witness :
  Forall (Rules.stageInData MovingRange.Stage MovingRange.ChartDataPoint
            MovingRange.firstId MovingRange.lastId (samplePointsFrom 0 [5; 1; 6; 0; 3]%Z))
    [sampleStage 0 4 3 1 5]
  /\ MovingRange.ApplyRules (sampleViewModel [5; 1; 6; 0; 3]%Z true false false)
       [sampleStage 0 4 3 1 5]
     = Returns [2; 3]%nat.
Proof.
  assert (H : Forall (Rules.stageInData MovingRange.Stage MovingRange.ChartDataPoint
                        MovingRange.firstId MovingRange.lastId
                        (samplePointsFrom 0 [5; 1; 6; 0; 3]%Z))
                [sampleStage 0 4 3 1 5]).
  { constructor; [|constructor]. intros _. simpl. lia. }
  split; [exact H|].
  destruct (rule1_flags_limit_violations MovingRange.Stage MovingRange.ChartDataPoint
              MovingRange.firstId MovingRange.lastId MovingRange.uCL MovingRange.lCL
              MovingRange.mean MovingRange.yValue false false
              (samplePointsFrom 0 [5; 1; 6; 0; 3]%Z) [sampleStage 0 4 3 1 5] H)
    as [_ [Hexact _]].
  etransitivity; [exact Hexact | reflexivity].
Defined.

(** Claim C8 as the specification words it fails where the limits cross.  On
    the series -1, 3 with the number of standard deviations set to -0.564
    the run of [update] gives the one stage the mean 1, the upper limit -1
    and the lower limit 3: both points lie exactly on a limit, and both are
    recoloured. *)
Lemma point_on_limit_flagged_when_limits_cross :
  exists chart viewModel,
    MovingRange.update newMovingRangeChart crossedLimitsOptions = Returns chart
    /\ MovingRange.controlChartViewModel chart = Some viewModel
    /\ MovingRange.runRule1 viewModel = true
    /\ MovingRange.standardDeviations viewModel == - 0.564
    /\ map MovingRange.yValue (MovingRange.dataPoints viewModel) = [-1; 3]
    /\ map (fun s => (MovingRange.firstId s, MovingRange.lastId s))
         (MovingRange.chartStages (MovingRange.analysis chart)) = [(0, 1)]%nat
    /\ Forall (fun s => MovingRange.uCL s == -1 /\ MovingRange.lCL s == 3
                        /\ MovingRange.mean s == 1)
         (MovingRange.chartStages (MovingRange.analysis chart))
    /\ MovingRange.ruleDots chart = [0; 1]%nat
    /\ ~ (forall s j p,
            In s (MovingRange.chartStages (MovingRange.analysis chart)) ->
            nth_error (MovingRange.dataPoints viewModel) j = Some p ->
            MovingRange.yValue p == MovingRange.uCL s
            \/ MovingRange.yValue p == MovingRange.lCL s ->
            Rules.beyondLimits MovingRange.Stage MovingRange.ChartDataPoint
              MovingRange.uCL MovingRange.lCL MovingRange.yValue
              (MovingRange.dataPoints viewModel) s j = false).
Proof.
  eexists. eexists.
  split; [vm_compute; reflexivity|].
  split; [reflexivity|]. split; [reflexivity|]. split; [reflexivity|].
  split; [reflexivity|]. split; [reflexivity|].
  split.
  { constructor; [|constructor]. repeat split; reflexivity. }
  split; [reflexivity|].
  intro H.
  specialize (H _ 0%nat _ (or_introl eq_refl) eq_refl).
  match type of H with
  | ?onUpper \/ _ -> _ =>
      assert (Hon : onUpper) by (vm_compute; reflexivity);
      specialize (H (or_introl Hon))
  end.
  vm_compute in H. discriminate H.
Qed.

(** C7. With Rule 2 on, [ApplyRules] returns for every list of stages whose
    index ranges lie inside the data.  At each point after the first of the
    series the increasing list is extended when the point is strictly above
    the previous one and otherwise restarts at that point alone, after being
    drawn if it held more than 5 points; likewise the decreasing list.  As a
    result every point that lies in a block of six or more consecutive
    points of one stage, each strictly above (or each strictly below) the
    one before, is recoloured, whatever the other toggles; and with the other
    rules off these are the only points recoloured.  A single stage over
    1,2,3,4,5,6 gets all six points recoloured and one over 1,2,3,4,5,5 none,
    in both builds. *)
Theorem rule2_flags_trends :
  forall (Stage Point : Type) (firstId lastId : Stage -> nat) (uCL lCL mean : Stage -> Q)
         (yValue : Point -> Q) (runRule1 runRule3 : bool) (data : list Point)
         (stages : list Stage),
    Forall (Rules.stageInData Stage Point firstId lastId data) stages ->
    (exists flagged,
        Rules.ApplyRules Stage Point firstId lastId uCL lCL mean yValue
          runRule1 true runRule3 data stages = Returns flagged
        /\ forall s j, In s stages ->
             Rules.inTrend Stage Point firstId lastId yValue data s j -> In j flagged)
    /\ (exists flagged,
        Rules.ApplyRules Stage Point firstId lastId uCL lCL mean yValue
          false true false data stages = Returns flagged
        /\ forall j, In j flagged <->
             exists s, In s stages
                       /\ Rules.inTrend Stage Point firstId lastId yValue data s j)
    /\ (forall j st st',
          Rules.rule2 Point yValue true data j st = Returns st' ->
          Rules.consecIncPoints st' =
            Rules.nextRun (Rules.rises Point yValue data) (Rules.consecIncPoints st) j
          /\ Rules.consecDecPoints st' =
            Rules.nextRun (Rules.falls Point yValue data) (Rules.consecDecPoints st) j
          /\ Rules.rulePoints st' =
            Rules.rulePoints st
            ++ Rules.closedRun (Rules.rises Point yValue data) (Rules.consecIncPoints st) j
            ++ Rules.closedRun (Rules.falls Point yValue data) (Rules.consecDecPoints st) j)
    /\ (forall (continues : nat -> bool) run j, j <> 0%nat -> continues j = false ->
          Rules.nextRun continues run j = [j]
          /\ Rules.closedRun continues run j = if 5 <? List.length run then run else [])
    /\ (forall continues run j, continues j = true ->
          Rules.nextRun continues run j = run ++ [j]
          /\ Rules.closedRun continues run j = [])
    /\ (option_map MovingRange.ruleDots
          (match MovingRange.update newMovingRangeChart
                   (sampleOptions (numbers [1; 2; 3; 4; 5; 6]%Z) (numbers [1; 2; 3; 4; 5; 6]%Z)
                      None (sampleObjects None None false true false))
           with Returns chart => Some chart | _ => None end)
        = Some [0; 1; 2; 3; 4; 5]%nat
        /\ option_map MovingRange.ruleDots
          (match MovingRange.update newMovingRangeChart
                   (sampleOptions (numbers [1; 2; 3; 4; 5; 6]%Z) (numbers [1; 2; 3; 4; 5; 5]%Z)
                      None (sampleObjects None None false true false))
           with Returns chart => Some chart | _ => None end)
        = Some []
        /\ forall Math_sqrt,
           option_map SubgroupSD.ruleDots
             (match SubgroupSD.update Math_sqrt newSubgroupChart
                      (sampleOptions (numbers [1; 2; 3; 4; 5; 6]%Z)
                         (numbers [1; 2; 3; 4; 5; 6]%Z)
                         None (sampleObjects None None false true false))
              with Returns chart => Some chart | _ => None end)
           = Some [0; 1; 2; 3; 4; 5]%nat
           /\ option_map SubgroupSD.ruleDots
             (match SubgroupSD.update Math_sqrt newSubgroupChart
                      (sampleOptions (numbers [1; 2; 3; 4; 5; 6]%Z)
                         (numbers [1; 2; 3; 4; 5; 5]%Z)
                         None (sampleObjects None None false true false))
              with Returns chart => Some chart | _ => None end)
           = Some []).
Proof.
  intros Stage Point firstId lastId uCL lCL mean yValue runRule1 runRule3 data stages Hin.
  split; [|split; [|split; [|split; [|split]]]].
  - destruct (ApplyRules_in_data Stage Point firstId lastId uCL lCL mean yValue
                runRule1 true runRule3 data stages Hin) as [flagged Hf].
    exists flagged. split; [exact Hf|].
    unfold Rules.ApplyRules in Hf. apply bind_returns in Hf.
    destruct Hf as [st [Hst Hf]]. inversion Hf. subst flagged.
    destruct (rulesOverStages_rule2 Stage Point firstId lastId uCL lCL mean yValue
                runRule1 true runRule3 data stages Rules.initialRuleState st eq_refl)
      as [Hc _]; [repeat split | exact Hst |].
    intros s j Hs Ht. exact (Hc s j Hs Ht).
  - destruct (ApplyRules_in_data Stage Point firstId lastId uCL lCL mean yValue
                false true false data stages Hin) as [flagged Hf].
    exists flagged. split; [exact Hf|].
    unfold Rules.ApplyRules in Hf. apply bind_returns in Hf.
    destruct Hf as [st [Hst Hf]]. inversion Hf. subst flagged.
    destruct (rulesOverStages_rule2 Stage Point firstId lastId uCL lCL mean yValue
                false true false data stages Rules.initialRuleState st eq_refl)
      as [Hc Hs]; [repeat split | exact Hst |].
    intro j. split.
    + intro Hj. destruct (Hs eq_refl eq_refl j Hj) as [[] | H]. exact H.
    + intros [s [Hs' Ht]]. exact (Hc s j Hs' Ht).
  - intros j st st' H.
    apply (rule2_inv Point yValue true data j st st' eq_refl) in H. subst st'.
    simpl. repeat split.
  - intros continues run j Hj Hc. unfold Rules.nextRun, Rules.closedRun.
    apply Nat.eqb_neq in Hj. rewrite Hj, Hc. split; reflexivity.
  - intros continues run j Hc. unfold Rules.nextRun, Rules.closedRun.
    rewrite Hc, orb_true_r. split; reflexivity.
  - split; [vm_compute; reflexivity|]. split; [vm_compute; reflexivity|].
    intro Math_sqrt. split; vm_compute; reflexivity.
Qed.

(** C7 on the stage 0..5 of the series 1,2,3,4,5,6. *)
Lemma rule2_flags_trends_witness :
  Forall (Rules.stageInData MovingRange.Stage MovingRange.ChartDataPoint
            MovingRange.firstId MovingRange.lastId
            (samplePointsFrom 0 [1; 2; 3; 4; 5; 6]%Z))
    [sampleStage 0 5 (7 # 2) 0 7]
  /\ exists flagged,
       MovingRange.ApplyRules (sampleViewModel [1; 2; 3; 4; 5; 6]%Z false true false)
         [sampleStage 0 5 (7 # 2) 0 7] = Returns flagged
       /\ forall j, In j flagged <->
            exists s, In s [sampleStage 0 5 (7 # 2) 0 7]
                      /\ Rules.inTrend MovingRange.Stage MovingRange.ChartDataPoint
                           MovingRange.firstId MovingRange.lastId MovingRange.yValue
                           (samplePointsFrom 0 [1; 2; 3; 4; 5; 6]%Z) s j.
Proof.
  assert (H : Forall (Rules.stageInData MovingRange.Stage MovingRange.ChartDataPoint
                        MovingRange.firstId MovingRange.lastId
                        (samplePointsFrom 0 [1; 2; 3; 4; 5; 6]%Z))
                [sampleStage 0 5 (7 # 2) 0 7]).
  { constructor; [|constructor]. intros _. simpl. lia. }
  split; [exact H|].
  exact (proj1 (proj2
           (rule2_flags_trends MovingRange.Stage MovingRange.ChartDataPoint
              MovingRange.firstId MovingRange.lastId MovingRange.uCL MovingRange.lCL
              MovingRange.mean MovingRange.yValue false false
              (samplePointsFrom 0 [1; 2; 3; 4; 5; 6]%Z) [sampleStage 0 5 (7 # 2) 0 7] H))).
Defined.

(** C2 at the series 1,1,1,1,1,0,1,1,1,1,-9 (one stage, Rule 3 only).  The
    stage mean is 0, the value of point 5, so the longest block of
    consecutive points strictly above the mean is 0..4 and the next one is
    6..9: neither has more than 8 points.  The code passes over point 5
    without touching either list, takes the nine points above the mean for
    one run and recolours them all, in both builds.  The rest of the claim
    holds: nine consecutive points above a stage mean of 0 are all
    recoloured, eight are not. *)
Theorem rule3_run_survives_point_on_mean :
  match MovingRange.update newMovingRangeChart
          (sampleOptions (numbers [1; 2; 3; 4; 5; 6; 7; 8; 9; 10; 11]%Z)
             (numbers [1; 1; 1; 1; 1; 0; 1; 1; 1; 1; -9]%Z)
             None (sampleObjects None None false false true))
  with
  | Returns chart =>
      MovingRange.ruleDots chart = [0; 1; 2; 3; 4; 6; 7; 8; 9]%nat
      /\ map (fun s => (MovingRange.firstId s, MovingRange.lastId s,
                        Qeq_bool (MovingRange.mean s) 0))
           (MovingRange.chartStages (MovingRange.analysis chart))
         = [(0%nat, 10%nat, true)]
      /\ option_map
           (fun vm => map (fun p => Qeq_bool (MovingRange.yValue p) 0)
                        (MovingRange.dataPoints vm))
           (MovingRange.controlChartViewModel chart)
         = Some [false; false; false; false; false; true;
                 false; false; false; false; false]
  | _ => False
  end
  /\ (forall Math_sqrt,
      match SubgroupSD.update Math_sqrt newSubgroupChart
              (sampleOptions (numbers [1; 2; 3; 4; 5; 6; 7; 8; 9; 10; 11]%Z)
                 (numbers [1; 1; 1; 1; 1; 0; 1; 1; 1; 1; -9]%Z)
                 None (sampleObjects None None false false true))
      with
      | Returns chart =>
          SubgroupSD.ruleDots chart = [0; 1; 2; 3; 4; 6; 7; 8; 9]%nat
          /\ map (fun s => (SubgroupSD.firstId s, SubgroupSD.lastId s,
                            Qeq_bool (SubgroupSD.mean s) 0))
               (SubgroupSD.chartStages (SubgroupSD.analysis chart))
             = [(0%nat, 10%nat, true)]
      | _ => False
      end)
  /\ MovingRange.ApplyRules (sampleViewModel [1; 2; 3; 4; 5; 6; 7; 8; 9]%Z false false true)
       [sampleStage 0 8 0 0 0]
     = Returns [0; 1; 2; 3; 4; 5; 6; 7; 8]%nat
  /\ MovingRange.ApplyRules (sampleViewModel [1; 2; 3; 4; 5; 6; 7; 8]%Z false false true)
       [sampleStage 0 7 0 0 0]
     = Returns [].
Proof.
  split; [vm_compute; repeat split|].
  split; [intro Math_sqrt; vm_compute; repeat split|].
  split; vm_compute; reflexivity.
Qed.

(** ** Segmentation *)

Lemma labelEq_refl (a : option string) : labelEq a a = true.
Proof. destruct a as [s|]; simpl; [apply String.eqb_refl | reflexivity]. Qed.

Lemma contiguousFrom_app (start middle next : nat) (l l' : list (nat * nat)) :
  contiguousFrom start l middle -> contiguousFrom middle l' next ->
  contiguousFrom start (l ++ l') next.
Proof.
  revert start. induction l as [|[a b] l IH]; intros start H H'; simpl in *.
  - subst. exact H'.
  - destruct H as [Ha [Hab H]]. split; [exact Ha|]. split; [exact Hab|].
    apply IH; assumption.
Qed.

Lemma contiguousFrom_total (start next : nat) (l : list (nat * nat)) :
  contiguousFrom start l next ->
  (start + list_sum (map (fun r => S (snd r) - fst r) l) = next)%nat.
Proof.
  revert start. induction l as [|[a b] l IH]; intros start H.
  - simpl in *. lia.
  - destruct H as [Ha [Hab H]]. apply IH in H.
    unfold list_sum in *. cbn [map fold_right fst snd]. lia.
Qed.

Lemma withMean_ids (acc : MovingRange.Stage) :
  MovingRange.firstId (MovingRange.withMean acc) = MovingRange.firstId acc
  /\ MovingRange.lastId (MovingRange.withMean acc) = MovingRange.lastId acc
  /\ MovingRange.count (MovingRange.withMean acc) = MovingRange.count acc.
Proof.
  unfold MovingRange.withMean. destruct (0 <? MovingRange.count acc); repeat split.
Qed.

Lemma stageStep_invariant (hasStages : bool) (labels : list PrimitiveValue)
    (points : list MovingRange.ChartDataPoint) (i : nat) (obj : MovingRange.ChartDataPoint)
    (st st' : MovingRange.StageLoop) :
  stageLoopInvariant hasStages labels i st ->
  MovingRange.stageStep hasStages labels points i obj st = Returns st' ->
  if i =? List.length points - 1
  then contiguousFrom 0 (rangesOfMovingRange (MovingRange.stages st')) (S i)
       /\ Forall (fun s => (MovingRange.count s
                           = S (MovingRange.lastId s) - MovingRange.firstId s)%nat)
            (MovingRange.stages st')
  else stageLoopInvariant hasStages labels (S i) st'.
Proof.
  intros [Hchain [Hcounts [Hsum Hfirst]]] H.
  unfold MovingRange.stageStep in H.
  apply bind_returns in H. destruct H as [label [Hlabel H]].
  apply bind_returns in H. destruct H as [st1 [H1 H]].
  apply bind_returns in H. destruct H as [current [Hcurrent H]].
  assert (Hst1 : contiguousFrom 0 (rangesOfMovingRange (MovingRange.stages st1))
                   (MovingRange.firstId (MovingRange.running st1))
                 /\ Forall (fun s => (MovingRange.count s
                                     = S (MovingRange.lastId s) - MovingRange.firstId s)%nat)
                      (MovingRange.stages st1)
                 /\ (MovingRange.firstId (MovingRange.running st1)
                     + MovingRange.count (MovingRange.running st1) = S i)%nat
                 /\ (1 <= MovingRange.count (MovingRange.running st1))%nat).
  { destruct (labelEq (MovingRange.currentStage st) label || negb hasStages) eqn:Esame.
    - inversion H1. subst st1.
      cbn [MovingRange.stages MovingRange.running MovingRange.firstId MovingRange.count
           MovingRange.lastId MovingRange.currentStage MovingRange.stageValue].
      repeat split; try assumption; lia.
    - destruct (beforeIndex points i) as [previous|] eqn:Eprev; [|discriminate].
      apply bind_returns in H1. destruct H1 as [nextStart [_ H1]].
      apply bind_returns in H1. destruct H1 as [endDate [_ H1]].
      destruct (withMean_ids (MovingRange.running st)) as [Wf [Wl Wc]].
      remember (MovingRange.withMean (MovingRange.running st)) as w eqn:Ew. clear Ew.
      inversion H1. subst st1. clear H1.
      cbn [MovingRange.stages MovingRange.running MovingRange.firstId MovingRange.count
           MovingRange.lastId MovingRange.currentStage MovingRange.stageValue].
      apply orb_false_iff in Esame. destruct Esame as [Ene Ehas].
      apply negb_false_iff in Ehas.
      assert (Hc : (1 <= MovingRange.count (MovingRange.running st))%nat).
      { destruct (MovingRange.count (MovingRange.running st)) eqn:Ec; [|lia].
        exfalso. rewrite Ehas in Hlabel. rewrite (Hfirst eq_refl Ehas) in Hlabel.
        inversion Hlabel. subst label. rewrite labelEq_refl in Ene. discriminate. }
      split; [|split; [|split]].
      + unfold rangesOfMovingRange. rewrite map_app.
        apply (contiguousFrom_app 0 (MovingRange.firstId (MovingRange.running st))).
        * exact Hchain.
        * unfold MovingRange.closeStage.
          cbn [map contiguousFrom MovingRange.firstId MovingRange.lastId].
          rewrite Wf. repeat split; lia.
      + apply Forall_app. split; [exact Hcounts|].
        constructor; [|constructor]. unfold MovingRange.closeStage.
        cbn [MovingRange.count MovingRange.firstId MovingRange.lastId].
        rewrite Wf, Wc. lia.
      + lia.
      + lia. }
  destruct Hst1 as [Hchain1 [Hcounts1 [Hsum1 Hpos1]]].
  destruct (i =? List.length points - 1) eqn:Elast.
  - destruct (withMean_ids (MovingRange.running st1)) as [Wf [Wl Wc]].
    remember (MovingRange.withMean (MovingRange.running st1)) as w eqn:Ew. clear Ew.
    inversion H. subst st'. clear H.
    cbn [MovingRange.stages MovingRange.running MovingRange.firstId MovingRange.count
           MovingRange.lastId MovingRange.currentStage MovingRange.stageValue].
    split.
    + unfold rangesOfMovingRange. rewrite map_app.
      apply (contiguousFrom_app 0 (MovingRange.firstId (MovingRange.running st1))).
      * exact Hchain1.
      * unfold MovingRange.closeStage.
        cbn [map contiguousFrom MovingRange.firstId MovingRange.lastId].
        rewrite Wf. repeat split; lia.
    + apply Forall_app. split; [exact Hcounts1|].
      constructor; [|constructor]. unfold MovingRange.closeStage.
      cbn [MovingRange.count MovingRange.firstId MovingRange.lastId].
      rewrite Wf, Wc. lia.
  - inversion H. subst st'. clear H. unfold stageLoopInvariant.
    cbn [MovingRange.stages MovingRange.running MovingRange.firstId MovingRange.count
           MovingRange.lastId MovingRange.currentStage MovingRange.stageValue].
    split; [exact Hchain1|]. split; [exact Hcounts1|]. split; [exact Hsum1|].
    intros Hzero. exfalso. lia.
Qed.

Lemma stageLoop_partition (hasStages : bool) (labels : list PrimitiveValue)
    (points : list MovingRange.ChartDataPoint) :
  forall rest i st st',
    (i + List.length rest = List.length points)%nat -> rest <> [] ->
    stageLoopInvariant hasStages labels i st ->
    MovingRange.stageLoop hasStages labels points i rest st = Returns st' ->
    partitions (rangesOfMovingRange (MovingRange.stages st')) (List.length points)
    /\ Forall (fun s => (MovingRange.count s
                         = S (MovingRange.lastId s) - MovingRange.firstId s)%nat)
         (MovingRange.stages st').
Proof.
  induction rest as [|obj rest IH]; intros i st st' Hlen Hne Hinv H; [congruence|].
  simpl in H. apply bind_returns in H. destruct H as [st1 [H1 H]].
  pose proof (stageStep_invariant hasStages labels points i obj st st1 Hinv H1) as Hstep.
  simpl in Hlen. destruct rest as [|obj' rest'].
  - simpl in H. inversion H. subst st'.
    assert (E : (i =? List.length points - 1) = true) by (apply Nat.eqb_eq; simpl in Hlen; lia).
    rewrite E in Hstep. replace (List.length points) with (S i) by (simpl in Hlen; lia).
    exact Hstep.
  - assert (E : (i =? List.length points - 1) = false).
    { apply Nat.eqb_neq. simpl in Hlen. lia. }
    rewrite E in Hstep.
    apply (IH (S i) st1 st'); [simpl in *; lia | discriminate | exact Hstep | exact H].
Qed.

Lemma labelAt_label (labels : list PrimitiveValue) (i : nat) :
  Forall isLabel labels -> exists label, labelAt labels i = Returns label.
Proof.
  intro H. unfold labelAt. destruct (nth_error labels i) as [v|] eqn:E; [|eauto].
  apply nth_error_In in E. rewrite Forall_forall in H. specialize (H v E).
  destruct v; simpl in H; try contradiction. eauto.
Qed.

Lemma valueOf_position (v : PrimitiveValue) :
  isPosition v -> exists q, valueOf v = Returns q.
Proof. destruct v; simpl; intro H; try contradiction; eauto. Qed.

Lemma stageStep_returns (hasStages : bool) (labels : list PrimitiveValue)
    (points : list MovingRange.ChartDataPoint) (i : nat) (obj : MovingRange.ChartDataPoint)
    (st : MovingRange.StageLoop) :
  stageLoopInvariant hasStages labels i st ->
  nth_error points i = Some obj ->
  Forall (fun p => isPosition (MovingRange.xValue p)) points ->
  Forall isLabel labels ->
  exists st', MovingRange.stageStep hasStages labels points i obj st = Returns st'.
Proof.
  intros [Hchain [Hcounts [Hsum Hfirst]]] Hobj Hpos Hlab.
  unfold MovingRange.stageStep.
  assert (Hlabel : exists label,
             (if hasStages then labelAt labels i
              else Returns (MovingRange.stageValue st)) = Returns label).
  { destruct hasStages; [apply labelAt_label; exact Hlab | eauto]. }
  destruct Hlabel as [label Hlabel]. rewrite Hlabel. rewrite bind_Returns; cbv beta.
  destruct (labelEq (MovingRange.currentStage st) label || negb hasStages) eqn:Esame.
  - rewrite bind_Returns; cbv beta.
    destruct hasStages.
    + destruct (labelAt_label labels i Hlab) as [l Hl]. rewrite Hl. rewrite bind_Returns; cbv beta.
      destruct (i =? List.length points - 1); eexists; reflexivity.
    + rewrite bind_Returns; cbv beta. destruct (i =? List.length points - 1); eexists; reflexivity.
  - apply orb_false_iff in Esame. destruct Esame as [Ene Ehas].
    apply negb_false_iff in Ehas. subst hasStages.
    assert (Hc : (1 <= MovingRange.count (MovingRange.running st))%nat).
    { destruct (MovingRange.count (MovingRange.running st)) eqn:Ec; [|lia].
      exfalso. rewrite (Hfirst eq_refl eq_refl) in Hlabel.
      inversion Hlabel. subst label. rewrite labelEq_refl in Ene. discriminate. }
    destruct i as [|p]; [lia|].
    assert (Hp : (p < List.length points)%nat).
    { apply Nat.lt_le_incl. apply nth_error_Some. rewrite Hobj. discriminate. }
    destruct (nth_error points p) as [previous|] eqn:Eprev;
      [|apply nth_error_None in Eprev; lia].
    simpl beforeIndex. rewrite Eprev.
    rewrite Forall_forall in Hpos.
    destruct (valueOf_position (MovingRange.xValue obj)
                (Hpos obj (nth_error_In _ _ Hobj))) as [q1 Hq1].
    destruct (valueOf_position (MovingRange.xValue previous)
                (Hpos previous (nth_error_In _ _ Eprev))) as [q2 Hq2].
    rewrite Hq1. rewrite bind_Returns; cbv beta. rewrite Hq2. rewrite bind_Returns; cbv beta.
    destruct (labelAt_label labels (S p) Hlab) as [l Hl]. rewrite Hl. rewrite bind_Returns; cbv beta.
    destruct (S p =? List.length points - 1); eexists; reflexivity.
Qed.

Lemma stageLoop_returns (hasStages : bool) (labels : list PrimitiveValue)
    (points : list MovingRange.ChartDataPoint) :
  Forall (fun p => isPosition (MovingRange.xValue p)) points ->
  Forall isLabel labels ->
  forall rest i st,
    (forall k obj, nth_error rest k = Some obj -> nth_error points (i + k) = Some obj) ->
    (i + List.length rest = List.length points)%nat ->
    stageLoopInvariant hasStages labels i st ->
    exists st', MovingRange.stageLoop hasStages labels points i rest st = Returns st'.
Proof.
  intros Hpos Hlab. induction rest as [|obj rest IH]; intros i st Hnth Hlen Hinv.
  - simpl. eauto.
  - simpl.
    assert (Hobj : nth_error points i = Some obj).
    { rewrite <- (Nat.add_0_r i). apply Hnth. reflexivity. }
    destruct (stageStep_returns hasStages labels points i obj st Hinv Hobj Hpos Hlab)
      as [st1 H1].
    rewrite H1. simpl bind.
    pose proof (stageStep_invariant hasStages labels points i obj st st1 Hinv H1) as Hstep.
    destruct rest as [|obj' rest'].
    + simpl. eauto.
    + assert (E : (i =? List.length points - 1) = false).
      { apply Nat.eqb_neq. simpl in Hlen. lia. }
      rewrite E in Hstep. apply IH.
      * intros k o Hk. replace (S i + k)%nat with (i + S k)%nat by lia.
        apply Hnth. exact Hk.
      * simpl in *. lia.
      * exact Hstep.
Qed.

(** Segmentation in the moving-range build: when [GetStages] returns, the
    stages cut the indices of the series into consecutive ranges, in order,
    and each stage counts the points of its range. *)
Lemma GetStages_partition (view : DataView) (cat : DataViewCategorical)
    (columns : list DataViewValueColumn) (viewModel : MovingRange.ControlChartViewModel)
    (stages : list MovingRange.Stage) :
  categorical view = Some cat -> values cat = Some columns ->
  MovingRange.GetStages (Some view) viewModel = Returns stages ->
  partitions (rangesOfMovingRange stages) (List.length (MovingRange.dataPoints viewModel))
  /\ Forall (fun s => (MovingRange.count s
                       = S (MovingRange.lastId s) - MovingRange.firstId s)%nat) stages.
Proof.
  intros Hcat Hval H. unfold MovingRange.GetStages in H. rewrite Hcat, Hval in H.
  remember (negb ((List.length columns =? 1)
                  || match nth_error columns 1 with None => true | Some _ => false end))
    as hasStages eqn:Ehas. clear Ehas.
  remember (match nth_error columns 1 with Some c => col_values c | None => [] end)
    as labels eqn:Elabels. clear Elabels.
  apply bind_returns in H. destruct H as [label [Hlabel H]].
  destruct (MovingRange.dataPoints viewModel) as [|first rest] eqn:Epoints; [discriminate|].
  apply bind_returns in H. destruct H as [st [Hloop H]]. inversion H. subst stages.
  eapply (stageLoop_partition _ _ (first :: rest) (first :: rest) 0%nat);
    [reflexivity | discriminate | | exact Hloop].
  unfold stageLoopInvariant. simpl.
  split; [reflexivity|]. split; [constructor|]. split; [reflexivity|].
  intros _ Hhas. rewrite Hhas in Hlabel. exact Hlabel.
Qed.

(** [GetStages] returns for every non-empty series whose positions are
    numbers or dates and whose stage labels, if any, are strings. *)
Lemma GetStages_returns (view : DataView) (cat : DataViewCategorical)
    (columns : list DataViewValueColumn) (viewModel : MovingRange.ControlChartViewModel) :
  categorical view = Some cat -> values cat = Some columns ->
  MovingRange.dataPoints viewModel <> [] ->
  Forall (fun p => isPosition (MovingRange.xValue p)) (MovingRange.dataPoints viewModel) ->
  (forall c, nth_error columns 1 = Some c -> Forall isLabel (col_values c)) ->
  exists stages, MovingRange.GetStages (Some view) viewModel = Returns stages.
Proof.
  intros Hcat Hval Hne Hpos Hlab. unfold MovingRange.GetStages. rewrite Hcat, Hval.
  assert (Hlabels : Forall isLabel
                      (match nth_error columns 1 with Some c => col_values c | None => [] end)).
  { destruct (nth_error columns 1) as [c|]; [apply Hlab; reflexivity | constructor]. }
  remember (negb ((List.length columns =? 1)
                  || match nth_error columns 1 with None => true | Some _ => false end))
    as hasStages eqn:Ehas. clear Ehas.
  remember (match nth_error columns 1 with Some c => col_values c | None => [] end)
    as labels eqn:Elabels. clear Elabels.
  assert (Hlabel : exists label,
             (if hasStages then labelAt labels 0 else Returns (Some EmptyString))
             = Returns label).
  { destruct hasStages; [apply labelAt_label; exact Hlabels | eauto]. }
  destruct Hlabel as [label Hlabel]. rewrite Hlabel. rewrite bind_Returns.
  destruct (MovingRange.dataPoints viewModel) as [|first rest] eqn:Epoints; [congruence|].
  match goal with
  | |- exists stages, bind (MovingRange.stageLoop ?h ?l ?pts 0 ?r ?st0) _ = _ =>
      destruct (stageLoop_returns h l pts Hpos Hlabels r 0%nat st0) as [st Hst]
  end.
  - intros k obj Hk. exact Hk.
  - reflexivity.
  - unfold stageLoopInvariant. simpl.
    split; [reflexivity|]. split; [constructor|]. split; [reflexivity|].
    intros _ Hhas. rewrite Hhas in Hlabel. exact Hlabel.
  - rewrite Hst. rewrite bind_Returns. eauto.
Qed.

(** ** Limits in the moving-range build *)

Lemma stageLimits_computed (viewModel : MovingRange.ControlChartViewModel)
    (s s' : MovingRange.Stage) :
  MovingRange.stageLimits (MovingRange.dataPoints viewModel)
    (MovingRange.standardDeviations viewModel) (MovingRange.movingRange viewModel)
    (MovingRange.LookUpd2 (MovingRange.movingRange viewModel)) s = Returns s' ->
  limitsComputed viewModel s s'.
Proof.
  unfold MovingRange.stageLimits, limitsComputed. cbv zeta.
  destruct (Z.of_nat (MovingRange.count s) <? MovingRange.movingRange viewModel)%Z.
  - intro H. inversion H. reflexivity.
  - intro H. apply bind_returns in H. destruct H as [total [Htotal H]].
    destruct (MovingRange.LookUpd2 (MovingRange.movingRange viewModel)) as [d|];
      [|discriminate].
    inversion H. exists total, d. repeat split. exact Htotal.
Qed.

Lemma limitsComputed_frame (viewModel : MovingRange.ControlChartViewModel)
    (s s' : MovingRange.Stage) :
  limitsComputed viewModel s s' ->
  MovingRange.firstId s' = MovingRange.firstId s
  /\ MovingRange.lastId s' = MovingRange.lastId s
  /\ MovingRange.count s' = MovingRange.count s
  /\ MovingRange.mean s' = MovingRange.mean s
  /\ MovingRange.stageDividerX s' = MovingRange.stageDividerX s
  /\ MovingRange.startX s' = MovingRange.startX s.
Proof.
  unfold limitsComputed. cbv zeta.
  destruct (Z.of_nat (MovingRange.count s) <? MovingRange.movingRange viewModel)%Z.
  - intros ->. repeat split.
  - intros [total [d [_ [_ ->]]]]. repeat split.
Qed.

(** The loop of [CalcStats]: the stages it leaves, one for one, and the
    lines it pushes. *)
Lemma statsLoop_spec (viewModel : MovingRange.ControlChartViewModel) :
  forall rest previous acc out,
    MovingRange.statsLoop (MovingRange.dataPoints viewModel)
      (MovingRange.standardDeviations viewModel) (MovingRange.movingRange viewModel)
      (MovingRange.LookUpd2 (MovingRange.movingRange viewModel)) previous rest acc
    = Returns out ->
    exists rest',
      Forall2 (limitsComputed viewModel) rest rest'
      /\ MovingRange.chartStages out = MovingRange.chartStages acc ++ rest'
      /\ MovingRange.meanLine out = MovingRange.meanLine acc ++ meanLinesFrom previous rest'
      /\ MovingRange.uclLines out
         = MovingRange.uclLines acc ++ limitLinesFrom MovingRange.uCL previous rest'
      /\ MovingRange.lclLines out
         = MovingRange.lclLines acc ++ limitLinesFrom MovingRange.lCL previous rest'
      /\ MovingRange.insufficient out
         = MovingRange.insufficient acc || existsb MovingRange.mRError rest'.
Proof.
  induction rest as [|s rest IH]; intros previous acc out H; simpl in H.
  - inversion H. subst out. exists []. simpl.
    rewrite !app_nil_r, orb_false_r. repeat split. constructor.
  - apply bind_returns in H. destruct H as [s' [Hs H]].
    apply IH in H. destruct H as [rest' [HF [HC [HM [HU [HL HI]]]]]].
    exists (s' :: rest').
    split; [constructor; [apply stageLimits_computed; exact Hs | exact HF]|].
    rewrite HC, HM, HU, HL, HI. unfold MovingRange.pushLines, lineStart.
    cbn [MovingRange.chartStages MovingRange.meanLine MovingRange.uclLines
           MovingRange.lclLines MovingRange.insufficient meanLinesFrom limitLinesFrom
           existsb].
    unfold lineStart.
    destruct (MovingRange.mRError s'); rewrite <- ?app_assoc, ?orb_assoc;
      repeat split.
Qed.

Lemma CalcStats_spec (viewModel : MovingRange.ControlChartViewModel)
    (stages : list MovingRange.Stage) (stats : MovingRange.Stats) :
  MovingRange.CalcStats viewModel stages = Returns stats ->
  Forall2 (limitsComputed viewModel) stages (MovingRange.chartStages stats)
  /\ MovingRange.meanLine stats = meanLinesFrom None (MovingRange.chartStages stats)
  /\ MovingRange.uclLines stats
     = limitLinesFrom MovingRange.uCL None (MovingRange.chartStages stats)
  /\ MovingRange.lclLines stats
     = limitLinesFrom MovingRange.lCL None (MovingRange.chartStages stats)
  /\ MovingRange.insufficient stats
     = MovingRange.vm_mRError viewModel
       || existsb MovingRange.mRError (MovingRange.chartStages stats).
Proof.
  intro H. unfold MovingRange.CalcStats in H.
  apply statsLoop_spec in H. destruct H as [rest' [HF [HC [HM [HU [HL HI]]]]]].
  simpl in *. subst rest'. repeat split; assumption.
Qed.

Lemma yAtZ_in_data (data : list MovingRange.ChartDataPoint) (j : Z) :
  (0 <= j)%Z -> (j < Z.of_nat (List.length data))%Z ->
  exists y, MovingRange.yAtZ data j = Returns y.
Proof.
  intros Hlo Hhi. unfold MovingRange.yAtZ.
  destruct (j <? 0)%Z eqn:E; [apply Z.ltb_lt in E; lia|].
  destruct (nth_error data (Z.to_nat j)) as [p|] eqn:Ep; [eauto|].
  apply nth_error_None in Ep. lia.
Qed.

Lemma windowScan_returns (data : list MovingRange.ChartDataPoint) :
  forall turns k mrMin mrMax,
    (0 <= k - Z.of_nat turns + 1)%Z -> (k < Z.of_nat (List.length data))%Z ->
    exists bounds, MovingRange.windowScan data k turns mrMin mrMax = Returns bounds.
Proof.
  induction turns as [|turns IH]; intros k mrMin mrMax Hlo Hhi; simpl.
  - eauto.
  - destruct (yAtZ_in_data data k) as [y Hy]; [lia | lia |].
    rewrite Hy, bind_Returns. apply IH; lia.
Qed.

Lemma rangeSum_returns (data : list MovingRange.ChartDataPoint) (mr : Z) :
  (0 <= mr)%Z ->
  forall turns j acc,
    (1 <= j)%Z -> (0 <= j - mr + 1)%Z ->
    (j + Z.of_nat turns - 1 < Z.of_nat (List.length data))%Z ->
    exists total, MovingRange.rangeSum data mr j turns acc = Returns total.
Proof.
  intros Hmr. induction turns as [|turns IH]; intros j acc H1 H2 H3; simpl.
  - eauto.
  - destruct (yAtZ_in_data data (j - 1)) as [start Hs]; [lia | lia |].
    rewrite Hs, bind_Returns.
    destruct (windowScan_returns data (Z.to_nat mr) j start start) as [bounds Hb];
      [lia | lia |].
    rewrite Hb, bind_Returns. apply IH; lia.
Qed.

Lemma stageLimits_returns (data : list MovingRange.ChartDataPoint) (numsds : Q) (mr : Z)
    (s : MovingRange.Stage) :
  (2 <= mr <= 50)%Z -> stageWellFormed data s ->
  exists s', MovingRange.stageLimits data numsds mr (MovingRange.LookUpd2 mr) s = Returns s'.
Proof.
  intros Hmr [Hle [Hin Hcount]]. unfold MovingRange.stageLimits.
  destruct (Z.of_nat (MovingRange.count s) <? mr)%Z eqn:E; [eauto|].
  apply Z.ltb_ge in E.
  destruct (rangeSum_returns data mr ltac:(lia)
              (Z.to_nat (Z.of_nat (MovingRange.lastId s)
                         - (Z.of_nat (MovingRange.firstId s) + mr - 1) + 1))
              (Z.of_nat (MovingRange.firstId s) + mr - 1)%Z 0) as [total Ht]; try lia.
  rewrite Ht, bind_Returns.
  destruct (LookUpd2_in_table mr ltac:(lia)) as [d [Hd _]]. rewrite Hd. eauto.
Qed.

Lemma statsLoop_returns (data : list MovingRange.ChartDataPoint) (numsds : Q) (mr : Z) :
  (2 <= mr <= 50)%Z ->
  forall rest previous acc,
    Forall (stageWellFormed data) rest ->
    exists out,
      MovingRange.statsLoop data numsds mr (MovingRange.LookUpd2 mr) previous rest acc
      = Returns out.
Proof.
  intros Hmr. induction rest as [|s rest IH]; intros previous acc H; simpl.
  - eauto.
  - inversion H as [|? ? Hs Hrest]; subst.
    destruct (stageLimits_returns data numsds mr s Hmr Hs) as [s' Hs'].
    rewrite Hs', bind_Returns. apply IH. exact Hrest.
Qed.

Lemma contiguousFrom_bounds (start next : nat) (l : list (nat * nat)) :
  contiguousFrom start l next ->
  forall a b, In (a, b) l -> (start <= a)%nat /\ (a <= b)%nat /\ (b < next)%nat.
Proof.
  revert start. induction l as [|[a0 b0] l IH]; intros start H a b Hin.
  - destruct Hin.
  - simpl in H. destruct H as [Ha [Hab H]].
    assert (Hnext : (S b0 <= next)%nat).
    { apply contiguousFrom_total in H. lia. }
    destruct Hin as [Heq | Hin].
    + inversion Heq. subst. lia.
    + destruct (IH (S b0) H a b Hin) as [H1 [H2 H3]]. lia.
Qed.

Lemma partition_wellFormed (data : list MovingRange.ChartDataPoint)
    (stages : list MovingRange.Stage) :
  partitions (rangesOfMovingRange stages) (List.length data) ->
  Forall (fun s => (MovingRange.count s
                    = S (MovingRange.lastId s) - MovingRange.firstId s)%nat) stages ->
  Forall (stageWellFormed data) stages.
Proof.
  intros Hp Hc. rewrite Forall_forall in *. intros s Hs.
  assert (Hin : In (MovingRange.firstId s, MovingRange.lastId s) (rangesOfMovingRange stages)).
  { unfold rangesOfMovingRange. apply in_map_iff. exists s. split; [reflexivity | exact Hs]. }
  destruct (contiguousFrom_bounds 0 _ _ Hp _ _ Hin) as [_ [H1 H2]].
  split; [exact H1|]. split; [exact H2|]. apply Hc. exact Hs.
Qed.

Lemma stageStep_fresh (hasStages : bool) (labels : list PrimitiveValue)
    (points : list MovingRange.ChartDataPoint) (i : nat) (obj : MovingRange.ChartDataPoint)
    (st st' : MovingRange.StageLoop) :
  Forall stageFresh (MovingRange.stages st) ->
  MovingRange.stageStep hasStages labels points i obj st = Returns st' ->
  Forall stageFresh (MovingRange.stages st').
Proof.
  intros Hfresh H. unfold MovingRange.stageStep in H.
  apply bind_returns in H. destruct H as [label [_ H]].
  apply bind_returns in H. destruct H as [st1 [H1 H]].
  apply bind_returns in H. destruct H as [current [_ H]].
  assert (H1' : Forall stageFresh (MovingRange.stages st1)).
  { destruct (labelEq (MovingRange.currentStage st) label || negb hasStages).
    - inversion H1. subst st1. exact Hfresh.
    - destruct (beforeIndex points i) as [previous|]; [|discriminate].
      apply bind_returns in H1. destruct H1 as [nextStart [_ H1]].
      apply bind_returns in H1. destruct H1 as [endDate [_ H1]].
      inversion H1. subst st1. cbn [MovingRange.stages].
      apply Forall_app. split; [exact Hfresh|].
      constructor; [|constructor]. repeat split. }
  destruct (i =? List.length points - 1).
  - inversion H. subst st'. cbn [MovingRange.stages].
    apply Forall_app. split; [exact H1'|].
    constructor; [|constructor]. repeat split.
  - inversion H. subst st'. exact H1'.
Qed.

Lemma stageLoop_fresh (hasStages : bool) (labels : list PrimitiveValue)
    (points : list MovingRange.ChartDataPoint) :
  forall rest i st st',
    Forall stageFresh (MovingRange.stages st) ->
    MovingRange.stageLoop hasStages labels points i rest st = Returns st' ->
    Forall stageFresh (MovingRange.stages st').
Proof.
  induction rest as [|obj rest IH]; intros i st st' Hfresh H; simpl in H.
  - inversion H. subst st'. exact Hfresh.
  - apply bind_returns in H. destruct H as [st1 [H1 H]].
    apply (IH (S i) st1 st'); [|exact H].
    apply (stageStep_fresh hasStages labels points i obj st st1 Hfresh H1).
Qed.

Lemma GetStages_fresh (dataView : option DataView)
    (viewModel : MovingRange.ControlChartViewModel) (stages : list MovingRange.Stage) :
  MovingRange.GetStages dataView viewModel = Returns stages ->
  Forall stageFresh stages.
Proof.
  intro H. unfold MovingRange.GetStages in H.
  destruct dataView as [view|]; [|inversion H; constructor].
  destruct (categorical view) as [cat|]; [|inversion H; constructor].
  destruct (values cat) as [columns|]; [|inversion H; constructor].
  apply bind_returns in H. destruct H as [label [_ H]].
  destruct (MovingRange.dataPoints viewModel) as [|first rest]; [discriminate|].
  apply bind_returns in H. destruct H as [st [Hloop H]]. inversion H. subst stages.
  apply (stageLoop_fresh _ _ _ _ _ _ st) in Hloop; [exact Hloop | constructor].
Qed.

Lemma Forall2_In_right {A B : Type} (R : A -> B -> Prop) (l : list A) (l' : list B) (y : B) :
  Forall2 R l l' -> In y l' -> exists x, In x l /\ R x y.
Proof.
  induction 1 as [|a b l l' Hab _ IH]; intro Hin; [destruct Hin|].
  destruct Hin as [-> | Hin].
  - exists a. split; [left; reflexivity | exact Hab].
  - destruct (IH Hin) as [x [Hx Hr]]. exists x. split; [right; exact Hx | exact Hr].
Qed.

Lemma Forall2_In_left {A B : Type} (R : A -> B -> Prop) (l : list A) (l' : list B) (x : A) :
  Forall2 R l l' -> In x l -> exists y, In y l' /\ R x y.
Proof.
  induction 1 as [|a b l l' Hab _ IH]; intro Hin; [destruct Hin|].
  destruct Hin as [-> | Hin].
  - exists b. split; [left; reflexivity | exact Hab].
  - destruct (IH Hin) as [y [Hy Hr]]. exists y. split; [right; exact Hy | exact Hr].
Qed.

Lemma Forall2_map_eq {A B C : Type} (R : A -> B -> Prop) (f : A -> C) (g : B -> C)
    (l : list A) (l' : list B) :
  Forall2 R l l' -> (forall a b, R a b -> f a = g b) -> map f l = map g l'.
Proof.
  intros H Hfg. induction H as [|a b l l' Hab _ IH]; [reflexivity|].
  simpl. rewrite (Hfg a b Hab), IH. reflexivity.
Qed.




(** After [GetStages] and [CalcStats] a stage is marked exactly when it has
    fewer points than the window, and then its limits are still 0. *)
Lemma limitsComputed_fresh (viewModel : MovingRange.ControlChartViewModel)
    (s s' : MovingRange.Stage) :
  stageFresh s -> limitsComputed viewModel s s' ->
  MovingRange.mRError s'
  = (Z.of_nat (MovingRange.count s') <? MovingRange.movingRange viewModel)%Z
  /\ (MovingRange.mRError s' = true ->
      MovingRange.uCL s' = 0 /\ MovingRange.lCL s' = 0).
Proof.
  intros [HL [HU HE]] H.
  destruct (limitsComputed_frame viewModel s s' H) as [_ [_ [Hc _]]]. rewrite Hc.
  unfold limitsComputed in H. cbv zeta in H.
  destruct (Z.of_nat (MovingRange.count s) <? MovingRange.movingRange viewModel)%Z.
  - subst s'. simpl. split; [reflexivity|]. intros _. split; assumption.
  - destruct H as [total [d [_ [_ ->]]]]. simpl. rewrite HE.
    split; [reflexivity | discriminate].
Qed.

(** Segmentation followed by the limit calculation, in the moving-range
    build with a window from 2 to 50. *)
Lemma GetStages_CalcStats (view : DataView) (cat : DataViewCategorical)
    (columns : list DataViewValueColumn) (viewModel : MovingRange.ControlChartViewModel)
    (stages : list MovingRange.Stage) :
  categorical view = Some cat -> values cat = Some columns ->
  MovingRange.GetStages (Some view) viewModel = Returns stages ->
  (2 <= MovingRange.movingRange viewModel <= 50)%Z ->
  exists stats,
    MovingRange.CalcStats viewModel stages = Returns stats
    /\ Forall2 (limitsComputed viewModel) stages (MovingRange.chartStages stats)
    /\ Forall (stageWellFormed (MovingRange.dataPoints viewModel))
         (MovingRange.chartStages stats)
    /\ Forall (fun s' =>
                 MovingRange.mRError s'
                 = (Z.of_nat (MovingRange.count s') <? MovingRange.movingRange viewModel)%Z
                 /\ (MovingRange.mRError s' = true ->
                     MovingRange.uCL s' = 0 /\ MovingRange.lCL s' = 0))
         (MovingRange.chartStages stats).
Proof.
  intros Hcat Hval Hget Hmr.
  destruct (GetStages_partition view cat columns viewModel stages Hcat Hval Hget)
    as [Hpart Hcounts].
  pose proof (partition_wellFormed _ _ Hpart Hcounts) as Hwf.
  pose proof (GetStages_fresh _ _ _ Hget) as Hfresh.
  destruct (statsLoop_returns (MovingRange.dataPoints viewModel)
              (MovingRange.standardDeviations viewModel)
              (MovingRange.movingRange viewModel) Hmr stages None
              {| MovingRange.chartStages := []; MovingRange.meanLine := [];
                 MovingRange.uclLines := []; MovingRange.lclLines := [];
                 MovingRange.stageDividers := [];
                 MovingRange.insufficient := MovingRange.vm_mRError viewModel |} Hwf)
    as [stats Hstats].
  exists stats. split; [exact Hstats|].
  destruct (CalcStats_spec viewModel stages stats Hstats) as [HF _].
  split; [exact HF|].
  rewrite Forall_forall in Hwf, Hfresh.
  split; rewrite Forall_forall; intros s' Hs';
    destruct (Forall2_In_right _ _ _ s' HF Hs') as [s [Hs Hr]].
  - destruct (limitsComputed_frame viewModel s s' Hr) as [Ef [El [Ec _]]].
    destruct (Hwf s Hs) as [H1 [H2 H3]].
    unfold stageWellFormed. rewrite Ef, El, Ec. repeat split; assumption.
  - apply (limitsComputed_fresh viewModel s s' (Hfresh s Hs) Hr).
Qed.



Lemma zero_limits_beyond (y : Q) : ~ y == 0 -> Qltb 0 y || Qltb y 0 = true.
Proof.
  intro H. apply orb_true_iff. rewrite !Qltb_lt.
  destruct (Q_dec 0 y) as [[Hlt | Hgt] | Heq].
  - left. exact Hlt.
  - right. exact Hgt.
  - exfalso. apply H. symmetry. exact Heq.
Qed.

(** C5. In the moving-range build (window from 2 to 50), after [GetStages]
    both [CalcStats] and [ApplyRules] return, and the stages [ApplyRules]
    scans are the stages of [GetStages], one for one, with their limits
    computed.  A stage of [GetStages] with fewer points than the window
    holds at least one point, has the limits uCL = 0 and lCL = 0 it was
    created with, and is passed to the rule evaluator with nothing changed
    but the mark [mRError]; the rule evaluator scans it like any other
    stage, so with Rule 1 on every point of the stage whose value is not 0
    is recoloured. *)
Theorem short_stage_flagged_by_rule1 :
  forall (view : DataView) (cat : DataViewCategorical) (columns : list DataViewValueColumn)
         (viewModel : MovingRange.ControlChartViewModel) (stages : list MovingRange.Stage),
    categorical view = Some cat -> values cat = Some columns ->
    MovingRange.GetStages (Some view) viewModel = Returns stages ->
    (2 <= MovingRange.movingRange viewModel <= 50)%Z ->
    MovingRange.runRule1 viewModel = true ->
    exists stats flagged,
      MovingRange.CalcStats viewModel stages = Returns stats
      /\ MovingRange.ApplyRules
           (MovingRange.setViewModelError viewModel (MovingRange.insufficient stats))
           (MovingRange.chartStages stats) = Returns flagged
      /\ Forall2 (limitsComputed viewModel) stages (MovingRange.chartStages stats)
      /\ (forall s, In s stages ->
            (Z.of_nat (MovingRange.count s) < MovingRange.movingRange viewModel)%Z ->
            In (MovingRange.setMRError s) (MovingRange.chartStages stats)
            /\ MovingRange.uCL s = 0 /\ MovingRange.lCL s = 0
            /\ (MovingRange.firstId s <= MovingRange.lastId s)%nat
            /\ (MovingRange.lastId s < List.length (MovingRange.dataPoints viewModel))%nat
            /\ forall j p,
                 (MovingRange.firstId s <= j)%nat -> (j <= MovingRange.lastId s)%nat ->
                 nth_error (MovingRange.dataPoints viewModel) j = Some p ->
                 ~ MovingRange.yValue p == 0 ->
                 In j flagged)
      /\ forall s', In s' (MovingRange.chartStages stats) ->
           (Z.of_nat (MovingRange.count s') < MovingRange.movingRange viewModel)%Z ->
           MovingRange.mRError s' = true
           /\ MovingRange.uCL s' = 0 /\ MovingRange.lCL s' = 0
           /\ forall j p,
                (MovingRange.firstId s' <= j)%nat -> (j <= MovingRange.lastId s')%nat ->
                nth_error (MovingRange.dataPoints viewModel) j = Some p ->
                ~ MovingRange.yValue p == 0 ->
                In j flagged.
Proof.
  intros view cat columns viewModel stages Hcat Hval Hget Hmr Hrule.
  destruct (GetStages_CalcStats view cat columns viewModel stages Hcat Hval Hget Hmr)
    as [stats [Hstats [HF [Hwf Hmark]]]].
  assert (Hin : Forall (Rules.stageInData MovingRange.Stage MovingRange.ChartDataPoint
                          MovingRange.firstId MovingRange.lastId
                          (MovingRange.dataPoints viewModel))
                  (MovingRange.chartStages stats)).
  { rewrite Forall_forall in *. intros s' Hs' _. apply (Hwf s' Hs'). }
  destruct (ApplyRules_in_data MovingRange.Stage MovingRange.ChartDataPoint
              MovingRange.firstId MovingRange.lastId MovingRange.uCL MovingRange.lCL
              MovingRange.mean MovingRange.yValue
              (MovingRange.runRule1 viewModel) (MovingRange.runRule2 viewModel)
              (MovingRange.runRule3 viewModel) (MovingRange.dataPoints viewModel)
              (MovingRange.chartStages stats) Hin) as [flagged Hflagged].
  exists stats, flagged. split; [exact Hstats|]. split; [exact Hflagged|].
  split; [exact HF|].
  assert (Hscan : forall s', In s' (MovingRange.chartStages stats) ->
            MovingRange.uCL s' = 0 -> MovingRange.lCL s' = 0 ->
            forall j p,
              (MovingRange.firstId s' <= j)%nat -> (j <= MovingRange.lastId s')%nat ->
              nth_error (MovingRange.dataPoints viewModel) j = Some p ->
              ~ MovingRange.yValue p == 0 ->
              In j flagged).
  { intros s' Hs' HU0 HL0 j p Hlo Hhi Hp Hy.
    apply (ApplyRules_rule1_flags MovingRange.Stage MovingRange.ChartDataPoint
             MovingRange.firstId MovingRange.lastId MovingRange.uCL MovingRange.lCL
             MovingRange.mean MovingRange.yValue
             (MovingRange.runRule1 viewModel) (MovingRange.runRule2 viewModel)
             (MovingRange.runRule3 viewModel) (MovingRange.dataPoints viewModel)
             (MovingRange.chartStages stats) flagged Hrule Hflagged s' j Hs' Hlo Hhi).
    unfold Rules.beyondLimits. rewrite Hp, HU0, HL0. apply zero_limits_beyond. exact Hy. }
  split.
  - intros s Hs Hshort.
    destruct (Forall2_In_left _ _ _ s HF Hs) as [s' [Hs' Hr]].
    unfold limitsComputed in Hr. cbv zeta in Hr.
    apply Z.ltb_lt in Hshort. rewrite Hshort in Hr. subst s'.
    pose proof (GetStages_fresh _ _ _ Hget) as Hfresh.
    rewrite Forall_forall in Hfresh. destruct (Hfresh s Hs) as [HL0 [HU0 _]].
    rewrite Forall_forall in Hwf. destruct (Hwf _ Hs') as [H1 [H2 _]].
    split; [exact Hs'|]. split; [exact HU0|]. split; [exact HL0|].
    split; [exact H1|]. split; [exact H2|].
    intros j p Hlo Hhi Hp Hy.
    apply (Hscan _ Hs' HU0 HL0 j p Hlo Hhi Hp Hy).
  - intros s' Hs' Hshort. rewrite Forall_forall in Hmark.
    destruct (Hmark s' Hs') as [E Hzero].
    assert (Hm : MovingRange.mRError s' = true).
    { rewrite E. apply Z.ltb_lt. exact Hshort. }
    destruct (Hzero Hm) as [HU0 HL0].
    split; [exact Hm|]. split; [exact HU0|]. split; [exact HL0|].
    apply (Hscan s' Hs' HU0 HL0).
Qed.

(** C5 on the series 1,2,3,4,5,6 labelled A,A,B,A,A,A with the window 2: the
    second stage of [GetStages], B, holds the point 2 alone, whose value is
    3; it reaches [ApplyRules] with the limits 0 and 0, and the point 2 is
    recoloured. *)
Lemma short_stage_flagged_by_rule1_witness :
  (categorical shortStageView
   = Some (sampleCategorical (numbers [1; 2; 3; 4; 5; 6]%Z) (numbers [1; 2; 3; 4; 5; 6]%Z)
             (Some (labelled ["A"; "A"; "B"; "A"; "A"; "A"]%string)))
   /\ values (sampleCategorical (numbers [1; 2; 3; 4; 5; 6]%Z) (numbers [1; 2; 3; 4; 5; 6]%Z)
                (Some (labelled ["A"; "A"; "B"; "A"; "A"; "A"]%string)))
      = Some (sampleColumns (numbers [1; 2; 3; 4; 5; 6]%Z)
                (Some (labelled ["A"; "A"; "B"; "A"; "A"; "A"]%string)))
   /\ MovingRange.GetStages (Some shortStageView) shortStageViewModel
      = Returns shortStageStages
   /\ (2 <= MovingRange.movingRange shortStageViewModel <= 50)%Z
   /\ MovingRange.runRule1 shortStageViewModel = true)
  /\ map (fun s => (MovingRange.stage s, MovingRange.firstId s, MovingRange.lastId s,
                    MovingRange.count s)) shortStageStages
     = [(Some "A"%string, 0, 1, 2); (Some "B"%string, 2, 2, 1);
        (Some "A"%string, 3, 5, 3)]%nat
  /\ option_map MovingRange.yValue
       (nth_error (MovingRange.dataPoints shortStageViewModel) 2) = Some 3
  /\ exists stats flagged short,
       MovingRange.CalcStats shortStageViewModel shortStageStages = Returns stats
       /\ MovingRange.ApplyRules
            (MovingRange.setViewModelError shortStageViewModel
               (MovingRange.insufficient stats))
            (MovingRange.chartStages stats) = Returns flagged
       /\ nth_error shortStageStages 1 = Some short
       /\ In (MovingRange.setMRError short) (MovingRange.chartStages stats)
       /\ MovingRange.uCL short = 0 /\ MovingRange.lCL short = 0
       /\ In 2%nat flagged.
Proof.
  assert (Hget : MovingRange.GetStages (Some shortStageView) shortStageViewModel
                 = Returns shortStageStages) by (vm_compute; reflexivity).
  assert (Hmr : (2 <= MovingRange.movingRange shortStageViewModel <= 50)%Z)
    by (simpl; lia).
  split; [split; [reflexivity|]; split; [reflexivity|]; split; [exact Hget|];
          split; [exact Hmr | reflexivity]|].
  split; [reflexivity|]. split; [reflexivity|].
  destruct (short_stage_flagged_by_rule1 shortStageView _ _ shortStageViewModel
              shortStageStages eq_refl eq_refl Hget Hmr eq_refl)
    as [stats [flagged [Hstats [Hflagged [_ [Hshort _]]]]]].
  pose (short := nth 1 shortStageStages (sampleStage 0 0 0 0 0)).
  assert (Hin : In short shortStageStages) by (right; left; reflexivity).
  assert (Hcount : (Z.of_nat (MovingRange.count short)
                    < MovingRange.movingRange shortStageViewModel)%Z) by reflexivity.
  destruct (Hshort short Hin Hcount) as [Hkept [HU0 [HL0 [_ [_ Hdots]]]]].
  exists stats, flagged, short.
  split; [exact Hstats|]. split; [exact Hflagged|]. split; [reflexivity|].
  split; [exact Hkept|]. split; [exact HU0|]. split; [exact HL0|].
  apply (Hdots 2%nat {| MovingRange.xValue := PNumber 2; MovingRange.yValue := 3;
                        MovingRange.MRSum := 0 |}).
  - apply Nat.le_refl.
  - apply Nat.le_refl.
  - reflexivity.
  - intro H. discriminate H.
Defined.

(** ** Segmentation in the subgroup build *)

Lemma withMeanSD_ids (acc : SubgroupSD.Stage) :
  SubgroupSD.firstId (SubgroupSD.withMean acc) = SubgroupSD.firstId acc
  /\ SubgroupSD.lastId (SubgroupSD.withMean acc) = SubgroupSD.lastId acc
  /\ SubgroupSD.count (SubgroupSD.withMean acc) = SubgroupSD.count acc.
Proof.
  unfold SubgroupSD.withMean. destruct (0 <? SubgroupSD.count acc); repeat split.
Qed.

Lemma stageStepSD_invariant (noStages : bool) (labels : list PrimitiveValue)
    (points : list SubgroupSD.ChartDataPoint) (i : nat) (obj : SubgroupSD.ChartDataPoint)
    (st st' : SubgroupSD.StageLoop) :
  stageLoopInvariantSD noStages labels i st ->
  SubgroupSD.stageStep noStages labels points i obj st = Returns st' ->
  if i =? List.length points - 1
  then contiguousFrom 0 (rangesOfSubgroupSD (SubgroupSD.stages st')) (S i)
       /\ Forall (fun s => (SubgroupSD.count s
                            = S (SubgroupSD.lastId s) - SubgroupSD.firstId s)%nat)
            (SubgroupSD.stages st')
  else stageLoopInvariantSD noStages labels (S i) st'.
Proof.
  intros [Hchain [Hcounts [Hsum Hfirst]]] H.
  unfold SubgroupSD.stageStep in H.
  apply bind_returns in H. destruct H as [label [Hlabel H]].
  apply bind_returns in H. destruct H as [st1 [H1 H]].
  apply bind_returns in H. destruct H as [current [Hcurrent H]].
  assert (Hst1 : contiguousFrom 0 (rangesOfSubgroupSD (SubgroupSD.stages st1))
                   (SubgroupSD.firstId (SubgroupSD.running st1))
                 /\ Forall (fun s => (SubgroupSD.count s
                                      = S (SubgroupSD.lastId s) - SubgroupSD.firstId s)%nat)
                      (SubgroupSD.stages st1)
                 /\ (SubgroupSD.firstId (SubgroupSD.running st1)
                     + SubgroupSD.count (SubgroupSD.running st1) = S i)%nat
                 /\ (1 <= SubgroupSD.count (SubgroupSD.running st1))%nat).
  { destruct (labelEq (SubgroupSD.currentStage st) label || noStages) eqn:Esame.
    - inversion H1. subst st1.
      cbn [SubgroupSD.stages SubgroupSD.running SubgroupSD.firstId SubgroupSD.count
             SubgroupSD.lastId SubgroupSD.currentStage SubgroupSD.stageValue].
      repeat split; try assumption; lia.
    - destruct (beforeIndex points i) as [previous|] eqn:Eprev; [|discriminate].
      apply bind_returns in H1. destruct H1 as [nextStart [_ H1]].
      apply bind_returns in H1. destruct H1 as [endDate [_ H1]].
      apply bind_returns in H1. destruct H1 as [name [_ H1]].
      destruct (withMeanSD_ids (SubgroupSD.running st)) as [Wf [Wl Wc]].
      remember (SubgroupSD.withMean (SubgroupSD.running st)) as w eqn:Ew. clear Ew.
      inversion H1. subst st1. clear H1.
      cbn [SubgroupSD.stages SubgroupSD.running SubgroupSD.firstId SubgroupSD.count
             SubgroupSD.lastId SubgroupSD.currentStage SubgroupSD.stageValue].
      apply orb_false_iff in Esame. destruct Esame as [Ene Ehas].
      assert (Hc : (1 <= SubgroupSD.count (SubgroupSD.running st))%nat).
      { destruct (SubgroupSD.count (SubgroupSD.running st)) eqn:Ec; [|lia].
        exfalso. rewrite Ehas in Hlabel. rewrite (Hfirst eq_refl Ehas) in Hlabel.
        inversion Hlabel. subst label. rewrite labelEq_refl in Ene. discriminate. }
      split; [|split; [|split]].
      + unfold rangesOfSubgroupSD. rewrite map_app.
        apply (contiguousFrom_app 0 (SubgroupSD.firstId (SubgroupSD.running st))).
        * exact Hchain.
        * unfold SubgroupSD.closeStage.
          cbn [map contiguousFrom SubgroupSD.firstId SubgroupSD.lastId].
          rewrite Wf. repeat split; lia.
      + apply Forall_app. split; [exact Hcounts|].
        constructor; [|constructor]. unfold SubgroupSD.closeStage.
        cbn [SubgroupSD.count SubgroupSD.firstId SubgroupSD.lastId].
        rewrite Wf, Wc. lia.
      + lia.
      + lia. }
  destruct Hst1 as [Hchain1 [Hcounts1 [Hsum1 Hpos1]]].
  destruct (i =? List.length points - 1) eqn:Elast.
  - destruct (withMeanSD_ids (SubgroupSD.running st1)) as [Wf [Wl Wc]].
    remember (SubgroupSD.withMean (SubgroupSD.running st1)) as w eqn:Ew. clear Ew.
    apply bind_returns in H. destruct H as [name [_ H]].
    inversion H. subst st'. clear H.
    cbn [SubgroupSD.stages SubgroupSD.running SubgroupSD.firstId SubgroupSD.count
           SubgroupSD.lastId SubgroupSD.currentStage SubgroupSD.stageValue].
    split.
    + unfold rangesOfSubgroupSD. rewrite map_app.
      apply (contiguousFrom_app 0 (SubgroupSD.firstId (SubgroupSD.running st1))).
      * exact Hchain1.
      * unfold SubgroupSD.closeStage.
        cbn [map contiguousFrom SubgroupSD.firstId SubgroupSD.lastId].
        rewrite Wf. repeat split; lia.
    + apply Forall_app. split; [exact Hcounts1|].
      constructor; [|constructor]. unfold SubgroupSD.closeStage.
      cbn [SubgroupSD.count SubgroupSD.firstId SubgroupSD.lastId].
      rewrite Wf, Wc. lia.
  - inversion H. subst st'. clear H. unfold stageLoopInvariantSD.
    cbn [SubgroupSD.stages SubgroupSD.running SubgroupSD.firstId SubgroupSD.count
           SubgroupSD.lastId SubgroupSD.currentStage SubgroupSD.stageValue].
    split; [exact Hchain1|]. split; [exact Hcounts1|]. split; [exact Hsum1|].
    intros Hzero. exfalso. lia.
Qed.

Lemma stageLoopSD_partition (noStages : bool) (labels : list PrimitiveValue)
    (points : list SubgroupSD.ChartDataPoint) :
  forall rest i st st',
    (i + List.length rest = List.length points)%nat -> rest <> [] ->
    stageLoopInvariantSD noStages labels i st ->
    SubgroupSD.stageLoop noStages labels points i rest st = Returns st' ->
    partitions (rangesOfSubgroupSD (SubgroupSD.stages st')) (List.length points)
    /\ Forall (fun s => (SubgroupSD.count s
                         = S (SubgroupSD.lastId s) - SubgroupSD.firstId s)%nat)
         (SubgroupSD.stages st').
Proof.
  induction rest as [|obj rest IH]; intros i st st' Hlen Hne Hinv H; [congruence|].
  simpl in H. apply bind_returns in H. destruct H as [st1 [H1 H]].
  pose proof (stageStepSD_invariant noStages labels points i obj st st1 Hinv H1) as Hstep.
  simpl in Hlen. destruct rest as [|obj' rest'].
  - simpl in H. inversion H. subst st'.
    assert (E : (i =? List.length points - 1) = true) by (apply Nat.eqb_eq; simpl in Hlen; lia).
    rewrite E in Hstep. replace (List.length points) with (S i) by (simpl in Hlen; lia).
    exact Hstep.
  - assert (E : (i =? List.length points - 1) = false).
    { apply Nat.eqb_neq. simpl in Hlen. lia. }
    rewrite E in Hstep.
    apply (IH (S i) st1 st'); [simpl in *; lia | discriminate | exact Hstep | exact H].
Qed.

(** Segmentation in the subgroup build: the same partition. *)
Lemma GetStagesSD_partition (view : DataView) (cat : DataViewCategorical)
    (columns : list DataViewValueColumn) (viewModel : SubgroupSD.ControlChartViewModel)
    (stages : list SubgroupSD.Stage) :
  categorical view = Some cat -> values cat = Some columns ->
  SubgroupSD.GetStages (Some view) viewModel = Returns stages ->
  partitions (rangesOfSubgroupSD stages) (List.length (SubgroupSD.dataPoints viewModel))
  /\ Forall (fun s => (SubgroupSD.count s
                       = S (SubgroupSD.lastId s) - SubgroupSD.firstId s)%nat) stages.
Proof.
  intros Hcat Hval H. unfold SubgroupSD.GetStages in H. rewrite Hcat, Hval in H.
  remember (List.length columns =? 1) as noStages eqn:Eno. clear Eno.
  apply bind_returns in H. destruct H as [labels [_ H]].
  apply bind_returns in H. destruct H as [label [Hlabel H]].
  destruct (SubgroupSD.dataPoints viewModel) as [|first rest] eqn:Epoints; [discriminate|].
  apply bind_returns in H. destruct H as [name [_ H]].
  apply bind_returns in H. destruct H as [st [Hloop H]]. inversion H. subst stages.
  eapply (stageLoopSD_partition _ _ (first :: rest) (first :: rest) 0%nat);
    [reflexivity | discriminate | | exact Hloop].
  unfold stageLoopInvariantSD. simpl.
  split; [reflexivity|]. split; [constructor|]. split; [reflexivity|].
  intros _ Hno. rewrite Hno in Hlabel. exact Hlabel.
Qed.

Lemma labelAt_present (labels : list PrimitiveValue) (i : nat) :
  Forall isLabel labels -> (i < List.length labels)%nat ->
  exists s, labelAt labels i = Returns (Some s).
Proof.
  intros H Hi. unfold labelAt. destruct (nth_error labels i) as [v|] eqn:E.
  - apply nth_error_In in E. rewrite Forall_forall in H. specialize (H v E).
    destruct v; simpl in H; try contradiction. eauto.
  - apply nth_error_None in E. lia.
Qed.

Lemma stageStepSD_returns (noStages : bool) (labels : list PrimitiveValue)
    (points : list SubgroupSD.ChartDataPoint) (i : nat) (obj : SubgroupSD.ChartDataPoint)
    (st : SubgroupSD.StageLoop) :
  stageLoopInvariantSD noStages labels i st ->
  nth_error points i = Some obj ->
  Forall (fun p => isPosition (SubgroupSD.xValue p)) points ->
  Forall isLabel labels ->
  (noStages = false -> (List.length points <= List.length labels)%nat) ->
  exists st', SubgroupSD.stageStep noStages labels points i obj st = Returns st'.
Proof.
  intros [Hchain [Hcounts [Hsum Hfirst]]] Hobj Hpos Hlab Hlong.
  assert (Hi : (i < List.length points)%nat).
  { apply nth_error_Some. rewrite Hobj. discriminate. }
  unfold SubgroupSD.stageStep.
  assert (Hlabel : exists name,
             (if noStages then Returns (Some EmptyString) else labelAt labels i)
             = Returns (Some name)).
  { destruct noStages; [eauto|]. apply labelAt_present; [exact Hlab|].
    specialize (Hlong eq_refl). lia. }
  destruct Hlabel as [name Hlabel]. rewrite Hlabel, bind_Returns. cbv beta.
  destruct (labelEq (SubgroupSD.currentStage st) (Some name) || noStages) eqn:Esame.
  - repeat (rewrite bind_Returns; cbv beta).
    destruct (i =? List.length points - 1); eexists; reflexivity.
  - apply orb_false_iff in Esame. destruct Esame as [Ene Ehas]. subst noStages.
    assert (Hc : (1 <= SubgroupSD.count (SubgroupSD.running st))%nat).
    { destruct (SubgroupSD.count (SubgroupSD.running st)) eqn:Ec; [|lia].
      exfalso. rewrite (Hfirst eq_refl eq_refl) in Hlabel.
      inversion Hlabel as [Hcur]. rewrite Hcur, labelEq_refl in Ene. discriminate. }
    destruct i as [|p]; [lia|].
    destruct (nth_error points p) as [previous|] eqn:Eprev;
      [|apply nth_error_None in Eprev; lia].
    simpl beforeIndex. rewrite Eprev.
    rewrite Forall_forall in Hpos.
    destruct (valueOf_position (SubgroupSD.xValue obj)
                (Hpos obj (nth_error_In _ _ Hobj))) as [q1 Hq1].
    destruct (valueOf_position (SubgroupSD.xValue previous)
                (Hpos previous (nth_error_In _ _ Eprev))) as [q2 Hq2].
    rewrite Hq1, bind_Returns. cbv beta. rewrite Hq2, bind_Returns. cbv beta.
    unfold SubgroupSD.toString.
    repeat (rewrite bind_Returns; cbv beta).
    destruct (S p =? List.length points - 1); eexists; reflexivity.
Qed.

Lemma stageLoopSD_returns (noStages : bool) (labels : list PrimitiveValue)
    (points : list SubgroupSD.ChartDataPoint) :
  Forall (fun p => isPosition (SubgroupSD.xValue p)) points ->
  Forall isLabel labels ->
  (noStages = false -> (List.length points <= List.length labels)%nat) ->
  forall rest i st,
    (forall k obj, nth_error rest k = Some obj -> nth_error points (i + k) = Some obj) ->
    (i + List.length rest = List.length points)%nat ->
    stageLoopInvariantSD noStages labels i st ->
    exists st', SubgroupSD.stageLoop noStages labels points i rest st = Returns st'.
Proof.
  intros Hpos Hlab Hlong. induction rest as [|obj rest IH]; intros i st Hnth Hlen Hinv.
  - simpl. eauto.
  - simpl.
    assert (Hobj : nth_error points i = Some obj).
    { rewrite <- (Nat.add_0_r i). apply Hnth. reflexivity. }
    destruct (stageStepSD_returns noStages labels points i obj st Hinv Hobj Hpos Hlab Hlong)
      as [st1 H1].
    rewrite H1, bind_Returns.
    pose proof (stageStepSD_invariant noStages labels points i obj st st1 Hinv H1) as Hstep.
    destruct rest as [|obj' rest'].
    + simpl. eauto.
    + assert (E : (i =? List.length points - 1) = false).
      { apply Nat.eqb_neq. simpl in Hlen. lia. }
      rewrite E in Hstep. apply IH.
      * intros k o Hk. replace (S i + k)%nat with (i + S k)%nat by lia.
        apply Hnth. exact Hk.
      * simpl in *. lia.
      * exact Hstep.
Qed.

Lemma GetStagesSD_returns (view : DataView) (cat : DataViewCategorical)
    (columns : list DataViewValueColumn) (labels : list PrimitiveValue)
    (viewModel : SubgroupSD.ControlChartViewModel) :
  categorical view = Some cat -> values cat = Some columns ->
  categories cat <> None ->
  labelColumnSD columns = Some labels ->
  SubgroupSD.dataPoints viewModel <> [] ->
  Forall (fun p => isPosition (SubgroupSD.xValue p)) (SubgroupSD.dataPoints viewModel) ->
  Forall isLabel labels ->
  ((List.length columns =? 1) = false ->
   (List.length (SubgroupSD.dataPoints viewModel) <= List.length labels)%nat) ->
  exists stages, SubgroupSD.GetStages (Some view) viewModel = Returns stages.
Proof.
  intros Hcat Hval Hcats Hcol Hne Hpos Hlab Hlong.
  unfold SubgroupSD.GetStages. rewrite Hcat, Hval. unfold labelColumnSD in Hcol.
  destruct (SubgroupSD.dataPoints viewModel) as [|first rest] eqn:Epoints; [congruence|].
  assert (Hcolumn :
            (if List.length columns =? 1 then Returns []
             else match categories cat with
                  | None => TypeError
                  | Some _ => match nth_error columns 1 with
                              | None => TypeError
                              | Some c => Returns (col_values c)
                              end
                  end) = Returns labels).
  { destruct (List.length columns =? 1); [congruence|].
    destruct (categories cat); [|congruence].
    destruct (nth_error columns 1); simpl in Hcol; congruence. }
  rewrite Hcolumn, bind_Returns. cbv beta.
  remember (List.length columns =? 1) as noStages eqn:Eno. clear Eno Hcolumn Hcol.
  assert (Hlabel : exists name,
             (if noStages then Returns (Some EmptyString) else labelAt labels 0)
             = Returns (Some name)).
  { destruct noStages; [eauto|]. apply labelAt_present; [exact Hlab|].
    specialize (Hlong eq_refl). simpl in Hlong. lia. }
  destruct Hlabel as [name Hlabel]. rewrite Hlabel, bind_Returns. cbv beta.
  unfold SubgroupSD.toString. rewrite bind_Returns. cbv beta.
  match goal with
  | |- exists stages, bind (SubgroupSD.stageLoop ?h ?l ?pts 0 ?r ?st0) _ = _ =>
      destruct (stageLoopSD_returns h l pts Hpos Hlab Hlong r 0%nat st0) as [st Hst]
  end.
  - intros k obj Hk. exact Hk.
  - reflexivity.
  - unfold stageLoopInvariantSD. simpl.
    split; [reflexivity|]. split; [constructor|]. split; [reflexivity|].
    intros _ Hno. rewrite Hno in Hlabel. exact Hlabel.
  - rewrite Hst, bind_Returns. eauto.
Qed.

(** ** Limits in the subgroup build *)

Lemma findIndexByKeyValue_labels (groups groups' : list SubgroupSD.SubGroup) (label : string) :
  map SubgroupSD.g_stage groups = map SubgroupSD.g_stage groups' ->
  SubgroupSD.findIndexByKeyValue groups label = SubgroupSD.findIndexByKeyValue groups' label.
Proof.
  revert groups'. induction groups as [|g rest IH]; intros [|g' rest'] H; simpl in *;
    try discriminate; [reflexivity|].
  inversion H as [[Hg Hrest]]. rewrite Hg. rewrite (IH rest' Hrest). reflexivity.
Qed.

Lemma findIndexByKeyValue_found (groups : list SubgroupSD.SubGroup) (label : string) :
  In label (map SubgroupSD.g_stage groups) ->
  exists index g,
    SubgroupSD.findIndexByKeyValue groups label = Some index
    /\ nth_error groups index = Some g.
Proof.
  induction groups as [|g rest IH]; intro H; [destruct H|].
  simpl. destruct (String.eqb (SubgroupSD.g_stage g) label) eqn:E.
  - exists 0%nat, g. split; reflexivity.
  - destruct H as [H | H]; [apply String.eqb_neq in E; congruence|].
    destruct (IH H) as [index [g' [Hf Hn]]]. rewrite Hf.
    exists (S index), g'. split; [reflexivity | exact Hn].
Qed.

Lemma updateAt_labels (groups : list SubgroupSD.SubGroup) (index : nat)
    (f : SubgroupSD.SubGroup -> SubgroupSD.SubGroup) :
  (forall g, SubgroupSD.g_stage (f g) = SubgroupSD.g_stage g) ->
  map SubgroupSD.g_stage (SubgroupSD.updateAt groups index f) = map SubgroupSD.g_stage groups.
Proof.
  intro Hf. revert index. induction groups as [|g rest IH]; intros [|index]; simpl;
    try reflexivity.
  - rewrite Hf. reflexivity.
  - rewrite IH. reflexivity.
Qed.

Lemma squaresLoop_labels (data : list SubgroupSD.ChartDataPoint) (center : Q)
    (index : option nat) :
  forall js total groups result,
    SubgroupSD.squaresLoop data center index js total groups = Returns result ->
    map SubgroupSD.g_stage (snd result) = map SubgroupSD.g_stage groups.
Proof.
  induction js as [|j js IH]; intros total groups result H; simpl in H.
  - inversion H. reflexivity.
  - destruct (nth_error data j) as [p|]; [|discriminate].
    apply IH in H. rewrite H. destruct index as [k|]; [|reflexivity].
    apply updateAt_labels. intro g. reflexivity.
Qed.

Lemma squaresLoop_returns (data : list SubgroupSD.ChartDataPoint) (center : Q)
    (index : option nat) :
  forall js total groups,
    (forall j, In j js -> (j < List.length data)%nat) ->
    exists result, SubgroupSD.squaresLoop data center index js total groups = Returns result.
Proof.
  induction js as [|j js IH]; intros total groups H; simpl.
  - eauto.
  - destruct (nth_error data j) as [p|] eqn:E.
    + apply IH. intros k Hk. apply H. right. exact Hk.
    + apply nth_error_None in E. specialize (H j (or_introl eq_refl)). lia.
Qed.

Lemma deviationsLoop_kept (data : list SubgroupSD.ChartDataPoint) (sdTotal : bool) :
  forall rest groups result,
    SubgroupSD.deviationsLoop data sdTotal rest groups = Returns result ->
    Forall2 (stageKept sdTotal) rest (fst result)
    /\ map SubgroupSD.g_stage (snd result) = map SubgroupSD.g_stage groups.
Proof.
  induction rest as [|s rest IH]; intros groups result H; simpl in H.
  - inversion H. split; [constructor | reflexivity].
  - apply bind_returns in H. destruct H as [located [Hloc H]].
    apply bind_returns in H. destruct H as [squares [Hsq H]].
    apply bind_returns in H. destruct H as [later [Hlater H]].
    inversion H. subst result. clear H. simpl.
    apply squaresLoop_labels in Hsq. apply IH in Hlater.
    destruct Hlater as [HF Hlabels]. rewrite Hlabels, Hsq.
    split; [|reflexivity]. constructor; [|exact HF].
    destruct sdTotal.
    + destruct (SubgroupSD.findIndexByKeyValue groups (SubgroupSD.stage s)) as [index|];
        [|discriminate].
      destruct (nth_error groups index) as [g|]; [|discriminate].
      inversion Hloc. subst located. simpl. repeat split. discriminate.
    + inversion Hloc. subst located. simpl. repeat split.
Qed.

Lemma limitsLoop_kept (Math_sqrt : Q -> Q) (numsds : Q) (sdTotal : bool)
    (groups : list SubgroupSD.SubGroup) :
  forall rest previous acc out,
    SubgroupSD.limitsLoop Math_sqrt numsds sdTotal groups previous rest acc = Returns out ->
    exists rest',
      SubgroupSD.chartStages out = SubgroupSD.chartStages acc ++ rest'
      /\ Forall2 (stageKept false) rest rest'.
Proof.
  induction rest as [|s rest IH]; intros previous acc out H; simpl in H.
  - inversion H. exists []. rewrite app_nil_r. split; [reflexivity | constructor].
  - apply bind_returns in H. destruct H as [triple [_ H]].
    apply IH in H. destruct H as [rest' [HC HF]].
    eexists (_ :: rest'). split.
    + rewrite HC. unfold SubgroupSD.pushLines. cbn [SubgroupSD.chartStages].
      rewrite <- app_assoc. reflexivity.
    + constructor; [|exact HF]. repeat split.
Qed.

Lemma stageKept_trans (sdTotal : bool) (a b c : SubgroupSD.Stage) :
  stageKept sdTotal a b -> stageKept false b c -> stageKept sdTotal a c.
Proof.
  intros [H1 [H2 [H3 H4]]] [K1 [K2 [K3 K4]]]. unfold stageKept.
  rewrite K1, K2, K3, H1, H2, H3. repeat split.
  intro E. rewrite (K4 eq_refl). apply H4. exact E.
Qed.

Lemma Forall2_trans {A : Type} (R S T : A -> A -> Prop) (l1 l2 l3 : list A) :
  (forall a b c, R a b -> S b c -> T a c) ->
  Forall2 R l1 l2 -> Forall2 S l2 l3 -> Forall2 T l1 l3.
Proof.
  intros H H12. revert l3. induction H12 as [|a b l1 l2 Hab _ IH]; intros l3 H23.
  - inversion H23. constructor.
  - inversion H23 as [|? c ? l3' Hbc Hrest]; subst.
    constructor; [apply (H a b c Hab Hbc) | apply IH; exact Hrest].
Qed.

(** [CalcStats] of the subgroup build keeps every stage's index range; it
    keeps the counts when the subgroups are not in use. *)
Lemma CalcStatsSD_kept (Math_sqrt : Q -> Q) (viewModel : SubgroupSD.ControlChartViewModel)
    (numsds : Q) (stages : list SubgroupSD.Stage) (stats : SubgroupSD.Stats) :
  SubgroupSD.CalcStats Math_sqrt viewModel numsds stages = Returns stats ->
  Forall2 (stageKept (SubgroupSD.useSDSubGroups viewModel)) stages
    (SubgroupSD.chartStages stats).
Proof.
  intro H. unfold SubgroupSD.CalcStats in H.
  apply bind_returns in H. destruct H as [groups [_ H]].
  apply bind_returns in H. destruct H as [first [Hfirst H]].
  apply deviationsLoop_kept in Hfirst. destruct Hfirst as [HF _].
  apply limitsLoop_kept in H. destruct H as [rest' [HC HK]].
  simpl in HC. subst rest'.
  apply (Forall2_trans _ _ _ _ _ _ (stageKept_trans _) HF HK).
Qed.

Lemma hasKey_In (unique : list string) (key : string) :
  SubgroupSD.hasKey unique key = true <-> In key (SubgroupSD.inheritedKeys ++ unique).
Proof.
  unfold SubgroupSD.hasKey. rewrite existsb_exists. split.
  - intros [k [Hk E]]. apply String.eqb_eq in E. subst k. exact Hk.
  - intro H. exists key. split; [exact H | apply String.eqb_refl].
Qed.

Lemma uniqueLoop_grows :
  forall src unique distinct groups,
    SubgroupSD.uniqueLoop src unique distinct = Returns groups ->
    forall l, In l (map SubgroupSD.g_stage distinct) -> In l (map SubgroupSD.g_stage groups).
Proof.
  induction src as [|s src IH]; intros unique distinct groups H l Hl; simpl in H.
  - inversion H. subst groups. exact Hl.
  - apply bind_returns in H. destruct H as [distinct' [Hd H]].
    apply (IH _ _ _ H). destruct (SubgroupSD.hasKey unique (SubgroupSD.stage s)).
    + destruct (SubgroupSD.findIndexByKeyValue distinct (SubgroupSD.stage s));
        [|discriminate].
      inversion Hd. rewrite updateAt_labels; [exact Hl | intro g; reflexivity].
    + inversion Hd. rewrite map_app. apply in_or_app. left. exact Hl.
Qed.

(** [GetUnique] returns a subgroup for the label of every stage, unless a
    label is a name every object inherits. *)
Lemma uniqueLoop_returns :
  forall src unique distinct,
    Forall (fun s => ~ In (SubgroupSD.stage s) SubgroupSD.inheritedKeys) src ->
    (forall l, In l unique -> In l (map SubgroupSD.g_stage distinct)) ->
    exists groups,
      SubgroupSD.uniqueLoop src unique distinct = Returns groups
      /\ forall s, In s src -> In (SubgroupSD.stage s) (map SubgroupSD.g_stage groups).
Proof.
  induction src as [|s rest IH]; intros unique distinct Hkeys Hinv; simpl.
  - exists distinct. split; [reflexivity | intros s []].
  - inversion Hkeys as [|? ? Hs Hrest]; subst.
    destruct (SubgroupSD.hasKey unique (SubgroupSD.stage s)) eqn:E.
    + apply hasKey_In in E. apply in_app_or in E. destruct E as [E | E]; [contradiction|].
      destruct (findIndexByKeyValue_found distinct _ (Hinv _ E)) as [index [g [Hf Hn]]].
      rewrite Hf, bind_Returns.
      destruct (IH (SubgroupSD.stage s :: unique)
                  (SubgroupSD.updateAt distinct index
                     (fun g0 => SubgroupSD.addToGroup g0 s)) Hrest) as [groups [Hg Hall]].
      * intros l Hl. rewrite updateAt_labels; [|intro g0; reflexivity].
        destruct Hl as [<- | Hl]; [apply Hinv; exact E | apply Hinv; exact Hl].
      * exists groups. split; [exact Hg|].
        intros s0 [<- | Hs0]; [|apply Hall; exact Hs0].
        apply (uniqueLoop_grows _ _ _ _ Hg).
        rewrite updateAt_labels; [|intro g0; reflexivity]. apply Hinv. exact E.
    + rewrite bind_Returns.
      destruct (IH (SubgroupSD.stage s :: unique)
                  (distinct ++ [{| SubgroupSD.g_mean := SubgroupSD.mean s;
                                   SubgroupSD.g_sum := SubgroupSD.sum s;
                                   SubgroupSD.g_count := SubgroupSD.count s;
                                   SubgroupSD.g_stage := SubgroupSD.stage s |}]) Hrest)
        as [groups [Hg Hall]].
      * intros l Hl. rewrite map_app. apply in_or_app.
        destruct Hl as [<- | Hl]; [right; left; reflexivity | left; apply Hinv; exact Hl].
      * exists groups. split; [exact Hg|].
        intros s0 [<- | Hs0]; [|apply Hall; exact Hs0].
        apply (uniqueLoop_grows _ _ _ _ Hg).
        rewrite map_app. apply in_or_app. right. left. reflexivity.
Qed.

Lemma deviationsLoop_returns (data : list SubgroupSD.ChartDataPoint) (sdTotal : bool) :
  forall rest groups,
    Forall (stageWellFormedSD data) rest ->
    (sdTotal = true ->
     forall s, In s rest -> In (SubgroupSD.stage s) (map SubgroupSD.g_stage groups)) ->
    exists result, SubgroupSD.deviationsLoop data sdTotal rest groups = Returns result.
Proof.
  induction rest as [|s rest IH]; intros groups Hwf Hlab; simpl.
  - eauto.
  - inversion Hwf as [|? ? [H1 [H2 H3]] Hrest]; subst.
    assert (Hloc : exists located,
               (if sdTotal
                then match SubgroupSD.findIndexByKeyValue groups (SubgroupSD.stage s) with
                     | Some index =>
                         match nth_error groups index with
                         | Some g => Returns (SubgroupSD.setGroupStats s g, Some index)
                         | None => TypeError
                         end
                     | None => TypeError
                     end
                else Returns (s, None)) = Returns located).
    { destruct sdTotal; [|eauto].
      destruct (findIndexByKeyValue_found groups _ (Hlab eq_refl s (or_introl eq_refl)))
        as [index [g [Hf Hn]]].
      rewrite Hf, Hn. eauto. }
    destruct Hloc as [located Hloc]. rewrite Hloc, bind_Returns. cbv beta.
    destruct (squaresLoop_returns data (SubgroupSD.mean (fst located)) (snd located)
                (indexRange (SubgroupSD.firstId s) (SubgroupSD.lastId s)) 0 groups)
      as [squares Hsq].
    { intros j Hj. apply indexRange_In in Hj. lia. }
    rewrite Hsq, bind_Returns. cbv beta.
    destruct (IH (snd squares) Hrest) as [later Hlater].
    { intros E s0 Hs0. rewrite (squaresLoop_labels _ _ _ _ _ _ _ Hsq).
      apply (Hlab E). right. exact Hs0. }
    rewrite Hlater, bind_Returns. eauto.
Qed.

Lemma limitsLoop_returns (Math_sqrt : Q -> Q) (numsds : Q) (sdTotal : bool)
    (groups : list SubgroupSD.SubGroup) :
  forall rest previous acc,
    (sdTotal = true ->
     forall s, In s rest -> In (SubgroupSD.stage s) (map SubgroupSD.g_stage groups)) ->
    exists out,
      SubgroupSD.limitsLoop Math_sqrt numsds sdTotal groups previous rest acc = Returns out.
Proof.
  induction rest as [|s rest IH]; intros previous acc Hlab; simpl.
  - eauto.
  - assert (Htriple : exists triple,
               (if sdTotal
                then match SubgroupSD.findIndexByKeyValue groups (SubgroupSD.stage s) with
                     | Some index =>
                         match nth_error groups index with
                         | Some g => Returns (SubgroupSD.g_sum g, SubgroupSD.g_count g,
                                              SubgroupSD.g_mean g)
                         | None => TypeError
                         end
                     | None => TypeError
                     end
                else Returns (SubgroupSD.sum s, SubgroupSD.count s, SubgroupSD.mean s))
               = Returns triple).
    { destruct sdTotal; [|eauto].
      destruct (findIndexByKeyValue_found groups _ (Hlab eq_refl s (or_introl eq_refl)))
        as [index [g [Hf Hn]]].
      rewrite Hf, Hn. eauto. }
    destruct Htriple as [triple Ht]. rewrite Ht, bind_Returns. cbv beta.
    apply IH. intros E s0 Hs0. apply (Hlab E). right. exact Hs0.
Qed.

(** [CalcStats] of the subgroup build returns when the stages index points
    that exist and, with the subgroups in use, no label is an inherited name. *)
Lemma CalcStatsSD_returns (Math_sqrt : Q -> Q) (viewModel : SubgroupSD.ControlChartViewModel)
    (numsds : Q) (stages : list SubgroupSD.Stage) :
  Forall (stageWellFormedSD (SubgroupSD.dataPoints viewModel)) stages ->
  (SubgroupSD.useSDSubGroups viewModel = true ->
   Forall (fun s => ~ In (SubgroupSD.stage s) SubgroupSD.inheritedKeys) stages) ->
  exists stats, SubgroupSD.CalcStats Math_sqrt viewModel numsds stages = Returns stats.
Proof.
  intros Hwf Hkeys. unfold SubgroupSD.CalcStats.
  assert (Hgroups : exists groups,
             (if SubgroupSD.useSDSubGroups viewModel
              then SubgroupSD.GetUnique stages else Returns []) = Returns groups
             /\ (SubgroupSD.useSDSubGroups viewModel = true ->
                 forall s, In s stages ->
                   In (SubgroupSD.stage s) (map SubgroupSD.g_stage groups))).
  { destruct (SubgroupSD.useSDSubGroups viewModel).
    - destruct (uniqueLoop_returns stages [] [] (Hkeys eq_refl)) as [groups [Hg Hall]].
      + intros l [].
      + exists groups. split; [exact Hg | intros _; exact Hall].
    - exists []. split; [reflexivity | discriminate]. }
  destruct Hgroups as [groups [Hg Hall]]. rewrite Hg, bind_Returns. cbv beta.
  destruct (deviationsLoop_returns (SubgroupSD.dataPoints viewModel)
              (SubgroupSD.useSDSubGroups viewModel) stages groups Hwf Hall)
    as [first Hfirst].
  rewrite Hfirst, bind_Returns. cbv beta.
  destruct (deviationsLoop_kept _ _ _ _ _ Hfirst) as [HF Hlabels].
  apply limitsLoop_returns. intros E s' Hs'.
  destruct (Forall2_In_right _ _ _ s' HF Hs') as [s [Hs [_ [_ [Hstage _]]]]].
  rewrite Hstage, Hlabels. apply (Hall E s Hs).
Qed.

Lemma partition_wellFormedSD (data : list SubgroupSD.ChartDataPoint)
    (stages : list SubgroupSD.Stage) :
  partitions (rangesOfSubgroupSD stages) (List.length data) ->
  Forall (fun s => (SubgroupSD.count s
                    = S (SubgroupSD.lastId s) - SubgroupSD.firstId s)%nat) stages ->
  Forall (stageWellFormedSD data) stages.
Proof.
  intros Hp Hc. rewrite Forall_forall in *. intros s Hs.
  assert (Hin : In (SubgroupSD.firstId s, SubgroupSD.lastId s) (rangesOfSubgroupSD stages)).
  { unfold rangesOfSubgroupSD. apply in_map_iff. exists s. split; [reflexivity | exact Hs]. }
  destruct (contiguousFrom_bounds 0 _ _ Hp _ _ Hin) as [_ [H1 H2]].
  split; [exact H1|]. split; [exact H2|]. apply Hc. exact Hs.
Qed.

(** *** The names of the stages *)

Lemma labelAt_In (labels : list PrimitiveValue) (i : nat) (name : string) :
  labelAt labels i = Returns (Some name) -> In (PString name) labels.
Proof.
  unfold labelAt. intro H. destruct (nth_error labels i) as [v|] eqn:E; [|discriminate].
  destruct v; try discriminate. inversion H. subst. apply (nth_error_In _ _ E).
Qed.

Lemma label_nameFrom (noStages : bool) (labels : list PrimitiveValue) (i : nat)
    (label : option string) (name : string) :
  (if noStages then Returns (Some EmptyString) else labelAt labels i) = Returns label ->
  SubgroupSD.toString label = Returns name ->
  nameFrom noStages labels name.
Proof.
  intros Hl Hn. destruct label as [s|]; [|discriminate]. inversion Hn. subst s.
  unfold nameFrom. destruct noStages.
  - inversion Hl. reflexivity.
  - apply (labelAt_In _ _ _ Hl).
Qed.

Lemma withMeanSD_stage (acc : SubgroupSD.Stage) :
  SubgroupSD.stage (SubgroupSD.withMean acc) = SubgroupSD.stage acc.
Proof.
  unfold SubgroupSD.withMean. destruct (0 <? SubgroupSD.count acc); reflexivity.
Qed.

Lemma stageStepSD_names (noStages : bool) (labels : list PrimitiveValue)
    (points : list SubgroupSD.ChartDataPoint) (i : nat) (obj : SubgroupSD.ChartDataPoint)
    (st st' : SubgroupSD.StageLoop) :
  nameFrom noStages labels (SubgroupSD.stage (SubgroupSD.running st)) ->
  Forall (fun s => nameFrom noStages labels (SubgroupSD.stage s)) (SubgroupSD.stages st) ->
  SubgroupSD.stageStep noStages labels points i obj st = Returns st' ->
  nameFrom noStages labels (SubgroupSD.stage (SubgroupSD.running st'))
  /\ Forall (fun s => nameFrom noStages labels (SubgroupSD.stage s)) (SubgroupSD.stages st').
Proof.
  intros Hrun Hall H. unfold SubgroupSD.stageStep in H.
  apply bind_returns in H. destruct H as [label [Hlabel H]].
  apply bind_returns in H. destruct H as [st1 [H1 H]].
  apply bind_returns in H. destruct H as [current [_ H]].
  assert (Hst1 : nameFrom noStages labels (SubgroupSD.stage (SubgroupSD.running st1))
                 /\ Forall (fun s => nameFrom noStages labels (SubgroupSD.stage s))
                      (SubgroupSD.stages st1)).
  { destruct (labelEq (SubgroupSD.currentStage st) label || noStages).
    - inversion H1. subst st1. split; assumption.
    - destruct (beforeIndex points i) as [previous|]; [|discriminate].
      apply bind_returns in H1. destruct H1 as [nextStart [_ H1]].
      apply bind_returns in H1. destruct H1 as [endDate [_ H1]].
      apply bind_returns in H1. destruct H1 as [name [Hname H1]].
      pose proof (withMeanSD_stage (SubgroupSD.running st)) as W.
      remember (SubgroupSD.withMean (SubgroupSD.running st)) as w eqn:Ew. clear Ew.
      inversion H1. subst st1. clear H1.
      cbn [SubgroupSD.stages SubgroupSD.running SubgroupSD.stage].
      split; [apply (label_nameFrom _ _ _ _ _ Hlabel Hname)|].
      apply Forall_app. split; [exact Hall|]. constructor; [|constructor].
      unfold SubgroupSD.closeStage. cbn [SubgroupSD.stage]. rewrite W. exact Hrun. }
  destruct Hst1 as [Hrun1 Hall1].
  destruct (i =? List.length points - 1).
  - apply bind_returns in H. destruct H as [name [Hname H]].
    inversion H. subst st'. clear H.
    cbn [SubgroupSD.stages SubgroupSD.running SubgroupSD.stage].
    pose proof (label_nameFrom _ _ _ _ _ Hlabel Hname) as Hn.
    split; [exact Hn|]. apply Forall_app. split; [exact Hall1|].
    constructor; [exact Hn | constructor].
  - inversion H. subst st'. split; assumption.
Qed.

Lemma stageLoopSD_names (noStages : bool) (labels : list PrimitiveValue)
    (points : list SubgroupSD.ChartDataPoint) :
  forall rest i st st',
    nameFrom noStages labels (SubgroupSD.stage (SubgroupSD.running st)) ->
    Forall (fun s => nameFrom noStages labels (SubgroupSD.stage s)) (SubgroupSD.stages st) ->
    SubgroupSD.stageLoop noStages labels points i rest st = Returns st' ->
    Forall (fun s => nameFrom noStages labels (SubgroupSD.stage s)) (SubgroupSD.stages st').
Proof.
  induction rest as [|obj rest IH]; intros i st st' Hrun Hall H; simpl in H.
  - inversion H. subst st'. exact Hall.
  - apply bind_returns in H. destruct H as [st1 [H1 H]].
    destruct (stageStepSD_names _ _ _ _ _ _ _ Hrun Hall H1) as [Hrun1 Hall1].
    apply (IH _ _ _ Hrun1 Hall1 H).
Qed.

(** Every stage of the subgroup build is named by a label of the column. *)
Lemma GetStagesSD_names (view : DataView) (cat : DataViewCategorical)
    (columns : list DataViewValueColumn) (labels : list PrimitiveValue)
    (viewModel : SubgroupSD.ControlChartViewModel) (stages : list SubgroupSD.Stage) :
  categorical view = Some cat -> values cat = Some columns ->
  labelColumnSD columns = Some labels ->
  SubgroupSD.GetStages (Some view) viewModel = Returns stages ->
  Forall (fun s => nameFrom (List.length columns =? 1) labels (SubgroupSD.stage s)) stages.
Proof.
  intros Hcat Hval Hcol H. unfold SubgroupSD.GetStages in H. rewrite Hcat, Hval in H.
  unfold labelColumnSD in Hcol.
  apply bind_returns in H. destruct H as [column [Hcolumn H]].
  assert (column = labels).
  { destruct (List.length columns =? 1); [congruence|].
    destruct (categories cat); [|discriminate].
    destruct (nth_error columns 1); simpl in Hcol; congruence. }
  subst column. clear Hcolumn Hcol.
  remember (List.length columns =? 1) as noStages eqn:Eno. clear Eno.
  apply bind_returns in H. destruct H as [label [Hlabel H]].
  destruct (SubgroupSD.dataPoints viewModel) as [|first rest]; [discriminate|].
  apply bind_returns in H. destruct H as [name [Hname H]].
  apply bind_returns in H. destruct H as [st [Hloop H]]. inversion H. subst stages.
  apply (stageLoopSD_names _ _ _ _ _ _ _) with (3 := Hloop).
  - cbn [SubgroupSD.running SubgroupSD.stage].
    apply (label_nameFrom _ _ _ _ _ Hlabel Hname).
  - constructor.
Qed.

(** *** The counts of the subgroups *)

Lemma find_groupCount (groups : list SubgroupSD.SubGroup) (label : string) :
  forall index g,
    SubgroupSD.findIndexByKeyValue groups label = Some index ->
    nth_error groups index = Some g ->
    SubgroupSD.g_count g = groupCount groups label.
Proof.
  induction groups as [|h rest IH]; intros index g Hf Hn; simpl in *; [discriminate|].
  destruct (String.eqb (SubgroupSD.g_stage h) label).
  - inversion Hf. subst index. simpl in Hn. inversion Hn. reflexivity.
  - destruct (SubgroupSD.findIndexByKeyValue rest label) as [k|]; [|discriminate].
    inversion Hf. subst index. simpl in Hn. apply (IH k g eq_refl Hn).
Qed.

Lemma groupCount_absent (groups : list SubgroupSD.SubGroup) (label : string) :
  ~ In label (map SubgroupSD.g_stage groups) -> groupCount groups label = 0%nat.
Proof.
  induction groups as [|h rest IH]; intro H; simpl in *; [reflexivity|].
  destruct (String.eqb (SubgroupSD.g_stage h) label) eqn:E.
  - apply String.eqb_eq in E. exfalso. apply H. left. exact E.
  - apply IH. intro K. apply H. right. exact K.
Qed.

Lemma groupCount_key (groups groups' : list SubgroupSD.SubGroup) (label : string) :
  map groupKey groups = map groupKey groups' ->
  groupCount groups label = groupCount groups' label.
Proof.
  revert groups'. induction groups as [|g rest IH]; intros [|g' rest'] H; simpl in *;
    try discriminate; [reflexivity|].
  inversion H as [[Hs Hc Hrest]]. rewrite Hs, Hc, (IH rest' Hrest). reflexivity.
Qed.

Lemma updateAt_map {B : Type} (proj : SubgroupSD.SubGroup -> B)
    (groups : list SubgroupSD.SubGroup) (index : nat)
    (f : SubgroupSD.SubGroup -> SubgroupSD.SubGroup) :
  (forall g, proj (f g) = proj g) ->
  map proj (SubgroupSD.updateAt groups index f) = map proj groups.
Proof.
  intro Hf. revert index. induction groups as [|g rest IH]; intros [|index]; simpl;
    try reflexivity.
  - rewrite Hf. reflexivity.
  - rewrite IH. reflexivity.
Qed.

Lemma groupCount_updateAt (groups : list SubgroupSD.SubGroup) (label : string)
    (f : SubgroupSD.SubGroup -> SubgroupSD.SubGroup) :
  (forall g, SubgroupSD.g_stage (f g) = SubgroupSD.g_stage g) ->
  forall index g,
    SubgroupSD.findIndexByKeyValue groups label = Some index ->
    nth_error groups index = Some g ->
    forall l,
      groupCount (SubgroupSD.updateAt groups index f) l
      = if String.eqb label l then SubgroupSD.g_count (f g) else groupCount groups l.
Proof.
  intro Hf. induction groups as [|h rest IH]; intros index g Hfind Hn l; simpl in *;
    [discriminate|].
  destruct (String.eqb (SubgroupSD.g_stage h) label) eqn:E.
  - inversion Hfind. subst index. simpl in Hn. inversion Hn. subst h. simpl.
    rewrite Hf. apply String.eqb_eq in E. rewrite E.
    destruct (String.eqb label l); reflexivity.
  - destruct (SubgroupSD.findIndexByKeyValue rest label) as [k|]; [|discriminate].
    inversion Hfind. subst index. simpl in Hn. simpl.
    rewrite (IH k g eq_refl Hn l).
    destruct (String.eqb (SubgroupSD.g_stage h) l) eqn:El; [|reflexivity].
    apply String.eqb_eq in El. subst l. rewrite String.eqb_sym, E. reflexivity.
Qed.

Lemma groupCount_app (groups : list SubgroupSD.SubGroup) (g : SubgroupSD.SubGroup)
    (l : string) :
  groupCount (groups ++ [g]) l
  = if existsb (String.eqb l) (map SubgroupSD.g_stage groups) then groupCount groups l
    else if String.eqb (SubgroupSD.g_stage g) l then SubgroupSD.g_count g else 0%nat.
Proof.
  induction groups as [|h rest IH]; simpl.
  - reflexivity.
  - rewrite (String.eqb_sym l). destruct (String.eqb (SubgroupSD.g_stage h) l); simpl;
      [reflexivity | exact IH].
Qed.

Lemma countOfLabel_snoc (seen : list SubgroupSD.Stage) (s : SubgroupSD.Stage) (l : string) :
  countOfLabel (seen ++ [s]) l
  = (countOfLabel seen l
     + if String.eqb (SubgroupSD.stage s) l then SubgroupSD.count s else 0)%nat.
Proof.
  unfold countOfLabel. rewrite filter_app, map_app, list_sum_app. f_equal.
  simpl. destruct (String.eqb (SubgroupSD.stage s) l); simpl; lia.
Qed.

(** [GetUnique] gives the subgroup of a label the number of points in the
    stages that carry the label. *)
Lemma uniqueLoop_counts :
  forall src seen unique distinct groups,
    (forall l, In l (map SubgroupSD.g_stage distinct) -> In l unique) ->
    (forall l, ~ In l unique -> countOfLabel seen l = 0%nat) ->
    (forall l, groupCount distinct l = countOfLabel seen l) ->
    SubgroupSD.uniqueLoop src unique distinct = Returns groups ->
    forall l, groupCount groups l = countOfLabel (seen ++ src) l.
Proof.
  induction src as [|s src IH]; intros seen unique distinct groups Ha Hb Hc H; simpl in H.
  - inversion H. subst groups. rewrite app_nil_r. exact Hc.
  - apply bind_returns in H. destruct H as [distinct' [Hd H]].
    replace (seen ++ s :: src) with ((seen ++ [s]) ++ src)
      by (rewrite <- app_assoc; reflexivity).
    apply (IH (seen ++ [s]) (SubgroupSD.stage s :: unique) distinct' groups); [| | |exact H].
    + intros l Hl. destruct (SubgroupSD.hasKey unique (SubgroupSD.stage s)).
      * destruct (SubgroupSD.findIndexByKeyValue distinct (SubgroupSD.stage s));
          [|discriminate].
        inversion Hd. subst distinct'.
        rewrite updateAt_labels in Hl; [|intro g; reflexivity].
        right. apply Ha. exact Hl.
      * inversion Hd. subst distinct'. rewrite map_app in Hl.
        apply in_app_or in Hl. destruct Hl as [Hl | [Hl | []]];
          [right; apply Ha; exact Hl | left; exact Hl].
    + intros l Hl. rewrite countOfLabel_snoc.
      destruct (String.eqb (SubgroupSD.stage s) l) eqn:E.
      * apply String.eqb_eq in E. exfalso. apply Hl. left. exact E.
      * rewrite Hb; [reflexivity|]. intro K. apply Hl. right. exact K.
    + intro l. rewrite countOfLabel_snoc.
      destruct (SubgroupSD.hasKey unique (SubgroupSD.stage s)) eqn:Ekey.
      * destruct (SubgroupSD.findIndexByKeyValue distinct (SubgroupSD.stage s))
          as [index|] eqn:Ef; [|discriminate].
        inversion Hd. subst distinct'.
        destruct (nth_error distinct index) as [g|] eqn:En.
        -- rewrite (groupCount_updateAt distinct (SubgroupSD.stage s)
                      (fun g0 => SubgroupSD.addToGroup g0 s)
                      (fun g0 => eq_refl) index g Ef En l).
           destruct (String.eqb (SubgroupSD.stage s) l) eqn:E.
           ++ apply String.eqb_eq in E. subst l. simpl.
              rewrite (find_groupCount _ _ _ _ Ef En), Hc. reflexivity.
           ++ rewrite Hc. lia.
        -- exfalso. clear - Ef En. revert index Ef En.
           induction distinct as [|h rest IHd]; intros index Ef En; simpl in *;
             [discriminate|].
           destruct (String.eqb (SubgroupSD.g_stage h) (SubgroupSD.stage s)).
           ++ inversion Ef. subst index. discriminate.
           ++ destruct (SubgroupSD.findIndexByKeyValue rest (SubgroupSD.stage s)) as [k|];
                [|discriminate].
              inversion Ef. subst index. apply (IHd k eq_refl En).
      * inversion Hd. subst distinct'. rewrite groupCount_app.
        cbn [SubgroupSD.g_stage SubgroupSD.g_count].
        assert (Hnew : ~ In (SubgroupSD.stage s) unique).
        { intro K. unfold SubgroupSD.hasKey in Ekey.
          assert (T : existsb (String.eqb (SubgroupSD.stage s))
                        (SubgroupSD.inheritedKeys ++ unique) = true).
          { apply existsb_exists. exists (SubgroupSD.stage s).
            split; [apply in_or_app; right; exact K | apply String.eqb_refl]. }
          congruence. }
        destruct (existsb (String.eqb l) (map SubgroupSD.g_stage distinct)) eqn:Ein.
        -- rewrite Hc. apply existsb_exists in Ein. destruct Ein as [l' [Hl' El']].
           apply String.eqb_eq in El'. subst l'.
           destruct (String.eqb (SubgroupSD.stage s) l) eqn:E; [|lia].
           apply String.eqb_eq in E. subst l. exfalso. apply Hnew. apply Ha. exact Hl'.
        -- destruct (String.eqb (SubgroupSD.stage s) l) eqn:E.
           ++ apply String.eqb_eq in E. subst l. rewrite (Hb _ Hnew). reflexivity.
           ++ rewrite <- Hc. rewrite groupCount_absent; [reflexivity|].
              intro K. assert (T : existsb (String.eqb l) (map SubgroupSD.g_stage distinct)
                                   = true).
              { apply existsb_exists. exists l. split; [exact K | apply String.eqb_refl]. }
              congruence.
Qed.

Lemma squaresLoop_keys (data : list SubgroupSD.ChartDataPoint) (center : Q)
    (index : option nat) :
  forall js total groups result,
    SubgroupSD.squaresLoop data center index js total groups = Returns result ->
    map groupKey (snd result) = map groupKey groups.
Proof.
  induction js as [|j js IH]; intros total groups result H; simpl in H.
  - inversion H. reflexivity.
  - destruct (nth_error data j) as [p|]; [|discriminate].
    apply IH in H. rewrite H. destruct index as [k|]; [|reflexivity].
    apply updateAt_map. intro g. reflexivity.
Qed.

(** With the subgroups in use, the first pass of [CalcStats] gives every
    stage the count of its subgroup. *)
Lemma deviationsLoop_counts (data : list SubgroupSD.ChartDataPoint) :
  forall rest groups result,
    SubgroupSD.deviationsLoop data true rest groups = Returns result ->
    Forall2 (fun s s' => SubgroupSD.count s' = groupCount groups (SubgroupSD.stage s))
      rest (fst result).
Proof.
  induction rest as [|s rest IH]; intros groups result H; simpl in H.
  - inversion H. constructor.
  - apply bind_returns in H. destruct H as [located [Hloc H]].
    apply bind_returns in H. destruct H as [squares [Hsq H]].
    apply bind_returns in H. destruct H as [later [Hlater H]].
    inversion H. subst result. clear H. cbn [fst].
    apply squaresLoop_keys in Hsq. apply IH in Hlater.
    constructor.
    + destruct (SubgroupSD.findIndexByKeyValue groups (SubgroupSD.stage s)) as [index|] eqn:Ef;
        [|discriminate].
      destruct (nth_error groups index) as [g|] eqn:En; [|discriminate].
      inversion Hloc. subst located. simpl. apply (find_groupCount _ _ _ _ Ef En).
    + eapply Forall2_impl; [|exact Hlater]. intros a b Hab. cbv beta in Hab.
      rewrite Hab. apply groupCount_key. exact Hsq.
Qed.

(** With the subgroups in use, [CalcStats] leaves in every stage the number
    of points in all the stages that carry its label. *)
Lemma CalcStatsSD_counts (Math_sqrt : Q -> Q) (viewModel : SubgroupSD.ControlChartViewModel)
    (numsds : Q) (stages : list SubgroupSD.Stage) (stats : SubgroupSD.Stats) :
  SubgroupSD.useSDSubGroups viewModel = true ->
  SubgroupSD.CalcStats Math_sqrt viewModel numsds stages = Returns stats ->
  Forall2 (fun s s' => SubgroupSD.count s' = countOfLabel stages (SubgroupSD.stage s))
    stages (SubgroupSD.chartStages stats).
Proof.
  intros E H. unfold SubgroupSD.CalcStats in H. rewrite E in H.
  apply bind_returns in H. destruct H as [groups [Hgroups H]].
  apply bind_returns in H. destruct H as [first [Hfirst H]].
  apply deviationsLoop_counts in Hfirst.
  apply limitsLoop_kept in H. destruct H as [rest' [HC HK]].
  simpl in HC. subst rest'.
  assert (Hcount : forall l, groupCount groups l = countOfLabel stages l).
  { apply (uniqueLoop_counts stages [] [] [] groups); [| | |exact Hgroups].
    - intros l [].
    - intros l _. reflexivity.
    - intro l. reflexivity. }
  eapply (Forall2_trans
            (fun s s' => SubgroupSD.count s' = groupCount groups (SubgroupSD.stage s))
            (stageKept false)); [|exact Hfirst | exact HK].
  intros a b c Hab [_ [_ [_ Hc]]]. rewrite (Hc eq_refl), Hab. apply Hcount.
Qed.

(** ** The stage list of the whole pipeline *)

Lemma counts_total {A : Type} (firstOf lastOf countOf : A -> nat) (l : list A) (n : nat) :
  partitions (map (fun s => (firstOf s, lastOf s)) l) n ->
  Forall (fun s => (countOf s = S (lastOf s) - firstOf s)%nat) l ->
  list_sum (map countOf l) = n.
Proof.
  intros Hp Hc. apply contiguousFrom_total in Hp. rewrite map_map in Hp.
  cbn [fst snd] in Hp. rewrite <- Hp, Nat.add_0_l. f_equal.
  apply map_ext_in. intros s Hs. rewrite Forall_forall in Hc. apply Hc. exact Hs.
Qed.

Lemma empty_name_not_inherited : ~ In EmptyString SubgroupSD.inheritedKeys.
Proof.
  unfold SubgroupSD.inheritedKeys. simpl. intuition discriminate.
Qed.

Lemma list_sum_map_le {A : Type} (f g : A -> nat) (l : list A) :
  (forall x, In x l -> (g x <= f x)%nat) ->
  (list_sum (map g l) <= list_sum (map f l))%nat.
Proof.
  induction l as [|a l IH]; intro H; [apply Nat.le_refl|].
  cbn [map list_sum fold_right]. fold (list_sum (map g l)). fold (list_sum (map f l)).
  pose proof (H a (or_introl eq_refl)).
  assert ((list_sum (map g l) <= list_sum (map f l))%nat).
  { apply IH. intros x Hx. apply H. right. exact Hx. }
  lia.
Qed.

Lemma list_sum_cons (a : nat) (l : list nat) : list_sum (a :: l) = (a + list_sum l)%nat.
Proof. reflexivity. Qed.

(** The number of points under a label is at least the count of a stage that
    carries it, and at least the counts of two such stages together. *)
Lemma countOfLabel_stage (stages : list SubgroupSD.Stage) (s : SubgroupSD.Stage) :
  In s stages -> (SubgroupSD.count s <= countOfLabel stages (SubgroupSD.stage s))%nat.
Proof.
  intro H. apply in_split in H. destruct H as (front & back & ->).
  unfold countOfLabel. rewrite filter_app, map_app, list_sum_app.
  cbn [filter]. rewrite String.eqb_refl. cbn [map]. rewrite list_sum_cons. lia.
Qed.

Lemma countOfLabel_pair (front middle back : list SubgroupSD.Stage)
    (s t : SubgroupSD.Stage) :
  SubgroupSD.stage s = SubgroupSD.stage t ->
  (SubgroupSD.count s + SubgroupSD.count t
   <= countOfLabel (front ++ s :: middle ++ t :: back) (SubgroupSD.stage s))%nat.
Proof.
  intro E. unfold countOfLabel. rewrite filter_app, map_app, list_sum_app.
  cbn [filter]. rewrite String.eqb_refl. cbn [map]. rewrite list_sum_cons.
  rewrite filter_app, map_app, list_sum_app.
  cbn [filter]. rewrite <- E, String.eqb_refl. cbn [map]. rewrite list_sum_cons. lia.
Qed.

(** A label that recurs: two stages of the list carry it. *)
Lemma recurring_label_counts (stages front middle back : list SubgroupSD.Stage)
    (s t : SubgroupSD.Stage) :
  stages = front ++ s :: middle ++ t :: back ->
  SubgroupSD.stage s = SubgroupSD.stage t ->
  (1 <= SubgroupSD.count t)%nat ->
  (list_sum (map SubgroupSD.count stages)
   < list_sum (map (fun x => countOfLabel stages (SubgroupSD.stage x)) stages))%nat.
Proof.
  intros E Ename Ht.
  pose proof (countOfLabel_pair front middle back s t Ename) as Hpair.
  rewrite <- E in Hpair.
  remember (fun x => countOfLabel stages (SubgroupSD.stage x)) as f eqn:Ef.
  assert (Hall : forall l, (forall x, In x l -> In x stages) ->
            (list_sum (map SubgroupSD.count l) <= list_sum (map f l))%nat).
  { intros l Hl. apply list_sum_map_le. intros x Hx. rewrite Ef.
    apply countOfLabel_stage. apply Hl. exact Hx. }
  assert (Hfront : forall x, In x front -> In x stages).
  { intros x Hx. rewrite E. apply in_or_app. left. exact Hx. }
  assert (Hrest : forall x, In x (middle ++ t :: back) -> In x stages).
  { intros x Hx. rewrite E. apply in_or_app. right. right. exact Hx. }
  pose proof (Hall front Hfront) as H1. pose proof (Hall _ Hrest) as H2.
  assert (Hs : f s = countOfLabel stages (SubgroupSD.stage s)) by (rewrite Ef; reflexivity).
  clear Ef Hall Hfront Hrest. subst stages.
  rewrite !map_app, !list_sum_app in *. cbn [map] in *. rewrite !list_sum_cons in *.
  rewrite !map_app, !list_sum_app in *. cbn [map] in *. rewrite !list_sum_cons in *.
  lia.
Qed.

(** Claim C3, as the code has it. For a series that is not empty, with
    positions that are numbers or dates and stage labels that are strings:
    segmentation returns a stage list whose ranges [firstId .. lastId] cut
    the indices [0 .. n - 1] into consecutive pieces, in order, and whose
    counts add up to [n]; the limit calculation returns and keeps the ranges.
    In the moving-range build it keeps the counts too. In the subgroup build
    it keeps the counts when the subgroups are not in use; when they are (the
    default), it needs labels that are not names every object inherits, and
    it replaces the count of every stage by the number of points in all the
    stages that carry the same label.  So whenever two stages carry one
    label the counts after [CalcStats] add up to more than [n]: on the
    series 1,2,3 with the labels A,B,A the counts 1, 1, 1 of [GetStages]
    become 2, 1, 2 with the default settings, five points for a series of
    three, and stay 1, 1, 1 when the subgroups are not in use; and on the
    series 1..6 with the labels A,A,B,B,A,A the run of [update] with the
    default settings leaves the chart with the ranges 0..1, 2..3, 4..5 and
    the counts 4, 2, 4, ten points for a series of six. *)
Theorem stage_ranges_partition_the_series :
  (forall (view : DataView) (cat : DataViewCategorical) (columns : list DataViewValueColumn)
          (viewModel : MovingRange.ControlChartViewModel),
      categorical view = Some cat -> values cat = Some columns ->
      MovingRange.dataPoints viewModel <> [] ->
      Forall (fun p => isPosition (MovingRange.xValue p)) (MovingRange.dataPoints viewModel) ->
      (forall c, nth_error columns 1 = Some c -> Forall isLabel (col_values c)) ->
      (2 <= MovingRange.movingRange viewModel <= 50)%Z ->
      exists stages stats,
        MovingRange.GetStages (Some view) viewModel = Returns stages
        /\ partitions (rangesOfMovingRange stages)
             (List.length (MovingRange.dataPoints viewModel))
        /\ list_sum (map MovingRange.count stages)
           = List.length (MovingRange.dataPoints viewModel)
        /\ MovingRange.CalcStats viewModel stages = Returns stats
        /\ partitions (rangesOfMovingRange (MovingRange.chartStages stats))
             (List.length (MovingRange.dataPoints viewModel))
        /\ list_sum (map MovingRange.count (MovingRange.chartStages stats))
           = List.length (MovingRange.dataPoints viewModel))
  /\ (forall (Math_sqrt : Q -> Q) (numsds : Q) (view : DataView) (cat : DataViewCategorical)
             (columns : list DataViewValueColumn) (labels : list PrimitiveValue)
             (viewModel : SubgroupSD.ControlChartViewModel),
         categorical view = Some cat -> values cat = Some columns ->
         categories cat <> None ->
         labelColumnSD columns = Some labels ->
         SubgroupSD.dataPoints viewModel <> [] ->
         Forall (fun p => isPosition (SubgroupSD.xValue p)) (SubgroupSD.dataPoints viewModel) ->
         Forall isLabel labels ->
         ((List.length columns =? 1) = false ->
          (List.length (SubgroupSD.dataPoints viewModel) <= List.length labels)%nat) ->
         (SubgroupSD.useSDSubGroups viewModel = true ->
          forall name, In (PString name) labels -> ~ In name SubgroupSD.inheritedKeys) ->
         exists stages stats,
           SubgroupSD.GetStages (Some view) viewModel = Returns stages
           /\ partitions (rangesOfSubgroupSD stages)
                (List.length (SubgroupSD.dataPoints viewModel))
           /\ list_sum (map SubgroupSD.count stages)
              = List.length (SubgroupSD.dataPoints viewModel)
           /\ SubgroupSD.CalcStats Math_sqrt viewModel numsds stages = Returns stats
           /\ partitions (rangesOfSubgroupSD (SubgroupSD.chartStages stats))
                (List.length (SubgroupSD.dataPoints viewModel))
           /\ (SubgroupSD.useSDSubGroups viewModel = false ->
               list_sum (map SubgroupSD.count (SubgroupSD.chartStages stats))
               = List.length (SubgroupSD.dataPoints viewModel))
           /\ (SubgroupSD.useSDSubGroups viewModel = true ->
               Forall2 (fun s s' =>
                          SubgroupSD.count s' = countOfLabel stages (SubgroupSD.stage s))
                 stages (SubgroupSD.chartStages stats)))
  /\ (forall (Math_sqrt : Q -> Q) (numsds : Q) (view : DataView) (cat : DataViewCategorical)
             (columns : list DataViewValueColumn)
             (viewModel : SubgroupSD.ControlChartViewModel)
             (stages : list SubgroupSD.Stage) (stats : SubgroupSD.Stats),
         categorical view = Some cat -> values cat = Some columns ->
         SubgroupSD.GetStages (Some view) viewModel = Returns stages ->
         SubgroupSD.CalcStats Math_sqrt viewModel numsds stages = Returns stats ->
         SubgroupSD.useSDSubGroups viewModel = true ->
         (exists front s middle t back,
             stages = front ++ s :: middle ++ t :: back
             /\ SubgroupSD.stage s = SubgroupSD.stage t) ->
         (List.length (SubgroupSD.dataPoints viewModel)
          < list_sum (map SubgroupSD.count (SubgroupSD.chartStages stats)))%nat)
  /\ (forall Math_sqrt : Q -> Q,
      exists stages stats plain,
        SubgroupSD.GetStages (Some recurringLabelView) recurringLabelViewModel
        = Returns stages
        /\ map SubgroupSD.stage stages = ["A"; "B"; "A"]%string
        /\ map SubgroupSD.count stages = [1; 1; 1]%nat
        /\ SubgroupSD.useSDSubGroups recurringLabelViewModel = true
        /\ SubgroupSD.CalcStats Math_sqrt recurringLabelViewModel 3 stages = Returns stats
        /\ rangesOfSubgroupSD (SubgroupSD.chartStages stats)
           = [(0, 0); (1, 1); (2, 2)]%nat
        /\ map SubgroupSD.count (SubgroupSD.chartStages stats) = [2; 1; 2]%nat
        /\ SubgroupSD.CalcStats Math_sqrt
             plainSubgroupViewModel 3 stages = Returns plain
        /\ map SubgroupSD.count (SubgroupSD.chartStages plain) = [1; 1; 1]%nat)
  /\ (forall Math_sqrt : Q -> Q,
      exists chart,
        SubgroupSD.update Math_sqrt newSubgroupChart
          (sampleOptions (numbers [1; 2; 3; 4; 5; 6]%Z) (numbers [1; 2; 3; 4; 5; 6]%Z)
             (Some (labelled ["A"; "A"; "B"; "B"; "A"; "A"]%string))
             (sampleObjects None None false false false))
        = Returns chart
        /\ rangesOfSubgroupSD (SubgroupSD.chartStages (SubgroupSD.analysis chart))
           = [(0, 1); (2, 3); (4, 5)]%nat
        /\ map SubgroupSD.count (SubgroupSD.chartStages (SubgroupSD.analysis chart))
           = [4; 2; 4]%nat).
Proof.
  split; [|split; [|split; [|split]]].
  - intros view cat columns viewModel.
    intros Hcat Hval Hne Hpos Hlab Hmr.
    destruct (GetStages_returns view cat columns viewModel Hcat Hval Hne Hpos Hlab)
      as [stages Hstages].
    destruct (GetStages_partition view cat columns viewModel stages Hcat Hval Hstages)
      as [Hpart Hcount].
    destruct (GetStages_CalcStats view cat columns viewModel stages Hcat Hval Hstages Hmr)
      as [stats [Hstats [Hlimits _]]].
    exists stages, stats.
    assert (Hranges : rangesOfMovingRange (MovingRange.chartStages stats)
                      = rangesOfMovingRange stages).
    { unfold rangesOfMovingRange. symmetry.
      apply (Forall2_map_eq (limitsComputed viewModel)); [exact Hlimits|].
      intros s s' H. destruct (limitsComputed_frame viewModel s s' H) as [Hf [Hl _]].
      rewrite Hf, Hl. reflexivity. }
    assert (Hcounts : map MovingRange.count (MovingRange.chartStages stats)
                      = map MovingRange.count stages).
    { symmetry. apply (Forall2_map_eq (limitsComputed viewModel)); [exact Hlimits|].
      intros s s' H. destruct (limitsComputed_frame viewModel s s' H) as [_ [_ [Hc _]]].
      symmetry. exact Hc. }
    assert (Htotal : list_sum (map MovingRange.count stages)
                     = List.length (MovingRange.dataPoints viewModel)).
    { apply (counts_total MovingRange.firstId MovingRange.lastId); assumption. }
    split; [exact Hstages|]. split; [exact Hpart|]. split; [exact Htotal|].
    split; [exact Hstats|]. rewrite Hranges, Hcounts. split; assumption.
  - intros Math_sqrt numsds view cat columns labels viewModel.
    intros Hcat Hval Hcats Hcol Hne Hpos Hlab Hlong Hkeys.
    destruct (GetStagesSD_returns view cat columns labels viewModel
                Hcat Hval Hcats Hcol Hne Hpos Hlab Hlong) as [stages Hstages].
    destruct (GetStagesSD_partition view cat columns viewModel stages Hcat Hval Hstages)
      as [Hpart Hcount].
    pose proof (GetStagesSD_names view cat columns labels viewModel stages
                  Hcat Hval Hcol Hstages) as Hnames.
    destruct (CalcStatsSD_returns Math_sqrt viewModel numsds stages) as [stats Hstats].
    { apply partition_wellFormedSD; assumption. }
    { intro E. rewrite Forall_forall in *. intros s Hs. specialize (Hnames s Hs).
      unfold nameFrom in Hnames. destruct (List.length columns =? 1).
      - rewrite Hnames. exact empty_name_not_inherited.
      - apply (Hkeys E). exact Hnames. }
    pose proof (CalcStatsSD_kept Math_sqrt viewModel numsds stages stats Hstats) as Hkept.
    exists stages, stats.
    assert (Hranges : rangesOfSubgroupSD (SubgroupSD.chartStages stats)
                      = rangesOfSubgroupSD stages).
    { unfold rangesOfSubgroupSD. symmetry.
      apply (Forall2_map_eq (stageKept (SubgroupSD.useSDSubGroups viewModel)));
        [exact Hkept|].
      intros s s' [Hf [Hl _]]. rewrite Hf, Hl. reflexivity. }
    assert (Htotal : list_sum (map SubgroupSD.count stages)
                     = List.length (SubgroupSD.dataPoints viewModel)).
    { apply (counts_total SubgroupSD.firstId SubgroupSD.lastId); assumption. }
    split; [exact Hstages|]. split; [exact Hpart|]. split; [exact Htotal|].
    split; [exact Hstats|]. rewrite Hranges. split; [exact Hpart|]. split.
    + intro E. rewrite <- Htotal. f_equal. symmetry.
      apply (Forall2_map_eq (stageKept (SubgroupSD.useSDSubGroups viewModel)));
        [exact Hkept|].
      intros s s' [_ [_ [_ Hc]]]. symmetry. apply Hc. exact E.
    + intro E. apply (CalcStatsSD_counts Math_sqrt viewModel numsds stages stats E Hstats).
  - intros Math_sqrt numsds view cat columns viewModel stages stats
           Hcat Hval Hget Hstats Hsub (front & s & middle & t & back & E & Ename).
    destruct (GetStagesSD_partition view cat columns viewModel stages Hcat Hval Hget)
      as [Hpart Hcount].
    pose proof (counts_total SubgroupSD.firstId SubgroupSD.lastId SubgroupSD.count
                  stages _ Hpart Hcount) as Htotal.
    pose proof (partition_wellFormedSD _ _ Hpart Hcount) as Hwf.
    pose proof (CalcStatsSD_counts Math_sqrt viewModel numsds stages stats Hsub Hstats)
      as Hcounts.
    assert (Hsum : map SubgroupSD.count (SubgroupSD.chartStages stats)
                   = map (fun x => countOfLabel stages (SubgroupSD.stage x)) stages).
    { symmetry. apply (Forall2_map_eq _ _ _ _ _ Hcounts).
      intros a b H. symmetry. exact H. }
    rewrite Hsum, <- Htotal.
    apply (recurring_label_counts stages front middle back s t E Ename).
    rewrite Forall_forall in Hwf.
    destruct (Hwf t) as (A & _ & C); [|lia].
    rewrite E. apply in_or_app. right. right. apply in_or_app. right. left. reflexivity.
  - intro Math_sqrt. eexists. eexists. eexists.
    split; [vm_compute; reflexivity|].
    split; [reflexivity|]. split; [reflexivity|]. split; [reflexivity|].
    split; [vm_compute; reflexivity|].
    split; [reflexivity|]. split; [reflexivity|].
    split; [vm_compute; reflexivity|]. reflexivity.
  - intro Math_sqrt. eexists.
    split; [vm_compute; reflexivity|]. split; reflexivity.
Qed.

Lemma stage_ranges_partition_the_series_witness :
  (MovingRange.dataPoints shortStageViewModel <> []
   /\ Forall (fun p => isPosition (MovingRange.xValue p))
        (MovingRange.dataPoints shortStageViewModel)
   /\ (2 <= MovingRange.movingRange shortStageViewModel <= 50)%Z
   /\ exists stages stats,
        MovingRange.GetStages (Some shortStageView) shortStageViewModel = Returns stages
        /\ MovingRange.CalcStats shortStageViewModel stages = Returns stats
        /\ partitions (rangesOfMovingRange (MovingRange.chartStages stats)) 6
        /\ list_sum (map MovingRange.count (MovingRange.chartStages stats)) = 6%nat)
  /\ (SubgroupSD.dataPoints recurringLabelViewModel <> []
      /\ Forall (fun p => isPosition (SubgroupSD.xValue p))
           (SubgroupSD.dataPoints recurringLabelViewModel)
      /\ Forall isLabel (labelled ["A"; "B"; "A"]%string)
      /\ (forall name, In (PString name) (labelled ["A"; "B"; "A"]%string) ->
          ~ In name SubgroupSD.inheritedKeys)
      /\ forall Math_sqrt : Q -> Q,
         exists stages stats,
           SubgroupSD.GetStages (Some recurringLabelView) recurringLabelViewModel
           = Returns stages
           /\ SubgroupSD.CalcStats Math_sqrt recurringLabelViewModel 3 stages = Returns stats
           /\ partitions (rangesOfSubgroupSD (SubgroupSD.chartStages stats)) 3).
Proof.
  assert (HposA : Forall (fun p => isPosition (MovingRange.xValue p))
                    (MovingRange.dataPoints shortStageViewModel)).
  { repeat constructor. }
  assert (HposB : Forall (fun p => isPosition (SubgroupSD.xValue p))
                    (SubgroupSD.dataPoints recurringLabelViewModel)).
  { repeat constructor. }
  assert (Hlabels : Forall isLabel (labelled ["A"; "B"; "A"]%string)).
  { repeat constructor. }
  assert (Hkeys : forall name, In (PString name) (labelled ["A"; "B"; "A"]%string) ->
                               ~ In name SubgroupSD.inheritedKeys).
  { intros name Hin. simpl in Hin.
    destruct Hin as [E | [E | [E | []]]]; inversion E; subst name;
      unfold SubgroupSD.inheritedKeys; simpl; intuition discriminate. }
  split.
  - split; [discriminate|]. split; [exact HposA|]. split; [simpl; lia|].
    destruct (proj1 stage_ranges_partition_the_series shortStageView _ _ shortStageViewModel
                eq_refl eq_refl)
      as [stages [stats [H1 [_ [_ [H2 [H3 H4]]]]]]].
    + discriminate.
    + exact HposA.
    + intros c Hc. inversion Hc. repeat constructor.
    + simpl. lia.
    + exists stages, stats. split; [exact H1|]. split; [exact H2|].
      split; [exact H3 | exact H4].
  - split; [discriminate|]. split; [exact HposB|]. split; [exact Hlabels|].
    split; [exact Hkeys|]. intro Math_sqrt.
    destruct (proj1 (proj2 stage_ranges_partition_the_series) Math_sqrt 3 recurringLabelView _ _
                (labelled ["A"; "B"; "A"]%string) recurringLabelViewModel
                eq_refl eq_refl)
      as [stages [stats [H1 [_ [_ [H2 [H3 _]]]]]]].
    + discriminate.
    + reflexivity.
    + discriminate.
    + exact HposB.
    + exact Hlabels.
    + intros _. simpl. lia.
    + intros _. exact Hkeys.
    + exists stages, stats. split; [exact H1|]. split; [exact H2 | exact H3].
Defined.

(** ** The standard deviation of the subgroup build *)

(** Claim C1 at the series 1,2,3 in one stage, three standard deviations,
    for any square root function. With the subgroups in use (the default),
    [update] leaves in the stage the square root of a number equal to 4: the
    sum 6 of the values and the squared deviations 1 + 0 + 1, divided by
    3 - 1. The specification's variance of 1,2,3 is 1. With the subgroups
    not in use, the same series gives the square root of a number equal to 1. *)
Theorem subgroup_deviation_starts_from_the_sum :
  forall Math_sqrt : Q -> Q,
    (exists chart stage radicand,
        SubgroupSD.update Math_sqrt newSubgroupChart (singleStageOptions None)
        = Returns chart
        /\ SubgroupSD.chartStages (SubgroupSD.analysis chart) = [stage]
        /\ SubgroupSD.count stage = 3%nat
        /\ SubgroupSD.mean stage == 2
        /\ SubgroupSD.sd stage = Some (Math_sqrt radicand)
        /\ SubgroupSD.uCL stage = Some (SubgroupSD.mean stage + 3 * Math_sqrt radicand)
        /\ SubgroupSD.lCL stage = Some (SubgroupSD.mean stage - 3 * Math_sqrt radicand)
        /\ radicand == 4
        /\ ~ radicand == specVariance (map inject_Z [1; 2; 3]%Z))
    /\ specVariance (map inject_Z [1; 2; 3]%Z) == 1
    /\ (exists chart stage radicand,
           SubgroupSD.update Math_sqrt newSubgroupChart (singleStageOptions (Some false))
           = Returns chart
           /\ SubgroupSD.chartStages (SubgroupSD.analysis chart) = [stage]
           /\ SubgroupSD.sd stage = Some (Math_sqrt radicand)
           /\ SubgroupSD.uCL stage = Some (SubgroupSD.mean stage + 3 * Math_sqrt radicand)
           /\ SubgroupSD.lCL stage = Some (SubgroupSD.mean stage - 3 * Math_sqrt radicand)
           /\ radicand == specVariance (map inject_Z [1; 2; 3]%Z)).
Proof.
  intro Math_sqrt. split; [|split].
  - eexists. eexists. exists (5832 # 1458).
    split; [vm_compute; reflexivity|].
    split; [reflexivity|]. split; [reflexivity|]. split; [reflexivity|].
    split; [reflexivity|].
    split; [vm_compute; reflexivity|]. split; [vm_compute; reflexivity|].
    split; [reflexivity|]. vm_compute. discriminate.
  - reflexivity.
  - eexists. eexists. exists (1458 # 1458).
    split; [vm_compute; reflexivity|].
    split; [reflexivity|]. split; [reflexivity|].
    split; [vm_compute; reflexivity|]. split; [vm_compute; reflexivity|].
    reflexivity.
Qed.

(** ** Data that cannot be charted *)

Lemma truthy_usablePosition (v : option PrimitiveValue) :
  truthy v && (isNumber v || isDate v) = true <-> usablePosition v.
Proof.
  destruct v as [[|b|q|s|ms]|]; simpl; try (split; [discriminate | contradiction]).
  - destruct b; split; try discriminate; contradiction.
  - rewrite andb_true_r. unfold Qeq_bool, Qeq. simpl.
    destruct (Z.eqb_spec (Qnum q * 1) 0) as [E | E]; simpl.
    + split; [discriminate | intro H; exfalso; apply H; exact E].
    + split; [intros _; exact E | reflexivity].
  - rewrite andb_false_r. split; [discriminate | contradiction].
  - split; [trivial | reflexivity].
Qed.

Lemma truthy_usableValue (v : option PrimitiveValue) :
  truthy v && isNumber v = true <-> usableValue v.
Proof.
  destruct v as [[|b|q|s|ms]|]; simpl; try (split; [discriminate | contradiction]).
  - destruct b; split; try discriminate; contradiction.
  - rewrite andb_true_r. unfold Qeq_bool, Qeq. simpl.
    destruct (Z.eqb_spec (Qnum q * 1) 0) as [E | E]; simpl.
    + split; [discriminate | intro H; exfalso; apply H; exact E].
    + split; [intros _; exact E | reflexivity].
  - rewrite andb_false_r. split; [discriminate | contradiction].
Qed.

Lemma visualTransform_unusable (options : VisualUpdateOptions) (views : list DataView)
    (view : DataView) (cat : DataViewCategorical) :
  dataViews options = Some views -> nth_error views 0 = Some view ->
  categorical view = Some cat ->
  categories cat <> None -> values cat <> None ->
  unusable cat ->
  MovingRange.visualTransform options = Returns MovingRange.neutralViewModel.
Proof.
  intros Hviews Hview Hcat Hcats Hvals Hun. unfold MovingRange.visualTransform.
  rewrite Hviews, Hview, Hcat.
  destruct Hun as [[H | H | cats category Hc Hn Hs]
                  | cats category columns dataValue Hc Hn Hv Hd Hrow].
  - contradiction.
  - contradiction.
  - rewrite Hc, Hn, Hs. reflexivity.
  - rewrite Hc, Hn, Hv. destruct (cat_source category); [|reflexivity].
    rewrite Hd. cbv zeta.
    destruct (truthy (nth_error (cat_values category) 0)
              && (isNumber (nth_error (cat_values category) 0)
                  || isDate (nth_error (cat_values category) 0))) eqn:Ex;
      [|reflexivity].
    destruct (truthy (nth_error (col_values dataValue) 0)
              && isNumber (nth_error (col_values dataValue) 0)) eqn:Ey;
      [|reflexivity].
    exfalso. apply Hrow. split.
    + apply truthy_usablePosition. exact Ex.
    + apply truthy_usableValue. exact Ey.
Qed.

Lemma visualTransformSD_incomplete (options : VisualUpdateOptions) (views : list DataView)
    (view : DataView) (cat : DataViewCategorical) :
  dataViews options = Some views -> nth_error views 0 = Some view ->
  categorical view = Some cat ->
  categories cat <> None -> values cat <> None ->
  incomplete cat ->
  SubgroupSD.visualTransform options = Returns SubgroupSD.neutralViewModel.
Proof.
  intros Hviews Hview Hcat Hcats Hvals Hun. unfold SubgroupSD.visualTransform.
  rewrite Hviews, Hview, Hcat.
  destruct Hun as [H | H | cats category Hc Hn Hs]; try contradiction.
  rewrite Hc, Hn, Hs. reflexivity.
Qed.

(** Claim C6, as the code has it. The data view has categorical data.
    Moving-range build: when a part of the data is missing (no category
    columns, no value columns, no source of the first category column), or
    the first position is not a number other than zero or a date, or the
    first value is not a number other than zero, [update] returns, runs no
    segmentation and no limit calculation and leaves no flags; when
    [visualTransform] is reached it returns the neutral view model.
    Subgroup build: the same when a part of the data is missing (without
    category columns or value columns the chart is left as it was); this
    build tests nothing else. *)
Theorem unusable_data_gives_neutral_result :
  (forall (this : MovingRange.ControlChart) (options : VisualUpdateOptions)
          (views : list DataView) (view : DataView) (cat : DataViewCategorical),
      dataViews options = Some views -> nth_error views 0 = Some view ->
      categorical view = Some cat ->
      unusable cat ->
      exists chart,
        MovingRange.update this options = Returns chart
        /\ MovingRange.ruleDots chart = []
        /\ MovingRange.analysis chart = MovingRange.analysis this
        /\ (MovingRange.controlChartViewModel chart = MovingRange.controlChartViewModel this
            \/ MovingRange.controlChartViewModel chart = Some MovingRange.neutralViewModel)
        /\ (categories cat <> None -> values cat <> None ->
            MovingRange.visualTransform options = Returns MovingRange.neutralViewModel
            /\ MovingRange.controlChartViewModel chart
               = Some MovingRange.neutralViewModel))
  /\ (forall (Math_sqrt : Q -> Q) (this : SubgroupSD.ControlChart)
             (options : VisualUpdateOptions) (views : list DataView) (view : DataView)
             (cat : DataViewCategorical),
         dataViews options = Some views -> nth_error views 0 = Some view ->
         categorical view = Some cat ->
         incomplete cat ->
         exists chart,
           SubgroupSD.update Math_sqrt this options = Returns chart
           /\ SubgroupSD.analysis chart = SubgroupSD.analysis this
           /\ (chart = this
               \/ SubgroupSD.controlChartViewModel chart = Some SubgroupSD.neutralViewModel
                  /\ SubgroupSD.ruleDots chart = [])
           /\ (categories cat <> None -> values cat <> None ->
               SubgroupSD.visualTransform options = Returns SubgroupSD.neutralViewModel
               /\ SubgroupSD.controlChartViewModel chart
                  = Some SubgroupSD.neutralViewModel
               /\ SubgroupSD.ruleDots chart = [])).
Proof.
  split.
  - intros this options views view cat Hviews Hview Hcat Hun.
    unfold MovingRange.update. rewrite Hviews, Hview, Hcat. cbv zeta.
    destruct (categories cat) as [cats|] eqn:Ec.
    + destruct (values cat) as [columns|] eqn:Ev.
      * assert (Hvt : MovingRange.visualTransform options
                      = Returns MovingRange.neutralViewModel).
        { apply (visualTransform_unusable options views view cat); try assumption.
          - rewrite Ec. discriminate.
          - rewrite Ev. discriminate. }
        rewrite Hvt, bind_Returns. cbn [MovingRange.neutralViewModel MovingRange.dataPoints].
        eexists. split; [reflexivity|]. cbn. split; [reflexivity|]. split; [reflexivity|].
        split; [right; reflexivity|]. intros _ _. split; reflexivity.
      * eexists. split; [reflexivity|]. cbn. split; [reflexivity|]. split; [reflexivity|].
        split; [left; reflexivity|]. intros _ H. exfalso. apply H. reflexivity.
    + eexists. split; [reflexivity|]. cbn. split; [reflexivity|]. split; [reflexivity|].
      split; [left; reflexivity|]. intros H. exfalso. apply H. reflexivity.
  - intros Math_sqrt this options views view cat Hviews Hview Hcat Hun.
    unfold SubgroupSD.update. rewrite Hviews, Hview, Hcat.
    destruct (categories cat) as [cats|] eqn:Ec.
    + destruct (values cat) as [columns|] eqn:Ev.
      * assert (Hvt : SubgroupSD.visualTransform options
                      = Returns SubgroupSD.neutralViewModel).
        { apply (visualTransformSD_incomplete options views view cat); try assumption.
          - rewrite Ec. discriminate.
          - rewrite Ev. discriminate. }
        rewrite Hvt, bind_Returns. cbn [SubgroupSD.neutralViewModel SubgroupSD.dataPoints].
        eexists. split; [reflexivity|]. cbn. split; [reflexivity|].
        split; [right; split; reflexivity|]. intros _ _. repeat split.
      * exists this. split; [reflexivity|]. split; [reflexivity|].
        split; [left; reflexivity|]. intros _ H. exfalso. apply H. reflexivity.
    + exists this. split; [reflexivity|]. split; [reflexivity|].
      split; [left; reflexivity|]. intros H. exfalso. apply H. reflexivity.
Qed.

Lemma unusable_data_gives_neutral_result_witness :
  (unusable (sampleCategorical (labelled ["a"; "b"]%string) (numbers [5; 6]%Z) None)
   /\ exists chart,
        MovingRange.update newMovingRangeChart textPositionsOptions = Returns chart
        /\ MovingRange.ruleDots chart = []
        /\ MovingRange.chartStages (MovingRange.analysis chart) = []
        /\ MovingRange.uclLines (MovingRange.analysis chart) = []
        /\ MovingRange.lclLines (MovingRange.analysis chart) = []
        /\ MovingRange.controlChartViewModel chart = Some MovingRange.neutralViewModel)
  /\ (incomplete noSourceCategorical
      /\ forall Math_sqrt : Q -> Q,
         exists chart,
           SubgroupSD.update Math_sqrt newSubgroupChart noSourceOptions = Returns chart
           /\ SubgroupSD.chartStages (SubgroupSD.analysis chart) = []
           /\ SubgroupSD.controlChartViewModel chart = Some SubgroupSD.neutralViewModel
           /\ SubgroupSD.ruleDots chart = []).
Proof.
  assert (Hrow : unusable (sampleCategorical (labelled ["a"; "b"]%string)
                             (numbers [5; 6]%Z) None)).
  { apply (FirstRow _ [{| cat_source := Some tt; cat_values := labelled ["a"; "b"]%string |}]
             {| cat_source := Some tt; cat_values := labelled ["a"; "b"]%string |}
             (sampleColumns (numbers [5; 6]%Z) None) {| col_values := numbers [5; 6]%Z |});
      try reflexivity.
    simpl. intros [H _]. exact H. }
  assert (Hsource : incomplete noSourceCategorical).
  { apply (NoSource _ [{| cat_source := None; cat_values := numbers [1; 2]%Z |}]
             {| cat_source := None; cat_values := numbers [1; 2]%Z |}); reflexivity. }
  split.
  - split; [exact Hrow|].
    destruct (proj1 unusable_data_gives_neutral_result newMovingRangeChart
                textPositionsOptions _ _ _ eq_refl eq_refl eq_refl Hrow)
      as [chart [H1 [H2 [H3 [_ H4]]]]].
    exists chart. split; [exact H1|]. split; [exact H2|]. rewrite H3.
    split; [reflexivity|]. split; [reflexivity|]. split; [reflexivity|].
    apply H4; discriminate.
  - split; [exact Hsource|]. intro Math_sqrt.
    destruct (proj2 unusable_data_gives_neutral_result Math_sqrt newSubgroupChart
                noSourceOptions _ _ _ eq_refl eq_refl eq_refl Hsource)
      as [chart [H1 [H2 [_ H3]]]].
    exists chart. split; [exact H1|]. rewrite H2. split; [reflexivity|].
    apply H3; discriminate.
Defined.

(** Claim C6 as the specification words it fails. The moving-range build
    tests the first row only: with the positions 1 and "a" it charts both
    rows, a stage with limits among them. The subgroup build tests no type:
    with the positions "a" and "b" it builds two data points and a stage.
    And with an empty list of data views [update] of either build ends in a
    type error. *)
Lemma later_rows_and_types_not_tested :
  (exists chart viewModel stage,
      MovingRange.update newMovingRangeChart mixedPositionsOptions = Returns chart
      /\ MovingRange.controlChartViewModel chart = Some viewModel
      /\ map MovingRange.xValue (MovingRange.dataPoints viewModel)
         = [PNumber 1; PString "a"]
      /\ MovingRange.chartStages (MovingRange.analysis chart) = [stage]
      /\ MovingRange.mRError stage = false
      /\ List.length (MovingRange.uclLines (MovingRange.analysis chart)) = 1%nat)
  /\ (exists viewModel,
         SubgroupSD.visualTransform textPositionsOptions = Returns viewModel
         /\ map SubgroupSD.xValue (SubgroupSD.dataPoints viewModel)
            = [PString "a"; PString "b"])
  /\ (forall Math_sqrt : Q -> Q,
      exists chart stage,
        SubgroupSD.update Math_sqrt newSubgroupChart textPositionsOptions = Returns chart
        /\ SubgroupSD.chartStages (SubgroupSD.analysis chart) = [stage]
        /\ List.length (SubgroupSD.uclLines (SubgroupSD.analysis chart)) = 1%nat)
  /\ MovingRange.update newMovingRangeChart {| dataViews := Some [] |} = TypeError
  /\ (forall Math_sqrt : Q -> Q,
      SubgroupSD.update Math_sqrt newSubgroupChart {| dataViews := Some [] |} = TypeError).
Proof.
  split; [|split; [|split; [|split]]].
  - eexists. eexists. eexists. split; [vm_compute; reflexivity|].
    split; [reflexivity|]. split; [reflexivity|]. split; [reflexivity|].
    split; reflexivity.
  - eexists. split; [vm_compute; reflexivity | reflexivity].
  - intro Math_sqrt. eexists. eexists. split; [vm_compute; reflexivity|].
    split; reflexivity.
  - reflexivity.
  - intro Math_sqrt. reflexivity.
Qed.

(** * More of the code *)

(** ** Lists *)

Lemma labelEq_eq (a b : option string) : labelEq a b = true -> a = b.
Proof.
  destruct a as [s|], b as [t|]; simpl; intro H; try discriminate; [|reflexivity].
  apply String.eqb_eq in H. subst. reflexivity.
Qed.

Lemma firstn_S_nth {A : Type} (l : list A) :
  forall c x, nth_error l c = Some x -> firstn (S c) l = firstn c l ++ [x].
Proof.
  induction l as [|a l IH]; intros [|c] x H; simpl in *; try discriminate.
  - inversion H. reflexivity.
  - rewrite (IH c x H). reflexivity.
Qed.

Lemma firstn_skipn_snoc {A : Type} (l : list A) (f c : nat) (x : A) :
  nth_error l (f + c) = Some x ->
  firstn (S c) (skipn f l) = firstn c (skipn f l) ++ [x].
Proof.
  intro H. apply firstn_S_nth. rewrite nth_error_skipn. exact H.
Qed.

Lemma sumOf_app (l l' : list Q) : sumOf (l ++ l') == sumOf l + sumOf l'.
Proof.
  induction l as [|y l IH]; simpl.
  - rewrite Qplus_0_l. reflexivity.
  - rewrite IH. apply Qplus_assoc.
Qed.

Lemma sumOf_snoc (l : list Q) (y : Q) : sumOf (l ++ [y]) == sumOf l + y.
Proof.
  rewrite sumOf_app. simpl. rewrite Qplus_0_r. reflexivity.
Qed.

Lemma chained_snoc {A : Type} (R : A -> A -> Prop) (l : list A) (x : A) :
  chained R l ->
  (forall front a, l = front ++ [a] -> R a x) ->
  chained R (l ++ [x]).
Proof.
  induction l as [|a l IH]; intros H Hlast; simpl.
  - split; exact I.
  - destruct H as [Hab H]. split.
    + destruct l as [|b l']; simpl.
      * apply (Hlast [] a). reflexivity.
      * exact Hab.
    + apply IH; [exact H|]. intros front a' E. apply (Hlast (a :: front) a').
      rewrite E. reflexivity.
Qed.

Lemma app_inj_last {A : Type} (l l' : list A) (a b : A) :
  l ++ [a] = l' ++ [b] -> l = l' /\ a = b.
Proof. apply app_inj_tail. Qed.

(** ** Segmentation: sums, means, names and dividers *)

Lemma withMean_fields (acc : MovingRange.Stage) :
  MovingRange.sum (MovingRange.withMean acc) = MovingRange.sum acc
  /\ MovingRange.stage (MovingRange.withMean acc) = MovingRange.stage acc
  /\ MovingRange.startX (MovingRange.withMean acc) = MovingRange.startX acc
  /\ ((1 <= MovingRange.count acc)%nat ->
      MovingRange.mean (MovingRange.withMean acc)
      = MovingRange.sum acc / inject_Z (Z.of_nat (MovingRange.count acc))).
Proof.
  unfold MovingRange.withMean.
  destruct (0 <? MovingRange.count acc) eqn:E; repeat split.
  intro H. apply Nat.ltb_ge in E. exfalso. lia.
Qed.

Lemma stageStep_facts (hasStages : bool) (labels : list PrimitiveValue)
    (points : list MovingRange.ChartDataPoint) (i : nat) (obj : MovingRange.ChartDataPoint)
    (st st' : MovingRange.StageLoop) :
  stageLoopInvariant hasStages labels i st ->
  runningFacts hasStages labels points i st ->
  nth_error points i = Some obj ->
  MovingRange.stageStep hasStages labels points i obj st = Returns st' ->
  if i =? List.length points - 1
  then stageFacts hasStages labels points (MovingRange.stages st')
  else runningFacts hasStages labels points (S i) st'.
Proof.
  intros [Hchain [Hcounts [Hsum Hfirst]]]
         [Rsum [Rstart [Rname [Rlab [Fsum [Flab [Fdiv Flast]]]]]]] Hobj H.
  unfold MovingRange.stageStep in H.
  apply bind_returns in H. destruct H as [label [Hlabel H]].
  apply bind_returns in H. destruct H as [st1 [H1 H]].
  apply bind_returns in H. destruct H as [current [Hcurrent H]].
  assert (Hst1 :
            (MovingRange.firstId (MovingRange.running st1)
             + MovingRange.count (MovingRange.running st1) = S i)%nat
            /\ (1 <= MovingRange.count (MovingRange.running st1))%nat
            /\ MovingRange.stage (MovingRange.running st1) = label
            /\ MovingRange.stageValue st1 = label
            /\ runningFacts hasStages labels points (S i)
                 {| MovingRange.running := MovingRange.running st1;
                    MovingRange.stageValue := label;
                    MovingRange.currentStage := label;
                    MovingRange.stages := MovingRange.stages st1 |}).
  { destruct (labelEq (MovingRange.currentStage st) label || negb hasStages) eqn:Esame.
    - inversion H1. subst st1. clear H1.
      cbn [MovingRange.stages MovingRange.running MovingRange.firstId MovingRange.count
             MovingRange.lastId MovingRange.currentStage MovingRange.stageValue
             MovingRange.stage MovingRange.sum MovingRange.startX].
      assert (Hname : MovingRange.stage (MovingRange.running st) = label).
      { destruct hasStages.
        - rewrite orb_false_r in Esame. apply labelEq_eq in Esame. congruence.
        - destruct Rlab as [Rv Rs]. inversion Hlabel. congruence. }
      split; [lia|]. split; [lia|]. split; [exact Hname|]. split; [reflexivity|].
      unfold runningFacts.
      cbn [MovingRange.stages MovingRange.running MovingRange.firstId MovingRange.count
             MovingRange.lastId MovingRange.currentStage MovingRange.stageValue
             MovingRange.stage MovingRange.sum MovingRange.startX].
      split; [|split; [exact Rstart|]; split; [exact Hname|]; split;
                [|split; [exact Fsum|]; split; [exact Flab|]; split;
                   [exact Fdiv | exact Flast]]].
      + rewrite (firstn_skipn_snoc points _ _ obj) by (rewrite Hsum; exact Hobj).
        rewrite map_app. cbn [map]. rewrite sumOf_snoc, Rsum. reflexivity.
      + destruct hasStages.
        * intros j Hj. destruct (Nat.eq_dec j i) as [-> | Hne].
          -- rewrite Hname. exact Hlabel.
          -- apply Rlab. lia.
        * destruct Rlab as [Rv Rs]. split; [|exact Rs]. congruence.
    - apply orb_false_iff in Esame. destruct Esame as [Ene Ehas].
      apply negb_false_iff in Ehas. subst hasStages.
      destruct (beforeIndex points i) as [previous|] eqn:Eprev; [|discriminate].
      apply bind_returns in H1. destruct H1 as [nextStart [Hnext H1]].
      apply bind_returns in H1. destruct H1 as [endDate [Hend H1]].
      assert (Hc : (1 <= MovingRange.count (MovingRange.running st))%nat).
      { destruct (MovingRange.count (MovingRange.running st)) eqn:Ec; [|lia].
        exfalso. rewrite (Hfirst eq_refl eq_refl) in Hlabel.
        inversion Hlabel. subst label. rewrite labelEq_refl in Ene. discriminate. }
      destruct (withMean_fields (MovingRange.running st)) as [Ws [Wn [Wx Wm]]].
      destruct (withMean_ids (MovingRange.running st)) as [Wf [Wl Wc]].
      specialize (Wm Hc).
      remember (MovingRange.withMean (MovingRange.running st)) as w eqn:Ew. clear Ew.
      inversion H1. subst st1. clear H1.
      cbn [MovingRange.stages MovingRange.running MovingRange.firstId MovingRange.count
             MovingRange.lastId MovingRange.currentStage MovingRange.stageValue
             MovingRange.stage MovingRange.sum MovingRange.startX].
      split; [lia|]. split; [lia|]. split; [reflexivity|]. split; [reflexivity|].
      destruct i as [|p]; [discriminate|]. simpl in Eprev.
      assert (Hdiv : forall s',
                 MovingRange.stage s' = label ->
                 MovingRange.startX s' = MovingRange.xValue obj ->
                 dividedAt
                   (MovingRange.closeStage
                      {| MovingRange.lCL := MovingRange.lCL w;
                         MovingRange.uCL := MovingRange.uCL w;
                         MovingRange.mean := MovingRange.mean w;
                         MovingRange.startX := MovingRange.startX w;
                         MovingRange.endX := MovingRange.xValue previous;
                         MovingRange.sum := MovingRange.sum w;
                         MovingRange.count := MovingRange.count w;
                         MovingRange.stage := MovingRange.stage w;
                         MovingRange.stageDividerX := PNumber ((nextStart + endDate) / 2);
                         MovingRange.firstId := MovingRange.firstId w;
                         MovingRange.lastId := MovingRange.lastId w;
                         MovingRange.mRError := MovingRange.mRError w |}
                      (PNumber ((nextStart + endDate) / 2)) (S p - 1)) s').
      { intros s' Hs Hx. unfold dividedAt, MovingRange.closeStage.
        cbn [MovingRange.stage MovingRange.endX MovingRange.stageDividerX].
        rewrite Hs, Hx, Wn, Rname. split; [exact Ene|].
        exists endDate, nextStart. split; [exact Hend|]. split; [exact Hnext|].
        reflexivity. }
      unfold runningFacts.
      cbn [MovingRange.stages MovingRange.running MovingRange.firstId MovingRange.count
             MovingRange.lastId MovingRange.currentStage MovingRange.stageValue
             MovingRange.stage MovingRange.sum MovingRange.startX].
      split; [|split; [|split; [reflexivity|]; split; [|split; [|split; [|split]]]]].
      + rewrite (firstn_skipn_snoc points (S p) 0 obj)
          by (rewrite Nat.add_0_r; exact Hobj).
        simpl. rewrite Qplus_0_r. reflexivity.
      + unfold positionAt. rewrite Hobj. reflexivity.
      + intros j Hj. replace j with (S p) by lia. exact Hlabel.
      + apply Forall_app. split; [exact Fsum|]. constructor; [|constructor].
        unfold summarised, MovingRange.closeStage, stageValues, slice, positionAt.
        cbn [MovingRange.sum MovingRange.mean MovingRange.count MovingRange.firstId
               MovingRange.lastId MovingRange.startX MovingRange.endX].
        rewrite Ws, Wm, Wc, Wf, Wx.
        replace (S (S p - 1) - MovingRange.firstId (MovingRange.running st))%nat
          with (MovingRange.count (MovingRange.running st)) by lia.
        split; [exact Rsum|]. split; [reflexivity|]. split; [exact Rstart|].
        replace (S p - 1)%nat with p by lia. rewrite Eprev. reflexivity.
      + apply Forall_app. split; [exact Flab|]. constructor; [|constructor].
        unfold labelledBy, MovingRange.closeStage.
        cbn [MovingRange.stage MovingRange.firstId MovingRange.lastId].
        rewrite Wn, Wf. intros j Hj. apply Rlab. lia.
      + apply chained_snoc; [exact Fdiv|].
        intros front a E. unfold dividedAt, MovingRange.closeStage.
        cbn [MovingRange.stage MovingRange.startX].
        apply (Flast front a _ E); cbn [MovingRange.stage MovingRange.startX];
          [exact Wn | exact Wx].
      + intros front q s' E Hs Hx. apply app_inj_tail in E. destruct E as [_ E].
        subst q. apply Hdiv; assumption. }
  destruct Hst1 as [Hsum1 [Hpos1 [Hname1 [Hvalue1 R1]]]].
  destruct R1 as [Rsum1 [Rstart1 [_ [Rlab1 [Fsum1 [Flab1 [Fdiv1 Flast1]]]]]]].
  cbn [MovingRange.stages MovingRange.running MovingRange.currentStage
         MovingRange.stageValue] in *.
  assert (Hcur : current = label \/ hasStages = false).
  { destruct hasStages; [left; congruence | right; reflexivity]. }
  destruct (i =? List.length points - 1) eqn:Elast.
  - destruct (withMean_fields (MovingRange.running st1)) as [Ws [Wn [Wx Wm]]].
    destruct (withMean_ids (MovingRange.running st1)) as [Wf [Wl Wc]].
    specialize (Wm Hpos1).
    remember (MovingRange.withMean (MovingRange.running st1)) as w eqn:Ew. clear Ew.
    inversion H. subst st'. clear H.
    cbn [MovingRange.stages]. unfold stageFacts.
    split; [|split; [|split]].
    + apply Forall_app. split; [exact Fsum1|]. constructor; [|constructor].
      unfold summarised, MovingRange.closeStage, stageValues, slice, positionAt.
      cbn [MovingRange.sum MovingRange.mean MovingRange.count MovingRange.firstId
             MovingRange.lastId MovingRange.startX MovingRange.endX].
      rewrite Ws, Wm, Wc, Wf, Wx.
      replace (S i - MovingRange.firstId (MovingRange.running st1))%nat
        with (MovingRange.count (MovingRange.running st1)) by lia.
      split; [exact Rsum1|]. split; [reflexivity|]. split; [exact Rstart1|].
      rewrite Hobj. reflexivity.
    + apply Forall_app. split; [exact Flab1|]. constructor; [|constructor].
      unfold labelledBy, MovingRange.closeStage.
      cbn [MovingRange.stage MovingRange.firstId MovingRange.lastId].
      rewrite Wf. destruct hasStages.
      * intros j Hj. rewrite <- Hname1. apply Rlab1. lia.
      * destruct Rlab1 as [_ Rs]. congruence.
    + apply chained_snoc; [exact Fdiv1|].
      intros front a E. apply (Flast1 front a _ E);
        unfold MovingRange.closeStage; cbn [MovingRange.stage MovingRange.startX];
        [symmetry; exact Hname1 | exact Wx].
    + intros front s E. apply app_inj_tail in E. destruct E as [_ E]. subst s.
      reflexivity.
  - inversion H. subst st'. clear H. unfold runningFacts.
    cbn [MovingRange.stages MovingRange.running MovingRange.currentStage
           MovingRange.stageValue].
    split; [exact Rsum1|]. split; [exact Rstart1|].
    split.
    { destruct Hcur as [-> | Hno]; [exact Hname1|].
      subst hasStages. inversion Hcurrent. subst current.
      destruct Rlab1 as [Rv Rs].
      destruct (labelEq (MovingRange.currentStage st) label || negb false) eqn:Esame;
        [|simpl in Esame; rewrite orb_true_r in Esame; discriminate].
      inversion H1. subst st1. cbn [MovingRange.currentStage MovingRange.running
                                      MovingRange.stage] in *.
      exact Rname. }
    split; [exact Rlab1|]. split; [exact Fsum1|]. split; [exact Flab1|].
    split; [exact Fdiv1 | exact Flast1].
Qed.

Lemma stageLoop_facts (hasStages : bool) (labels : list PrimitiveValue)
    (points : list MovingRange.ChartDataPoint) :
  forall rest i st st',
    (i + List.length rest = List.length points)%nat -> rest <> [] ->
    (forall k obj, nth_error rest k = Some obj -> nth_error points (i + k) = Some obj) ->
    stageLoopInvariant hasStages labels i st ->
    runningFacts hasStages labels points i st ->
    MovingRange.stageLoop hasStages labels points i rest st = Returns st' ->
    stageFacts hasStages labels points (MovingRange.stages st').
Proof.
  induction rest as [|obj rest IH]; intros i st st' Hlen Hne Hnth Hinv Hfacts H;
    [congruence|].
  simpl in H. apply bind_returns in H. destruct H as [st1 [H1 H]].
  assert (Hobj : nth_error points i = Some obj).
  { rewrite <- (Nat.add_0_r i). apply Hnth. reflexivity. }
  pose proof (stageStep_invariant hasStages labels points i obj st st1 Hinv H1) as Hstep.
  pose proof (stageStep_facts hasStages labels points i obj st st1 Hinv Hfacts Hobj H1)
    as Hstep'.
  simpl in Hlen. destruct rest as [|obj' rest'].
  - simpl in H. inversion H. subst st'.
    assert (E : (i =? List.length points - 1) = true) by (apply Nat.eqb_eq; simpl in Hlen; lia).
    rewrite E in Hstep'. exact Hstep'.
  - assert (E : (i =? List.length points - 1) = false).
    { apply Nat.eqb_neq. simpl in Hlen. lia. }
    rewrite E in Hstep, Hstep'.
    apply (IH (S i) st1 st'); [simpl in *; lia | discriminate | | exact Hstep | exact Hstep'
                               | exact H].
    intros k o Hk. replace (S i + k)%nat with (i + S k)%nat by lia. apply Hnth. exact Hk.
Qed.

Lemma GetStages_facts (view : DataView) (cat : DataViewCategorical)
    (columns : list DataViewValueColumn) (viewModel : MovingRange.ControlChartViewModel)
    (stages : list MovingRange.Stage) :
  categorical view = Some cat -> values cat = Some columns ->
  MovingRange.GetStages (Some view) viewModel = Returns stages ->
  stageFacts (hasLabelColumn columns) (labelColumn columns)
    (MovingRange.dataPoints viewModel) stages.
Proof.
  intros Hcat Hval H. unfold MovingRange.GetStages in H. rewrite Hcat, Hval in H.
  cbv zeta in H. fold (hasLabelColumn columns) in H. fold (labelColumn columns) in H.
  remember (hasLabelColumn columns) as hasStages eqn:Eh. clear Eh.
  remember (labelColumn columns) as labels eqn:El. clear El.
  apply bind_returns in H. destruct H as [label [Hlabel H]].
  destruct (MovingRange.dataPoints viewModel) as [|first rest] eqn:Epoints; [discriminate|].
  apply bind_returns in H. destruct H as [st [Hloop H]]. inversion H. subst stages.
  eapply (stageLoop_facts _ _ (first :: rest) (first :: rest) 0%nat);
    [reflexivity | discriminate | intros k obj Hk; exact Hk | | | exact Hloop].
  - unfold stageLoopInvariant. simpl.
    split; [reflexivity|]. split; [constructor|]. split; [reflexivity|].
    intros _ Hhas. rewrite Hhas in Hlabel. exact Hlabel.
  - unfold runningFacts.
    cbn [MovingRange.stages MovingRange.running MovingRange.firstId MovingRange.count
           MovingRange.currentStage MovingRange.stageValue MovingRange.stage
           MovingRange.sum MovingRange.startX].
    split; [reflexivity|]. split; [reflexivity|]. split; [reflexivity|].
    split; [|split; [constructor|]; split; [constructor|]; split; [exact I|]].
    + destruct hasStages; [intros j Hj; lia|]. inversion Hlabel. split; reflexivity.
    + intros front p s' E. destruct front; discriminate.
Qed.

Lemma chained_impl {A : Type} (R R' : A -> A -> Prop) (l : list A) :
  (forall a b, R a b -> R' a b) -> chained R l -> chained R' l.
Proof.
  intro H. induction l as [|a l IH]; simpl; [trivial|].
  intros [Hab Hrest]. split; [|apply IH; exact Hrest].
  destruct l as [|b l']; [exact I | apply H; exact Hab].
Qed.

Lemma chained_conj {A : Type} (R R' : A -> A -> Prop) (l : list A) :
  chained R l -> chained R' l -> chained (fun a b => R a b /\ R' a b) l.
Proof.
  induction l as [|a l IH]; simpl; [trivial|].
  intros [Hab Hrest] [Hab' Hrest']. split; [|apply IH; assumption].
  destruct l as [|b l']; [exact I | split; assumption].
Qed.

Lemma contiguousFrom_chained (stages : list MovingRange.Stage) :
  forall start next,
    contiguousFrom start (rangesOfMovingRange stages) next ->
    chained (fun s s' => MovingRange.firstId s' = S (MovingRange.lastId s)) stages.
Proof.
  induction stages as [|s rest IH]; intros start next H; simpl in *; [exact I|].
  destruct H as [_ [_ H]]. split; [|apply (IH _ _ H)].
  destruct rest as [|s' rest']; [exact I|]. simpl in H. destruct H as [H _]. exact H.
Qed.

Lemma slice_length {A : Type} (first last : nat) (l : list A) :
  (first <= last)%nat -> (last < List.length l)%nat ->
  List.length (slice first last l) = (S last - first)%nat.
Proof.
  intros H1 H2. unfold slice. rewrite length_firstn, length_skipn. lia.
Qed.

Lemma summarised_mean (data : list MovingRange.ChartDataPoint) (s : MovingRange.Stage) :
  stageWellFormed data s -> summarised data s ->
  List.length (stageValues data s) = MovingRange.count s
  /\ MovingRange.sum s == sumOf (stageValues data s)
  /\ MovingRange.mean s == specMean (stageValues data s).
Proof.
  intros [H1 [H2 H3]] [Hsum [Hmean _]].
  assert (Hlen : List.length (stageValues data s) = MovingRange.count s).
  { unfold stageValues. rewrite length_map, slice_length by assumption. lia. }
  split; [exact Hlen|]. split; [exact Hsum|].
  rewrite Hmean. unfold specMean. rewrite Hlen. fold (sumOf (stageValues data s)).
  rewrite Hsum. reflexivity.
Qed.

(** X1. Moving-range build, for a series that is not empty, with positions
    that are numbers or dates and labels that are strings: [GetStages]
    returns, and every stage carries the sum of the values of its rows, as
    many rows as its count says, and their mean. *)
Theorem GetStages_sums_and_means :
  forall (view : DataView) (cat : DataViewCategorical) (columns : list DataViewValueColumn)
         (viewModel : MovingRange.ControlChartViewModel),
    categorical view = Some cat -> values cat = Some columns ->
    MovingRange.dataPoints viewModel <> [] ->
    Forall (fun p => isPosition (MovingRange.xValue p)) (MovingRange.dataPoints viewModel) ->
    (forall c, nth_error columns 1 = Some c -> Forall isLabel (col_values c)) ->
    exists stages,
      MovingRange.GetStages (Some view) viewModel = Returns stages
      /\ Forall (fun s =>
                   List.length (stageValues (MovingRange.dataPoints viewModel) s)
                   = MovingRange.count s
                   /\ MovingRange.sum s
                      == sumOf (stageValues (MovingRange.dataPoints viewModel) s)
                   /\ MovingRange.mean s
                      == specMean (stageValues (MovingRange.dataPoints viewModel) s))
           stages.
Proof.
  intros view cat columns viewModel Hcat Hval Hne Hpos Hlab.
  destruct (GetStages_returns view cat columns viewModel Hcat Hval Hne Hpos Hlab)
    as [stages Hstages].
  exists stages. split; [exact Hstages|].
  destruct (GetStages_partition view cat columns viewModel stages Hcat Hval Hstages)
    as [Hpart Hcount].
  pose proof (partition_wellFormed _ _ Hpart Hcount) as Hwf.
  destruct (GetStages_facts view cat columns viewModel stages Hcat Hval Hstages)
    as [Hsum _].
  rewrite Forall_forall in *. intros s Hs.
  apply summarised_mean; [apply Hwf | apply Hsum]; exact Hs.
Qed.

Lemma GetStages_sums_and_means_witness :
  exists stages,
    MovingRange.GetStages (Some shortStageView) shortStageViewModel = Returns stages
    /\ Forall (fun s =>
                 List.length (stageValues (MovingRange.dataPoints shortStageViewModel) s)
                 = MovingRange.count s
                 /\ MovingRange.sum s
                    == sumOf (stageValues (MovingRange.dataPoints shortStageViewModel) s)
                 /\ MovingRange.mean s
                    == specMean (stageValues (MovingRange.dataPoints shortStageViewModel) s))
         stages.
Proof.
  apply (GetStages_sums_and_means shortStageView _ _ shortStageViewModel eq_refl eq_refl).
  - discriminate.
  - repeat constructor.
  - intros c Hc. inversion Hc. repeat constructor.
Defined.

(** X2. Moving-range build, with a label column: every row of a stage
    carries the label the stage is named by, a stage starts at the row after
    the last row of the stage before it, and the names of two neighbouring
    stages differ.  The stages are the longest runs of rows with one label. *)
Theorem GetStages_stages_are_label_runs :
  forall (view : DataView) (cat : DataViewCategorical) (columns : list DataViewValueColumn)
         (viewModel : MovingRange.ControlChartViewModel),
    categorical view = Some cat -> values cat = Some columns ->
    MovingRange.dataPoints viewModel <> [] ->
    Forall (fun p => isPosition (MovingRange.xValue p)) (MovingRange.dataPoints viewModel) ->
    (forall c, nth_error columns 1 = Some c -> Forall isLabel (col_values c)) ->
    hasLabelColumn columns = true ->
    exists stages,
      MovingRange.GetStages (Some view) viewModel = Returns stages
      /\ Forall (fun s =>
                   forall j, (MovingRange.firstId s <= j <= MovingRange.lastId s)%nat ->
                             labelAt (labelColumn columns) j = Returns (MovingRange.stage s))
           stages
      /\ chained (fun s s' =>
                    MovingRange.firstId s' = S (MovingRange.lastId s)
                    /\ MovingRange.stage s <> MovingRange.stage s')
           stages.
Proof.
  intros view cat columns viewModel Hcat Hval Hne Hpos Hlab Hhas.
  destruct (GetStages_returns view cat columns viewModel Hcat Hval Hne Hpos Hlab)
    as [stages Hstages].
  exists stages. split; [exact Hstages|].
  destruct (GetStages_partition view cat columns viewModel stages Hcat Hval Hstages)
    as [Hpart _].
  destruct (GetStages_facts view cat columns viewModel stages Hcat Hval Hstages)
    as [_ [Hnames [Hdiv _]]].
  rewrite Hhas in Hnames. split; [exact Hnames|].
  apply chained_conj; [apply (contiguousFrom_chained _ _ _ Hpart)|].
  apply (chained_impl dividedAt); [|exact Hdiv].
  intros a b [Hne' _] E. rewrite E, labelEq_refl in Hne'. discriminate.
Qed.

Lemma GetStages_stages_are_label_runs_witness :
  exists stages,
    MovingRange.GetStages (Some shortStageView) shortStageViewModel = Returns stages
    /\ Forall (fun s =>
                 forall j, (MovingRange.firstId s <= j <= MovingRange.lastId s)%nat ->
                           labelAt (labelled ["A"; "A"; "B"; "A"; "A"; "A"]%string) j
                           = Returns (MovingRange.stage s))
         stages
    /\ chained (fun s s' =>
                  MovingRange.firstId s' = S (MovingRange.lastId s)
                  /\ MovingRange.stage s <> MovingRange.stage s')
         stages.
Proof.
  apply (GetStages_stages_are_label_runs shortStageView _ _ shortStageViewModel
           eq_refl eq_refl).
  - discriminate.
  - repeat constructor.
  - intros c Hc. inversion Hc. repeat constructor.
  - reflexivity.
Defined.

(** X3. Moving-range build: a stage starts at the position of its first
    row and ends at the position of its last row; the divider of a stage
    that has a successor is half way between its last position and the
    first position of the successor; the divider of the last stage is its
    last position. *)
Theorem GetStages_positions_and_dividers :
  forall (view : DataView) (cat : DataViewCategorical) (columns : list DataViewValueColumn)
         (viewModel : MovingRange.ControlChartViewModel),
    categorical view = Some cat -> values cat = Some columns ->
    MovingRange.dataPoints viewModel <> [] ->
    Forall (fun p => isPosition (MovingRange.xValue p)) (MovingRange.dataPoints viewModel) ->
    (forall c, nth_error columns 1 = Some c -> Forall isLabel (col_values c)) ->
    exists stages,
      MovingRange.GetStages (Some view) viewModel = Returns stages
      /\ Forall (fun s =>
                   positionAt (MovingRange.dataPoints viewModel) (MovingRange.firstId s)
                   = Some (MovingRange.startX s)
                   /\ positionAt (MovingRange.dataPoints viewModel) (MovingRange.lastId s)
                      = Some (MovingRange.endX s))
           stages
      /\ chained (fun s s' =>
                    exists a b,
                      valueOf (MovingRange.endX s) = Returns a
                      /\ valueOf (MovingRange.startX s') = Returns b
                      /\ MovingRange.stageDividerX s = PNumber ((b + a) / 2))
           stages
      /\ (forall front s, stages = front ++ [s] ->
            MovingRange.stageDividerX s = MovingRange.endX s).
Proof.
  intros view cat columns viewModel Hcat Hval Hne Hpos Hlab.
  destruct (GetStages_returns view cat columns viewModel Hcat Hval Hne Hpos Hlab)
    as [stages Hstages].
  exists stages. split; [exact Hstages|].
  destruct (GetStages_facts view cat columns viewModel stages Hcat Hval Hstages)
    as [Hsum [_ [Hdiv Hlast]]].
  split; [|split; [|exact Hlast]].
  - rewrite Forall_forall in *. intros s Hs.
    destruct (Hsum s Hs) as [_ [_ [H1 H2]]]. split; assumption.
  - apply (chained_impl dividedAt); [|exact Hdiv]. intros a b [_ H]. exact H.
Qed.

Lemma GetStages_positions_and_dividers_witness :
  exists stages,
    MovingRange.GetStages (Some shortStageView) shortStageViewModel = Returns stages
    /\ chained (fun s s' =>
                  exists a b,
                    valueOf (MovingRange.endX s) = Returns a
                    /\ valueOf (MovingRange.startX s') = Returns b
                    /\ MovingRange.stageDividerX s = PNumber ((b + a) / 2))
         stages
    /\ (forall front s, stages = front ++ [s] ->
          MovingRange.stageDividerX s = MovingRange.endX s).
Proof.
  destruct (GetStages_positions_and_dividers shortStageView _ _ shortStageViewModel
              eq_refl eq_refl) as [stages [H1 [_ [H2 H3]]]].
  - discriminate.
  - repeat constructor.
  - intros c Hc. inversion Hc. repeat constructor.
  - exists stages. split; [exact H1|]. split; [exact H2 | exact H3].
Defined.

(** X4. Moving-range build, without a label column: [GetStages] returns one
    stage, with the empty name, over the whole series: its rows are
    [0 .. n - 1], its sum is the sum of all values and its mean their mean. *)
Theorem GetStages_without_labels_one_stage :
  forall (view : DataView) (cat : DataViewCategorical) (columns : list DataViewValueColumn)
         (viewModel : MovingRange.ControlChartViewModel),
    categorical view = Some cat -> values cat = Some columns ->
    MovingRange.dataPoints viewModel <> [] ->
    Forall (fun p => isPosition (MovingRange.xValue p)) (MovingRange.dataPoints viewModel) ->
    (forall c, nth_error columns 1 = Some c -> Forall isLabel (col_values c)) ->
    hasLabelColumn columns = false ->
    exists s,
      MovingRange.GetStages (Some view) viewModel = Returns [s]
      /\ MovingRange.firstId s = 0%nat
      /\ S (MovingRange.lastId s) = List.length (MovingRange.dataPoints viewModel)
      /\ MovingRange.count s = List.length (MovingRange.dataPoints viewModel)
      /\ MovingRange.stage s = Some EmptyString
      /\ MovingRange.sum s
         == sumOf (map MovingRange.yValue (MovingRange.dataPoints viewModel))
      /\ MovingRange.mean s
         == specMean (map MovingRange.yValue (MovingRange.dataPoints viewModel)).
Proof.
  intros view cat columns viewModel Hcat Hval Hne Hpos Hlab Hno.
  destruct (GetStages_returns view cat columns viewModel Hcat Hval Hne Hpos Hlab)
    as [stages Hstages].
  destruct (GetStages_partition view cat columns viewModel stages Hcat Hval Hstages)
    as [Hpart Hcount].
  pose proof (partition_wellFormed _ _ Hpart Hcount) as Hwf.
  destruct (GetStages_facts view cat columns viewModel stages Hcat Hval Hstages)
    as [Hsum [Hnames [Hdiv _]]].
  rewrite Hno in Hnames.
  destruct stages as [|s [|s' rest]].
  - exfalso. unfold partitions in Hpart. simpl in Hpart.
    destruct (MovingRange.dataPoints viewModel); [congruence | discriminate].
  - exists s. split; [exact Hstages|].
    unfold partitions in Hpart. simpl in Hpart. destruct Hpart as [Hf [Hle Hn]].
    inversion Hwf as [|? ? Hs _]; subst. inversion Hsum as [|? ? Hs' _]; subst.
    inversion Hnames as [|? ? Hname _]; subst. inversion Hcount as [|? ? Hc _]; subst.
    destruct (summarised_mean _ _ Hs Hs') as [_ [Hsm Hmn]].
    assert (Hall : stageValues (MovingRange.dataPoints viewModel) s
                   = map MovingRange.yValue (MovingRange.dataPoints viewModel)).
    { unfold stageValues, slice. rewrite Hf, Hn. simpl skipn.
      rewrite Nat.sub_0_r, firstn_all. reflexivity. }
    rewrite Hall in Hsm, Hmn.
    split; [exact Hf|]. split; [exact Hn|]. split; [lia|]. split; [exact Hname|].
    split; assumption.
  - exfalso. simpl in Hdiv. destruct Hdiv as [[Hdiff _] _].
    inversion Hnames as [|? ? Hn1 Hrest]; subst.
    inversion Hrest as [|? ? Hn2 _]; subst.
    rewrite Hn1, Hn2 in Hdiff. discriminate.
Qed.

Lemma GetStages_without_labels_one_stage_witness :
  exists s,
    MovingRange.GetStages (Some plainView) plainViewModel = Returns [s]
    /\ MovingRange.firstId s = 0%nat
    /\ MovingRange.count s = 3%nat
    /\ MovingRange.mean s == 6.
Proof.
  destruct (GetStages_without_labels_one_stage plainView _ _ plainViewModel
              eq_refl eq_refl) as [s [H1 [H2 [_ [H3 [_ [_ H4]]]]]]].
  - discriminate.
  - repeat constructor.
  - intros c Hc. inversion Hc.
  - reflexivity.
  - exists s. split; [exact H1|]. split; [exact H2|]. split; [exact H3|].
    rewrite H4. reflexivity.
Defined.

(** ** The limits of the moving-range build *)

Lemma In_slice {A : Type} (l : list A) (a b : nat) (x : A) :
  In x (slice a b l) <-> exists j, (a <= j <= b)%nat /\ nth_error l j = Some x.
Proof.
  unfold slice. split.
  - intro H. apply In_nth_error in H. destruct H as [k Hk].
    assert (Hlt : (k < S b - a)%nat).
    { destruct (Nat.lt_ge_cases k (S b - a)) as [Hlt | Hge]; [exact Hlt|].
      rewrite nth_error_firstn in Hk.
      destruct (Nat.ltb_spec k (S b - a)); [lia | discriminate]. }
    rewrite nth_error_firstn in Hk.
    destruct (Nat.ltb_spec k (S b - a)); [|lia].
    rewrite nth_error_skipn in Hk. exists (a + k)%nat. split; [lia | exact Hk].
  - intros [j [Hj Hx]]. apply (nth_error_In _ (j - a)).
    rewrite nth_error_firstn. destruct (Nat.ltb_spec (j - a) (S b - a)); [|lia].
    rewrite nth_error_skipn. replace (a + (j - a))%nat with j by lia. exact Hx.
Qed.

Lemma slice_map {A B : Type} (f : A -> B) (a b : nat) (l : list A) :
  slice a b (map f l) = map f (slice a b l).
Proof.
  unfold slice. rewrite skipn_map, firstn_map. reflexivity.
Qed.

Lemma slice_slice {A : Type} (l : list A) (f last a b : nat) :
  (f + b <= last)%nat ->
  slice a b (slice f last l) = slice (f + a) (f + b) l.
Proof.
  intro H. unfold slice.
  rewrite skipn_firstn_comm, firstn_firstn, skipn_skipn.
  replace (a + f)%nat with (f + a)%nat by lia.
  f_equal. lia.
Qed.

Lemma foldMax_spec (y : Q) (rest : list Q) :
  (forall x, In x (y :: rest) -> x <= fold_right Qmax y rest)
  /\ exists x, In x (y :: rest) /\ fold_right Qmax y rest == x.
Proof.
  induction rest as [|z rest [IH1 [w [Hw Ew]]]]; simpl.
  - split.
    + intros x [<- | []]. apply Qle_refl.
    + exists y. split; [left; reflexivity | reflexivity].
  - split.
    + intros x [<- | [<- | Hin]].
      * eapply Qle_trans; [apply IH1; left; reflexivity | apply Q.le_max_r].
      * apply Q.le_max_l.
      * eapply Qle_trans; [apply IH1; right; exact Hin | apply Q.le_max_r].
    + destruct (Q.max_dec z (fold_right Qmax y rest)) as [E | E].
      * exists z. split; [right; left; reflexivity | exact E].
      * exists w. split.
        -- destruct Hw as [<- | Hw]; [left; reflexivity | right; right; exact Hw].
        -- rewrite E. exact Ew.
Qed.

Lemma foldMin_spec (y : Q) (rest : list Q) :
  (forall x, In x (y :: rest) -> fold_right Qmin y rest <= x)
  /\ exists x, In x (y :: rest) /\ fold_right Qmin y rest == x.
Proof.
  induction rest as [|z rest [IH1 [w [Hw Ew]]]]; simpl.
  - split.
    + intros x [<- | []]. apply Qle_refl.
    + exists y. split; [left; reflexivity | reflexivity].
  - split.
    + intros x [<- | [<- | Hin]].
      * eapply Qle_trans; [apply Q.le_min_r | apply IH1; left; reflexivity].
      * apply Q.le_min_l.
      * eapply Qle_trans; [apply Q.le_min_r | apply IH1; right; exact Hin].
    + destruct (Q.min_dec z (fold_right Qmin y rest)) as [E | E].
      * exists z. split; [right; left; reflexivity | exact E].
      * exists w. split.
        -- destruct Hw as [<- | Hw]; [left; reflexivity | right; right; exact Hw].
        -- rewrite E. exact Ew.
Qed.

(** The range of a window is the difference between a largest and a
    smallest of its values, whichever of them are picked. *)
Lemma rangeOf_spec (l : list Q) (lo hi : Q) :
  In lo l -> In hi l ->
  (forall y, In y l -> lo <= y <= hi) ->
  hi - lo == rangeOf l.
Proof.
  intros Hlo Hhi Hall. destruct l as [|y rest]; [destruct Hlo|].
  unfold rangeOf.
  destruct (foldMax_spec y rest) as [M1 [xM [HxM EM]]].
  destruct (foldMin_spec y rest) as [m1 [xm [Hxm Em]]].
  assert (Emax : hi == fold_right Qmax y rest).
  { apply Qle_antisym; [apply M1; exact Hhi|]. rewrite EM. apply Hall. exact HxM. }
  assert (Emin : lo == fold_right Qmin y rest).
  { apply Qle_antisym; [|apply m1; exact Hlo]. rewrite Em. apply Hall. exact Hxm. }
  rewrite Emax, Emin. reflexivity.
Qed.

Lemma rangeOf_bounds (l : list Q) (a b : Q) :
  (forall y, In y l -> a <= y <= b) -> a <= b ->
  0 <= rangeOf l /\ rangeOf l <= b - a.
Proof.
  intros Hall Hab. destruct l as [|y rest]; simpl.
  - split; [apply Qle_refl|]. rewrite <- (Qplus_opp_r a).
    apply Qplus_le_l. exact Hab.
  - destruct (foldMax_spec y rest) as [M1 [xM [HxM EM]]].
    destruct (foldMin_spec y rest) as [m1 [xm [Hxm Em]]].
    split.
    + rewrite <- (Qplus_opp_r (fold_right Qmin y rest)). apply Qplus_le_l.
      eapply Qle_trans; [apply m1; left; reflexivity | apply M1; left; reflexivity].
    + apply Qplus_le_compat.
      * rewrite EM. apply Hall. exact HxM.
      * apply Qopp_le_compat. rewrite Em. apply Hall. exact Hxm.
Qed.

Lemma rangeOf_nonneg (l : list Q) : 0 <= rangeOf l.
Proof.
  destruct l as [|y rest]; simpl; [apply Qle_refl|].
  destruct (foldMax_spec y rest) as [M1 _]. destruct (foldMin_spec y rest) as [m1 _].
  rewrite <- (Qplus_opp_r (fold_right Qmin y rest)). apply Qplus_le_l.
  eapply Qle_trans; [apply m1; left; reflexivity | apply M1; left; reflexivity].
Qed.

Lemma yAtZ_nat (data : list MovingRange.ChartDataPoint) (J : nat) (y : Q) :
  MovingRange.yAtZ data (Z.of_nat J) = Returns y <->
  nth_error (map MovingRange.yValue data) J = Some y.
Proof.
  unfold MovingRange.yAtZ.
  destruct (Z.of_nat J <? 0)%Z eqn:E; [apply Z.ltb_lt in E; lia|].
  rewrite Nat2Z.id, nth_error_map.
  destruct (nth_error data J) as [p|]; simpl; split; intro H; inversion H; reflexivity.
Qed.

Lemma windowScan_spec (data : list MovingRange.ChartDataPoint) :
  forall turns J lo hi lo' hi',
    (turns <= S J)%nat ->
    MovingRange.windowScan data (Z.of_nat J) turns lo hi = Returns (lo', hi') ->
    lo' <= lo /\ hi <= hi'
    /\ (forall y, In y (slice (S J - turns) J (map MovingRange.yValue data)) ->
                  lo' <= y <= hi')
    /\ (lo' = lo \/ In lo' (slice (S J - turns) J (map MovingRange.yValue data)))
    /\ (hi' = hi \/ In hi' (slice (S J - turns) J (map MovingRange.yValue data))).
Proof.
  induction turns as [|t IH]; intros J lo hi lo' hi' Hle H.
  - simpl in H. inversion H. subst lo' hi'.
    split; [apply Qle_refl|]. split; [apply Qle_refl|].
    split; [|split; left; reflexivity].
    intros y Hy. apply In_slice in Hy. destruct Hy as [j [Hj _]]. lia.
  - cbn [MovingRange.windowScan] in H.
    apply bind_returns in H. destruct H as [y [Hy H]]. cbv zeta in H.
    apply yAtZ_nat in Hy.
    set (lo1 := if Qltb y lo then y else lo) in H.
    set (hi1 := if Qltb hi y then y else hi) in H.
    assert (Hlo1 : lo1 <= lo /\ lo1 <= y /\ (lo1 = lo \/ lo1 = y)).
    { unfold lo1. destruct (Qltb y lo) eqn:E.
      - apply Qltb_lt in E. split; [apply Qlt_le_weak; exact E|].
        split; [apply Qle_refl | right; reflexivity].
      - apply Qltb_ge in E. split; [apply Qle_refl|]. split; [exact E | left; reflexivity]. }
    assert (Hhi1 : hi <= hi1 /\ y <= hi1 /\ (hi1 = hi \/ hi1 = y)).
    { unfold hi1. destruct (Qltb hi y) eqn:E.
      - apply Qltb_lt in E. split; [apply Qlt_le_weak; exact E|].
        split; [apply Qle_refl | right; reflexivity].
      - apply Qltb_ge in E. split; [apply Qle_refl|]. split; [exact E | left; reflexivity]. }
    clearbody lo1 hi1.
    destruct Hlo1 as [L1 [L2 L3]]. destruct Hhi1 as [U1 [U2 U3]].
    assert (Hhere : In y (slice (S J - S t) J (map MovingRange.yValue data))).
    { apply In_slice. exists J. split; [lia | exact Hy]. }
    destruct J as [|J'].
    + assert (t = 0)%nat by lia. subst t. simpl in H. inversion H. subst lo' hi'.
      split; [exact L1|]. split; [exact U1|]. split.
      * intros z Hz. apply In_slice in Hz. destruct Hz as [j [Hj Hz]].
        assert (j = 0)%nat by lia. subst j. rewrite Hy in Hz. inversion Hz. subst z.
        split; assumption.
      * split; [destruct L3 as [-> | ->]; [left; reflexivity | right; exact Hhere]
               | destruct U3 as [-> | ->]; [left; reflexivity | right; exact Hhere]].
    + replace (Z.of_nat (S J') - 1)%Z with (Z.of_nat J') in H by lia.
      destruct (IH J' lo1 hi1 lo' hi') as [A [B [C [D E]]]]; [lia | exact H |].
      assert (Hsub : forall z, In z (slice (S J' - t) J' (map MovingRange.yValue data)) ->
                               In z (slice (S (S J') - S t) (S J')
                                       (map MovingRange.yValue data))).
      { intros z Hz. apply In_slice in Hz. destruct Hz as [j [Hj Hz]].
        apply In_slice. exists j. split; [lia | exact Hz]. }
      split; [eapply Qle_trans; eassumption|]. split; [eapply Qle_trans; eassumption|].
      split; [|split].
      * intros z Hz. apply In_slice in Hz. destruct Hz as [j [Hj Hz]].
        destruct (Nat.eq_dec j (S J')) as [-> | Hne].
        -- rewrite Hy in Hz. inversion Hz. subst z.
           split; eapply Qle_trans; eassumption.
        -- apply C. apply In_slice. exists j. split; [lia | exact Hz].
      * destruct D as [-> | D]; [|right; apply Hsub; exact D].
        destruct L3 as [-> | ->]; [left; reflexivity | right; exact Hhere].
      * destruct E as [-> | E]; [|right; apply Hsub; exact E].
        destruct U3 as [-> | ->]; [left; reflexivity | right; exact Hhere].
Qed.

(** The loop over the windows adds up the ranges of the windows. *)
Lemma rangeSum_spec (data : list MovingRange.ChartDataPoint) (w : nat) :
  (2 <= w)%nat ->
  forall turns J acc total,
    (w <= S J)%nat ->
    MovingRange.rangeSum data (Z.of_nat w) (Z.of_nat J) turns acc = Returns total ->
    total == acc + sumOf (map (fun j => rangeOf (slice (S j - w) j
                                                   (map MovingRange.yValue data)))
                            (seq J turns)).
Proof.
  intro Hw. induction turns as [|t IH]; intros J acc total HJ H.
  - simpl in H. inversion H. simpl. rewrite Qplus_0_r. reflexivity.
  - cbn [MovingRange.rangeSum] in H.
    apply bind_returns in H. destruct H as [start [Hstart H]].
    apply bind_returns in H. destruct H as [[lo' hi'] [Hscan H]].
    cbn [fst snd] in H. rewrite Nat2Z.id in Hscan.
    replace (Z.of_nat J - 1)%Z with (Z.of_nat (J - 1)) in Hstart by lia.
    apply yAtZ_nat in Hstart.
    destruct (windowScan_spec data w J start start lo' hi' HJ Hscan)
      as [A [B [C [D E]]]].
    assert (Hin : In start (slice (S J - w) J (map MovingRange.yValue data))).
    { apply In_slice. exists (J - 1)%nat. split; [lia | exact Hstart]. }
    assert (Hrange : Qabs (hi' - lo')
                     == rangeOf (slice (S J - w) J (map MovingRange.yValue data))).
    { rewrite Qabs_pos.
      - apply rangeOf_spec.
        + destruct D as [-> | D]; assumption.
        + destruct E as [-> | E]; assumption.
        + exact C.
      - rewrite <- (Qplus_opp_r lo'). apply Qplus_le_l.
        eapply Qle_trans; eassumption. }
    replace (Z.of_nat J + 1)%Z with (Z.of_nat (S J)) in H by lia.
    apply IH in H; [|lia]. rewrite H. cbn [seq map sumOf fold_right].
    fold (sumOf (map (fun j => rangeOf (slice (S j - w) j (map MovingRange.yValue data)))
                   (seq (S J) t))).
    rewrite Hrange. rewrite Qplus_assoc. reflexivity.
Qed.

Lemma seq_add (first start len : nat) :
  seq (first + start) len = map (fun j => (first + j)%nat) (seq start len).
Proof.
  revert start. induction len as [|len IH]; intro start; simpl; [reflexivity|].
  f_equal. rewrite <- IH. f_equal. lia.
Qed.

(** The windows of a stage, counted from the start of the series or from
    the start of the stage. *)
Lemma movingRanges_stage (data : list MovingRange.ChartDataPoint) (s : MovingRange.Stage)
    (w : nat) :
  stageWellFormed data s -> (1 <= w)%nat -> (w <= MovingRange.count s)%nat ->
  map (fun j => rangeOf (slice (S j - w) j (map MovingRange.yValue data)))
    (seq (MovingRange.firstId s + w - 1) (S (MovingRange.count s) - w))
  = movingRanges w (stageValues data s).
Proof.
  intros [H1 [H2 H3]] Hw Hc. unfold movingRanges.
  assert (Hlen : List.length (stageValues data s) = MovingRange.count s).
  { unfold stageValues. rewrite length_map, slice_length by assumption. lia. }
  rewrite Hlen.
  replace (MovingRange.firstId s + w - 1)%nat with (MovingRange.firstId s + (w - 1))%nat
    by lia.
  rewrite seq_add, map_map. apply map_ext_in. intros jr Hjr. apply in_seq in Hjr.
  unfold stageValues. rewrite <- slice_map.
  rewrite slice_slice by lia. f_equal. f_equal. lia.
Qed.

Lemma d2Array_ge_1 : Forall (fun d => 1 <= d) MovingRange.d2Array.
Proof.
  apply Forall_forall. intros d Hd.
  assert (H : forallb (Qle_bool 1) MovingRange.d2Array = true) by reflexivity.
  rewrite forallb_forall in H. apply Qle_bool_iff. apply H. exact Hd.
Qed.

Lemma LookUpd2_ge_1 (n : Z) (d : Q) :
  (1 <= n <= 50)%Z -> MovingRange.LookUpd2 n = Some d -> 1 <= d.
Proof.
  intros Hn H. destruct (LookUpd2_in_table n Hn) as [d' [H1 H2]].
  rewrite H in H1. inversion H1. subst d'.
  apply nth_error_In in H2. pose proof d2Array_ge_1 as F.
  rewrite Forall_forall in F. apply F. exact H2.
Qed.

(** What [CalcStats] makes of a stage with at least as many rows as the
    window, in the words of the specification. *)
Lemma limitsComputed_spec (viewModel : MovingRange.ControlChartViewModel)
    (s s' : MovingRange.Stage) :
  stageWellFormed (MovingRange.dataPoints viewModel) s ->
  (2 <= MovingRange.movingRange viewModel <= 50)%Z ->
  (MovingRange.movingRange viewModel <= Z.of_nat (MovingRange.count s))%Z ->
  limitsComputed viewModel s s' ->
  exists d2,
    MovingRange.LookUpd2 (MovingRange.movingRange viewModel) = Some d2
    /\ 1 <= d2
    /\ movingRangeLimits (MovingRange.dataPoints viewModel)
         (MovingRange.standardDeviations viewModel)
         (Z.to_nat (MovingRange.movingRange viewModel)) d2 s s'
    /\ MovingRange.mRError s' = MovingRange.mRError s.
Proof.
  intros Hwf Hmr Hc H. unfold limitsComputed in H. cbv zeta in H.
  destruct (Z.of_nat (MovingRange.count s) <? MovingRange.movingRange viewModel)%Z eqn:E;
    [apply Z.ltb_lt in E; lia|].
  destruct H as [total [d2 [Htotal [Hd2 Hs']]]].
  exists d2. split; [exact Hd2|]. split; [apply (LookUpd2_ge_1 (MovingRange.movingRange viewModel)); [lia | exact Hd2]|].
  remember (MovingRange.movingRange viewModel) as mr eqn:Emr in *.
  set (w := Z.to_nat mr).
  assert (Ew : mr = Z.of_nat w) by (unfold w; lia).
  destruct Hwf as [H1 [H2 H3]].
  assert (Hlen : List.length (stageValues (MovingRange.dataPoints viewModel) s)
                 = MovingRange.count s).
  { unfold stageValues. rewrite length_map, slice_length by assumption. lia. }
  assert (Hsum : total == sumOf (movingRanges w
                                   (stageValues (MovingRange.dataPoints viewModel) s))).
  { rewrite <- (movingRanges_stage _ s w) by (repeat split; try assumption; lia).
    replace (Z.of_nat (MovingRange.firstId s) + mr - 1)%Z
      with (Z.of_nat (MovingRange.firstId s + w - 1)) in Htotal by lia.
    replace (Z.to_nat (Z.of_nat (MovingRange.lastId s)
                       - Z.of_nat (MovingRange.firstId s + w - 1) + 1))
      with (S (MovingRange.count s) - w)%nat in Htotal by lia.
    rewrite Ew in Htotal.
    apply (rangeSum_spec _ w) in Htotal; [|lia|lia].
    rewrite Htotal. apply Qplus_0_l. }
  subst s'. unfold movingRangeLimits, rBarOf, MovingRange.setLimits.
  cbn [MovingRange.uCL MovingRange.lCL MovingRange.mRError].
  rewrite Hlen, <- Ew, Hsum. repeat split; reflexivity.
Qed.

(** X5. Moving-range build, window from 2 to 50: [CalcStats] returns, and a
    stage with at least as many rows as the window gets the limits of the
    moving-range method: the mean of the stage plus and minus the number of
    standard deviations times the mean of the ranges (largest less smallest
    value) of all the windows of consecutive rows of the stage, over the
    d2 constant of the window, which is at least 1. *)
Theorem CalcStats_limits_are_moving_range_limits :
  forall (view : DataView) (cat : DataViewCategorical) (columns : list DataViewValueColumn)
         (viewModel : MovingRange.ControlChartViewModel) (stages : list MovingRange.Stage),
    categorical view = Some cat -> values cat = Some columns ->
    MovingRange.GetStages (Some view) viewModel = Returns stages ->
    (2 <= MovingRange.movingRange viewModel <= 50)%Z ->
    exists stats d2,
      MovingRange.CalcStats viewModel stages = Returns stats
      /\ MovingRange.LookUpd2 (MovingRange.movingRange viewModel) = Some d2
      /\ 1 <= d2
      /\ Forall2 (fun s s' =>
                    (MovingRange.movingRange viewModel <= Z.of_nat (MovingRange.count s))%Z ->
                    movingRangeLimits (MovingRange.dataPoints viewModel)
                      (MovingRange.standardDeviations viewModel)
                      (Z.to_nat (MovingRange.movingRange viewModel)) d2 s s'
                    /\ MovingRange.mRError s' = false)
           stages (MovingRange.chartStages stats).
Proof.
  intros view cat columns viewModel stages Hcat Hval Hget Hmr.
  destruct (GetStages_CalcStats view cat columns viewModel stages Hcat Hval Hget Hmr)
    as [stats [Hstats [HF _]]].
  destruct (LookUpd2_in_table (MovingRange.movingRange viewModel)) as [d2 [Hd2 _]];
    [lia|].
  exists stats, d2. split; [exact Hstats|]. split; [exact Hd2|].
  split; [apply (LookUpd2_ge_1 (MovingRange.movingRange viewModel)); [lia | exact Hd2]|].
  destruct (GetStages_partition view cat columns viewModel stages Hcat Hval Hget)
    as [Hpart Hcount].
  pose proof (partition_wellFormed _ _ Hpart Hcount) as Hwf.
  pose proof (GetStages_fresh _ _ _ Hget) as Hfresh.
  clear Hstats Hpart Hcount Hget.
  induction HF as [|s s' l l' Hss' _ IH]; [constructor|].
  inversion Hwf as [|? ? Hs Hrest]; subst. inversion Hfresh as [|? ? Hf Hfrest]; subst.
  constructor; [|apply IH; assumption].
  intro Hc. destruct (limitsComputed_spec viewModel s s' Hs Hmr Hc Hss')
    as [d2' [Hd2' [_ [Hlim Herr]]]].
  rewrite Hd2 in Hd2'. inversion Hd2'. subst d2'.
  split; [exact Hlim|]. rewrite Herr. apply Hf.
Qed.

Lemma CalcStats_limits_are_moving_range_limits_witness :
  exists stats d2,
    MovingRange.CalcStats shortStageViewModel shortStageStages = Returns stats
    /\ MovingRange.LookUpd2 (MovingRange.movingRange shortStageViewModel) = Some d2
    /\ 1 <= d2.
Proof.
  destruct (CalcStats_limits_are_moving_range_limits shortStageView _ _ shortStageViewModel
              shortStageStages eq_refl eq_refl eq_refl)
    as [stats [d2 [H1 [H2 [H3 _]]]]].
  - simpl. lia.
  - exists stats, d2. split; [exact H1|]. split; [exact H2 | exact H3].
Defined.

Lemma sumOf_nonneg (l : list Q) : Forall (fun r => 0 <= r) l -> 0 <= sumOf l.
Proof.
  induction 1 as [|r l Hr _ IH]; simpl; [apply Qle_refl|].
  rewrite <- (Qplus_0_r 0). apply Qplus_le_compat; assumption.
Qed.

Lemma sumOf_zero (l : list Q) : Forall (fun r => r == 0) l -> sumOf l == 0.
Proof.
  induction 1 as [|r l Hr _ IH]; simpl; [reflexivity|].
  rewrite Hr, IH. reflexivity.
Qed.

Lemma movingRanges_nonneg (w : nat) (ys : list Q) :
  Forall (fun r => 0 <= r) (movingRanges w ys).
Proof.
  unfold movingRanges. apply Forall_forall. intros r Hr.
  apply in_map_iff in Hr. destruct Hr as [j [<- _]]. apply rangeOf_nonneg.
Qed.

Lemma rBarOf_nonneg (w : nat) (ys : list Q) :
  (w <= List.length ys)%nat -> 0 <= rBarOf w ys.
Proof.
  intro H. unfold rBarOf. apply Qle_shift_div_l.
  - change 0 with (inject_Z 0). rewrite <- Zlt_Qlt. lia.
  - rewrite Qmult_0_l. apply sumOf_nonneg. apply movingRanges_nonneg.
Qed.

Lemma rBarOf_constant (w : nat) (ys : list Q) (v : Q) :
  Forall (fun y => y == v) ys -> rBarOf w ys == 0.
Proof.
  intro H. unfold rBarOf.
  assert (Hz : sumOf (movingRanges w ys) == 0).
  { apply sumOf_zero. unfold movingRanges. apply Forall_forall. intros r Hr.
    apply in_map_iff in Hr. destruct Hr as [j [<- _]].
    destruct (rangeOf_bounds (slice (S j - w) j ys) v v) as [H0 H1].
    - intros y Hy. apply In_slice in Hy. destruct Hy as [k [_ Hk]].
      apply nth_error_In in Hk. rewrite Forall_forall in H. rewrite (H y Hk).
      split; apply Qle_refl.
    - apply Qle_refl.
    - apply Qle_antisym; [|exact H0]. unfold Qminus in H1.
      rewrite Qplus_opp_r in H1. exact H1. }
  rewrite Hz. unfold Qdiv. apply Qmult_0_l.
Qed.

Lemma spread_nonneg (numsds rBar d2 : Q) :
  0 <= numsds -> 0 <= rBar -> 1 <= d2 -> 0 <= numsds * rBar / d2.
Proof.
  intros H1 H2 H3. apply Qle_shift_div_l.
  - eapply Qlt_le_trans; [|exact H3]. reflexivity.
  - rewrite Qmult_0_l. apply Qmult_le_0_compat; assumption.
Qed.

(** X6. Moving-range build, window from 2 to 50: in every stage that is not
    marked [mRError] the limits lie at equal distances from the mean, and
    when the number of standard deviations is not negative the lower limit
    is at most the mean and the upper limit at least the mean. *)
Theorem CalcStats_limits_enclose_mean :
  forall (view : DataView) (cat : DataViewCategorical) (columns : list DataViewValueColumn)
         (viewModel : MovingRange.ControlChartViewModel) (stages : list MovingRange.Stage),
    categorical view = Some cat -> values cat = Some columns ->
    MovingRange.GetStages (Some view) viewModel = Returns stages ->
    (2 <= MovingRange.movingRange viewModel <= 50)%Z ->
    exists stats,
      MovingRange.CalcStats viewModel stages = Returns stats
      /\ Forall (fun s' =>
                   MovingRange.mRError s' = false ->
                   MovingRange.uCL s' - MovingRange.mean s'
                   == MovingRange.mean s' - MovingRange.lCL s'
                   /\ (0 <= MovingRange.standardDeviations viewModel ->
                       MovingRange.lCL s' <= MovingRange.mean s'
                       /\ MovingRange.mean s' <= MovingRange.uCL s'))
           (MovingRange.chartStages stats).
Proof.
  intros view cat columns viewModel stages Hcat Hval Hget Hmr.
  destruct (GetStages_CalcStats view cat columns viewModel stages Hcat Hval Hget Hmr)
    as [stats [Hstats [HF [_ Hmark]]]].
  exists stats. split; [exact Hstats|].
  destruct (GetStages_partition view cat columns viewModel stages Hcat Hval Hget)
    as [Hpart Hcount].
  pose proof (partition_wellFormed _ _ Hpart Hcount) as Hwf.
  rewrite Forall_forall in *. intros s' Hs' Herr.
  destruct (Forall2_In_right _ _ _ s' HF Hs') as [s [Hs Hss']].
  destruct (limitsComputed_frame viewModel s s' Hss') as [_ [_ [Hc [Hm _]]]].
  destruct (Hmark s' Hs') as [Emark _]. rewrite Herr in Emark.
  symmetry in Emark. apply Z.ltb_ge in Emark. rewrite Hc in Emark.
  destruct (limitsComputed_spec viewModel s s' (Hwf s Hs) Hmr Emark Hss')
    as [d2 [_ [Hd2 [[HU HL] _]]]].
  rewrite Hm, HU, HL. split; [ring|].
  intro Hn.
  assert (Hlen : List.length (stageValues (MovingRange.dataPoints viewModel) s)
                 = MovingRange.count s).
  { destruct (Hwf s Hs) as [H1 [H2 H3]].
    unfold stageValues. rewrite length_map, slice_length by assumption. lia. }
  assert (Hspread : 0 <= MovingRange.standardDeviations viewModel
                         * rBarOf (Z.to_nat (MovingRange.movingRange viewModel))
                             (stageValues (MovingRange.dataPoints viewModel) s) / d2).
  { apply spread_nonneg; [exact Hn | | exact Hd2].
    apply rBarOf_nonneg. rewrite Hlen. lia. }
  split.
  - rewrite <- (Qplus_0_r (MovingRange.mean s)) at 2. unfold Qminus.
    apply Qplus_le_r. rewrite <- (Qopp_involutive 0) . apply Qopp_le_compat.
    exact Hspread.
  - rewrite <- (Qplus_0_r (MovingRange.mean s)) at 1. apply Qplus_le_r. exact Hspread.
Qed.

Lemma CalcStats_limits_enclose_mean_witness :
  exists stats,
    MovingRange.CalcStats shortStageViewModel shortStageStages = Returns stats
    /\ Forall (fun s' =>
                 MovingRange.mRError s' = false ->
                 MovingRange.uCL s' - MovingRange.mean s'
                 == MovingRange.mean s' - MovingRange.lCL s'
                 /\ (0 <= MovingRange.standardDeviations shortStageViewModel ->
                     MovingRange.lCL s' <= MovingRange.mean s'
                     /\ MovingRange.mean s' <= MovingRange.uCL s'))
         (MovingRange.chartStages stats).
Proof.
  apply (CalcStats_limits_enclose_mean shortStageView _ _ shortStageViewModel
           shortStageStages eq_refl eq_refl eq_refl).
  simpl. lia.
Defined.

(** X7. Moving-range build, window from 2 to 50: a stage with at least as
    many rows as the window whose values are all equal gets both limits at
    its mean, that is at the [mean] field [GetStages] left in the stage. *)
Theorem CalcStats_constant_stage_limits_at_mean :
  forall (view : DataView) (cat : DataViewCategorical) (columns : list DataViewValueColumn)
         (viewModel : MovingRange.ControlChartViewModel) (stages : list MovingRange.Stage),
    categorical view = Some cat -> values cat = Some columns ->
    MovingRange.GetStages (Some view) viewModel = Returns stages ->
    (2 <= MovingRange.movingRange viewModel <= 50)%Z ->
    exists stats,
      MovingRange.CalcStats viewModel stages = Returns stats
      /\ Forall2 (fun s s' =>
                    (MovingRange.movingRange viewModel <= Z.of_nat (MovingRange.count s))%Z ->
                    forall v,
                      Forall (fun y => y == v)
                        (stageValues (MovingRange.dataPoints viewModel) s) ->
                      MovingRange.uCL s' == MovingRange.mean s'
                      /\ MovingRange.lCL s' == MovingRange.mean s')
           stages (MovingRange.chartStages stats).
Proof.
  intros view cat columns viewModel stages Hcat Hval Hget Hmr.
  destruct (GetStages_CalcStats view cat columns viewModel stages Hcat Hval Hget Hmr)
    as [stats [Hstats [HF _]]].
  exists stats. split; [exact Hstats|].
  destruct (GetStages_partition view cat columns viewModel stages Hcat Hval Hget)
    as [Hpart Hcount].
  pose proof (partition_wellFormed _ _ Hpart Hcount) as Hwf.
  clear Hstats Hpart Hcount Hget.
  induction HF as [|s s' l l' Hss' _ IH]; [constructor|].
  inversion Hwf as [|? ? Hs Hrest]; subst.
  constructor; [|apply IH; assumption].
  intros Hc v Hv.
  destruct (limitsComputed_frame viewModel s s' Hss') as [_ [_ [_ [Hm _]]]].
  destruct (limitsComputed_spec viewModel s s' Hs Hmr Hc Hss')
    as [d2 [_ [_ [[HU HL] _]]]].
  rewrite Hm, HU, HL, (rBarOf_constant _ _ v Hv).
  split.
  - unfold Qdiv. rewrite Qmult_0_r, Qmult_0_l. apply Qplus_0_r.
  - unfold Qdiv, Qminus. rewrite Qmult_0_r, Qmult_0_l. apply Qplus_0_r.
Qed.

Lemma CalcStats_constant_stage_limits_at_mean_witness :
  exists stats,
    MovingRange.CalcStats constantViewModel constantStages = Returns stats
    /\ Forall (fun s' => MovingRange.uCL s' == MovingRange.mean s'
                         /\ MovingRange.lCL s' == MovingRange.mean s')
         (MovingRange.chartStages stats).
Proof.
  destruct (CalcStats_constant_stage_limits_at_mean plainView _ _ constantViewModel
              constantStages eq_refl eq_refl eq_refl) as [stats [H1 H2]].
  - simpl. lia.
  - exists stats. split; [exact H1|].
    inversion H2 as [|s s' l l' Hs Hrest Es El]; subst.
    inversion Hrest; subst. constructor; [|constructor].
    destruct (Hs ltac:(simpl; lia) 5) as [HU HL].
    + repeat constructor.
    + split; [exact HU | exact HL].
Defined.

(** ** Segmentation in the subgroup build: sums, means, names and dividers *)

Lemma withMeanSD_fields (acc : SubgroupSD.Stage) :
  SubgroupSD.sum (SubgroupSD.withMean acc) = SubgroupSD.sum acc
  /\ SubgroupSD.startX (SubgroupSD.withMean acc) = SubgroupSD.startX acc
  /\ ((1 <= SubgroupSD.count acc)%nat ->
      SubgroupSD.mean (SubgroupSD.withMean acc)
      = SubgroupSD.sum acc / inject_Z (Z.of_nat (SubgroupSD.count acc))).
Proof.
  unfold SubgroupSD.withMean.
  destruct (0 <? SubgroupSD.count acc) eqn:E; repeat split.
  intro H. apply Nat.ltb_ge in E. exfalso. lia.
Qed.

Lemma labelEq_false (a b : string) : labelEq (Some a) (Some b) = false -> a <> b.
Proof.
  simpl. intros H E. subst. rewrite String.eqb_refl in H. discriminate.
Qed.

Lemma stageStepSD_facts (noStages : bool) (labels : list PrimitiveValue)
    (points : list SubgroupSD.ChartDataPoint) (i : nat) (obj : SubgroupSD.ChartDataPoint)
    (st st' : SubgroupSD.StageLoop) :
  stageLoopInvariantSD noStages labels i st ->
  runningFactsSD noStages labels points i st ->
  nth_error points i = Some obj ->
  SubgroupSD.stageStep noStages labels points i obj st = Returns st' ->
  if i =? List.length points - 1
  then stageFactsSD noStages labels points (SubgroupSD.stages st')
  else runningFactsSD noStages labels points (S i) st'.
Proof.
  intros [Hchain [Hcounts [Hsum Hfirst]]]
         [Rsum [Rstart [Rname [Rlab [Fsum [Flab [Fdiv Flast]]]]]]] Hobj H.
  unfold SubgroupSD.stageStep in H.
  apply bind_returns in H. destruct H as [label [Hlabel H]].
  apply bind_returns in H. destruct H as [st1 [H1 H]].
  apply bind_returns in H. destruct H as [current [Hcurrent H]].
  assert (Hcur : current = label) by congruence. subst current.
  assert (Hst1 :
            (SubgroupSD.firstId (SubgroupSD.running st1)
             + SubgroupSD.count (SubgroupSD.running st1) = S i)%nat
            /\ (1 <= SubgroupSD.count (SubgroupSD.running st1))%nat
            /\ Some (SubgroupSD.stage (SubgroupSD.running st1)) = label
            /\ runningFactsSD noStages labels points (S i)
                 {| SubgroupSD.running := SubgroupSD.running st1;
                    SubgroupSD.stageValue := label;
                    SubgroupSD.currentStage := label;
                    SubgroupSD.stages := SubgroupSD.stages st1 |}).
  { destruct (labelEq (SubgroupSD.currentStage st) label || noStages) eqn:Esame.
    - inversion H1. subst st1. clear H1.
      cbn [SubgroupSD.stages SubgroupSD.running SubgroupSD.firstId SubgroupSD.count
             SubgroupSD.lastId SubgroupSD.currentStage SubgroupSD.stageValue
             SubgroupSD.stage SubgroupSD.sum SubgroupSD.startX].
      assert (Hname : Some (SubgroupSD.stage (SubgroupSD.running st)) = label).
      { destruct noStages.
        - inversion Hlabel. rewrite Rlab. reflexivity.
        - rewrite orb_false_r in Esame. apply labelEq_eq in Esame. congruence. }
      split; [lia|]. split; [lia|]. split; [exact Hname|].
      unfold runningFactsSD.
      cbn [SubgroupSD.stages SubgroupSD.running SubgroupSD.firstId SubgroupSD.count
             SubgroupSD.lastId SubgroupSD.currentStage SubgroupSD.stageValue
             SubgroupSD.stage SubgroupSD.sum SubgroupSD.startX].
      split; [|split; [exact Rstart|]; split; [exact Hname|]; split;
                [|split; [exact Fsum|]; split; [exact Flab|]; split;
                   [exact Fdiv | exact Flast]]].
      + rewrite (firstn_skipn_snoc points _ _ obj) by (rewrite Hsum; exact Hobj).
        rewrite map_app. cbn [map]. rewrite sumOf_snoc, Rsum. reflexivity.
      + destruct noStages; [exact Rlab|].
        intros j Hj. destruct (Nat.eq_dec j i) as [-> | Hne].
        * rewrite Hname. exact Hlabel.
        * apply Rlab. lia.
    - apply orb_false_iff in Esame. destruct Esame as [Ene Ehas]. subst noStages.
      destruct (beforeIndex points i) as [previous|] eqn:Eprev; [|discriminate].
      apply bind_returns in H1. destruct H1 as [nextStart [Hnext H1]].
      apply bind_returns in H1. destruct H1 as [endDate [Hend H1]].
      apply bind_returns in H1. destruct H1 as [name [Hname H1]].
      destruct label as [l|]; [|discriminate]. inversion Hname. subst l. clear Hname.
      assert (Hc : (1 <= SubgroupSD.count (SubgroupSD.running st))%nat).
      { destruct (SubgroupSD.count (SubgroupSD.running st)) eqn:Ec; [|lia].
        exfalso. rewrite (Hfirst eq_refl eq_refl) in Hlabel.
        inversion Hlabel as [Hcur]. rewrite Hcur, labelEq_refl in Ene. discriminate. }
      destruct (withMeanSD_fields (SubgroupSD.running st)) as [Ws [Wx Wm]].
      pose proof (withMeanSD_stage (SubgroupSD.running st)) as Wn.
      destruct (withMeanSD_ids (SubgroupSD.running st)) as [Wf [Wl Wc]].
      specialize (Wm Hc).
      remember (SubgroupSD.withMean (SubgroupSD.running st)) as w eqn:Ew. clear Ew.
      inversion H1. subst st1. clear H1.
      cbn [SubgroupSD.stages SubgroupSD.running SubgroupSD.firstId SubgroupSD.count
             SubgroupSD.lastId SubgroupSD.currentStage SubgroupSD.stageValue
             SubgroupSD.stage SubgroupSD.sum SubgroupSD.startX].
      split; [lia|]. split; [lia|]. split; [reflexivity|].
      destruct i as [|p]; [discriminate|]. simpl in Eprev.
      assert (Hdiv : forall s',
                 SubgroupSD.stage s' = name ->
                 SubgroupSD.startX s' = SubgroupSD.xValue obj ->
                 dividedAtSD
                   (SubgroupSD.closeStage
                      {| SubgroupSD.lCL := SubgroupSD.lCL w;
                         SubgroupSD.uCL := SubgroupSD.uCL w;
                         SubgroupSD.mean := SubgroupSD.mean w;
                         SubgroupSD.startX := SubgroupSD.startX w;
                         SubgroupSD.endX := SubgroupSD.xValue previous;
                         SubgroupSD.sum := SubgroupSD.sum w;
                         SubgroupSD.count := SubgroupSD.count w;
                         SubgroupSD.sd := SubgroupSD.sd w;
                         SubgroupSD.stage := SubgroupSD.stage w;
                         SubgroupSD.stageDividerX := PNumber ((nextStart + endDate) / 2);
                         SubgroupSD.firstId := SubgroupSD.firstId w;
                         SubgroupSD.lastId := SubgroupSD.lastId w |}
                      (PNumber ((nextStart + endDate) / 2)) (S p - 1)) s').
      { intros s' Hs Hx. unfold dividedAtSD, SubgroupSD.closeStage.
        cbn [SubgroupSD.stage SubgroupSD.endX SubgroupSD.stageDividerX].
        rewrite Hs, Hx, Wn. split.
        - apply labelEq_false. rewrite Rname. exact Ene.
        - exists endDate, nextStart. split; [exact Hend|]. split; [exact Hnext|].
          reflexivity. }
      unfold runningFactsSD.
      cbn [SubgroupSD.stages SubgroupSD.running SubgroupSD.firstId SubgroupSD.count
             SubgroupSD.lastId SubgroupSD.currentStage SubgroupSD.stageValue
             SubgroupSD.stage SubgroupSD.sum SubgroupSD.startX].
      split; [|split; [|split; [reflexivity|]; split; [|split; [|split; [|split]]]]].
      + rewrite (firstn_skipn_snoc points (S p) 0 obj)
          by (rewrite Nat.add_0_r; exact Hobj).
        simpl. rewrite Qplus_0_r. reflexivity.
      + unfold positionAtSD. rewrite Hobj. reflexivity.
      + intros j Hj. replace j with (S p) by lia. exact Hlabel.
      + apply Forall_app. split; [exact Fsum|]. constructor; [|constructor].
        unfold summarisedSD, SubgroupSD.closeStage, stageValuesSD, slice, positionAtSD.
        cbn [SubgroupSD.sum SubgroupSD.mean SubgroupSD.count SubgroupSD.firstId
               SubgroupSD.lastId SubgroupSD.startX SubgroupSD.endX].
        rewrite Ws, Wm, Wc, Wf, Wx.
        replace (S (S p - 1) - SubgroupSD.firstId (SubgroupSD.running st))%nat
          with (SubgroupSD.count (SubgroupSD.running st)) by lia.
        split; [exact Rsum|]. split; [reflexivity|]. split; [exact Rstart|].
        replace (S p - 1)%nat with p by lia. rewrite Eprev. reflexivity.
      + apply Forall_app. split; [exact Flab|]. constructor; [|constructor].
        unfold labelledBySD, SubgroupSD.closeStage.
        cbn [SubgroupSD.stage SubgroupSD.firstId SubgroupSD.lastId].
        rewrite Wn, Wf. intros j Hj. apply Rlab. lia.
      + apply chained_snoc; [exact Fdiv|].
        intros front a E. unfold SubgroupSD.closeStage.
        apply (Flast front a _ E); cbn [SubgroupSD.stage SubgroupSD.startX];
          [exact Wn | exact Wx].
      + intros front q s' E Hs Hx. apply app_inj_tail in E. destruct E as [_ E].
        subst q. apply Hdiv; assumption. }
  destruct Hst1 as [Hsum1 [Hpos1 [Hname1 R1]]].
  destruct R1 as [Rsum1 [Rstart1 [_ [Rlab1 [Fsum1 [Flab1 [Fdiv1 Flast1]]]]]]].
  cbn [SubgroupSD.stages SubgroupSD.running SubgroupSD.currentStage
         SubgroupSD.stageValue] in *.
  destruct (i =? List.length points - 1) eqn:Elast.
  - destruct (withMeanSD_fields (SubgroupSD.running st1)) as [Ws [Wx Wm]].
    pose proof (withMeanSD_stage (SubgroupSD.running st1)) as Wn.
    destruct (withMeanSD_ids (SubgroupSD.running st1)) as [Wf [Wl Wc]].
    specialize (Wm Hpos1).
    remember (SubgroupSD.withMean (SubgroupSD.running st1)) as w eqn:Ew. clear Ew.
    apply bind_returns in H. destruct H as [name [Hname H]].
    destruct label as [l|]; [|discriminate]. inversion Hname. subst l. clear Hname.
    inversion Hname1 as [Hname2].
    inversion H. subst st'. clear H.
    cbn [SubgroupSD.stages]. unfold stageFactsSD.
    split; [|split; [|split]].
    + apply Forall_app. split; [exact Fsum1|]. constructor; [|constructor].
      unfold summarisedSD, SubgroupSD.closeStage, stageValuesSD, slice, positionAtSD.
      cbn [SubgroupSD.sum SubgroupSD.mean SubgroupSD.count SubgroupSD.firstId
             SubgroupSD.lastId SubgroupSD.startX SubgroupSD.endX].
      rewrite Ws, Wm, Wc, Wf, Wx.
      replace (S i - SubgroupSD.firstId (SubgroupSD.running st1))%nat
        with (SubgroupSD.count (SubgroupSD.running st1)) by lia.
      split; [exact Rsum1|]. split; [reflexivity|]. split; [exact Rstart1|].
      rewrite Hobj. reflexivity.
    + apply Forall_app. split; [exact Flab1|]. constructor; [|constructor].
      unfold labelledBySD, SubgroupSD.closeStage.
      cbn [SubgroupSD.stage SubgroupSD.firstId SubgroupSD.lastId].
      rewrite Wf. destruct noStages.
      * congruence.
      * intros j Hj. rewrite <- Hname2. apply Rlab1. lia.
    + apply chained_snoc; [exact Fdiv1|].
      intros front a E. apply (Flast1 front a _ E);
        unfold SubgroupSD.closeStage; cbn [SubgroupSD.stage SubgroupSD.startX];
        [symmetry; exact Hname2 | exact Wx].
    + intros front s E. apply app_inj_tail in E. destruct E as [_ E]. subst s.
      reflexivity.
  - inversion H. subst st'. clear H. unfold runningFactsSD.
    cbn [SubgroupSD.stages SubgroupSD.running SubgroupSD.currentStage
           SubgroupSD.stageValue].
    split; [exact Rsum1|]. split; [exact Rstart1|]. split; [exact Hname1|].
    split; [exact Rlab1|]. split; [exact Fsum1|]. split; [exact Flab1|].
    split; [exact Fdiv1 | exact Flast1].
Qed.

Lemma stageLoopSD_facts (noStages : bool) (labels : list PrimitiveValue)
    (points : list SubgroupSD.ChartDataPoint) :
  forall rest i st st',
    (i + List.length rest = List.length points)%nat -> rest <> [] ->
    (forall k obj, nth_error rest k = Some obj -> nth_error points (i + k) = Some obj) ->
    stageLoopInvariantSD noStages labels i st ->
    runningFactsSD noStages labels points i st ->
    SubgroupSD.stageLoop noStages labels points i rest st = Returns st' ->
    stageFactsSD noStages labels points (SubgroupSD.stages st').
Proof.
  induction rest as [|obj rest IH]; intros i st st' Hlen Hne Hnth Hinv Hfacts H;
    [congruence|].
  simpl in H. apply bind_returns in H. destruct H as [st1 [H1 H]].
  assert (Hobj : nth_error points i = Some obj).
  { rewrite <- (Nat.add_0_r i). apply Hnth. reflexivity. }
  pose proof (stageStepSD_invariant noStages labels points i obj st st1 Hinv H1) as Hstep.
  pose proof (stageStepSD_facts noStages labels points i obj st st1 Hinv Hfacts Hobj H1)
    as Hstep'.
  simpl in Hlen. destruct rest as [|obj' rest'].
  - simpl in H. inversion H. subst st'.
    assert (E : (i =? List.length points - 1) = true) by (apply Nat.eqb_eq; simpl in Hlen; lia).
    rewrite E in Hstep'. exact Hstep'.
  - assert (E : (i =? List.length points - 1) = false).
    { apply Nat.eqb_neq. simpl in Hlen. lia. }
    rewrite E in Hstep, Hstep'.
    apply (IH (S i) st1 st'); [simpl in *; lia | discriminate | | exact Hstep | exact Hstep'
                               | exact H].
    intros k o Hk. replace (S i + k)%nat with (i + S k)%nat by lia. apply Hnth. exact Hk.
Qed.

Lemma GetStagesSD_facts (view : DataView) (cat : DataViewCategorical)
    (columns : list DataViewValueColumn) (labels : list PrimitiveValue)
    (viewModel : SubgroupSD.ControlChartViewModel) (stages : list SubgroupSD.Stage) :
  categorical view = Some cat -> values cat = Some columns ->
  labelColumnSD columns = Some labels ->
  SubgroupSD.GetStages (Some view) viewModel = Returns stages ->
  stageFactsSD (List.length columns =? 1) labels (SubgroupSD.dataPoints viewModel) stages.
Proof.
  intros Hcat Hval Hcol H. unfold SubgroupSD.GetStages in H. rewrite Hcat, Hval in H.
  unfold labelColumnSD in Hcol.
  apply bind_returns in H. destruct H as [column [Hcolumn H]].
  assert (column = labels).
  { destruct (List.length columns =? 1); [congruence|].
    destruct (categories cat); [|discriminate].
    destruct (nth_error columns 1); simpl in Hcol; congruence. }
  subst column. clear Hcolumn Hcol.
  remember (List.length columns =? 1) as noStages eqn:Eno. clear Eno.
  apply bind_returns in H. destruct H as [label [Hlabel H]].
  destruct (SubgroupSD.dataPoints viewModel) as [|first rest] eqn:Epoints; [discriminate|].
  apply bind_returns in H. destruct H as [name [Hname H]].
  destruct label as [l|]; [|discriminate]. inversion Hname. subst l. clear Hname.
  apply bind_returns in H. destruct H as [st [Hloop H]]. inversion H. subst stages.
  eapply (stageLoopSD_facts _ _ (first :: rest) (first :: rest) 0%nat);
    [reflexivity | discriminate | intros k obj Hk; exact Hk | | | exact Hloop].
  - unfold stageLoopInvariantSD. simpl.
    split; [reflexivity|]. split; [constructor|]. split; [reflexivity|].
    intros _ Hno. rewrite Hno in Hlabel. exact Hlabel.
  - unfold runningFactsSD.
    cbn [SubgroupSD.stages SubgroupSD.running SubgroupSD.firstId SubgroupSD.count
           SubgroupSD.currentStage SubgroupSD.stageValue SubgroupSD.stage
           SubgroupSD.sum SubgroupSD.startX].
    split; [reflexivity|]. split; [reflexivity|]. split; [reflexivity|].
    split; [|split; [constructor|]; split; [constructor|]; split; [exact I|]].
    + destruct noStages; [inversion Hlabel; reflexivity | intros j Hj; lia].
    + intros front p s' E. destruct front; discriminate.
Qed.

Lemma summarisedSD_mean (data : list SubgroupSD.ChartDataPoint) (s : SubgroupSD.Stage) :
  stageWellFormedSD data s -> summarisedSD data s ->
  List.length (stageValuesSD data s) = SubgroupSD.count s
  /\ SubgroupSD.sum s == sumOf (stageValuesSD data s)
  /\ SubgroupSD.mean s == specMean (stageValuesSD data s).
Proof.
  intros [H1 [H2 H3]] [Hsum [Hmean _]].
  assert (Hlen : List.length (stageValuesSD data s) = SubgroupSD.count s).
  { unfold stageValuesSD. rewrite length_map, slice_length by assumption. lia. }
  split; [exact Hlen|]. split; [exact Hsum|].
  rewrite Hmean. unfold specMean. rewrite Hlen. fold (sumOf (stageValuesSD data s)).
  rewrite Hsum. reflexivity.
Qed.

Lemma contiguousFrom_chainedSD (stages : list SubgroupSD.Stage) :
  forall start next,
    contiguousFrom start (rangesOfSubgroupSD stages) next ->
    chained (fun s s' => SubgroupSD.firstId s' = S (SubgroupSD.lastId s)) stages.
Proof.
  induction stages as [|s rest IH]; intros start next H; simpl in *; [exact I|].
  destruct H as [_ [_ H]]. split; [|apply (IH _ _ H)].
  destruct rest as [|s' rest']; [exact I|]. simpl in H. destruct H as [H _]. exact H.
Qed.

(** X8. Subgroup build, for a series that is not empty, with positions that
    are numbers or dates and a string label for every row: [GetStages]
    returns, and every stage carries the sum of the values of its rows, as
    many rows as its count says, and their mean. *)
Theorem GetStagesSD_sums_and_means :
  forall (view : DataView) (cat : DataViewCategorical) (columns : list DataViewValueColumn)
         (labels : list PrimitiveValue) (viewModel : SubgroupSD.ControlChartViewModel),
    categorical view = Some cat -> values cat = Some columns ->
    categories cat <> None ->
    labelColumnSD columns = Some labels ->
    SubgroupSD.dataPoints viewModel <> [] ->
    Forall (fun p => isPosition (SubgroupSD.xValue p)) (SubgroupSD.dataPoints viewModel) ->
    Forall isLabel labels ->
    ((List.length columns =? 1) = false ->
     (List.length (SubgroupSD.dataPoints viewModel) <= List.length labels)%nat) ->
    exists stages,
      SubgroupSD.GetStages (Some view) viewModel = Returns stages
      /\ Forall (fun s =>
                   List.length (stageValuesSD (SubgroupSD.dataPoints viewModel) s)
                   = SubgroupSD.count s
                   /\ SubgroupSD.sum s
                      == sumOf (stageValuesSD (SubgroupSD.dataPoints viewModel) s)
                   /\ SubgroupSD.mean s
                      == specMean (stageValuesSD (SubgroupSD.dataPoints viewModel) s))
           stages.
Proof.
  intros view cat columns labels viewModel Hcat Hval Hcats Hcol Hne Hpos Hlab Hlong.
  destruct (GetStagesSD_returns view cat columns labels viewModel
              Hcat Hval Hcats Hcol Hne Hpos Hlab Hlong) as [stages Hstages].
  exists stages. split; [exact Hstages|].
  destruct (GetStagesSD_partition view cat columns viewModel stages Hcat Hval Hstages)
    as [Hpart Hcount].
  pose proof (partition_wellFormedSD _ _ Hpart Hcount) as Hwf.
  destruct (GetStagesSD_facts view cat columns labels viewModel stages
              Hcat Hval Hcol Hstages) as [Hsum _].
  rewrite Forall_forall in *. intros s Hs.
  apply summarisedSD_mean; [apply Hwf | apply Hsum]; exact Hs.
Qed.

Lemma GetStagesSD_sums_and_means_witness :
  exists stages,
    SubgroupSD.GetStages (Some recurringLabelView) recurringLabelViewModel = Returns stages
    /\ Forall (fun s =>
                 List.length (stageValuesSD (SubgroupSD.dataPoints recurringLabelViewModel) s)
                 = SubgroupSD.count s
                 /\ SubgroupSD.sum s
                    == sumOf (stageValuesSD (SubgroupSD.dataPoints recurringLabelViewModel) s)
                 /\ SubgroupSD.mean s
                    == specMean
                         (stageValuesSD (SubgroupSD.dataPoints recurringLabelViewModel) s))
         stages.
Proof.
  apply (GetStagesSD_sums_and_means recurringLabelView _ _
           (labelled ["A"; "B"; "A"]%string) recurringLabelViewModel eq_refl eq_refl).
  - discriminate.
  - reflexivity.
  - discriminate.
  - repeat constructor.
  - repeat constructor.
  - intros _. simpl. lia.
Defined.

(** X9. Subgroup build, with a label column: every row of a stage carries
    the label the stage is named by, a stage starts at the row after the
    last row of the stage before it, the names of two neighbouring stages
    differ, the divider between them is half way between the last position
    of the first and the first position of the second, and the divider of
    the last stage is its last position. *)
Theorem GetStagesSD_stages_are_label_runs :
  forall (view : DataView) (cat : DataViewCategorical) (columns : list DataViewValueColumn)
         (labels : list PrimitiveValue) (viewModel : SubgroupSD.ControlChartViewModel),
    categorical view = Some cat -> values cat = Some columns ->
    categories cat <> None ->
    labelColumnSD columns = Some labels ->
    SubgroupSD.dataPoints viewModel <> [] ->
    Forall (fun p => isPosition (SubgroupSD.xValue p)) (SubgroupSD.dataPoints viewModel) ->
    Forall isLabel labels ->
    (List.length columns =? 1) = false ->
    (List.length (SubgroupSD.dataPoints viewModel) <= List.length labels)%nat ->
    exists stages,
      SubgroupSD.GetStages (Some view) viewModel = Returns stages
      /\ Forall (fun s =>
                   forall j, (SubgroupSD.firstId s <= j <= SubgroupSD.lastId s)%nat ->
                             labelAt labels j = Returns (Some (SubgroupSD.stage s)))
           stages
      /\ chained (fun s s' =>
                    SubgroupSD.firstId s' = S (SubgroupSD.lastId s)
                    /\ SubgroupSD.stage s <> SubgroupSD.stage s'
                    /\ exists a b,
                         valueOf (SubgroupSD.endX s) = Returns a
                         /\ valueOf (SubgroupSD.startX s') = Returns b
                         /\ SubgroupSD.stageDividerX s = PNumber ((b + a) / 2))
           stages
      /\ (forall front s, stages = front ++ [s] ->
            SubgroupSD.stageDividerX s = SubgroupSD.endX s).
Proof.
  intros view cat columns labels viewModel Hcat Hval Hcats Hcol Hne Hpos Hlab Hno Hlong.
  destruct (GetStagesSD_returns view cat columns labels viewModel
              Hcat Hval Hcats Hcol Hne Hpos Hlab (fun _ => Hlong)) as [stages Hstages].
  exists stages. split; [exact Hstages|].
  destruct (GetStagesSD_partition view cat columns viewModel stages Hcat Hval Hstages)
    as [Hpart _].
  destruct (GetStagesSD_facts view cat columns labels viewModel stages
              Hcat Hval Hcol Hstages) as [_ [Hnames [Hdiv Hlast]]].
  rewrite Hno in Hnames. split; [exact Hnames|]. split; [|exact Hlast].
  apply chained_conj; [apply (contiguousFrom_chainedSD _ _ _ Hpart) | exact Hdiv].
Qed.

Lemma GetStagesSD_stages_are_label_runs_witness :
  exists stages,
    SubgroupSD.GetStages (Some recurringLabelView) recurringLabelViewModel = Returns stages
    /\ chained (fun s s' =>
                  SubgroupSD.firstId s' = S (SubgroupSD.lastId s)
                  /\ SubgroupSD.stage s <> SubgroupSD.stage s'
                  /\ exists a b,
                       valueOf (SubgroupSD.endX s) = Returns a
                       /\ valueOf (SubgroupSD.startX s') = Returns b
                       /\ SubgroupSD.stageDividerX s = PNumber ((b + a) / 2))
         stages.
Proof.
  destruct (GetStagesSD_stages_are_label_runs recurringLabelView _ _
              (labelled ["A"; "B"; "A"]%string) recurringLabelViewModel eq_refl eq_refl)
    as [stages [H1 [_ [H2 _]]]].
  - discriminate.
  - reflexivity.
  - discriminate.
  - repeat constructor.
  - repeat constructor.
  - reflexivity.
  - simpl. lia.
  - exists stages. split; [exact H1 | exact H2].
Defined.

(** ** The limits of the subgroup build *)

Lemma Qsquare_nonneg (x : Q) : 0 <= x * x.
Proof.
  destruct x as [n d]. unfold Qle, Qmult. simpl. rewrite Z.mul_1_r.
  apply Z.square_nonneg.
Qed.

Lemma squaresAbout_nonneg (c : Q) (ys : list Q) : 0 <= squaresAbout c ys.
Proof.
  induction ys as [|y ys IH]; simpl; [apply Qle_refl|].
  rewrite <- (Qplus_0_r 0). apply Qplus_le_compat; [apply Qsquare_nonneg | exact IH].
Qed.

Lemma squaresAbout_comp (c c' : Q) (ys : list Q) :
  c == c' -> squaresAbout c ys == squaresAbout c' ys.
Proof.
  intro E. induction ys as [|y ys IH]; simpl; [reflexivity|].
  rewrite IH, E. reflexivity.
Qed.

Lemma skipn_nth {A : Type} (l : list A) :
  forall n x, nth_error l n = Some x -> skipn n l = x :: skipn (S n) l.
Proof.
  induction l as [|a l IH]; intros [|n] x H; simpl in *; try discriminate.
  - inversion H. reflexivity.
  - apply IH. exact H.
Qed.

Lemma squaresLoop_sum (data : list SubgroupSD.ChartDataPoint) (center : Q) :
  forall n first total groups result,
    SubgroupSD.squaresLoop data center None (seq first n) total groups = Returns result ->
    fst result
    == total + squaresAbout center (map SubgroupSD.yValue (firstn n (skipn first data)))
    /\ snd result = groups.
Proof.
  induction n as [|n IH]; intros first total groups result H.
  - simpl in H. inversion H. simpl. rewrite Qplus_0_r. split; reflexivity.
  - cbn [seq SubgroupSD.squaresLoop] in H.
    destruct (nth_error data first) as [p|] eqn:Ep; [|discriminate].
    cbv zeta in H. apply IH in H. destruct H as [H1 H2]. split; [|exact H2].
    rewrite H1, (skipn_nth data first p Ep). cbn [firstn map squaresAbout fold_right].
    fold (squaresAbout center (map SubgroupSD.yValue (firstn n (skipn (S first) data)))).
    rewrite Qplus_assoc. reflexivity.
Qed.

(** The first pass of [CalcStats] with the subgroups not in use: every stage
    gets, in [sum], the sum of the squared deviations of its values from
    its mean. *)
Lemma deviationsLoop_squares (data : list SubgroupSD.ChartDataPoint) :
  forall rest groups result,
    SubgroupSD.deviationsLoop data false rest groups = Returns result ->
    Forall2 (fun s s' =>
               exists total,
                 s' = SubgroupSD.setSum s total
                 /\ total == squaresAbout (SubgroupSD.mean s) (stageValuesSD data s))
      rest (fst result).
Proof.
  induction rest as [|s rest IH]; intros groups result H;
    cbn [SubgroupSD.deviationsLoop] in H.
  - inversion H. constructor.
  - apply bind_returns in H. destruct H as [located [Hloc H]].
    inversion Hloc. subst located. clear Hloc. cbn [fst snd] in H.
    apply bind_returns in H. destruct H as [squares [Hsq H]].
    apply bind_returns in H. destruct H as [later [Hlater H]].
    inversion H. subst result. clear H. cbn [fst].
    apply IH in Hlater. constructor; [|exact Hlater].
    unfold indexRange in Hsq. apply squaresLoop_sum in Hsq. destruct Hsq as [Hsq _].
    exists (fst squares). split; [reflexivity|].
    rewrite Hsq, Qplus_0_l. reflexivity.
Qed.

Lemma limitsLoop_plain (Math_sqrt : Q -> Q) (numsds : Q)
    (groups : list SubgroupSD.SubGroup) :
  forall rest previous acc out,
    SubgroupSD.limitsLoop Math_sqrt numsds false groups previous rest acc = Returns out ->
    exists rest',
      SubgroupSD.chartStages out = SubgroupSD.chartStages acc ++ rest'
      /\ Forall2 (fun s s' =>
                    s' = SubgroupSD.setLimits s (SubgroupSD.mean s) numsds
                           (SubgroupSD.sdOf Math_sqrt (SubgroupSD.sum s)
                              (SubgroupSD.count s)))
           rest rest'.
Proof.
  induction rest as [|s rest IH]; intros previous acc out H;
    cbn [SubgroupSD.limitsLoop] in H.
  - inversion H. exists []. rewrite app_nil_r. split; [reflexivity | constructor].
  - apply bind_returns in H. destruct H as [triple [Ht H]].
    inversion Ht. subst triple. clear Ht. cbv zeta in H. cbn [fst snd] in H.
    apply IH in H. destruct H as [rest' [HC HF]].
    eexists (_ :: rest'). split.
    + rewrite HC. unfold SubgroupSD.pushLines. cbn [SubgroupSD.chartStages].
      rewrite <- app_assoc. reflexivity.
    + constructor; [reflexivity | exact HF].
Qed.

Lemma radicandOf_nonneg (total : Q) (n : nat) :
  0 <= total -> (2 <= n)%nat -> 0 <= radicandOf total n.
Proof.
  intros Ht Hn. unfold radicandOf.
  destruct (8 <? n); apply Qle_shift_div_l;
    try (change 0 with (inject_Z 0); rewrite <- Zlt_Qlt; lia);
    rewrite Qmult_0_l; exact Ht.
Qed.

Lemma sdOf_radicand (Math_sqrt : Q -> Q) (total : Q) (n : nat) :
  0 <= total -> (2 <= n)%nat ->
  SubgroupSD.sdOf Math_sqrt total n = Some (Math_sqrt (radicandOf total n)).
Proof.
  intros Ht Hn. pose proof (radicandOf_nonneg total n Ht Hn) as Hr.
  unfold SubgroupSD.sdOf, radicandOf in *.
  destruct (8 <? n) eqn:E8.
  - unfold SubgroupSD.sqrtOf.
    destruct (Qltb (total / inject_Z (Z.of_nat n)) 0) eqn:E; [|reflexivity].
    apply Qltb_lt in E. exfalso. apply (Qlt_not_le _ _ E Hr).
  - destruct (n =? 1) eqn:E1; [apply Nat.eqb_eq in E1; lia|].
    unfold SubgroupSD.sqrtOf.
    destruct (Qltb (total / inject_Z (Z.of_nat n - 1)) 0) eqn:E; [|reflexivity].
    apply Qltb_lt in E. exfalso. apply (Qlt_not_le _ _ E Hr).
Qed.

Lemma radicandOf_variance (ys : list Q) (total center : Q) :
  center == specMean ys -> total == squaresAbout center ys ->
  radicandOf total (List.length ys) == specVariance ys.
Proof.
  intros Hc Ht. unfold radicandOf, specVariance.
  assert (E : total == specSumSquares ys).
  { rewrite Ht. apply (squaresAbout_comp _ _ ys Hc). }
  destruct (8 <? List.length ys); rewrite E; reflexivity.
Qed.

(** X10. Subgroup build with the subgroups not in use, for a series that is
    not empty, with positions that are numbers or dates and a string label
    for every row: [GetStages] and [CalcStats] return; a stage keeps its
    mean and count; a stage of two rows or more gets as standard deviation
    the square root of a number equal to the variance the specification
    describes (the sum of the squared deviations from the mean of the stage
    over the count, or over the count less one up to eight rows), and as
    limits its mean plus and minus the number of standard deviations times
    that square root; a stage of one row gets no number for any of them. *)
Theorem CalcStatsSD_plain_limits :
  forall (Math_sqrt : Q -> Q) (numsds : Q) (view : DataView) (cat : DataViewCategorical)
         (columns : list DataViewValueColumn) (labels : list PrimitiveValue)
         (viewModel : SubgroupSD.ControlChartViewModel),
    categorical view = Some cat -> values cat = Some columns ->
    categories cat <> None ->
    labelColumnSD columns = Some labels ->
    SubgroupSD.dataPoints viewModel <> [] ->
    Forall (fun p => isPosition (SubgroupSD.xValue p)) (SubgroupSD.dataPoints viewModel) ->
    Forall isLabel labels ->
    ((List.length columns =? 1) = false ->
     (List.length (SubgroupSD.dataPoints viewModel) <= List.length labels)%nat) ->
    SubgroupSD.useSDSubGroups viewModel = false ->
    exists stages stats,
      SubgroupSD.GetStages (Some view) viewModel = Returns stages
      /\ SubgroupSD.CalcStats Math_sqrt viewModel numsds stages = Returns stats
      /\ Forall2 (fun s s' =>
                    SubgroupSD.mean s' = SubgroupSD.mean s
                    /\ SubgroupSD.count s' = SubgroupSD.count s
                    /\ (SubgroupSD.count s = 1%nat ->
                        SubgroupSD.sd s' = None /\ SubgroupSD.uCL s' = None
                        /\ SubgroupSD.lCL s' = None)
                    /\ ((2 <= SubgroupSD.count s)%nat ->
                        exists radicand,
                          radicand
                          == specVariance (stageValuesSD (SubgroupSD.dataPoints viewModel) s)
                          /\ SubgroupSD.sd s' = Some (Math_sqrt radicand)
                          /\ SubgroupSD.uCL s'
                             = Some (SubgroupSD.mean s + numsds * Math_sqrt radicand)
                          /\ SubgroupSD.lCL s'
                             = Some (SubgroupSD.mean s - numsds * Math_sqrt radicand)))
           stages (SubgroupSD.chartStages stats).
Proof.
  intros Math_sqrt numsds view cat columns labels viewModel
         Hcat Hval Hcats Hcol Hne Hpos Hlab Hlong Hoff.
  destruct (GetStagesSD_returns view cat columns labels viewModel
              Hcat Hval Hcats Hcol Hne Hpos Hlab Hlong) as [stages Hstages].
  destruct (GetStagesSD_partition view cat columns viewModel stages Hcat Hval Hstages)
    as [Hpart Hcount].
  pose proof (partition_wellFormedSD _ _ Hpart Hcount) as Hwf.
  destruct (GetStagesSD_facts view cat columns labels viewModel stages
              Hcat Hval Hcol Hstages) as [Hsums _].
  destruct (CalcStatsSD_returns Math_sqrt viewModel numsds stages Hwf) as [stats Hstats].
  { intro E. congruence. }
  exists stages, stats. split; [exact Hstages|]. split; [exact Hstats|].
  unfold SubgroupSD.CalcStats in Hstats. rewrite Hoff in Hstats.
  apply bind_returns in Hstats. destruct Hstats as [groups [Hg H]].
  apply bind_returns in H. destruct H as [first [Hfirst H]].
  apply deviationsLoop_squares in Hfirst.
  apply limitsLoop_plain in H. destruct H as [rest' [HC HL]].
  simpl in HC. subst rest'.
  assert (Hall : Forall (fun s => stageWellFormedSD (SubgroupSD.dataPoints viewModel) s
                                  /\ summarisedSD (SubgroupSD.dataPoints viewModel) s)
                   stages).
  { rewrite Forall_forall in *. intros s Hs. split; [apply Hwf | apply Hsums]; exact Hs. }
  clear Hwf Hsums Hpart Hcount Hstages.
  revert HL. generalize (SubgroupSD.chartStages stats).
  induction Hfirst as [|s s1 l l1 [total [Es1 Htotal]] _ IH]; intros final HL.
  - inversion HL. constructor.
  - inversion HL as [|? s' ? final' Es' Hrest]; subst.
    inversion Hall as [|? ? [Hs Hsum] Hall']; subst.
    constructor; [|apply IH; assumption].
    unfold SubgroupSD.setLimits, SubgroupSD.setSum.
    cbn [SubgroupSD.mean SubgroupSD.count SubgroupSD.sd SubgroupSD.uCL SubgroupSD.lCL
           SubgroupSD.sum].
    split; [reflexivity|]. split; [reflexivity|]. split.
    + intro E1. rewrite E1. repeat split.
    + intro H2.
      destruct (summarisedSD_mean _ _ Hs Hsum) as [Hlen [_ Hmean]].
      assert (Hpos' : 0 <= total).
      { rewrite Htotal. apply squaresAbout_nonneg. }
      rewrite (sdOf_radicand Math_sqrt total _ Hpos' H2).
      exists (radicandOf total (SubgroupSD.count s)).
      split; [|repeat split].
      rewrite <- Hlen. apply (radicandOf_variance _ _ _ Hmean Htotal).
Qed.

Lemma CalcStatsSD_plain_limits_witness :
  SubgroupSD.useSDSubGroups plainSubgroupViewModel = false
  /\ forall Math_sqrt : Q -> Q,
     exists stages stats,
       SubgroupSD.GetStages (Some recurringLabelView) plainSubgroupViewModel
       = Returns stages
       /\ SubgroupSD.CalcStats Math_sqrt plainSubgroupViewModel 3 stages = Returns stats
       /\ List.length (SubgroupSD.chartStages stats) = List.length stages.
Proof.
  split; [reflexivity|]. intro Math_sqrt.
  destruct (CalcStatsSD_plain_limits Math_sqrt 3 recurringLabelView _ _
              (labelled ["A"; "B"; "A"]%string) plainSubgroupViewModel eq_refl eq_refl)
    as [stages [stats [H1 [H2 H3]]]].
  - discriminate.
  - reflexivity.
  - discriminate.
  - repeat constructor.
  - repeat constructor.
  - intros _. simpl. lia.
  - reflexivity.
  - exists stages, stats. split; [exact H1|]. split; [exact H2|].
    symmetry. apply (Forall2_length H3).
Defined.

Lemma squaresLoop_frame (data : list SubgroupSD.ChartDataPoint) (center : Q)
    (index : option nat) :
  forall js total groups result,
    SubgroupSD.squaresLoop data center index js total groups = Returns result ->
    map groupFrame (snd result) = map groupFrame groups.
Proof.
  induction js as [|j js IH]; intros total groups result H; simpl in H.
  - inversion H. reflexivity.
  - destruct (nth_error data j) as [p|]; [|discriminate].
    apply IH in H. rewrite H. destruct index as [k|]; [|reflexivity].
    apply updateAt_map. intro g. reflexivity.
Qed.

Lemma frame_labels (gs gs' : list SubgroupSD.SubGroup) :
  map groupFrame gs = map groupFrame gs' ->
  map SubgroupSD.g_stage gs = map SubgroupSD.g_stage gs'.
Proof.
  intro H. apply (f_equal (map (fun f : string * nat * Q => fst (fst f)))) in H.
  rewrite !map_map in H. exact H.
Qed.

Lemma frame_nth (gs gs' : list SubgroupSD.SubGroup) (i : nat) (g : SubgroupSD.SubGroup) :
  map groupFrame gs = map groupFrame gs' ->
  nth_error gs i = Some g ->
  exists g', nth_error gs' i = Some g' /\ groupFrame g' = groupFrame g.
Proof.
  intros H Hn. apply (f_equal (fun l => nth_error l i)) in H.
  rewrite !nth_error_map, Hn in H. simpl in H.
  destruct (nth_error gs' i) as [g'|]; [|discriminate].
  exists g'. split; [reflexivity|]. simpl in H. congruence.
Qed.

(** The first pass with the subgroups in use: every stage takes the mean
    and the count of the subgroup of its name. *)
Lemma deviationsLoop_located (data : list SubgroupSD.ChartDataPoint) :
  forall rest groups result,
    SubgroupSD.deviationsLoop data true rest groups = Returns result ->
    map groupFrame (snd result) = map groupFrame groups
    /\ Forall2 (fun s s' =>
                  SubgroupSD.stage s' = SubgroupSD.stage s
                  /\ exists index g,
                       SubgroupSD.findIndexByKeyValue groups (SubgroupSD.stage s)
                       = Some index
                       /\ nth_error groups index = Some g
                       /\ SubgroupSD.mean s' = SubgroupSD.g_mean g
                       /\ SubgroupSD.count s' = SubgroupSD.g_count g)
         rest (fst result).
Proof.
  induction rest as [|s rest IH]; intros groups result H;
    cbn [SubgroupSD.deviationsLoop] in H.
  - inversion H. split; [reflexivity | constructor].
  - apply bind_returns in H. destruct H as [located [Hloc H]].
    apply bind_returns in H. destruct H as [squares [Hsq H]].
    apply bind_returns in H. destruct H as [later [Hlater H]].
    inversion H. subst result. clear H. cbn [fst snd].
    apply squaresLoop_frame in Hsq. apply IH in Hlater.
    destruct Hlater as [Hframe HF]. split; [congruence|].
    constructor.
    + destruct (SubgroupSD.findIndexByKeyValue groups (SubgroupSD.stage s)) as [index|] eqn:Ef;
        [|discriminate].
      destruct (nth_error groups index) as [g|] eqn:En; [|discriminate].
      inversion Hloc. subst located. cbn [fst SubgroupSD.setGroupStats SubgroupSD.stage
                                            SubgroupSD.mean SubgroupSD.count].
      split; [reflexivity|]. exists index, g. repeat split; assumption.
    + eapply Forall2_impl; [|exact HF]. intros a b [Hst [index [g [Hf [Hn [Hm Hc]]]]]].
      split; [exact Hst|].
      rewrite (findIndexByKeyValue_labels _ groups _ (frame_labels _ _ Hsq)) in Hf.
      destruct (frame_nth _ groups index g Hsq Hn) as [g' [Hn' Hfr]].
      exists index, g'. split; [exact Hf|]. split; [exact Hn'|].
      unfold groupFrame in Hfr. inversion Hfr. split; congruence.
Qed.

Lemma limitsLoop_pooled (Math_sqrt : Q -> Q) (numsds : Q)
    (groups : list SubgroupSD.SubGroup) :
  forall rest previous acc out,
    SubgroupSD.limitsLoop Math_sqrt numsds true groups previous rest acc = Returns out ->
    exists rest',
      SubgroupSD.chartStages out = SubgroupSD.chartStages acc ++ rest'
      /\ Forall2 (fun s s' =>
                    SubgroupSD.stage s' = SubgroupSD.stage s
                    /\ SubgroupSD.mean s' = SubgroupSD.mean s
                    /\ SubgroupSD.count s' = SubgroupSD.count s
                    /\ exists index g,
                         SubgroupSD.findIndexByKeyValue groups (SubgroupSD.stage s)
                         = Some index
                         /\ nth_error groups index = Some g
                         /\ SubgroupSD.sd s'
                            = SubgroupSD.sdOf Math_sqrt (SubgroupSD.g_sum g)
                                (SubgroupSD.g_count g)
                         /\ SubgroupSD.uCL s'
                            = option_map (fun d => SubgroupSD.g_mean g + numsds * d)
                                (SubgroupSD.sd s')
                         /\ SubgroupSD.lCL s'
                            = option_map (fun d => SubgroupSD.g_mean g - numsds * d)
                                (SubgroupSD.sd s'))
           rest rest'.
Proof.
  induction rest as [|s rest IH]; intros previous acc out H;
    cbn [SubgroupSD.limitsLoop] in H.
  - inversion H. exists []. rewrite app_nil_r. split; [reflexivity | constructor].
  - apply bind_returns in H. destruct H as [triple [Ht H]].
    destruct (SubgroupSD.findIndexByKeyValue groups (SubgroupSD.stage s)) as [index|] eqn:Ef;
      [|discriminate].
    destruct (nth_error groups index) as [g|] eqn:En; [|discriminate].
    inversion Ht. subst triple. clear Ht. cbv zeta in H. cbn [fst snd] in H.
    apply IH in H. destruct H as [rest' [HC HF]].
    eexists (_ :: rest'). split.
    + rewrite HC. unfold SubgroupSD.pushLines. cbn [SubgroupSD.chartStages].
      rewrite <- app_assoc. reflexivity.
    + constructor; [|exact HF]. unfold SubgroupSD.setLimits.
      cbn [SubgroupSD.stage SubgroupSD.mean SubgroupSD.count SubgroupSD.sd
             SubgroupSD.uCL SubgroupSD.lCL].
      split; [reflexivity|]. split; [reflexivity|]. split; [reflexivity|].
      exists index, g. repeat split; assumption.
Qed.

Lemma CalcStatsSD_pooled (Math_sqrt : Q -> Q) (viewModel : SubgroupSD.ControlChartViewModel)
    (numsds : Q) (stages : list SubgroupSD.Stage) (stats : SubgroupSD.Stats) :
  SubgroupSD.useSDSubGroups viewModel = true ->
  SubgroupSD.CalcStats Math_sqrt viewModel numsds stages = Returns stats ->
  exists groups, Forall (pooledFrom Math_sqrt numsds groups) (SubgroupSD.chartStages stats).
Proof.
  intros E H. unfold SubgroupSD.CalcStats in H. rewrite E in H.
  apply bind_returns in H. destruct H as [groups [_ H]].
  apply bind_returns in H. destruct H as [first [Hfirst H]].
  apply deviationsLoop_located in Hfirst. destruct Hfirst as [Hframe HF].
  apply limitsLoop_pooled in H. destruct H as [rest' [HC HL]].
  simpl in HC. subst rest'. exists (snd first).
  revert HL. generalize (SubgroupSD.chartStages stats).
  induction HF as [|s s1 l l1 [Hst [index [g [Hf [Hn [Hm Hc]]]]]] _ IH]; intros final HL.
  - inversion HL. constructor.
  - inversion HL as [|? s' ? final' [Hst' [Hm' [Hc' [index' [g' [Hf' [Hn' Hrest']]]]]]] Hrest];
      subst.
    constructor; [|apply IH; exact Hrest].
    rewrite <- (findIndexByKeyValue_labels _ _ _ (frame_labels _ _ Hframe)) in Hf.
    rewrite Hst in Hf'. rewrite Hf in Hf'. inversion Hf'. subst index'.
    destruct (frame_nth _ _ index g (eq_sym Hframe) Hn) as [g2 [Hn2 Hfr]].
    rewrite Hn2 in Hn'. inversion Hn'. subst g'.
    unfold groupFrame in Hfr. inversion Hfr as [[F1 F2 F3]].
    exists index, g2. rewrite Hst', Hst. split; [exact Hf|]. split; [exact Hn2|].
    split; [congruence|]. split; [congruence|]. exact Hrest'.
Qed.

(** X11. Subgroup build with the subgroups in use, for stages that lie in
    the data and whose names are not names every object inherits:
    [CalcStats] returns; in every stage the limits are the mean of the stage
    plus and minus the number of standard deviations times its standard
    deviation (no number when the deviation is none); and two stages with
    the same name leave with the same mean, count, standard deviation and
    limits. *)
Theorem CalcStatsSD_pooled_limits_shared :
  forall (Math_sqrt : Q -> Q) (viewModel : SubgroupSD.ControlChartViewModel) (numsds : Q)
         (stages : list SubgroupSD.Stage),
    Forall (stageWellFormedSD (SubgroupSD.dataPoints viewModel)) stages ->
    Forall (fun s => ~ In (SubgroupSD.stage s) SubgroupSD.inheritedKeys) stages ->
    SubgroupSD.useSDSubGroups viewModel = true ->
    exists stats,
      SubgroupSD.CalcStats Math_sqrt viewModel numsds stages = Returns stats
      /\ Forall (fun s' =>
                   SubgroupSD.uCL s'
                   = option_map (fun d => SubgroupSD.mean s' + numsds * d) (SubgroupSD.sd s')
                   /\ SubgroupSD.lCL s'
                      = option_map (fun d => SubgroupSD.mean s' - numsds * d)
                          (SubgroupSD.sd s'))
           (SubgroupSD.chartStages stats)
      /\ (forall s1 s2,
            In s1 (SubgroupSD.chartStages stats) -> In s2 (SubgroupSD.chartStages stats) ->
            SubgroupSD.stage s1 = SubgroupSD.stage s2 ->
            SubgroupSD.mean s1 = SubgroupSD.mean s2
            /\ SubgroupSD.count s1 = SubgroupSD.count s2
            /\ SubgroupSD.sd s1 = SubgroupSD.sd s2
            /\ SubgroupSD.uCL s1 = SubgroupSD.uCL s2
            /\ SubgroupSD.lCL s1 = SubgroupSD.lCL s2).
Proof.
  intros Math_sqrt viewModel numsds stages Hwf Hkeys Hon.
  destruct (CalcStatsSD_returns Math_sqrt viewModel numsds stages Hwf (fun _ => Hkeys))
    as [stats Hstats].
  exists stats. split; [exact Hstats|].
  destruct (CalcStatsSD_pooled Math_sqrt viewModel numsds stages stats Hon Hstats)
    as [groups Hpooled].
  rewrite Forall_forall in Hpooled. split.
  - apply Forall_forall. intros s' Hs'.
    destruct (Hpooled s' Hs') as [index [g [_ [_ [Hm [_ [_ [HU HL]]]]]]]].
    rewrite Hm. split; assumption.
  - intros s1 s2 H1 H2 E.
    destruct (Hpooled s1 H1) as [i1 [g1 [Hf1 [Hn1 [Hm1 [Hc1 [Hsd1 [HU1 HL1]]]]]]]].
    destruct (Hpooled s2 H2) as [i2 [g2 [Hf2 [Hn2 [Hm2 [Hc2 [Hsd2 [HU2 HL2]]]]]]]].
    rewrite E, Hf2 in Hf1. inversion Hf1. subst i2.
    rewrite Hn2 in Hn1. inversion Hn1. subst g2.
    assert (Esd : SubgroupSD.sd s1 = SubgroupSD.sd s2) by congruence.
    split; [congruence|]. split; [congruence|]. split; [exact Esd|].
    rewrite HU1, HU2, HL1, HL2, Esd. split; reflexivity.
Qed.

Lemma CalcStatsSD_pooled_limits_shared_witness :
  Forall (fun s => ~ In (SubgroupSD.stage s) SubgroupSD.inheritedKeys) recurringLabelStages
  /\ forall Math_sqrt : Q -> Q,
     exists stats,
       SubgroupSD.CalcStats Math_sqrt recurringLabelViewModel 3 recurringLabelStages
       = Returns stats
       /\ (forall s1 s2,
             In s1 (SubgroupSD.chartStages stats) -> In s2 (SubgroupSD.chartStages stats) ->
             SubgroupSD.stage s1 = SubgroupSD.stage s2 ->
             SubgroupSD.sd s1 = SubgroupSD.sd s2).
Proof.
  assert (Hkeys : Forall (fun s => ~ In (SubgroupSD.stage s) SubgroupSD.inheritedKeys)
                    recurringLabelStages).
  { repeat constructor; unfold SubgroupSD.inheritedKeys; simpl; intuition discriminate. }
  split; [exact Hkeys|]. intro Math_sqrt.
  destruct (CalcStatsSD_pooled_limits_shared Math_sqrt recurringLabelViewModel 3
              recurringLabelStages) as [stats [H1 [_ H2]]].
  - repeat constructor; simpl; lia.
  - exact Hkeys.
  - reflexivity.
  - exists stats. split; [exact H1|]. intros s1 s2 I1 I2 E.
    apply (H2 s1 s2 I1 I2 E).
Defined.

(** ** The subgroups *)

(** X12. [findIndexByKeyValue] returns the index of the first subgroup with
    the name looked for, and nothing when no subgroup has it. *)
Theorem findIndexByKeyValue_first_match :
  forall (groups : list SubgroupSD.SubGroup) (label : string),
    match SubgroupSD.findIndexByKeyValue groups label with
    | Some index =>
        (exists g, nth_error groups index = Some g /\ SubgroupSD.g_stage g = label)
        /\ forall k g, (k < index)%nat -> nth_error groups k = Some g ->
                       SubgroupSD.g_stage g <> label
    | None => forall g, In g groups -> SubgroupSD.g_stage g <> label
    end.
Proof.
  induction groups as [|h rest IH]; intro label; simpl.
  - intros g [].
  - destruct (String.eqb (SubgroupSD.g_stage h) label) eqn:E.
    + apply String.eqb_eq in E. split; [exists h; split; [reflexivity | exact E]|].
      intros k g Hk. lia.
    + apply String.eqb_neq in E. specialize (IH label).
      destruct (SubgroupSD.findIndexByKeyValue rest label) as [index|]; simpl.
      * destruct IH as [[g [Hn Hg]] Hbefore]. split; [exists g; split; assumption|].
        intros [|k] g' Hk Hn'; simpl in Hn'.
        -- inversion Hn'. subst g'. exact E.
        -- apply (Hbefore k g'); [lia | exact Hn'].
      * intros g [<- | Hg]; [exact E | apply IH; exact Hg].
Qed.

Lemma find_absent (groups : list SubgroupSD.SubGroup) (label : string) :
  ~ In label (map SubgroupSD.g_stage groups) ->
  SubgroupSD.findIndexByKeyValue groups label = None.
Proof.
  induction groups as [|h rest IH]; intro H; simpl in *; [reflexivity|].
  destruct (String.eqb (SubgroupSD.g_stage h) label) eqn:E.
  - apply String.eqb_eq in E. exfalso. apply H. left. exact E.
  - rewrite IH; [reflexivity|]. intro K. apply H. right. exact K.
Qed.

Lemma hasKey_seen (unique : list string) (key : string) :
  ~ In key SubgroupSD.inheritedKeys ->
  SubgroupSD.hasKey unique key = existsb (String.eqb key) unique.
Proof.
  intro H. unfold SubgroupSD.hasKey. rewrite existsb_app.
  replace (existsb (String.eqb key) SubgroupSD.inheritedKeys) with false; [reflexivity|].
  symmetry. apply not_true_is_false. intro E. apply existsb_exists in E.
  destruct E as [k [Hk E]]. apply String.eqb_eq in E. subst k. contradiction.
Qed.

Lemma uniqueLoop_labels :
  forall src unique distinct groups,
    Forall (fun s => ~ In (SubgroupSD.stage s) SubgroupSD.inheritedKeys) src ->
    SubgroupSD.uniqueLoop src unique distinct = Returns groups ->
    map SubgroupSD.g_stage groups
    = map SubgroupSD.g_stage distinct ++ distinctFrom unique (map SubgroupSD.stage src).
Proof.
  induction src as [|s src IH]; intros unique distinct groups Hkeys H; simpl in H.
  - inversion H. simpl. rewrite app_nil_r. reflexivity.
  - inversion Hkeys as [|? ? Hs Hrest]; subst.
    apply bind_returns in H. destruct H as [distinct' [Hd H]].
    apply (IH _ _ _ Hrest) in H. rewrite H. cbn [map distinctFrom].
    rewrite (hasKey_seen unique _ Hs) in Hd.
    destruct (existsb (String.eqb (SubgroupSD.stage s)) unique) eqn:E.
    + destruct (SubgroupSD.findIndexByKeyValue distinct (SubgroupSD.stage s));
        [|discriminate].
      inversion Hd. rewrite updateAt_labels; [|intro g; reflexivity]. reflexivity.
    + inversion Hd. rewrite map_app, <- app_assoc. reflexivity.
Qed.

Lemma existsb_eqb_In (x : string) (l : list string) :
  existsb (String.eqb x) l = true <-> In x l.
Proof.
  rewrite existsb_exists. split.
  - intros [k [Hk E]]. apply String.eqb_eq in E. subst k. exact Hk.
  - intro H. exists x. split; [exact H | apply String.eqb_refl].
Qed.

Lemma distinctFrom_In (l : list string) :
  forall seen x, In x (distinctFrom seen l) <-> In x l /\ ~ In x seen.
Proof.
  induction l as [|y l IH]; intros seen x; simpl.
  - tauto.
  - rewrite in_app_iff, IH. simpl.
    destruct (existsb (String.eqb y) seen) eqn:E.
    + apply existsb_eqb_In in E. simpl.
      destruct (string_dec y x) as [-> | Hne]; tauto.
    + assert (Hy : ~ In y seen).
      { intro K. apply existsb_eqb_In in K. congruence. }
      simpl. destruct (string_dec y x) as [-> | Hne]; tauto.
Qed.

Lemma distinctFrom_NoDup (l : list string) :
  forall seen, NoDup (distinctFrom seen l).
Proof.
  induction l as [|y l IH]; intro seen; simpl; [constructor|].
  destruct (existsb (String.eqb y) seen); simpl; [apply IH|].
  constructor; [|apply IH].
  rewrite distinctFrom_In. simpl. tauto.
Qed.

Lemma find_groupSum (groups : list SubgroupSD.SubGroup) (label : string) :
  forall index g,
    SubgroupSD.findIndexByKeyValue groups label = Some index ->
    nth_error groups index = Some g ->
    SubgroupSD.g_sum g = groupSum groups label.
Proof.
  induction groups as [|h rest IH]; intros index g Hf Hn; simpl in *; [discriminate|].
  destruct (String.eqb (SubgroupSD.g_stage h) label).
  - inversion Hf. subst index. simpl in Hn. inversion Hn. reflexivity.
  - destruct (SubgroupSD.findIndexByKeyValue rest label) as [k|]; [|discriminate].
    inversion Hf. subst index. simpl in Hn. apply (IH k g eq_refl Hn).
Qed.

Lemma find_in_range (groups : list SubgroupSD.SubGroup) (label : string) :
  forall index,
    SubgroupSD.findIndexByKeyValue groups label = Some index ->
    exists g, nth_error groups index = Some g.
Proof.
  induction groups as [|h rest IH]; intros index Hf; simpl in *; [discriminate|].
  destruct (String.eqb (SubgroupSD.g_stage h) label).
  - inversion Hf. exists h. reflexivity.
  - destruct (SubgroupSD.findIndexByKeyValue rest label) as [k|]; [|discriminate].
    inversion Hf. simpl. apply IH. reflexivity.
Qed.

Lemma groupSum_absent (groups : list SubgroupSD.SubGroup) (label : string) :
  ~ In label (map SubgroupSD.g_stage groups) -> groupSum groups label = 0.
Proof.
  induction groups as [|h rest IH]; intro H; simpl in *; [reflexivity|].
  destruct (String.eqb (SubgroupSD.g_stage h) label) eqn:E.
  - apply String.eqb_eq in E. exfalso. apply H. left. exact E.
  - apply IH. intro K. apply H. right. exact K.
Qed.

Lemma groupSum_updateAt (groups : list SubgroupSD.SubGroup) (label : string)
    (f : SubgroupSD.SubGroup -> SubgroupSD.SubGroup) :
  (forall g, SubgroupSD.g_stage (f g) = SubgroupSD.g_stage g) ->
  forall index g,
    SubgroupSD.findIndexByKeyValue groups label = Some index ->
    nth_error groups index = Some g ->
    forall l,
      groupSum (SubgroupSD.updateAt groups index f) l
      = if String.eqb label l then SubgroupSD.g_sum (f g) else groupSum groups l.
Proof.
  intro Hf. induction groups as [|h rest IH]; intros index g Hfind Hn l; simpl in *;
    [discriminate|].
  destruct (String.eqb (SubgroupSD.g_stage h) label) eqn:E.
  - inversion Hfind. subst index. simpl in Hn. inversion Hn. subst h. simpl.
    rewrite Hf. apply String.eqb_eq in E. rewrite E.
    destruct (String.eqb label l); reflexivity.
  - destruct (SubgroupSD.findIndexByKeyValue rest label) as [k|]; [|discriminate].
    inversion Hfind. subst index. simpl in Hn. simpl.
    rewrite (IH k g eq_refl Hn l).
    destruct (String.eqb (SubgroupSD.g_stage h) l) eqn:El; [|reflexivity].
    apply String.eqb_eq in El. subst l. rewrite String.eqb_sym, E. reflexivity.
Qed.

Lemma groupSum_app (groups : list SubgroupSD.SubGroup) (g : SubgroupSD.SubGroup)
    (l : string) :
  groupSum (groups ++ [g]) l
  = if existsb (String.eqb l) (map SubgroupSD.g_stage groups) then groupSum groups l
    else if String.eqb (SubgroupSD.g_stage g) l then SubgroupSD.g_sum g else 0.
Proof.
  induction groups as [|h rest IH]; simpl.
  - reflexivity.
  - rewrite (String.eqb_sym l). destruct (String.eqb (SubgroupSD.g_stage h) l); simpl;
      [reflexivity | exact IH].
Qed.

Lemma sumOfLabel_snoc (seen : list SubgroupSD.Stage) (s : SubgroupSD.Stage) (l : string) :
  sumOfLabel (seen ++ [s]) l
  == sumOfLabel seen l + if String.eqb (SubgroupSD.stage s) l then SubgroupSD.sum s else 0.
Proof.
  unfold sumOfLabel. rewrite filter_app, map_app, sumOf_app. simpl.
  destruct (String.eqb (SubgroupSD.stage s) l); simpl; [|reflexivity].
  rewrite Qplus_0_r. reflexivity.
Qed.

(** [GetUnique] gives the subgroup of a label the sum of the sums of the
    stages that carry the label. *)
Lemma uniqueLoop_sums :
  forall src seen unique distinct groups,
    (forall l, In l (map SubgroupSD.g_stage distinct) -> In l unique) ->
    (forall l, ~ In l unique -> sumOfLabel seen l == 0) ->
    (forall l, groupSum distinct l == sumOfLabel seen l) ->
    SubgroupSD.uniqueLoop src unique distinct = Returns groups ->
    forall l, groupSum groups l == sumOfLabel (seen ++ src) l.
Proof.
  induction src as [|s src IH]; intros seen unique distinct groups Ha Hb Hc H; simpl in H.
  - inversion H. subst groups. rewrite app_nil_r. exact Hc.
  - apply bind_returns in H. destruct H as [distinct' [Hd H]].
    replace (seen ++ s :: src) with ((seen ++ [s]) ++ src)
      by (rewrite <- app_assoc; reflexivity).
    apply (IH (seen ++ [s]) (SubgroupSD.stage s :: unique) distinct' groups); [| | |exact H].
    + intros l Hl. destruct (SubgroupSD.hasKey unique (SubgroupSD.stage s)).
      * destruct (SubgroupSD.findIndexByKeyValue distinct (SubgroupSD.stage s));
          [|discriminate].
        inversion Hd. subst distinct'.
        rewrite updateAt_labels in Hl; [|intro g; reflexivity].
        right. apply Ha. exact Hl.
      * inversion Hd. subst distinct'. rewrite map_app in Hl.
        apply in_app_or in Hl. destruct Hl as [Hl | [Hl | []]];
          [right; apply Ha; exact Hl | left; exact Hl].
    + intros l Hl. rewrite sumOfLabel_snoc.
      destruct (String.eqb (SubgroupSD.stage s) l) eqn:E.
      * apply String.eqb_eq in E. exfalso. apply Hl. left. exact E.
      * rewrite Hb; [reflexivity|]. intro K. apply Hl. right. exact K.
    + intro l. rewrite sumOfLabel_snoc.
      destruct (SubgroupSD.hasKey unique (SubgroupSD.stage s)) eqn:Ekey.
      * destruct (SubgroupSD.findIndexByKeyValue distinct (SubgroupSD.stage s))
          as [index|] eqn:Ef; [|discriminate].
        inversion Hd. subst distinct'.
        destruct (find_in_range _ _ _ Ef) as [g En].
        rewrite (groupSum_updateAt distinct (SubgroupSD.stage s)
                   (fun g0 => SubgroupSD.addToGroup g0 s)
                   (fun g0 => eq_refl) index g Ef En l).
        destruct (String.eqb (SubgroupSD.stage s) l) eqn:E.
        -- apply String.eqb_eq in E. subst l. simpl.
           rewrite (find_groupSum _ _ _ _ Ef En), Hc. reflexivity.
        -- rewrite Hc, Qplus_0_r. reflexivity.
      * inversion Hd. subst distinct'. rewrite groupSum_app.
        cbn [SubgroupSD.g_stage SubgroupSD.g_sum].
        assert (Hnew : ~ In (SubgroupSD.stage s) unique).
        { intro K. assert (T : SubgroupSD.hasKey unique (SubgroupSD.stage s) = true).
          { apply hasKey_In. apply in_or_app. right. exact K. }
          congruence. }
        destruct (existsb (String.eqb l) (map SubgroupSD.g_stage distinct)) eqn:Ein.
        -- rewrite Hc. apply existsb_eqb_In in Ein.
           destruct (String.eqb (SubgroupSD.stage s) l) eqn:E;
             [|rewrite Qplus_0_r; reflexivity].
           apply String.eqb_eq in E. subst l. exfalso. apply Hnew. apply Ha. exact Ein.
        -- destruct (String.eqb (SubgroupSD.stage s) l) eqn:E.
           ++ apply String.eqb_eq in E. subst l. rewrite (Hb _ Hnew), Qplus_0_l.
              reflexivity.
           ++ rewrite <- Hc, Qplus_0_r. rewrite groupSum_absent; [reflexivity|].
              intro K. apply existsb_eqb_In in K. congruence.
Qed.

Lemma Forall_updateAt {A : Type} (P : A -> Prop) (l : list A) (index : nat) (f : A -> A) :
  Forall P l -> (forall a, P a -> P (f a)) -> Forall P (SubgroupSD.updateAt l index f).
Proof.
  intros H Hf. revert index. induction H as [|a l Ha Hl IH]; intros [|index]; simpl;
    constructor; auto.
Qed.

(** [GetUnique] keeps in every subgroup the mean of what it has pooled. *)
Lemma uniqueLoop_means :
  forall src unique distinct groups,
    Forall (fun s => (1 <= SubgroupSD.count s)%nat
                     /\ SubgroupSD.mean s
                        == SubgroupSD.sum s / inject_Z (Z.of_nat (SubgroupSD.count s))) src ->
    Forall (fun g => SubgroupSD.g_mean g
                     == SubgroupSD.g_sum g / inject_Z (Z.of_nat (SubgroupSD.g_count g)))
      distinct ->
    SubgroupSD.uniqueLoop src unique distinct = Returns groups ->
    Forall (fun g => SubgroupSD.g_mean g
                     == SubgroupSD.g_sum g / inject_Z (Z.of_nat (SubgroupSD.g_count g)))
      groups.
Proof.
  induction src as [|s src IH]; intros unique distinct groups Hsrc Hd H; simpl in H.
  - inversion H. subst. exact Hd.
  - inversion Hsrc as [|? ? [Hc Hm] Hrest]; subst.
    apply bind_returns in H. destruct H as [distinct' [Hd' H]].
    apply (IH _ _ _ Hrest) in H; [exact H|].
    destruct (SubgroupSD.hasKey unique (SubgroupSD.stage s)).
    + destruct (SubgroupSD.findIndexByKeyValue distinct (SubgroupSD.stage s));
        [|discriminate].
      inversion Hd'. apply Forall_updateAt; [exact Hd|].
      intros g _. unfold SubgroupSD.addToGroup.
      cbn [SubgroupSD.g_mean SubgroupSD.g_sum SubgroupSD.g_count].
      destruct (0 <? SubgroupSD.g_count g + SubgroupSD.count s) eqn:E; [reflexivity|].
      apply Nat.ltb_ge in E. lia.
    + inversion Hd'. apply Forall_app. split; [exact Hd|].
      constructor; [exact Hm | constructor].
Qed.

Lemma group_of_label (groups : list SubgroupSD.SubGroup) (g : SubgroupSD.SubGroup) :
  NoDup (map SubgroupSD.g_stage groups) -> In g groups ->
  groupCount groups (SubgroupSD.g_stage g) = SubgroupSD.g_count g
  /\ groupSum groups (SubgroupSD.g_stage g) = SubgroupSD.g_sum g.
Proof.
  induction groups as [|h rest IH]; intros Hnd Hin; [destruct Hin|].
  simpl in Hnd. inversion Hnd as [|? ? Hh Hrest]; subst. simpl.
  destruct Hin as [-> | Hin].
  - rewrite String.eqb_refl. split; reflexivity.
  - destruct (String.eqb (SubgroupSD.g_stage h) (SubgroupSD.g_stage g)) eqn:E.
    + apply String.eqb_eq in E. exfalso. apply Hh. rewrite E.
      apply in_map. exact Hin.
    + apply IH; assumption.
Qed.

(** X13. [GetUnique], for stages whose names are not names every object
    inherits, returns one subgroup for every name, in the order in which
    the names first occur; the subgroup of a name carries the count and the
    sum of all the stages of that name, and their quotient as mean when
    every stage came with the mean of its own sum and count. *)
Theorem GetUnique_pools_stages_by_name :
  forall src : list SubgroupSD.Stage,
    Forall (fun s => ~ In (SubgroupSD.stage s) SubgroupSD.inheritedKeys) src ->
    exists groups,
      SubgroupSD.GetUnique src = Returns groups
      /\ map SubgroupSD.g_stage groups = distinctFrom [] (map SubgroupSD.stage src)
      /\ NoDup (map SubgroupSD.g_stage groups)
      /\ (forall l, In l (map SubgroupSD.g_stage groups) <-> In l (map SubgroupSD.stage src))
      /\ Forall (fun g =>
                   SubgroupSD.g_count g = countOfLabel src (SubgroupSD.g_stage g)
                   /\ SubgroupSD.g_sum g == sumOfLabel src (SubgroupSD.g_stage g))
           groups
      /\ (Forall (fun s => (1 <= SubgroupSD.count s)%nat
                           /\ SubgroupSD.mean s
                              == SubgroupSD.sum s
                                 / inject_Z (Z.of_nat (SubgroupSD.count s))) src ->
          Forall (fun g => SubgroupSD.g_mean g
                           == SubgroupSD.g_sum g
                              / inject_Z (Z.of_nat (SubgroupSD.g_count g))) groups).
Proof.
  intros src Hkeys. unfold SubgroupSD.GetUnique.
  destruct (uniqueLoop_returns src [] [] Hkeys) as [groups [Hg _]]; [intros l []|].
  exists groups. split; [exact Hg|].
  pose proof (uniqueLoop_labels src [] [] groups Hkeys Hg) as Hlabels. simpl in Hlabels.
  assert (Hnd : NoDup (map SubgroupSD.g_stage groups)).
  { rewrite Hlabels. apply distinctFrom_NoDup. }
  split; [exact Hlabels|]. split; [exact Hnd|]. split; [|split].
  - intro l. rewrite Hlabels, distinctFrom_In. simpl. tauto.
  - apply Forall_forall. intros g Hin.
    destruct (group_of_label groups g Hnd Hin) as [Hc Hs]. split.
    + rewrite <- Hc. apply (uniqueLoop_counts src [] [] [] groups); try exact Hg.
      * intros l [].
      * intros l _. reflexivity.
      * intro l. reflexivity.
    + rewrite <- Hs. apply (uniqueLoop_sums src [] [] [] groups); try exact Hg.
      * intros l [].
      * intros l _. reflexivity.
      * intro l. reflexivity.
  - intro Hsrc. apply (uniqueLoop_means src [] [] groups Hsrc); [constructor | exact Hg].
Qed.

Lemma GetUnique_pools_stages_by_name_witness :
  exists groups,
    SubgroupSD.GetUnique recurringLabelStages = Returns groups
    /\ map SubgroupSD.g_stage groups = ["A"; "B"]%string
    /\ Forall (fun g =>
                 SubgroupSD.g_count g = countOfLabel recurringLabelStages (SubgroupSD.g_stage g))
         groups.
Proof.
  destruct (GetUnique_pools_stages_by_name recurringLabelStages)
    as [groups [H1 [H2 [_ [_ [H3 _]]]]]].
  - repeat constructor; unfold SubgroupSD.inheritedKeys; simpl; intuition discriminate.
  - exists groups. split; [exact H1|]. split; [rewrite H2; reflexivity|].
    eapply Forall_impl; [|exact H3]. intros g [Hc _]. exact Hc.
Defined.

Lemma uniqueLoop_fails :
  forall src unique distinct,
    (forall l, In l unique -> In l (map SubgroupSD.g_stage distinct)) ->
    (forall l, In l (map SubgroupSD.g_stage distinct) ->
               ~ In l SubgroupSD.inheritedKeys) ->
    Exists (fun s => In (SubgroupSD.stage s) SubgroupSD.inheritedKeys) src ->
    SubgroupSD.uniqueLoop src unique distinct = TypeError.
Proof.
  induction src as [|s src IH]; intros unique distinct Ha Hb Hex; [inversion Hex|].
  simpl.
  destruct (in_dec string_dec (SubgroupSD.stage s) SubgroupSD.inheritedKeys) as [Hin | Hout].
  - assert (Hk : SubgroupSD.hasKey unique (SubgroupSD.stage s) = true).
    { apply hasKey_In. apply in_or_app. left. exact Hin. }
    rewrite Hk, find_absent; [reflexivity|].
    intro K. apply (Hb _ K). exact Hin.
  - inversion Hex as [? ? Hs | ? ? Hrest]; subst; [contradiction|].
    rewrite (hasKey_seen unique _ Hout).
    destruct (existsb (String.eqb (SubgroupSD.stage s)) unique) eqn:E.
    + apply existsb_eqb_In in E.
      destruct (findIndexByKeyValue_found distinct _ (Ha _ E)) as [index [g [Hf Hn]]].
      rewrite Hf, bind_Returns. apply IH; [| |exact Hrest].
      * intros l Hl. rewrite updateAt_labels; [|intro g0; reflexivity].
        destruct Hl as [<- | Hl]; apply Ha; assumption.
      * intros l Hl. rewrite updateAt_labels in Hl; [|intro g0; reflexivity].
        apply Hb. exact Hl.
    + rewrite bind_Returns. apply IH; [| |exact Hrest].
      * intros l Hl. rewrite map_app. apply in_or_app.
        destruct Hl as [<- | Hl]; [right; left; reflexivity | left; apply Ha; exact Hl].
      * intros l Hl. rewrite map_app in Hl. apply in_app_or in Hl.
        destruct Hl as [Hl | [<- | []]]; [apply Hb; exact Hl | exact Hout].
Qed.

(** X14. [GetUnique] ends in a type error exactly when a stage is named by
    a name every object inherits ([constructor], [toString], ...): its
    table of the names seen answers for such a name before any subgroup of
    that name exists.  Otherwise it returns. *)
Theorem GetUnique_fails_on_inherited_name :
  forall src : list SubgroupSD.Stage,
    (Exists (fun s => In (SubgroupSD.stage s) SubgroupSD.inheritedKeys) src ->
     SubgroupSD.GetUnique src = TypeError)
    /\ (SubgroupSD.GetUnique src = TypeError ->
        Exists (fun s => In (SubgroupSD.stage s) SubgroupSD.inheritedKeys) src)
    /\ (Forall (fun s => ~ In (SubgroupSD.stage s) SubgroupSD.inheritedKeys) src ->
        exists groups, SubgroupSD.GetUnique src = Returns groups).
Proof.
  intro src. split; [|split].
  - intro Hex. unfold SubgroupSD.GetUnique. apply uniqueLoop_fails; [| |exact Hex].
    + intros l [].
    + intros l [].
  - intro H.
    destruct (Exists_dec (fun s => In (SubgroupSD.stage s) SubgroupSD.inheritedKeys) src)
      as [Hex | Hnone]; [|exact Hex|].
    + intro s. apply in_dec. exact string_dec.
    + exfalso. apply Forall_Exists_neg in Hnone.
      destruct (uniqueLoop_returns src [] [] Hnone) as [groups [Hg _]]; [intros l []|].
      unfold SubgroupSD.GetUnique in H. congruence.
  - intro Hkeys.
    destruct (uniqueLoop_returns src [] [] Hkeys) as [groups [Hg _]]; [intros l []|].
    exists groups. exact Hg.
Qed.

Lemma GetUnique_fails_on_inherited_name_witness :
  Exists (fun s => In (SubgroupSD.stage s) SubgroupSD.inheritedKeys) inheritedNameStages
  /\ SubgroupSD.GetUnique inheritedNameStages = TypeError
  /\ forall Math_sqrt : Q -> Q,
       SubgroupSD.update Math_sqrt newSubgroupChart inheritedNameOptions = TypeError.
Proof.
  assert (Hex : Exists (fun s => In (SubgroupSD.stage s) SubgroupSD.inheritedKeys)
                  inheritedNameStages).
  { constructor. simpl. left. reflexivity. }
  split; [exact Hex|]. split.
  - apply (proj1 (GetUnique_fails_on_inherited_name inheritedNameStages) Hex).
  - intro Math_sqrt. reflexivity.
Defined.

(** ** The three rules together *)

Lemma filter_seq_snoc (side : nat -> bool) (a e : nat) :
  (a <= e)%nat ->
  filter side (seq a (S e - a)) =
    filter side (seq a (e - a)) ++ (if side e then [e] else []).
Proof.
  intro H. replace (S e - a)%nat with (S (e - a)) by lia.
  rewrite seq_S, filter_app. simpl.
  replace (a + (e - a))%nat with e by lia.
  destruct (side e); reflexivity.
Qed.

Lemma filter_seq_sub (side : nat -> bool) (a a' b' e : nat) :
  (a <= a')%nat -> (a' <= S b')%nat -> (S b' <= e)%nat ->
  (List.length (filter side (seq a' (S b' - a')))
   <= List.length (filter side (seq a (e - a))))%nat.
Proof.
  intros H1 H2 H3.
  replace (e - a)%nat with ((a' - a) + ((S b' - a') + (e - S b')))%nat by lia.
  rewrite seq_app, seq_app, !filter_app, !length_app.
  replace (a + (a' - a))%nat with a' by lia. lia.
Qed.

Lemma sideInvariant_start (side other : nat -> bool) (first : nat) (pts : list nat) :
  sideInvariant side other first first [] pts.
Proof.
  exists first. split; [lia|]. split; [lia|]. split.
  { rewrite Nat.sub_diag. reflexivity. }
  split; [intros; lia|]. split; [left; reflexivity|]. intros; lia.
Qed.

(** Every stretch that ended before [e] is drawn once the current run is. *)
Lemma sideInvariant_blocks (side other : nat -> bool) (first e : nat)
    (run pts pts' : list nat) :
  sideInvariant side other first e run pts ->
  incl pts pts' ->
  ((8 < List.length run)%nat -> incl run pts') ->
  forall x a' b',
    (first <= a')%nat -> (a' <= x)%nat -> (x <= b')%nat -> (b' < e)%nat ->
    side x = true ->
    (forall k, (a' <= k)%nat -> (k <= b')%nat -> other k = false) ->
    (8 < List.length (filter side (seq a' (S b' - a'))))%nat ->
    In x pts'.
Proof.
  intros [a [Hfa [Hae [Hrun [Hno [Hleft Hdrawn]]]]]] Hincl Hlong
         x a' b' H1 H2 H3 H4 Hside Hblock Hlen.
  destruct (Nat.le_gt_cases a b') as [Hab | Hab].
  - assert (Ha' : (a <= a')%nat).
    { destruct Hleft as [-> | [k [-> Hk]]]; [exact H1|].
      destruct (Nat.le_gt_cases (S k) a') as [Hle | Hgt]; [exact Hle|].
      rewrite (Hblock k) in Hk; [discriminate | lia | lia]. }
    pose proof (filter_seq_sub side a a' b' e Ha' ltac:(lia) ltac:(lia)) as Hsub.
    rewrite <- Hrun in Hsub. apply Hlong; [lia|].
    rewrite Hrun. apply filter_In. split; [|exact Hside].
    apply in_seq. lia.
  - apply Hincl. apply (Hdrawn x a' b'); assumption.
Qed.

Lemma sideInvariant_step (side other : nat -> bool) (first e : nat)
    (run pts pts' : list nat) :
  (forall k, side k = true -> other k = false) ->
  (first <= e)%nat ->
  sideInvariant side other first e run pts ->
  incl pts pts' ->
  (other e = true -> (8 < List.length run)%nat -> incl run pts') ->
  sideInvariant side other first (S e) (nextSide side other run e) pts'.
Proof.
  intros Hex Hfe Hinv Hincl Hlong.
  pose proof Hinv as [a [Hfa [Hae [Hrun [Hno [Hleft Hdrawn]]]]]].
  unfold nextSide. destruct (side e) eqn:Es; [|destruct (other e) eqn:Eo].
  - exists a. split; [lia|]. split; [lia|]. split; [|split; [|split]].
    + rewrite (filter_seq_snoc side a e Hae), Es, Hrun. reflexivity.
    + intros k Hk1 Hk2. destruct (Nat.eq_dec k e) as [-> | Hne].
      * apply Hex. exact Es.
      * apply Hno; lia.
    + exact Hleft.
    + intros x a' b' H1 H2 H3 H4 H5 H6 H7. apply Hincl.
      apply (Hdrawn x a' b'); assumption.
  - exists (S e). split; [lia|]. split; [lia|]. split; [|split; [|split]].
    + rewrite Nat.sub_diag. reflexivity.
    + intros; lia.
    + right. exists e. split; [reflexivity | exact Eo].
    + intros x a' b' H1 H2 H3 H4 H5 H6 H7.
      destruct (Nat.eq_dec b' e) as [-> | Hne].
      * rewrite (H6 e) in Eo; [discriminate | lia | lia].
      * apply (sideInvariant_blocks side other first e run pts pts' Hinv Hincl
                 (Hlong eq_refl) x a' b'); try assumption. lia.
  - exists a. split; [lia|]. split; [lia|]. split; [|split; [|split]].
    + rewrite (filter_seq_snoc side a e Hae), Es, app_nil_r. exact Hrun.
    + intros k Hk1 Hk2. destruct (Nat.eq_dec k e) as [-> | Hne].
      * exact Eo.
      * apply Hno; lia.
    + exact Hleft.
    + intros x a' b' H1 H2 H3 H4 H5 H6 H7. apply Hincl.
      apply (Hdrawn x a' b'); assumption.
Qed.

Lemma drawn_side_is_block (side other : nat -> bool) (first e last : nat)
    (run pts : list nat) (x : nat) :
  sideInvariant side other first e run pts ->
  (e <= S last)%nat ->
  In x (if 8 <? List.length run then run else []) ->
  sideBlock side other first last x.
Proof.
  intros [a [Hfa [Hae [Hrun [Hno _]]]]] He Hx.
  destruct (8 <? List.length run) eqn:E; [|destruct Hx].
  apply Nat.ltb_lt in E. rewrite Hrun in Hx. apply filter_In in Hx.
  destruct Hx as [Hx Hside]. apply in_seq in Hx.
  split; [exact Hside|]. exists a, (e - 1)%nat.
  split; [lia|]. split; [lia|]. split; [lia|]. split; [lia|]. split.
  - intros k Hk1 Hk2. apply Hno; lia.
  - replace (S (e - 1) - a)%nat with (e - a)%nat by lia. rewrite <- Hrun. exact E.
Qed.

Lemma closedSide_subset (trigger : nat -> bool) (run : list nat) (j x : nat) :
  In x (closedSide trigger run j) ->
  In x (if 8 <? List.length run then run else []).
Proof. unfold closedSide. destruct (trigger j); [auto | intros []]. Qed.

Section RuleUnion.

Variables Stage Point : Type.
Variables firstId lastId : Stage -> nat.
Variables uCL lCL mean : Stage -> Q.
Variable yValue : Point -> Q.
Variables runRule1 runRule2 runRule3 : bool.
Variable data : list Point.

Local Abbreviation rule3 := (Rules.rule3 Stage Point mean yValue runRule3 data).
Local Abbreviation rulesAtPoint :=
  (Rules.rulesAtPoint Stage Point uCL lCL mean yValue runRule1 runRule2 runRule3 data).
Local Abbreviation rulesOverPoints :=
  (Rules.rulesOverPoints Stage Point uCL lCL mean yValue runRule1 runRule2 runRule3 data).
Local Abbreviation rulesOverStage :=
  (Rules.rulesOverStage Stage Point firstId lastId uCL lCL mean yValue
     runRule1 runRule2 runRule3 data).
Local Abbreviation rulesOverStages :=
  (Rules.rulesOverStages Stage Point firstId lastId uCL lCL mean yValue
     runRule1 runRule2 runRule3 data).
Local Abbreviation ApplyRules :=
  (Rules.ApplyRules Stage Point firstId lastId uCL lCL mean yValue
     runRule1 runRule2 runRule3 data).
Local Abbreviation beyondLimits := (Rules.beyondLimits Stage Point uCL lCL yValue data).
Local Abbreviation rises := (Rules.rises Point yValue data).
Local Abbreviation falls := (Rules.falls Point yValue data).
Local Abbreviation above := (aboveMean Stage Point mean yValue data).
Local Abbreviation below := (belowMean Stage Point mean yValue data).
Local Abbreviation after3 := (afterRule3 Stage Point mean yValue data).
Local Abbreviation afterAll :=
  (afterRules Stage Point uCL lCL mean yValue runRule1 runRule2 runRule3 data).
Local Abbreviation holds :=
  (ruleHolds Stage Point firstId lastId uCL lCL mean yValue
     runRule1 runRule2 runRule3 data).
Local Abbreviation oneSide := (onOneSide Stage Point firstId lastId mean yValue data).
Local Abbreviation invariant :=
  (rulesInvariant Stage Point firstId lastId uCL lCL mean yValue
     runRule1 runRule2 runRule3 data).

Lemma above_not_below (s : Stage) (j : nat) : above s j = true -> below s j = false.
Proof.
  unfold aboveMean, belowMean. destruct (nth_error data j) as [p|]; [|reflexivity].
  intro H. apply Qltb_lt in H. apply Qltb_ge. apply Qlt_le_weak. exact H.
Qed.

Lemma below_not_above (s : Stage) (j : nat) : below s j = true -> above s j = false.
Proof.
  unfold aboveMean, belowMean. destruct (nth_error data j) as [p|]; [|reflexivity].
  intro H. apply Qltb_lt in H. apply Qltb_ge. apply Qlt_le_weak. exact H.
Qed.

Lemma rule3_inv (s : Stage) (j : nat) (st st' : Rules.RuleState) :
  runRule3 = true -> rule3 s j st = Returns st' -> st' = after3 s j st.
Proof.
  intros Hon H. unfold Rules.rule3 in H. rewrite Hon in H.
  apply bind_returns in H. destruct H as [y [Hy H]].
  apply yAt_inv in Hy. destruct Hy as [p [Hp ->]].
  injection H as H. rewrite <- H. clear H.
  unfold afterRule3, nextSide, closedSide, aboveMean, belowMean. rewrite Hp.
  destruct st as [U L Inc Dec M R].
  unfold Rules.drawIfLonger, Rules.DrawRulePoints, Rules.setU, Rules.setL. simpl.
  destruct (Qltb (mean s) (yValue p)) eqn:Ea.
  - assert (Eb : Qltb (yValue p) (mean s) = false).
    { apply Qltb_ge. apply Qlt_le_weak. apply Qltb_lt. exact Ea. }
    rewrite Eb. destruct (8 <? List.length L); simpl; rewrite ?app_nil_r; reflexivity.
  - destruct (Qltb (yValue p) (mean s)) eqn:Eb.
    + destruct (8 <? List.length U); simpl; rewrite ?app_nil_r; reflexivity.
    + simpl. rewrite app_nil_r. reflexivity.
Qed.

Lemma rulesAtPoint_inv (s : Stage) (j : nat) (st st' : Rules.RuleState) :
  rulesAtPoint s j st = Returns st' -> st' = afterAll s j st.
Proof.
  intro H. unfold Rules.rulesAtPoint in H.
  apply bind_returns in H. destruct H as [st1 [H1 H]].
  apply bind_returns in H. destruct H as [st2 [H2 H3]].
  apply rule1_inv in H1. unfold afterRules. rewrite <- H1.
  destruct runRule2 eqn:E2.
  - apply (rule2_inv Point yValue true data j st1 st2 eq_refl) in H2. rewrite <- H2.
    destruct runRule3 eqn:E3.
    + apply (rule3_inv s j st2 st' E3). rewrite E3. exact H3.
    + simpl in H3. congruence.
  - simpl in H2. assert (st2 = st1) by congruence. subst st2.
    destruct runRule3 eqn:E3.
    + apply (rule3_inv s j st1 st' E3). rewrite E3. exact H3.
    + simpl in H3. congruence.
Qed.

Lemma afterRules_fields (s : Stage) (j : nat) (st : Rules.RuleState) :
  Rules.consecutiveUPoints (afterAll s j st) =
    (if runRule3 then nextSide (above s) (below s) (Rules.consecutiveUPoints st) j
     else Rules.consecutiveUPoints st)
  /\ Rules.consecutiveLPoints (afterAll s j st) =
    (if runRule3 then nextSide (below s) (above s) (Rules.consecutiveLPoints st) j
     else Rules.consecutiveLPoints st)
  /\ Rules.consecIncPoints (afterAll s j st) =
    (if runRule2 then Rules.nextRun rises (Rules.consecIncPoints st) j
     else Rules.consecIncPoints st)
  /\ Rules.consecDecPoints (afterAll s j st) =
    (if runRule2 then Rules.nextRun falls (Rules.consecDecPoints st) j
     else Rules.consecDecPoints st)
  /\ Rules.meanPoints (afterAll s j st) =
    Rules.meanPoints st ++ (if runRule1 && beyondLimits s j then [j] else [])
  /\ Rules.rulePoints (afterAll s j st) =
    Rules.rulePoints st
    ++ (if runRule2
        then Rules.closedRun rises (Rules.consecIncPoints st) j
             ++ Rules.closedRun falls (Rules.consecDecPoints st) j
        else [])
    ++ (if runRule3
        then closedSide (above s) (Rules.consecutiveLPoints st) j
             ++ closedSide (below s) (Rules.consecutiveUPoints st) j
        else []).
Proof.
  destruct st as [U L Inc Dec M R].
  unfold afterRules, afterRule3, Rules.afterRule2, Rules.afterRule1.
  destruct runRule2, runRule3, (runRule1 && beyondLimits s j); simpl;
    rewrite ?app_nil_r, <- ?app_assoc; repeat split; reflexivity.
Qed.

Lemma rulesInvariant_step (s : Stage) (old : list nat) (m : nat) (st : Rules.RuleState) :
  (firstId s <= m)%nat -> (S m <= lastId s)%nat ->
  invariant s old m st -> invariant s old (S m) (afterAll s (S m) st).
Proof.
  intros Hfm Hml (H2on & H2off & H3on & H3off & HM & HR).
  destruct (afterRules_fields s (S m) st) as (EU & EL & EI & ED & EM & ER).
  unfold rulesInvariant. rewrite EU, EL, EI, ED, EM, ER.
  split; [|split; [|split; [|split; [|split]]]].
  - intro E2. rewrite E2. destruct (H2on E2) as [HI HD]. split.
    + apply (runInvariant_step rises (firstId s) m _ (Rules.rulePoints st)); [exact HI|].
      intros x Hx. apply in_app_or in Hx. apply in_or_app.
      destruct Hx as [Hx | Hx]; [left; exact Hx|].
      right. apply in_or_app. left. apply in_or_app. left. exact Hx.
    + apply (runInvariant_step falls (firstId s) m _ (Rules.rulePoints st)); [exact HD|].
      intros x Hx. apply in_app_or in Hx. apply in_or_app.
      destruct Hx as [Hx | Hx]; [left; exact Hx|].
      right. apply in_or_app. left. apply in_or_app. right. exact Hx.
  - intro E2. rewrite E2. exact (H2off E2).
  - intro E3. rewrite E3. destruct (H3on E3) as [HU HL]. split.
    + apply (sideInvariant_step (above s) (below s) (firstId s) (S m) _
               (Rules.rulePoints st)); [apply above_not_below | lia | exact HU | |].
      * intros x Hx. apply in_or_app. left. exact Hx.
      * intros Eo Hlen x Hx. apply in_or_app. right. apply in_or_app. right.
        apply in_or_app. right. unfold closedSide. rewrite Eo.
        apply Nat.ltb_lt in Hlen. rewrite Hlen. exact Hx.
    + apply (sideInvariant_step (below s) (above s) (firstId s) (S m) _
               (Rules.rulePoints st)); [apply below_not_above | lia | exact HL | |].
      * intros x Hx. apply in_or_app. left. exact Hx.
      * intros Eo Hlen x Hx. apply in_or_app. right. apply in_or_app. right.
        apply in_or_app. left. unfold closedSide. rewrite Eo.
        apply Nat.ltb_lt in Hlen. rewrite Hlen. exact Hx.
  - intro E3. rewrite E3. exact (H3off E3).
  - intros x Hx. apply in_app_or in Hx. destruct Hx as [Hx | Hx].
    + destruct (HM x Hx) as (A & B & C & D). repeat split; auto.
    + destruct (runRule1 && beyondLimits s (S m)) eqn:E; [|destruct Hx].
      destruct Hx as [<- | []]. apply andb_true_iff in E. destruct E as [E1 Eb].
      split; [exact E1|]. split; [lia|]. split; [lia | exact Eb].
  - intros x Hx. apply in_app_or in Hx. destruct Hx as [Hx | Hx]; [exact (HR x Hx)|].
    right. apply in_app_or in Hx. destruct Hx as [Hx | Hx].
    + destruct runRule2 eqn:E2; [|destruct Hx]. destruct (H2on eq_refl) as [HI HD].
      right. left. split; [reflexivity|].
      apply in_app_or in Hx. destruct Hx as [Hx | Hx].
      * left. apply (inBlock_later rises 5 (firstId s) m (lastId s) x); [lia|].
        apply (drawn_run_is_block rises _ _ _ _ x HI).
        apply (closedRun_subset rises _ (S m) x Hx).
      * right. apply (inBlock_later falls 5 (firstId s) m (lastId s) x); [lia|].
        apply (drawn_run_is_block falls _ _ _ _ x HD).
        apply (closedRun_subset falls _ (S m) x Hx).
    + destruct runRule3 eqn:E3; [|destruct Hx]. destruct (H3on eq_refl) as [HU HL].
      right. right. split; [reflexivity|].
      apply in_app_or in Hx. destruct Hx as [Hx | Hx].
      * right. apply (drawn_side_is_block (below s) (above s) (firstId s) (S m)
                        (lastId s) _ _ x HL); [lia|].
        apply (closedSide_subset (above s) _ (S m) x Hx).
      * left. apply (drawn_side_is_block (above s) (below s) (firstId s) (S m)
                       (lastId s) _ _ x HU); [lia|].
        apply (closedSide_subset (below s) _ (S m) x Hx).
Qed.

Lemma rulesOverPoints_union (s : Stage) (old : list nat) :
  forall n m st st',
    (firstId s <= m)%nat -> (m + n <= lastId s)%nat ->
    invariant s old m st ->
    rulesOverPoints s (seq (S m) n) st = Returns st' ->
    invariant s old (m + n) st'.
Proof.
  induction n as [|n IH]; intros m st st' Hfm Hml Hinv H; simpl in H.
  - inversion H. subst st'. rewrite Nat.add_0_r. exact Hinv.
  - apply bind_returns in H. destruct H as [st1 [H1 H]].
    apply rulesAtPoint_inv in H1. subst st1.
    replace (m + S n)%nat with (S m + n)%nat by lia.
    apply (IH (S m) (afterAll s (S m) st) st'); [lia | lia | | exact H].
    apply rulesInvariant_step; [exact Hfm | lia | exact Hinv].
Qed.

Lemma closedSide_nil (trigger : nat -> bool) (j : nat) : closedSide trigger [] j = [].
Proof. unfold closedSide. destruct (trigger j); reflexivity. Qed.

Lemma rulesInvariant_first (s : Stage) (st : Rules.RuleState) :
  Rules.stageStart st ->
  invariant s (Rules.rulePoints st) (firstId s) (afterAll s (firstId s) st).
Proof.
  intros (SU & SL & SI & SD & SM).
  destruct (afterRules_fields s (firstId s) st) as (EU & EL & EI & ED & EM & ER).
  rewrite SU in EU. rewrite SL in EL. rewrite SU, SL, SI, SD in ER.
  rewrite SI in EI. rewrite SD in ED. rewrite SM in EM.
  rewrite !closedRun_nil, !closedSide_nil in ER. simpl in ER, EM.
  assert (ER' : Rules.rulePoints (afterAll s (firstId s) st) = Rules.rulePoints st).
  { rewrite ER. destruct runRule2, runRule3; simpl; rewrite ?app_nil_r; reflexivity. }
  unfold rulesInvariant. rewrite EU, EL, EI, ED, EM, ER'.
  split; [|split; [|split; [|split; [|split]]]].
  - intro E2. rewrite E2. split; apply runInvariant_start.
  - intro E2. rewrite E2. split; reflexivity.
  - intro E3. rewrite E3. split.
    + apply (sideInvariant_step (above s) (below s) (firstId s) (firstId s) []
               (Rules.rulePoints st)).
      * apply above_not_below.
      * lia.
      * apply sideInvariant_start.
      * apply incl_refl.
      * simpl. intros _ Hlen. lia.
    + apply (sideInvariant_step (below s) (above s) (firstId s) (firstId s) []
               (Rules.rulePoints st)).
      * apply below_not_above.
      * lia.
      * apply sideInvariant_start.
      * apply incl_refl.
      * simpl. intros _ Hlen. lia.
  - intro E3. rewrite E3. split; reflexivity.
  - intros x Hx. destruct (runRule1 && beyondLimits s (firstId s)) eqn:E; [|destruct Hx].
    destruct Hx as [<- | []]. apply andb_true_iff in E. destruct E as [E1 Eb].
    split; [exact E1|]. split; [lia|]. split; [lia | exact Eb].
  - intros x Hx. left. exact Hx.
Qed.

(** One stage: with Rule 3 on every point of a stretch on one side of the mean
    is drawn, and every dot drawn is one at which a rule holds. *)
Lemma rulesOverStage_union (s : Stage) (st st' : Rules.RuleState) :
  Rules.stageStart st -> rulesOverStage s st = Returns st' ->
  (runRule3 = true -> forall x, oneSide s x -> In x (Rules.rulePoints st'))
  /\ (forall x, In x (Rules.rulePoints st') ->
        In x (Rules.rulePoints st) \/ holds s x).
Proof.
  intros Hstart H. unfold Rules.rulesOverStage in H.
  apply bind_returns in H. destruct H as [st1 [H1 H]]. inversion H. clear H. subst st'.
  rewrite endOfStage_rulePoints.
  destruct (le_gt_dec (firstId s) (lastId s)) as [Hle | Hgt].
  - unfold indexRange in H1.
    replace (S (lastId s) - firstId s)%nat with (S (lastId s - firstId s)) in H1 by lia.
    simpl in H1. apply bind_returns in H1. destruct H1 as [st0 [H0 H1]].
    apply rulesAtPoint_inv in H0. subst st0.
    pose proof (rulesOverPoints_union s (Rules.rulePoints st)
                  (lastId s - firstId s) (firstId s) _ st1 (le_n _) ltac:(lia)
                  (rulesInvariant_first s st Hstart) H1) as Hinv.
    replace (firstId s + (lastId s - firstId s))%nat with (lastId s) in Hinv by lia.
    destruct Hinv as (H2on & H2off & H3on & H3off & HM & HR).
    split.
    + intros E3 x Hx. destruct (H3on E3) as [HU HL].
      destruct Hx as [[Hside (a & b & A1 & A2 & A3 & A4 & A5 & A6)]
                     | [Hside (a & b & A1 & A2 & A3 & A4 & A5 & A6)]].
      * apply (sideInvariant_blocks (above s) (below s) (firstId s) (S (lastId s))
                 _ _ _ HU) with (a' := a) (b' := b); try assumption; try lia.
        -- intros y Hy. apply in_or_app. left. exact Hy.
        -- intros Hlen y Hy. apply Nat.ltb_lt in Hlen. rewrite Hlen.
           apply in_or_app. right. apply in_or_app. right. apply in_or_app. right.
           apply in_or_app. left. exact Hy.
      * apply (sideInvariant_blocks (below s) (above s) (firstId s) (S (lastId s))
                 _ _ _ HL) with (a' := a) (b' := b); try assumption; try lia.
        -- intros y Hy. apply in_or_app. left. exact Hy.
        -- intros Hlen y Hy. apply Nat.ltb_lt in Hlen. rewrite Hlen.
           apply in_or_app. right. apply in_or_app. right. apply in_or_app. left.
           exact Hy.
    + intros x Hx. apply in_app_or in Hx. destruct Hx as [Hx | Hx]; [exact (HR x Hx)|].
      right. apply in_app_or in Hx. destruct Hx as [Hx | Hx].
      { left. exact (HM x Hx). }
      apply in_app_or in Hx. destruct Hx as [Hx | Hx].
      { destruct runRule3 eqn:E3.
        - right. right. split; [reflexivity|]. right.
          apply (drawn_side_is_block (below s) (above s) (firstId s) (S (lastId s))
                   (lastId s) _ _ x (proj2 (H3on eq_refl)) (le_n _) Hx).
        - rewrite (proj2 (H3off eq_refl)) in Hx. destruct Hx. }
      apply in_app_or in Hx. destruct Hx as [Hx | Hx].
      { destruct runRule3 eqn:E3.
        - right. right. split; [reflexivity|]. left.
          apply (drawn_side_is_block (above s) (below s) (firstId s) (S (lastId s))
                   (lastId s) _ _ x (proj1 (H3on eq_refl)) (le_n _) Hx).
        - rewrite (proj1 (H3off eq_refl)) in Hx. destruct Hx. }
      apply in_app_or in Hx. destruct Hx as [Hx | Hx].
      { destruct runRule2 eqn:E2.
        - right. left. split; [reflexivity|]. left.
          apply (drawn_run_is_block rises _ _ _ _ x (proj1 (H2on eq_refl)) Hx).
        - rewrite (proj1 (H2off eq_refl)) in Hx. destruct Hx. }
      { destruct runRule2 eqn:E2.
        - right. left. split; [reflexivity|]. right.
          apply (drawn_run_is_block falls _ _ _ _ x (proj2 (H2on eq_refl)) Hx).
        - rewrite (proj2 (H2off eq_refl)) in Hx. destruct Hx. }
  - unfold indexRange in H1.
    replace (S (lastId s) - firstId s)%nat with 0%nat in H1 by lia.
    simpl in H1. inversion H1. subst st1.
    destruct Hstart as (SU & SL & SI & SD & SM).
    rewrite SU, SL, SI, SD, SM. simpl. rewrite app_nil_r.
    split.
    + intros _ x [[_ (a & b & Hx)] | [_ (a & b & Hx)]]; lia.
    + intros x Hx. left. exact Hx.
Qed.

Lemma rulesOverStages_union (stages : list Stage) (st st' : Rules.RuleState) :
  Rules.stageStart st -> rulesOverStages stages st = Returns st' ->
  (runRule3 = true -> forall s x, In s stages -> oneSide s x ->
     In x (Rules.rulePoints st'))
  /\ (forall x, In x (Rules.rulePoints st') ->
        In x (Rules.rulePoints st) \/ exists s, In s stages /\ holds s x).
Proof.
  revert st. induction stages as [|s0 rest IH]; intros st Hstart H; simpl in H.
  - inversion H. subst st'. split; [intros _ s x []|]. intros x Hx. left. exact Hx.
  - apply bind_returns in H. destruct H as [st1 [Hs0 H]].
    pose proof (rulesOverStage_start _ _ _ _ _ _ _ _ _ _ _ _ s0 st st1 Hs0) as Hstart1.
    destruct (rulesOverStage_union s0 st st1 Hstart Hs0) as [Hc0 Hs0'].
    destruct (IH st1 Hstart1 H) as [Hc Hs].
    destruct (rulesOverStages_grow _ _ _ _ _ _ _ _ _ _ _ _ rest st1 st' H) as [e Re].
    split.
    + intros E3 s x [-> | Hin] Hx.
      * rewrite Re. apply in_or_app. left. apply (Hc0 E3). exact Hx.
      * apply (Hc E3 s x Hin Hx).
    + intros x Hx. destruct (Hs x Hx) as [Hx1 | [s [Hin Ht]]].
      * destruct (Hs0' x Hx1) as [Ho | Ht]; [left; exact Ho|].
        right. exists s0. split; [left; reflexivity | exact Ht].
      * right. exists s. split; [right; exact Hin | exact Ht].
Qed.

End RuleUnion.
Lemma ruleHolds_in_range (Stage Point : Type) (firstId lastId : Stage -> nat)
    (uCL lCL mean : Stage -> Q) (yValue : Point -> Q) (runRule1 runRule2 runRule3 : bool)
    (data : list Point) (s : Stage) (j : nat) :
  ruleHolds Stage Point firstId lastId uCL lCL mean yValue runRule1 runRule2 runRule3
    data s j ->
  (firstId s <= j)%nat /\ (j <= lastId s)%nat.
Proof.
  intros [(_ & A & B & _) | [[_ [H | H]] | [_ [H | H]]]].
  - split; assumption.
  - destruct H as (a & b & H). lia.
  - destruct H as (a & b & H). lia.
  - destruct H as [_ (a & b & H)]. lia.
  - destruct H as [_ (a & b & H)]. lia.
Qed.

(** The dots of [ApplyRules] are the points at which a rule that is on holds. *)
Lemma ApplyRules_spec :
  forall (Stage Point : Type) (firstId lastId : Stage -> nat) (uCL lCL mean : Stage -> Q)
         (yValue : Point -> Q) (runRule1 runRule2 runRule3 : bool) (data : list Point)
         (stages : list Stage),
    Forall (Rules.stageInData Stage Point firstId lastId data) stages ->
    exists flagged,
      Rules.ApplyRules Stage Point firstId lastId uCL lCL mean yValue
        runRule1 runRule2 runRule3 data stages = Returns flagged
      /\ (forall j, In j flagged <->
            exists s, In s stages
                      /\ ruleHolds Stage Point firstId lastId uCL lCL mean yValue
                           runRule1 runRule2 runRule3 data s j)
      /\ (forall j, In j flagged ->
            (j < List.length data)%nat
            /\ exists s, In s stages /\ (firstId s <= j)%nat /\ (j <= lastId s)%nat)
      /\ (runRule1 = false -> runRule2 = false -> runRule3 = false -> flagged = []).
Proof.
  intros Stage Point firstId lastId uCL lCL mean yValue runRule1 runRule2 runRule3
         data stages Hin.
  destruct (ApplyRules_in_data Stage Point firstId lastId uCL lCL mean yValue
              runRule1 runRule2 runRule3 data stages Hin) as [flagged Hf].
  exists flagged. split; [exact Hf|].
  pose proof Hf as Hf'. unfold Rules.ApplyRules in Hf'. apply bind_returns in Hf'.
  destruct Hf' as [st [Hst Hf']]. inversion Hf'. subst flagged. clear Hf'.
  assert (Hstart : Rules.stageStart (Rules.initialRuleState)) by (repeat split).
  destruct (rulesOverStages_union Stage Point firstId lastId uCL lCL mean yValue
              runRule1 runRule2 runRule3 data stages _ st Hstart Hst) as [Hc3 Hsound].
  assert (Hiff : forall j, In j (Rules.rulePoints st) <->
            exists s, In s stages
                      /\ ruleHolds Stage Point firstId lastId uCL lCL mean yValue
                           runRule1 runRule2 runRule3 data s j).
  { intro j. split.
    - intro Hj. destruct (Hsound j Hj) as [[] | H]. exact H.
    - intros [s [Hs [(E1 & A & B & C) | [[E2 Ht] | [E3 Ho]]]]].
      + apply (ApplyRules_rule1_flags Stage Point firstId lastId uCL lCL mean yValue
                 runRule1 runRule2 runRule3 data stages _ E1 Hf s j Hs A B C).
      + rewrite E2 in Hst.
        destruct (rulesOverStages_rule2 Stage Point firstId lastId uCL lCL mean yValue
                    runRule1 true runRule3 data stages _ st eq_refl Hstart Hst)
          as [Hc _].
        exact (Hc s j Hs Ht).
      + exact (Hc3 E3 s j Hs Ho). }
  split; [exact Hiff|]. split.
  - intros j Hj. apply Hiff in Hj. destruct Hj as [s [Hs Hh]].
    apply ruleHolds_in_range in Hh. destruct Hh as [A B].
    split.
    + rewrite Forall_forall in Hin. pose proof (Hin s Hs) as Hd.
      unfold Rules.stageInData in Hd. lia.
    + exists s. repeat split; assumption.
  - intros E1 E2 E3.
    destruct (Rules.rulePoints st) as [|j rest] eqn:E; [reflexivity|].
    assert (Hj : In j (j :: rest)) by (left; reflexivity).
    apply Hiff in Hj.
    destruct Hj as [s [_ [(A & _) | [[A _] | [A _]]]]]; congruence.
Qed.

(** X15. For stages whose index ranges lie inside the data, [ApplyRules]
    returns, and the dots it recolours are exactly the points at which a rule
    that is switched on holds in some stage: Rule 1 at a point of the stage
    strictly beyond one of its limits; Rule 2 at a point in six or more
    consecutive points of the stage each strictly above (or each strictly
    below) the one before; Rule 3 at a point strictly above (or below) the
    stage mean that lies in a stretch of the stage holding more than eight
    points on that side and none on the other, points on the mean neither
    counting nor interrupting.  Every dot is an index of the data inside the
    range of some stage, and with the three rules off there is none. *)
Theorem ApplyRules_flags_where_a_rule_holds :
  forall (Stage Point : Type) (firstId lastId : Stage -> nat) (uCL lCL mean : Stage -> Q)
         (yValue : Point -> Q) (runRule1 runRule2 runRule3 : bool) (data : list Point)
         (stages : list Stage),
    Forall (Rules.stageInData Stage Point firstId lastId data) stages ->
    exists flagged,
      Rules.ApplyRules Stage Point firstId lastId uCL lCL mean yValue
        runRule1 runRule2 runRule3 data stages = Returns flagged
      /\ (forall j, In j flagged <->
            exists s, In s stages
                      /\ ruleHolds Stage Point firstId lastId uCL lCL mean yValue
                           runRule1 runRule2 runRule3 data s j)
      /\ (forall j, In j flagged ->
            (j < List.length data)%nat
            /\ exists s, In s stages /\ (firstId s <= j)%nat /\ (j <= lastId s)%nat)
      /\ (runRule1 = false -> runRule2 = false -> runRule3 = false -> flagged = []).
Proof.
  intros Stage Point firstId lastId uCL lCL mean yValue runRule1 runRule2 runRule3
         data stages Hin.
  exact (ApplyRules_spec Stage Point firstId lastId uCL lCL mean yValue
           runRule1 runRule2 runRule3 data stages Hin).
Qed.

(** X15 on the stage 0..10 about the mean 5 of a series that stays above it
    but for one point on it, with the three rules on. *)
Lemma ApplyRules_flags_where_a_rule_holds_witness :
  Forall (Rules.stageInData MovingRange.Stage MovingRange.ChartDataPoint
            MovingRange.firstId MovingRange.lastId
            (MovingRange.dataPoints oneSidedViewModel))
    oneSidedStages
  /\ exists flagged,
       MovingRange.ApplyRules oneSidedViewModel oneSidedStages = Returns flagged
       /\ (forall j, In j flagged <->
             exists s, In s oneSidedStages
                       /\ ruleHolds MovingRange.Stage MovingRange.ChartDataPoint
                            MovingRange.firstId MovingRange.lastId MovingRange.uCL
                            MovingRange.lCL MovingRange.mean MovingRange.yValue
                            true true true
                            (MovingRange.dataPoints oneSidedViewModel) s j)
       /\ (forall j, In j flagged ->
             (j < List.length (MovingRange.dataPoints oneSidedViewModel))%nat
             /\ exists s, In s oneSidedStages
                          /\ (MovingRange.firstId s <= j)%nat
                          /\ (j <= MovingRange.lastId s)%nat)
       /\ (true = false -> true = false -> true = false -> flagged = []).
Proof.
  assert (H : Forall (Rules.stageInData MovingRange.Stage MovingRange.ChartDataPoint
                        MovingRange.firstId MovingRange.lastId
                        (MovingRange.dataPoints oneSidedViewModel))
                oneSidedStages).
  { constructor; [|constructor]. intros _. simpl. lia. }
  split; [exact H|].
  exact (ApplyRules_flags_where_a_rule_holds MovingRange.Stage MovingRange.ChartDataPoint
           MovingRange.firstId MovingRange.lastId MovingRange.uCL MovingRange.lCL
           MovingRange.mean MovingRange.yValue true true true
           (MovingRange.dataPoints oneSidedViewModel) oneSidedStages H).
Defined.

Section RuleBounds.

Variables Stage Point : Type.
Variables firstId lastId : Stage -> nat.
Variables uCL lCL mean : Stage -> Q.
Variable yValue : Point -> Q.
Variables runRule1 runRule2 runRule3 : bool.
Variable data : list Point.

Local Abbreviation yAt := (Rules.yAt Point yValue data).
Local Abbreviation rulesAtPoint :=
  (Rules.rulesAtPoint Stage Point uCL lCL mean yValue runRule1 runRule2 runRule3 data).
Local Abbreviation rulesOverPoints :=
  (Rules.rulesOverPoints Stage Point uCL lCL mean yValue runRule1 runRule2 runRule3 data).
Local Abbreviation rulesOverStage :=
  (Rules.rulesOverStage Stage Point firstId lastId uCL lCL mean yValue
     runRule1 runRule2 runRule3 data).
Local Abbreviation rulesOverStages :=
  (Rules.rulesOverStages Stage Point firstId lastId uCL lCL mean yValue
     runRule1 runRule2 runRule3 data).

Local Abbreviation reads := (readsPoint runRule1 runRule2 runRule3).

Lemma yAt_outside (j : nat) : (List.length data <= j)%nat -> yAt j = TypeError.
Proof.
  intro H. unfold Rules.yAt. apply nth_error_None in H. rewrite H. reflexivity.
Qed.

Lemma yAt_modelled (j : nat) : yAt j <> Unmodelled.
Proof. unfold Rules.yAt. destruct (nth_error data j); discriminate. Qed.

Lemma bind_modelled {A B : Type} (c : Outcome A) (k : A -> Outcome B) :
  c <> Unmodelled -> (forall a, k a <> Unmodelled) -> bind c k <> Unmodelled.
Proof. destruct c as [a| |]; simpl; intros Hc Hk; [apply Hk | discriminate | exfalso; apply Hc; reflexivity]. Qed.

Lemma rulesAtPoint_modelled (s : Stage) (j : nat) (st : Rules.RuleState) :
  rulesAtPoint s j st <> Unmodelled.
Proof.
  unfold Rules.rulesAtPoint. apply bind_modelled; [|intro st1; apply bind_modelled].
  - unfold Rules.rule1. destruct runRule1; [|discriminate].
    apply bind_modelled; [apply yAt_modelled | discriminate].
  - unfold Rules.rule2. destruct runRule2; [|discriminate].
    destruct j as [|p]; [discriminate|].
    apply bind_modelled; [apply yAt_modelled | intro y].
    apply bind_modelled; [apply yAt_modelled | discriminate].
  - intro st2. unfold Rules.rule3. destruct runRule3; [|discriminate].
    apply bind_modelled; [apply yAt_modelled | discriminate].
Qed.

Lemma rulesAtPoint_outside (s : Stage) (j : nat) (st : Rules.RuleState) :
  (List.length data <= j)%nat -> reads j -> rulesAtPoint s j st = TypeError.
Proof.
  intros Hj Hr. unfold Rules.rulesAtPoint, Rules.rule1, Rules.rule2, Rules.rule3.
  destruct runRule1; [rewrite (yAt_outside j Hj); reflexivity|]. simpl.
  destruct runRule2.
  - destruct j as [|p].
    + simpl. destruct runRule3; [rewrite (yAt_outside 0 Hj); reflexivity|].
      destruct Hr as [Hr | [Hr | [_ Hr]]]; [discriminate | discriminate | lia].
    + rewrite (yAt_outside (S p) Hj). reflexivity.
  - simpl. destruct runRule3; [rewrite (yAt_outside j Hj); reflexivity|].
    destruct Hr as [Hr | [Hr | [Hr _]]]; discriminate.
Qed.

Lemma rulesOverPoints_outside (s : Stage) :
  forall n a st j,
    (a <= j)%nat -> (j < a + n)%nat -> (List.length data <= j)%nat -> reads j ->
    rulesOverPoints s (seq a n) st = TypeError.
Proof.
  induction n as [|n IH]; intros a st j Haj Hjn Hj Hr; [lia|].
  simpl. destruct (Nat.eq_dec a j) as [-> | Hne].
  - rewrite (rulesAtPoint_outside s j st Hj Hr). reflexivity.
  - destruct (rulesAtPoint s a st) as [st1| |] eqn:E; simpl.
    + apply (IH (S a) st1 j); [lia | lia | exact Hj | exact Hr].
    + reflexivity.
    + exfalso. exact (rulesAtPoint_modelled s a st E).
Qed.

Lemma rulesOverPoints_modelled (s : Stage) (js : list nat) (st : Rules.RuleState) :
  rulesOverPoints s js st <> Unmodelled.
Proof.
  revert st. induction js as [|j js IH]; intro st; simpl; [discriminate|].
  apply bind_modelled; [apply rulesAtPoint_modelled | exact IH].
Qed.

Lemma rulesOverStages_outside (stages : list Stage) (s : Stage) (st : Rules.RuleState) :
  In s stages -> (firstId s <= lastId s)%nat -> (List.length data <= lastId s)%nat ->
  reads (lastId s) ->
  rulesOverStages stages st = TypeError.
Proof.
  intros Hin Hle Hout Hr. revert st.
  induction stages as [|s0 rest IH]; intro st; [destruct Hin|].
  simpl. destruct Hin as [-> | Hin].
  - unfold Rules.rulesOverStage, indexRange.
    assert (Hlt : (lastId s < firstId s + (S (lastId s) - firstId s))%nat) by lia.
    rewrite (rulesOverPoints_outside s _ (firstId s) st (lastId s) Hle Hlt Hout Hr).
    reflexivity.
  - destruct (rulesOverStage s0 st) as [st1| |] eqn:E; simpl.
    + apply (IH Hin).
    + reflexivity.
    + exfalso. unfold Rules.rulesOverStage in E.
      revert E. apply bind_modelled; [apply rulesOverPoints_modelled | discriminate].
Qed.

Lemma rulesOverPoints_rules_off (s : Stage) (js : list nat) (st : Rules.RuleState) :
  runRule1 = false -> runRule2 = false -> runRule3 = false ->
  rulesOverPoints s js st = Returns st.
Proof.
  intros E1 E2 E3. induction js as [|j js IH]; [reflexivity|].
  assert (Hhead : rulesAtPoint s j st = Returns st).
  { unfold Rules.rulesAtPoint, Rules.rule1, Rules.rule2, Rules.rule3.
    rewrite E1, E2, E3. reflexivity. }
  simpl. rewrite Hhead. simpl. exact IH.
Qed.

Lemma rulesOverStages_rules_off (stages : list Stage) :
  runRule1 = false -> runRule2 = false -> runRule3 = false ->
  rulesOverStages stages Rules.initialRuleState = Returns Rules.initialRuleState.
Proof.
  intros E1 E2 E3. induction stages as [|s rest IH]; [reflexivity|].
  simpl. unfold Rules.rulesOverStage.
  rewrite (rulesOverPoints_rules_off s _ Rules.initialRuleState E1 E2 E3). simpl.
  exact IH.
Qed.

End RuleBounds.

(** X16. When a stage of the list reaches beyond the data, [ApplyRules] fails
    with a [TypeError] as soon as a rule that reads the points is on: Rule 1
    or Rule 3, or Rule 2 when the stage ends after point 0.  With the three
    rules off it reads no point and returns without a dot, whatever the
    stages. *)
Theorem ApplyRules_fails_beyond_data :
  forall (Stage Point : Type) (firstId lastId : Stage -> nat) (uCL lCL mean : Stage -> Q)
         (yValue : Point -> Q) (runRule1 runRule2 runRule3 : bool) (data : list Point)
         (stages : list Stage) (s : Stage),
    In s stages ->
    (firstId s <= lastId s)%nat -> (List.length data <= lastId s)%nat ->
    readsPoint runRule1 runRule2 runRule3 (lastId s) ->
    Rules.ApplyRules Stage Point firstId lastId uCL lCL mean yValue
      runRule1 runRule2 runRule3 data stages = TypeError
    /\ Rules.ApplyRules Stage Point firstId lastId uCL lCL mean yValue
         false false false data stages = Returns [].
Proof.
  intros Stage Point firstId lastId uCL lCL mean yValue runRule1 runRule2 runRule3
         data stages s Hin Hle Hout Hr.
  split.
  - unfold Rules.ApplyRules.
    rewrite (rulesOverStages_outside Stage Point firstId lastId uCL lCL mean yValue
               runRule1 runRule2 runRule3 data stages s _ Hin Hle Hout Hr).
    reflexivity.
  - unfold Rules.ApplyRules.
    rewrite (rulesOverStages_rules_off Stage Point firstId lastId uCL lCL mean yValue
               false false false data stages eq_refl eq_refl eq_refl).
    reflexivity.
Qed.

(** X16 on a stage 0..5 over a series of three points, with Rule 1 on. *)
Lemma ApplyRules_fails_beyond_data_witness :
  In (sampleStage 0 5 3 1 5) [sampleStage 0 5 3 1 5]
  /\ (List.length (samplePointsFrom 0 [4; 6; 8]%Z) <= 5)%nat
  /\ MovingRange.ApplyRules (sampleViewModel [4; 6; 8]%Z true false false)
       [sampleStage 0 5 3 1 5] = TypeError
  /\ MovingRange.ApplyRules (sampleViewModel [4; 6; 8]%Z false false false)
       [sampleStage 0 5 3 1 5] = Returns [].
Proof.
  assert (Hin : In (sampleStage 0 5 3 1 5) [sampleStage 0 5 3 1 5]) by (left; reflexivity).
  assert (Hout : (List.length (samplePointsFrom 0 [4; 6; 8]%Z) <= 5)%nat) by (simpl; lia).
  split; [exact Hin|]. split; [exact Hout|].
  exact (ApplyRules_fails_beyond_data MovingRange.Stage MovingRange.ChartDataPoint
           MovingRange.firstId MovingRange.lastId MovingRange.uCL MovingRange.lCL
           MovingRange.mean MovingRange.yValue true false false
           (samplePointsFrom 0 [4; 6; 8]%Z) [sampleStage 0 5 3 1 5] (sampleStage 0 5 3 1 5)
           Hin (Nat.le_0_l 5) Hout (or_introl eq_refl)).
Defined.


(** ** The domains of the axes *)

Lemma toNumber_position (v : PrimitiveValue) :
  isPosition v -> toNumber v = Returns (positionValue v).
Proof. destruct v; simpl; intro H; try destruct H; reflexivity. Qed.

Lemma d3_max_greatest (l : list Q) (m : Q) :
  d3_max l = Some m -> In m l /\ forall x, In x l -> x <= m.
Proof.
  destruct l as [|a rest]; [discriminate|]. simpl. intro H. injection H as <-.
  revert a. induction rest as [|b rest IH]; intro a; simpl.
  - split; [left; reflexivity|]. intros x [<- | []]. apply Qle_refl.
  - destruct (Qltb a b) eqn:E.
    + destruct (IH b) as [Hin Hle]. split.
      * right. exact Hin.
      * intros x [<- | Hx]; [|apply Hle; exact Hx].
        apply Qltb_lt in E. apply Qle_trans with b; [apply Qlt_le_weak; exact E|].
        apply Hle. left. reflexivity.
    + destruct (IH a) as [Hin Hle]. split.
      * destruct Hin as [Hin | Hin]; [left; exact Hin | right; right; exact Hin].
      * intros x [<- | [<- | Hx]].
        -- apply Hle. left. reflexivity.
        -- apply Qltb_ge in E. apply Qle_trans with a; [exact E|].
           apply Hle. left. reflexivity.
        -- apply Hle. right. exact Hx.
Qed.

Lemma d3_min_least (l : list Q) (m : Q) :
  d3_min l = Some m -> In m l /\ forall x, In x l -> m <= x.
Proof.
  destruct l as [|a rest]; [discriminate|]. simpl. intro H. injection H as <-.
  revert a. induction rest as [|b rest IH]; intro a; simpl.
  - split; [left; reflexivity|]. intros x [<- | []]. apply Qle_refl.
  - destruct (Qltb b a) eqn:E.
    + destruct (IH b) as [Hin Hle]. split.
      * right. exact Hin.
      * intros x [<- | Hx]; [|apply Hle; exact Hx].
        apply Qltb_lt in E. apply Qle_trans with b; [|apply Qlt_le_weak; exact E].
        apply Hle. left. reflexivity.
    + destruct (IH a) as [Hin Hle]. split.
      * destruct Hin as [Hin | Hin]; [left; exact Hin | right; right; exact Hin].
      * intros x [<- | [<- | Hx]].
        -- apply Hle. left. reflexivity.
        -- apply Qltb_ge in E. apply Qle_trans with a; [|exact E].
           apply Hle. left. reflexivity.
        -- apply Hle. right. exact Hx.
Qed.

Lemma Math_max_bounds (a b : Q) : a <= Math_max a b /\ b <= Math_max a b.
Proof.
  unfold Math_max. destruct (Qltb a b) eqn:E.
  - apply Qltb_lt in E. split; [apply Qlt_le_weak; exact E | apply Qle_refl].
  - apply Qltb_ge in E. split; [apply Qle_refl | exact E].
Qed.

Lemma Math_min_bounds (a b : Q) : Math_min a b <= a /\ Math_min a b <= b.
Proof.
  unfold Math_min. destruct (Qltb b a) eqn:E.
  - apply Qltb_lt in E. split; [apply Qlt_le_weak; exact E | apply Qle_refl].
  - apply Qltb_ge in E. split; [apply Qle_refl | exact E].
Qed.

Lemma widened_below (y : Q) : (if Qltb y 0 then y * 1.05 else y * 0.95) <= y.
Proof.
  destruct (Qltb y 0) eqn:E.
  - apply Qltb_lt in E. lra.
  - apply Qltb_ge in E. lra.
Qed.

Lemma widened_above (y : Q) : y <= (if Qltb 0 y then y * 1.05 else y * 0.95).
Proof.
  destruct (Qltb 0 y) eqn:E.
  - apply Qltb_lt in E. lra.
  - apply Qltb_ge in E. lra.
Qed.

Lemma minMaxLoop_bounds (Point : Type) (xValue : Point -> PrimitiveValue) :
  forall rest lo hi,
    Forall (fun p => isPosition (xValue p)) rest -> isPosition lo -> isPosition hi ->
    exists lo' hi',
      minMaxLoop Point xValue rest lo hi = Returns (lo', hi')
      /\ positionValue lo' <= positionValue lo
      /\ positionValue hi <= positionValue hi'
      /\ (forall p, In p rest ->
            positionValue lo' <= positionValue (xValue p)
            /\ positionValue (xValue p) <= positionValue hi')
      /\ (lo' = lo \/ exists p, In p rest /\ xValue p = lo')
      /\ (hi' = hi \/ exists p, In p rest /\ xValue p = hi').
Proof.
  induction rest as [|p rest IH]; intros lo hi Hall Hlo Hhi.
  - exists lo, hi. simpl. split; [reflexivity|]. split; [apply Qle_refl|].
    split; [apply Qle_refl|]. split; [intros p []|]. split; left; reflexivity.
  - inversion Hall as [|? ? Hp Hrest]; subst. simpl.
    unfold lessThan, greaterThan.
    rewrite (toNumber_position hi Hhi), (toNumber_position lo Hlo),
      (toNumber_position (xValue p) Hp). simpl.
    set (hi1 := if Qltb (positionValue hi) (positionValue (xValue p))
                then xValue p else hi).
    set (lo1 := if Qltb (positionValue (xValue p)) (positionValue lo)
                then xValue p else lo).
    assert (Hhi1 : isPosition hi1 /\ positionValue hi <= positionValue hi1
                   /\ positionValue (xValue p) <= positionValue hi1
                   /\ (hi1 = hi \/ xValue p = hi1)).
    { unfold hi1. destruct (Qltb (positionValue hi) (positionValue (xValue p))) eqn:E.
      - apply Qltb_lt in E. split; [exact Hp|]. split; [apply Qlt_le_weak; exact E|].
        split; [apply Qle_refl | right; reflexivity].
      - apply Qltb_ge in E. split; [exact Hhi|]. split; [apply Qle_refl|].
        split; [exact E | left; reflexivity]. }
    assert (Hlo1 : isPosition lo1 /\ positionValue lo1 <= positionValue lo
                   /\ positionValue lo1 <= positionValue (xValue p)
                   /\ (lo1 = lo \/ xValue p = lo1)).
    { unfold lo1. destruct (Qltb (positionValue (xValue p)) (positionValue lo)) eqn:E.
      - apply Qltb_lt in E. split; [exact Hp|]. split; [apply Qlt_le_weak; exact E|].
        split; [apply Qle_refl | right; reflexivity].
      - apply Qltb_ge in E. split; [exact Hlo|]. split; [apply Qle_refl|].
        split; [exact E | left; reflexivity]. }
    destruct Hhi1 as (Ph & Hh1 & Hh2 & Hh3). destruct Hlo1 as (Pl & Hl1 & Hl2 & Hl3).
    destruct (IH lo1 hi1 Hrest Pl Ph) as (lo' & hi' & Hrun & A & B & C & D & E).
    exists lo', hi'. split; [exact Hrun|].
    split; [apply Qle_trans with (positionValue lo1); assumption|].
    split; [apply Qle_trans with (positionValue hi1); assumption|].
    split; [|split].
    + intros q [<- | Hq]; [|apply C; exact Hq]. split.
      * apply Qle_trans with (positionValue lo1); assumption.
      * apply Qle_trans with (positionValue hi1); assumption.
    + destruct D as [-> | (q & Hq & Eq)].
      * destruct Hl3 as [-> | Hl3]; [left; reflexivity|].
        right. exists p. split; [left; reflexivity | exact Hl3].
      * right. exists q. split; [right; exact Hq | exact Eq].
    + destruct E as [-> | (q & Hq & Eq)].
      * destruct Hh3 as [-> | Hh3]; [left; reflexivity|].
        right. exists p. split; [left; reflexivity | exact Hh3].
      * right. exists q. split; [right; exact Hq | exact Eq].
Qed.

Lemma GetMinMaxX_spec (Point : Type) (xValue : Point -> PrimitiveValue)
    (isDateRange : bool) (data : list Point) :
  data <> [] ->
  Forall (fun p => isPosition (xValue p)) data ->
  isDateRange = isDate (option_map xValue (nth_error data 0)) ->
  exists lo hi,
    GetMinMaxX Point xValue isDateRange data = Returns (lo, hi)
    /\ (exists p, In p data /\ xValue p = lo)
    /\ (exists p, In p data /\ xValue p = hi)
    /\ forall p, In p data ->
         positionValue lo <= positionValue (xValue p)
         /\ positionValue (xValue p) <= positionValue hi.
Proof.
  intros Hne Hall Hflag.
  destruct data as [|first rest]; [congruence|]. clear Hne.
  pose proof (Forall_inv Hall) as Hfirst. simpl in Hflag, Hfirst.
  assert (Hstart : (if isDateRange then newDate (xValue first)
                    else newNumber (xValue first)) = Returns (xValue first)).
  { subst isDateRange. destruct (xValue first); simpl in *; try destruct Hfirst; reflexivity. }
  unfold GetMinMaxX. rewrite Hstart. simpl bind.
  destruct (minMaxLoop_bounds Point xValue (first :: rest) (xValue first) (xValue first)
              Hall Hfirst Hfirst) as (lo & hi & Hrun & _ & _ & C & D & E).
  exists lo, hi. split; [exact Hrun|]. split; [|split; [|exact C]].
  - destruct D as [-> | D]; [|exact D]. exists first. split; [left|]; reflexivity.
  - destruct E as [-> | E]; [|exact E]. exists first. split; [left|]; reflexivity.
Qed.

(** X17. [GetMinMaxX], on a series that is not empty, whose positions are all
    numbers or dates and whose flag [isDateRange] tells whether the first is
    a date, returns; [minX] and [maxX] are positions of the series, and every
    position of the series lies between them. *)
Theorem GetMinMaxX_bounds :
  forall (Point : Type) (xValue : Point -> PrimitiveValue) (isDateRange : bool)
         (data : list Point),
    data <> [] ->
    Forall (fun p => isPosition (xValue p)) data ->
    isDateRange = isDate (option_map xValue (nth_error data 0)) ->
    exists lo hi,
      GetMinMaxX Point xValue isDateRange data = Returns (lo, hi)
      /\ (exists p, In p data /\ xValue p = lo)
      /\ (exists p, In p data /\ xValue p = hi)
      /\ forall p, In p data ->
           positionValue lo <= positionValue (xValue p)
           /\ positionValue (xValue p) <= positionValue hi.
Proof.
  intros Point xValue isDateRange data Hne Hall Hflag.
  exact (GetMinMaxX_spec Point xValue isDateRange data Hne Hall Hflag).
Qed.

(** X17 on three dated rows that are not in order of date. *)
Lemma GetMinMaxX_bounds_witness :
  datedPoints <> []
  /\ exists lo hi,
       GetMinMaxX MovingRange.ChartDataPoint MovingRange.xValue true datedPoints
       = Returns (lo, hi)
       /\ (exists p, In p datedPoints /\ MovingRange.xValue p = lo)
       /\ (exists p, In p datedPoints /\ MovingRange.xValue p = hi)
       /\ forall p, In p datedPoints ->
            positionValue lo <= positionValue (MovingRange.xValue p)
            /\ positionValue (MovingRange.xValue p) <= positionValue hi.
Proof.
  assert (Hne : datedPoints <> []) by discriminate.
  split; [exact Hne|].
  apply (GetMinMaxX_bounds MovingRange.ChartDataPoint MovingRange.xValue true
           datedPoints Hne).
  - repeat constructor.
  - reflexivity.
Defined.

Lemma sumOf_between (l : list Q) (lo hi : Q) :
  (forall x, In x l -> lo <= x /\ x <= hi) ->
  inject_Z (Z.of_nat (List.length l)) * lo <= sumOf l
  /\ sumOf l <= inject_Z (Z.of_nat (List.length l)) * hi.
Proof.
  induction l as [|y l IH]; intro H.
  - cbn [List.length sumOf fold_right]. change (inject_Z (Z.of_nat 0)) with 0.
    split; lra.
  - destruct (H y (or_introl eq_refl)) as [Hlo Hhi].
    destruct IH as [IHlo IHhi]; [intros x Hx; apply H; right; exact Hx|].
    cbn [List.length sumOf fold_right]. fold (sumOf l).
    rewrite Nat2Z.inj_succ. unfold Z.succ. rewrite inject_Z_plus.
    change (inject_Z 1) with 1. split; lra.
Qed.

Lemma specMean_between (l : list Q) (lo hi : Q) :
  l <> [] -> (forall x, In x l -> lo <= x /\ x <= hi) ->
  lo <= specMean l /\ specMean l <= hi.
Proof.
  intros Hne H. destruct (sumOf_between l lo hi H) as [Hlo Hhi].
  assert (Hn : 0 < inject_Z (Z.of_nat (List.length l))).
  { destruct l as [|y l]; [congruence|]. simpl List.length.
    rewrite <- (Zlt_Qlt 0). lia. }
  unfold specMean. fold (sumOf l). split.
  - apply Qle_shift_div_l; [exact Hn|]. rewrite Qmult_comm. exact Hlo.
  - apply Qle_shift_div_r; [exact Hn|]. rewrite Qmult_comm. exact Hhi.
Qed.

Lemma limitLinesFrom_heights (height : MovingRange.Stage -> Q)
    (stages : list MovingRange.Stage) :
  forall previous,
    map y1 (limitLinesFrom height previous stages)
    = map height (filter (fun s => negb (MovingRange.mRError s)) stages).
Proof.
  induction stages as [|s rest IH]; intro previous; [reflexivity|].
  simpl. rewrite map_app, IH. destruct (MovingRange.mRError s); reflexivity.
Qed.

Lemma d3_max_some (l : list Q) : l <> [] -> exists m, d3_max l = Some m.
Proof. destruct l; [congruence | simpl; eauto]. Qed.

Lemma d3_min_some (l : list Q) : l <> [] -> exists m, d3_min l = Some m.
Proof. destruct l; [congruence | simpl; eauto]. Qed.

Lemma map_not_nil {A B : Type} (f : A -> B) (l : list A) : l <> [] -> map f l <> [].
Proof. destruct l; [congruence | discriminate]. Qed.

(** With data and limit lines, the y domain holds every value of the data,
    every lower limit line from below and every upper limit line from
    above. *)
Lemma CreateAxes_encloses (Point : Type) (xValue : Point -> PrimitiveValue)
    (yValue : Point -> Q) (isDateRange : bool) (data : list Point)
    (uclLines lclLines : list (LimitSegment Q)) :
  data <> [] ->
  Forall (fun p => isPosition (xValue p)) data ->
  isDateRange = isDate (option_map xValue (nth_error data 0)) ->
  uclLines <> [] -> lclLines <> [] ->
  exists d,
    CreateAxes Point xValue yValue isDateRange data uclLines lclLines = Returns d
    /\ (forall p, In p data -> minY d <= yValue p /\ yValue p <= maxY d)
    /\ (forall l, In l lclLines -> minY d <= y1 l)
    /\ (forall l, In l uclLines -> y1 l <= maxY d).
Proof.
  intros Hne Hpos Hflag Hu Hl.
  destruct (GetMinMaxX_spec Point xValue isDateRange data Hne Hpos Hflag)
    as (lo & hi & Hrun & _).
  destruct (d3_max_some (map yValue data) (map_not_nil yValue data Hne)) as [dataMax E1].
  destruct (d3_min_some (map yValue data) (map_not_nil yValue data Hne)) as [dataMin E2].
  destruct (d3_max_some (map y1 uclLines) (map_not_nil y1 uclLines Hu)) as [yMax E3].
  destruct (d3_min_some (map y1 lclLines) (map_not_nil y1 lclLines Hl)) as [yMin E4].
  unfold CreateAxes. rewrite Hrun, E1, E2, E3, E4. simpl bind. cbv zeta.
  eexists. split; [reflexivity|]. simpl minY. simpl maxY.
  destruct (d3_max_greatest _ _ E1) as [_ G1]. destruct (d3_min_least _ _ E2) as [_ G2].
  destruct (d3_max_greatest _ _ E3) as [_ G3]. destruct (d3_min_least _ _ E4) as [_ G4].
  pose proof (widened_below (Math_min dataMin yMin)) as Wlo.
  pose proof (widened_above (Math_max dataMax yMax)) as Whi.
  destruct (Math_min_bounds dataMin yMin) as [M1 M2].
  destruct (Math_max_bounds dataMax yMax) as [M3 M4].
  split; [|split].
  - intros p Hp. pose proof (G1 _ (in_map yValue _ _ Hp)) as A.
    pose proof (G2 _ (in_map yValue _ _ Hp)) as B. split.
    + eapply Qle_trans; [exact Wlo|]. eapply Qle_trans; [exact M1 | exact B].
    + eapply Qle_trans; [exact A|]. eapply Qle_trans; [exact M3 | exact Whi].
  - intros l Hin. pose proof (G4 _ (in_map y1 _ _ Hin)) as B.
    eapply Qle_trans; [exact Wlo|]. eapply Qle_trans; [exact M2 | exact B].
  - intros l Hin. pose proof (G3 _ (in_map y1 _ _ Hin)) as A.
    eapply Qle_trans; [exact A|]. eapply Qle_trans; [exact M4 | exact Whi].
Qed.

(** Without an upper limit line [d3.max] has nothing to return and the y
    domain is no number. *)
Lemma CreateAxes_without_limits (Point : Type) (xValue : Point -> PrimitiveValue)
    (yValue : Point -> Q) (isDateRange : bool) (data : list Point)
    (lclLines : list (LimitSegment Q)) :
  data <> [] ->
  Forall (fun p => isPosition (xValue p)) data ->
  isDateRange = isDate (option_map xValue (nth_error data 0)) ->
  CreateAxes Point xValue yValue isDateRange data [] lclLines = Unmodelled.
Proof.
  intros Hne Hpos Hflag.
  destruct (GetMinMaxX_spec Point xValue isDateRange data Hne Hpos Hflag)
    as (lo & hi & Hrun & _).
  unfold CreateAxes. rewrite Hrun. simpl.
  destruct (d3_max (map yValue data)); [|reflexivity].
  destruct (d3_min (map yValue data)); reflexivity.
Qed.

Lemma stageValues_in_data (data : list MovingRange.ChartDataPoint) (s : MovingRange.Stage)
    (y : Q) :
  In y (stageValues data s) -> exists p, In p data /\ MovingRange.yValue p = y.
Proof.
  unfold stageValues. intro H. apply in_map_iff in H. destruct H as (p & Hy & Hp).
  apply In_slice in Hp. destruct Hp as (j & _ & Hj).
  exists p. split; [apply (nth_error_In _ _ Hj) | exact Hy].
Qed.

Lemma filter_nothing {A : Type} (f : A -> bool) (l : list A) :
  (forall x, In x l -> f x = false) -> filter f l = [].
Proof.
  induction l as [|a l IH]; intro H; [reflexivity|].
  simpl. rewrite (H a (or_introl eq_refl)). apply IH.
  intros x Hx. apply H. right. exact Hx.
Qed.

Lemma GetStages_not_empty (view : DataView) (cat : DataViewCategorical)
    (columns : list DataViewValueColumn) (viewModel : MovingRange.ControlChartViewModel)
    (stages : list MovingRange.Stage) :
  categorical view = Some cat -> values cat = Some columns ->
  MovingRange.GetStages (Some view) viewModel = Returns stages ->
  MovingRange.dataPoints viewModel <> [].
Proof.
  intros Hcat Hval H. unfold MovingRange.GetStages in H. rewrite Hcat, Hval in H.
  apply bind_returns in H. destruct H as [label [_ H]].
  destruct (MovingRange.dataPoints viewModel); [discriminate H | discriminate].
Qed.

(** X18. Moving-range build, window from 2 to 50, positions that are numbers
    or dates and values that are numbers in every row: after [GetStages] and
    [CalcStats], when some stage has its
    limits, [CreateAxes] returns a y domain that holds every value of the
    series, the mean of every stage, and, of every stage that has its limits,
    the lower limit from below and the upper limit from above.  When every
    stage is shorter than the window there is no limit line and the y domain
    is no number. *)
Theorem CreateAxes_domain_holds_the_chart :
  forall (view : DataView) (cat : DataViewCategorical) (columns : list DataViewValueColumn)
         (viewModel : MovingRange.ControlChartViewModel) (stages : list MovingRange.Stage),
    categorical view = Some cat -> values cat = Some columns ->
    MovingRange.GetStages (Some view) viewModel = Returns stages ->
    (2 <= MovingRange.movingRange viewModel <= 50)%Z ->
    Forall (fun p => isPosition (MovingRange.xValue p)) (MovingRange.dataPoints viewModel) ->
    MovingRange.isDateRange viewModel
    = isDate (option_map MovingRange.xValue (nth_error (MovingRange.dataPoints viewModel) 0)) ->
    exists stats,
      MovingRange.CalcStats viewModel stages = Returns stats
      /\ ((exists s, In s (MovingRange.chartStages stats) /\ MovingRange.mRError s = false) ->
          exists d,
            CreateAxes MovingRange.ChartDataPoint MovingRange.xValue MovingRange.yValue
              (MovingRange.isDateRange viewModel) (MovingRange.dataPoints viewModel)
              (MovingRange.uclLines stats) (MovingRange.lclLines stats) = Returns d
            /\ (forall p, In p (MovingRange.dataPoints viewModel) ->
                  minY d <= MovingRange.yValue p /\ MovingRange.yValue p <= maxY d)
            /\ (forall s, In s (MovingRange.chartStages stats) ->
                  minY d <= MovingRange.mean s /\ MovingRange.mean s <= maxY d)
            /\ (forall s, In s (MovingRange.chartStages stats) ->
                  MovingRange.mRError s = false ->
                  minY d <= MovingRange.lCL s /\ MovingRange.uCL s <= maxY d))
      /\ ((forall s, In s (MovingRange.chartStages stats) -> MovingRange.mRError s = true) ->
          CreateAxes MovingRange.ChartDataPoint MovingRange.xValue MovingRange.yValue
            (MovingRange.isDateRange viewModel) (MovingRange.dataPoints viewModel)
            (MovingRange.uclLines stats) (MovingRange.lclLines stats) = Unmodelled).
Proof.
  intros view cat columns viewModel stages Hcat Hval Hget Hmr Hpos Hflag.
  pose proof (GetStages_not_empty view cat columns viewModel stages Hcat Hval Hget) as Hne.
  destruct (GetStages_CalcStats view cat columns viewModel stages Hcat Hval Hget Hmr)
    as (stats & Hstats & Hlim & _ & _).
  destruct (CalcStats_spec viewModel stages stats Hstats) as (_ & _ & Hucl & Hlcl & _).
  exists stats. split; [exact Hstats|]. split.
  - intros (s0 & Hs0 & Es0).
    assert (Hkept : In s0 (filter (fun s => negb (MovingRange.mRError s))
                             (MovingRange.chartStages stats))).
    { apply filter_In. split; [exact Hs0|]. rewrite Es0. reflexivity. }
    assert (Hu : MovingRange.uclLines stats <> []).
    { intro E. pose proof (limitLinesFrom_heights MovingRange.uCL
                             (MovingRange.chartStages stats) None) as Hh.
      rewrite <- Hucl, E in Hh. simpl in Hh. symmetry in Hh.
      apply map_eq_nil in Hh. rewrite Hh in Hkept. destruct Hkept. }
    assert (Hl : MovingRange.lclLines stats <> []).
    { intro E. pose proof (limitLinesFrom_heights MovingRange.lCL
                             (MovingRange.chartStages stats) None) as Hh.
      rewrite <- Hlcl, E in Hh. simpl in Hh. symmetry in Hh.
      apply map_eq_nil in Hh. rewrite Hh in Hkept. destruct Hkept. }
    destruct (CreateAxes_encloses MovingRange.ChartDataPoint MovingRange.xValue
                MovingRange.yValue (MovingRange.isDateRange viewModel)
                (MovingRange.dataPoints viewModel) (MovingRange.uclLines stats)
                (MovingRange.lclLines stats) Hne Hpos Hflag Hu Hl)
      as (d & Hd & Hdata & Hlow & Hup).
    exists d. split; [exact Hd|]. split; [exact Hdata|]. split.
    + intros s' Hs'.
      destruct (Forall2_In_right _ _ _ _ Hlim Hs') as (s & Hs & Hcomp).
      destruct (limitsComputed_frame viewModel s s' Hcomp) as (_ & _ & _ & Emean & _).
      destruct (GetStages_partition view cat columns viewModel stages Hcat Hval Hget)
        as [Hpart Hcount].
      pose proof (partition_wellFormed _ _ Hpart Hcount) as Hwf.
      destruct (GetStages_facts view cat columns viewModel stages Hcat Hval Hget)
        as [Hsum _].
      rewrite Forall_forall in Hwf, Hsum.
      destruct (summarised_mean _ s (Hwf s Hs) (Hsum s Hs)) as (Hlen & _ & Hm).
      assert (Hvals : stageValues (MovingRange.dataPoints viewModel) s <> []).
      { intro E. rewrite E in Hlen. simpl in Hlen.
        destruct (Hwf s Hs) as (A & _ & C). lia. }
      destruct (specMean_between _ (minY d) (maxY d) Hvals) as [B1 B2].
      { intros y Hy. apply stageValues_in_data in Hy. destruct Hy as (p & Hp & <-).
        apply Hdata. exact Hp. }
      rewrite Emean, Hm. split; assumption.
    + intros s' Hs' Es'.
      assert (Hk : In s' (filter (fun s => negb (MovingRange.mRError s))
                            (MovingRange.chartStages stats))).
      { apply filter_In. split; [exact Hs'|]. rewrite Es'. reflexivity. }
      split.
      * assert (Hin : In (MovingRange.lCL s') (map y1 (MovingRange.lclLines stats))).
        { rewrite Hlcl, limitLinesFrom_heights. apply in_map. exact Hk. }
        apply in_map_iff in Hin. destruct Hin as (l & <- & Hin). apply Hlow. exact Hin.
      * assert (Hin : In (MovingRange.uCL s') (map y1 (MovingRange.uclLines stats))).
        { rewrite Hucl, limitLinesFrom_heights. apply in_map. exact Hk. }
        apply in_map_iff in Hin. destruct Hin as (l & <- & Hin). apply Hup. exact Hin.
  - intro Hall.
    assert (Hu : MovingRange.uclLines stats = []).
    { apply (map_eq_nil y1). rewrite Hucl, limitLinesFrom_heights.
      rewrite filter_nothing; [reflexivity|].
      intros s Hs. rewrite (Hall s Hs). reflexivity. }
    rewrite Hu.
    apply CreateAxes_without_limits; assumption.
Qed.

(** X18 on the series 1..6 with the labels A,A,B,A,A,A and the window 2. *)
Lemma CreateAxes_domain_holds_the_chart_witness :
  (2 <= MovingRange.movingRange shortStageViewModel <= 50)%Z
  /\ exists stats,
       MovingRange.CalcStats shortStageViewModel shortStageStages = Returns stats
       /\ exists d,
            CreateAxes MovingRange.ChartDataPoint MovingRange.xValue MovingRange.yValue
              (MovingRange.isDateRange shortStageViewModel)
              (MovingRange.dataPoints shortStageViewModel)
              (MovingRange.uclLines stats) (MovingRange.lclLines stats) = Returns d
            /\ (forall p, In p (MovingRange.dataPoints shortStageViewModel) ->
                  minY d <= MovingRange.yValue p /\ MovingRange.yValue p <= maxY d).
Proof.
  assert (Hmr : (2 <= MovingRange.movingRange shortStageViewModel <= 50)%Z)
    by (simpl; lia).
  split; [exact Hmr|].
  destruct (CreateAxes_domain_holds_the_chart shortStageView _ _ shortStageViewModel
              shortStageStages eq_refl eq_refl eq_refl Hmr)
    as (stats & Hstats & Hsome & _).
  - repeat constructor.
  - reflexivity.
  - exists stats. split; [exact Hstats|].
    destruct Hsome as (d & Hd & Hdata & _).
    + vm_compute in Hstats. injection Hstats as <-.
      eexists. split; [left; reflexivity | reflexivity].
    + exists d. split; [exact Hd | exact Hdata].
Defined.


(** ** From the data view to the dots *)












(** The series 1,2,3 with the single label A: the rows 1 and 2 have no
    label, the second stage has no name, and [update] ends in
    [DrawStageDividers]; with the dividers hidden it returns. *)
Lemma update_fails_on_short_label_column :
  MovingRange.update newMovingRangeChart
    (sampleOptions (numbers [1; 2; 3]%Z) (numbers [1; 2; 3]%Z) (Some (labelled ["A"%string]))
       (sampleObjects None None false false false))
  = TypeError
  /\ exists chart,
       MovingRange.update newMovingRangeChart
         (sampleOptions (numbers [1; 2; 3]%Z) (numbers [1; 2; 3]%Z)
            (Some (labelled ["A"%string]))
            {| obj_standardDeviations := None; obj_movingRange := None;
               obj_useSDSubGroups := None;
               obj_runRule1 := None; obj_runRule2 := None; obj_runRule3 := None;
               obj_showDividers := Some false |})
       = Returns chart
       /\ map MovingRange.stage (MovingRange.chartStages (MovingRange.analysis chart))
          = [Some "A"%string; None].
Proof.
  split; [vm_compute; reflexivity|].
  eexists. split; [vm_compute; reflexivity | reflexivity].
Qed.


(** ** From the data view to the dots, subgroup build *)





(** ** The mean line *)

Lemma meanLinesFrom_joined (stages : list MovingRange.Stage) :
  forall previous,
    chained joined (meanLinesFrom previous stages)
    /\ Forall2 endsAt stages (meanLinesFrom previous stages)
    /\ (forall l rest, meanLinesFrom previous stages = l :: rest ->
          exists s later, stages = s :: later /\ x1 l = lineStart previous s
                          /\ (previous = None -> y1 l = y2 l)).
Proof.
  induction stages as [|s rest IH]; intro previous.
  - simpl. split; [exact I|]. split; [constructor|]. intros l r H. discriminate.
  - destruct (IH (Some s)) as (Hchain & Hends & Hhead).
    cbn [meanLinesFrom]. split; [|split].
    + cbn [chained]. split; [|exact Hchain].
      destruct (meanLinesFrom (Some s) rest) as [|l' r'] eqn:E; [exact I|].
      destruct (Hhead l' r' eq_refl) as (s' & later & _ & Hx & _).
      split; [|cbn [y2]].
      * cbn [x2]. rewrite Hx. reflexivity.
      * destruct rest as [|s'' rest']; [discriminate E|].
        cbn [meanLinesFrom] in E. injection E as <- _. reflexivity.
    + constructor; [split; reflexivity | exact Hends].
    + intros l r H. injection H as <- _. exists s, rest.
      split; [reflexivity|]. split; [reflexivity|]. intros ->. reflexivity.
Qed.

Lemma contiguousFrom_last (l : list (nat * nat)) (a b : nat) :
  forall start next, contiguousFrom start (l ++ [(a, b)]) next -> S b = next.
Proof.
  induction l as [|[a0 b0] l IH]; intros start next H; simpl in H.
  - destruct H as (_ & _ & H). exact H.
  - destruct H as (_ & _ & H). apply (IH _ _ H).
Qed.

(** X21. Moving-range build, window from 2 to 50: the mean line that
    [CalcStats] leaves after [GetStages] is one connected line over the whole
    series.  Its first segment starts at the first position and is level;
    every segment ends at the divider of its stage at the height of the
    stage's mean, and the next segment starts there; the last segment ends at
    the last position. *)
Theorem CalcStats_mean_line_spans_series :
  forall (view : DataView) (cat : DataViewCategorical) (columns : list DataViewValueColumn)
         (viewModel : MovingRange.ControlChartViewModel) (stages : list MovingRange.Stage),
    categorical view = Some cat -> values cat = Some columns ->
    MovingRange.GetStages (Some view) viewModel = Returns stages ->
    (2 <= MovingRange.movingRange viewModel <= 50)%Z ->
    exists stats,
      MovingRange.CalcStats viewModel stages = Returns stats
      /\ chained joined (MovingRange.meanLine stats)
      /\ Forall2 endsAt (MovingRange.chartStages stats) (MovingRange.meanLine stats)
      /\ (exists first rest,
            MovingRange.meanLine stats = first :: rest
            /\ positionAt (MovingRange.dataPoints viewModel) 0 = Some (x1 first)
            /\ y1 first = y2 first)
      /\ (exists front last,
            MovingRange.meanLine stats = front ++ [last]
            /\ positionAt (MovingRange.dataPoints viewModel)
                 (List.length (MovingRange.dataPoints viewModel) - 1) = Some (x2 last)).
Proof.
  intros view cat columns viewModel stages Hcat Hval Hget Hmr.
  destruct (GetStages_CalcStats view cat columns viewModel stages Hcat Hval Hget Hmr)
    as (stats & Hstats & Hlim & _ & _).
  destruct (CalcStats_spec viewModel stages stats Hstats) as (_ & Hmean & _).
  destruct (GetStages_partition view cat columns viewModel stages Hcat Hval Hget)
    as [Hpart _].
  destruct (GetStages_facts view cat columns viewModel stages Hcat Hval Hget)
    as (Hsum & _ & _ & Hlast).
  pose proof (GetStages_not_empty view cat columns viewModel stages Hcat Hval Hget) as Hne.
  exists stats. split; [exact Hstats|].
  remember (MovingRange.chartStages stats) as cs eqn:Ecs.
  remember (MovingRange.meanLine stats) as ml eqn:Eml.
  clear Ecs Eml Hstats. subst ml.
  destruct (meanLinesFrom_joined cs None) as (Hchain & Hends & Hhead).
  split; [exact Hchain|]. split; [exact Hends|].
  assert (Hstages : stages <> []).
  { intro E. subst stages. unfold partitions in Hpart. simpl in Hpart.
    destruct (MovingRange.dataPoints viewModel); [congruence | discriminate]. }
  rewrite Forall_forall in Hsum.
  split.
  - destruct stages as [|s later]; [congruence|].
    destruct cs as [|s' later']; [inversion Hlim|].
    apply Forall2_cons_iff in Hlim. destruct Hlim as [Hs _].
    cbn [meanLinesFrom lineStart]. eexists _, _. split; [reflexivity|].
    cbn [x1 y1 y2]. split; [|reflexivity].
    destruct (limitsComputed_frame viewModel s s' Hs) as (_ & _ & _ & _ & _ & Estart).
    rewrite Estart.
    destruct (Hsum s (or_introl eq_refl)) as (_ & _ & Hfirst & _).
    unfold partitions in Hpart. simpl in Hpart. destruct Hpart as (E0 & _).
    rewrite E0 in Hfirst. exact Hfirst.
  - destruct (exists_last Hstages) as (front & s & Es). subst stages.
    apply Forall2_app_inv_l in Hlim.
    destruct Hlim as (front' & tail' & Hfront & Htail & Estages).
    destruct tail' as [|s' tail'']; [inversion Htail|].
    apply Forall2_cons_iff in Htail. destruct Htail as [Hs Hnil].
    inversion Hnil. subst tail''. subst cs.
    apply Forall2_app_inv_l in Hends.
    destruct Hends as (lfront & ltail & _ & Hltail & Elines).
    destruct ltail as [|last ltail']; [inversion Hltail|].
    apply Forall2_cons_iff in Hltail. destruct Hltail as [Hl Hlnil].
    inversion Hlnil. subst ltail'.
    exists lfront, last. split; [exact Elines|].
    destruct Hl as [Hx _]. rewrite Hx.
    destruct (limitsComputed_frame viewModel s s' Hs) as (_ & _ & _ & _ & Ediv & _).
    rewrite Ediv, (Hlast front s eq_refl).
    destruct (Hsum s) as (_ & _ & _ & Hend); [apply in_or_app; right; left; reflexivity|].
    unfold partitions, rangesOfMovingRange in Hpart. rewrite map_app in Hpart.
    simpl in Hpart. apply contiguousFrom_last in Hpart.
    rewrite <- Hpart. replace (S (MovingRange.lastId s) - 1)%nat
      with (MovingRange.lastId s) by lia.
    exact Hend.
Qed.

(** X21 on the series 1..6 with the labels A,A,B,A,A,A and the window 2. *)
Lemma CalcStats_mean_line_spans_series_witness :
  (2 <= MovingRange.movingRange shortStageViewModel <= 50)%Z
  /\ exists stats,
       MovingRange.CalcStats shortStageViewModel shortStageStages = Returns stats
       /\ chained joined (MovingRange.meanLine stats)
       /\ List.length (MovingRange.meanLine stats) = 3%nat.
Proof.
  assert (Hmr : (2 <= MovingRange.movingRange shortStageViewModel <= 50)%Z)
    by (simpl; lia).
  split; [exact Hmr|].
  destruct (CalcStats_mean_line_spans_series shortStageView _ _ shortStageViewModel
              shortStageStages eq_refl eq_refl eq_refl Hmr)
    as (stats & Hstats & Hchain & _).
  exists stats. split; [exact Hstats|]. split; [exact Hchain|].
  vm_compute in Hstats. injection Hstats as <-. reflexivity.
Defined.

(** ** The lines of the subgroup build *)

Lemma meanLinesFromSD_joined (stages : list SubgroupSD.Stage) :
  forall previous,
    chained joined (meanLinesFromSD previous stages)
    /\ Forall2 endsAtSD stages (meanLinesFromSD previous stages).
Proof.
  induction stages as [|s rest IH]; intro previous.
  - simpl. split; [exact I | constructor].
  - destruct (IH (Some s)) as (Hchain & Hends).
    cbn [meanLinesFromSD]. split.
    + cbn [chained]. split; [|exact Hchain].
      destruct rest as [|s' rest']; [exact I|].
      cbn [meanLinesFromSD lineStartSD]. split; reflexivity.
    + constructor; [split; reflexivity | exact Hends].
Qed.

Lemma Forall3_app {A B C : Type} (R : A -> B -> C -> Prop)
    (la la' : list A) (lb lb' : list B) (lc lc' : list C) :
  Forall3 R la lb lc -> Forall3 R la' lb' lc' ->
  Forall3 R (la ++ la') (lb ++ lb') (lc ++ lc').
Proof.
  induction 1 as [|a b c la lb lc Habc _ IH]; intro H'; [exact H'|].
  simpl. constructor; [exact Habc | apply IH; exact H'].
Qed.

(** The second pass of [CalcStats]: the stages keep their places, and every
    stage gets a segment of the mean line and, over the same stretch, a level
    segment of each limit line. *)
Lemma limitsLoop_lines (Math_sqrt : Q -> Q) (numsds : Q) (sdTotal : bool)
    (groups : list SubgroupSD.SubGroup) :
  forall rest previous acc out,
    SubgroupSD.limitsLoop Math_sqrt numsds sdTotal groups previous rest acc = Returns out ->
    exists rest' upper lower,
      SubgroupSD.chartStages out = SubgroupSD.chartStages acc ++ rest'
      /\ Forall2 placedSD rest rest'
      /\ SubgroupSD.meanLine out
         = SubgroupSD.meanLine acc ++ meanLinesFromSD previous rest'
      /\ SubgroupSD.uclLines out = SubgroupSD.uclLines acc ++ upper
      /\ SubgroupSD.lclLines out = SubgroupSD.lclLines acc ++ lower
      /\ Forall3 (levelAlong SubgroupSD.uCL) rest' (meanLinesFromSD previous rest') upper
      /\ Forall3 (levelAlong SubgroupSD.lCL) rest' (meanLinesFromSD previous rest') lower.
Proof.
  induction rest as [|s rest IH]; intros previous acc out H; cbn [SubgroupSD.limitsLoop] in H.
  - inversion H. exists [], [], []. simpl. rewrite !app_nil_r.
    repeat split; constructor.
  - apply bind_returns in H. destruct H as [triple [_ H]]. cbv zeta in H.
    apply IH in H.
    destruct H as (rest' & upper & lower & HC & HP & HM & HU & HL & FU & FL).
    unfold SubgroupSD.pushLines in HC, HM, HU, HL.
    cbn [SubgroupSD.chartStages SubgroupSD.meanLine SubgroupSD.uclLines
         SubgroupSD.lclLines] in HC, HM, HU, HL.
    rewrite <- app_assoc in HC, HM, HU, HL.
    eexists (_ :: rest'), (_ :: upper), (_ :: lower).
    split; [exact HC|]. split; [constructor; [split; reflexivity | exact HP]|].
    split; [exact HM|]. split; [exact HU|]. split; [exact HL|].
    split; constructor; try assumption; repeat split.
Qed.

Lemma deviationsLoop_placed (data : list SubgroupSD.ChartDataPoint) (sdTotal : bool) :
  forall rest groups result,
    SubgroupSD.deviationsLoop data sdTotal rest groups = Returns result ->
    Forall2 placedSD rest (fst result).
Proof.
  induction rest as [|s rest IH]; intros groups result H; cbn [SubgroupSD.deviationsLoop] in H.
  - inversion H. constructor.
  - apply bind_returns in H. destruct H as [located [Hloc H]].
    apply bind_returns in H. destruct H as [squares [_ H]].
    apply bind_returns in H. destruct H as [later [Hlater H]].
    inversion H. subst result. clear H. cbn [fst]. constructor; [|apply (IH _ _ Hlater)].
    destruct sdTotal.
    + destruct (SubgroupSD.findIndexByKeyValue groups (SubgroupSD.stage s)) as [index|];
        [|discriminate].
      destruct (nth_error groups index) as [g|]; [|discriminate].
      inversion Hloc. subst located. split; reflexivity.
    + inversion Hloc. subst located. split; reflexivity.
Qed.

Lemma CalcStatsSD_lines (Math_sqrt : Q -> Q) (viewModel : SubgroupSD.ControlChartViewModel)
    (numsds : Q) (stages : list SubgroupSD.Stage) (stats : SubgroupSD.Stats) :
  SubgroupSD.CalcStats Math_sqrt viewModel numsds stages = Returns stats ->
  Forall2 placedSD stages (SubgroupSD.chartStages stats)
  /\ SubgroupSD.meanLine stats = meanLinesFromSD None (SubgroupSD.chartStages stats)
  /\ Forall3 (levelAlong SubgroupSD.uCL) (SubgroupSD.chartStages stats)
       (SubgroupSD.meanLine stats) (SubgroupSD.uclLines stats)
  /\ Forall3 (levelAlong SubgroupSD.lCL) (SubgroupSD.chartStages stats)
       (SubgroupSD.meanLine stats) (SubgroupSD.lclLines stats).
Proof.
  intro H. unfold SubgroupSD.CalcStats in H.
  apply bind_returns in H. destruct H as [groups [_ H]].
  apply bind_returns in H. destruct H as [first [Hfirst H]].
  apply deviationsLoop_placed in Hfirst.
  apply limitsLoop_lines in H.
  destruct H as (rest' & upper & lower & HC & HP & HM & HU & HL & FU & FL).
  simpl in HC, HM, HU, HL. subst rest'. rewrite HM, HU, HL.
  split; [|split; [reflexivity | split; assumption]].
  eapply Forall2_trans; [|exact Hfirst | exact HP].
  intros a b c [A1 A2] [B1 B2]. split; congruence.
Qed.

(** X22. Subgroup build, for a series that is not empty, with positions
    that are numbers or dates, a string label for every row and, when stages
    of one name are pooled, no label that is a property every object
    inherits: after [GetStages], [CalcStats] returns and leaves a mean line
    that is one connected line over the whole series (the first segment
    starts at the first position and is level, every segment ends at the
    divider of its stage at the height of the stage's mean, the last ends at
    the last position), and for every stage a level segment of the upper and
    of the lower limit line over the stretch of its segment of the mean
    line. *)
Theorem CalcStatsSD_lines_span_series :
  forall (Math_sqrt : Q -> Q) (numsds : Q) (view : DataView) (cat : DataViewCategorical)
         (columns : list DataViewValueColumn) (labels : list PrimitiveValue)
         (viewModel : SubgroupSD.ControlChartViewModel),
    categorical view = Some cat -> values cat = Some columns ->
    categories cat <> None ->
    labelColumnSD columns = Some labels ->
    SubgroupSD.dataPoints viewModel <> [] ->
    Forall (fun p => isPosition (SubgroupSD.xValue p)) (SubgroupSD.dataPoints viewModel) ->
    Forall isLabel labels ->
    ((List.length columns =? 1) = false ->
     (List.length (SubgroupSD.dataPoints viewModel) <= List.length labels)%nat) ->
    (SubgroupSD.useSDSubGroups viewModel = true ->
     forall name, In (PString name) labels -> ~ In name SubgroupSD.inheritedKeys) ->
    exists stages stats,
      SubgroupSD.GetStages (Some view) viewModel = Returns stages
      /\ SubgroupSD.CalcStats Math_sqrt viewModel numsds stages = Returns stats
      /\ chained joined (SubgroupSD.meanLine stats)
      /\ Forall2 endsAtSD (SubgroupSD.chartStages stats) (SubgroupSD.meanLine stats)
      /\ (exists first rest,
            SubgroupSD.meanLine stats = first :: rest
            /\ positionAtSD (SubgroupSD.dataPoints viewModel) 0 = Some (x1 first)
            /\ y1 first = y2 first)
      /\ (exists front last,
            SubgroupSD.meanLine stats = front ++ [last]
            /\ positionAtSD (SubgroupSD.dataPoints viewModel)
                 (List.length (SubgroupSD.dataPoints viewModel) - 1) = Some (x2 last))
      /\ Forall3 (levelAlong SubgroupSD.uCL) (SubgroupSD.chartStages stats)
           (SubgroupSD.meanLine stats) (SubgroupSD.uclLines stats)
      /\ Forall3 (levelAlong SubgroupSD.lCL) (SubgroupSD.chartStages stats)
           (SubgroupSD.meanLine stats) (SubgroupSD.lclLines stats).
Proof.
  intros Math_sqrt numsds view cat columns labels viewModel
         Hcat Hval Hcats Hcol Hne Hpos Hlab Hlong Hkeys.
  destruct (GetStagesSD_returns view cat columns labels viewModel
              Hcat Hval Hcats Hcol Hne Hpos Hlab Hlong) as [stages Hget].
  destruct (GetStagesSD_partition view cat columns viewModel stages Hcat Hval Hget)
    as [Hpart Hcount].
  pose proof (GetStagesSD_names view cat columns labels viewModel stages
                Hcat Hval Hcol Hget) as Hnames.
  destruct (CalcStatsSD_returns Math_sqrt viewModel numsds stages) as [stats Hstats].
  { apply partition_wellFormedSD; assumption. }
  { intro E. rewrite Forall_forall in *. intros s Hs. specialize (Hnames s Hs).
    unfold nameFrom in Hnames. destruct (List.length columns =? 1).
    - rewrite Hnames. exact empty_name_not_inherited.
    - apply (Hkeys E). exact Hnames. }
  destruct (GetStagesSD_facts view cat columns labels viewModel stages Hcat Hval Hcol Hget)
    as (Hsum & _ & _ & Hlast).
  destruct (CalcStatsSD_lines Math_sqrt viewModel numsds stages stats Hstats)
    as (Hplaced & Hmean & HU & HL).
  exists stages, stats. split; [exact Hget|]. split; [exact Hstats|].
  remember (SubgroupSD.chartStages stats) as cs eqn:Ecs.
  remember (SubgroupSD.meanLine stats) as ml eqn:Eml.
  clear Ecs Eml Hstats. subst ml.
  destruct (meanLinesFromSD_joined cs None) as (Hchain & Hends).
  split; [exact Hchain|]. split; [exact Hends|].
  assert (Hstages : stages <> []).
  { intro E. subst stages. unfold partitions in Hpart. simpl in Hpart.
    destruct (SubgroupSD.dataPoints viewModel); [congruence | discriminate]. }
  rewrite Forall_forall in Hsum.
  split; [|split; [|split; assumption]].
  - destruct stages as [|s later]; [congruence|].
    destruct cs as [|s' later']; [inversion Hplaced|].
    apply Forall2_cons_iff in Hplaced. destruct Hplaced as [[Estart _] _].
    cbn [meanLinesFromSD lineStartSD]. eexists _, _. split; [reflexivity|].
    cbn [x1 y1 y2]. split; [|reflexivity]. rewrite Estart.
    destruct (Hsum s (or_introl eq_refl)) as (_ & _ & Hfirst & _).
    unfold partitions in Hpart. simpl in Hpart. destruct Hpart as (E0 & _).
    rewrite E0 in Hfirst. exact Hfirst.
  - destruct (exists_last Hstages) as (front & s & Es). subst stages.
    apply Forall2_app_inv_l in Hplaced.
    destruct Hplaced as (front' & tail' & Hfront & Htail & Estages).
    destruct tail' as [|s' tail'']; [inversion Htail|].
    apply Forall2_cons_iff in Htail. destruct Htail as [[_ Ediv] Hnil].
    inversion Hnil. subst tail''. subst cs.
    apply Forall2_app_inv_l in Hends.
    destruct Hends as (lfront & ltail & _ & Hltail & Elines).
    destruct ltail as [|last ltail']; [inversion Hltail|].
    apply Forall2_cons_iff in Hltail. destruct Hltail as [Hl Hlnil].
    inversion Hlnil. subst ltail'.
    exists lfront, last. split; [exact Elines|].
    destruct Hl as [Hx _]. rewrite Hx, Ediv, (Hlast front s eq_refl).
    destruct (Hsum s) as (_ & _ & _ & Hend); [apply in_or_app; right; left; reflexivity|].
    unfold partitions, rangesOfSubgroupSD in Hpart. rewrite map_app in Hpart.
    simpl in Hpart. apply contiguousFrom_last in Hpart.
    rewrite <- Hpart. replace (S (SubgroupSD.lastId s) - 1)%nat
      with (SubgroupSD.lastId s) by lia.
    exact Hend.
Qed.

(** X22 on the series 1,2,3 with the labels A,B,A. *)
Lemma CalcStatsSD_lines_span_series_witness :
  SubgroupSD.dataPoints recurringLabelViewModel <> []
  /\ forall Math_sqrt : Q -> Q,
     exists stages stats,
       SubgroupSD.GetStages (Some recurringLabelView) recurringLabelViewModel
       = Returns stages
       /\ SubgroupSD.CalcStats Math_sqrt recurringLabelViewModel 3 stages = Returns stats
       /\ chained joined (SubgroupSD.meanLine stats)
       /\ Forall2 endsAtSD (SubgroupSD.chartStages stats) (SubgroupSD.meanLine stats).
Proof.
  assert (Hne : SubgroupSD.dataPoints recurringLabelViewModel <> []) by discriminate.
  split; [exact Hne|]. intro Math_sqrt.
  destruct (CalcStatsSD_lines_span_series Math_sqrt 3 recurringLabelView _ _
              (labelled ["A"; "B"; "A"]%string) recurringLabelViewModel
              eq_refl eq_refl)
    as (stages & stats & H1 & H2 & H3 & H4 & _).
  - discriminate.
  - reflexivity.
  - exact Hne.
  - repeat constructor.
  - repeat constructor.
  - intros _. simpl. lia.
  - intros _ name Hin. simpl in Hin.
    destruct Hin as [E | [E | [E | []]]]; inversion E; subst name;
      unfold SubgroupSD.inheritedKeys; simpl; intuition discriminate.
  - exists stages, stats. split; [exact H1|]. split; [exact H2|].
    split; [exact H3 | exact H4].
Defined.


(** ** From the data view to the dots, subgroup build: the run of [update] *)







(** Two runs of [update] that leave the model at the limit lines: the series
    1,2,3 with the labels A,B,A and the default settings, where the stage B
    has one row, and the single row 5 at the position 1. *)
Lemma updateSD_one_row_stage_outside_model (Math_sqrt : Q -> Q) :
  SubgroupSD.update Math_sqrt newSubgroupChart recurringLabelOptions = Unmodelled
  /\ SubgroupSD.update Math_sqrt newSubgroupChart
       (sampleOptions [PNumber 1] [PNumber 5] None
          (sampleObjects None None false false false))
     = Unmodelled.
Proof.
  split; vm_compute; reflexivity.
Qed.
